(** * Kodachi plug-in glue: a shallow embedding of its bookkeeping code

    The development follows the Python sources of the repository:
    - [Helper]     : SuperTools/DreamGaffer/Helper.py
    - the remaining modules are introduced where they are defined.

    Python dictionaries are finite maps ([gmap]), Python lists are lists,
    Python strings are [string]s, non-negative Python ints are [nat]. *)

From Stdlib Require Import Ascii Qcanon.
From stdpp Require Import gmap strings list fin_maps pretty sorting.

Local Open Scope string_scope.
Local Open Scope stdpp_scope.
Local Open Scope nat_scope.
Local Open Scope list_scope.

#[local] Set Warnings "-register-all".

(** ** Python exceptions

    Code that can raise returns [inl e]; code that mutates objects before
    raising returns the mutated state together with the exception.
    [Diverges] is no exception of Python: it is what a loop yields that
    has neither returned nor raised when the iterations it was given are
    used up. *)
Module Py.

Inductive exn : Type :=
  | KeyError
  | IndexError
  | NameError
  | AttributeError
  | TypeError
  | RecursionError
  | Diverges
  | Exception (msg : string).

Definition result (A : Type) : Type := (exn + A)%type.

Definition bind {A B : Type} (m : result A) (k : A → result B) : result B :=
  match m with
  | inl e => inl e
  | inr a => k a
  end.

(** [d[k]] on a dict. *)
Definition getitem {V : Type} (d : gmap string V) (k : string) : result V :=
  match d !! k with
  | Some v => inr v
  | None => inl KeyError
  end.

End Py.

Notation "x ←! m ; k" := (Py.bind m (λ x, k))
  (at level 20, m at level 100, k at level 200, only parsing).

Notation "' pat ←! m ; k" := (Py.bind m (λ pat, k))
  (at level 20, pat pattern, m at level 100, k at level 200, only parsing).

(** Methods that mutate objects: a state transformer that may raise.  The
    state reached when an exception is raised is kept, as in Python. *)
Module PyM.

Definition M (S A : Type) : Type := S → S * Py.result A.

Definition ret {S A : Type} (a : A) : M S A := λ s, (s, inr a).

Definition raise {S A : Type} (e : Py.exn) : M S A := λ s, (s, inl e).

Definition bind {S A B : Type} (m : M S A) (k : A → M S B) : M S B :=
  λ s, match m s with
       | (s', inr a) => k a s'
       | (s', inl e) => (s', inl e)
       end.

Definition get {S : Type} : M S S := λ s, (s, inr s).

Definition gets {S A : Type} (f : S → A) : M S A := λ s, (s, inr (f s)).

Definition modify {S : Type} (f : S → S) : M S unit := λ s, (f s, inr tt).

Definition lift {S A : Type} (r : Py.result A) : M S A := λ s, (s, r).

(** [try: m  except: traceback.print_exc()] *)
Definition try_except {S : Type} (m : M S unit) : M S unit :=
  λ s, ((m s).1, inr tt).

(** [for x in l: body(x)] *)
Fixpoint for_each {S A : Type} (l : list A) (body : A → M S unit)
    : M S unit :=
  match l with
  | [] => ret tt
  | x :: l' => bind (body x) (λ _, for_each l' body)
  end.

(** [if c: m] *)
Definition when {S : Type} (c : bool) (m : M S unit) : M S unit :=
  if c then m else ret tt.

End PyM.

(** [x <- m;; k] binds the result of [m]; [m;; k] (stdpp's notation, through
    the instance below) runs [m] for its effect. *)
Global Instance PyM_bind {S : Type} : MBind (PyM.M S) :=
  λ A B k m, PyM.bind m k.

Notation "x <- m ;; k" := (PyM.bind m (λ x, k))
  (at level 20, m at level 99, k at level 200, only parsing).

Notation "' pat <- m ;; k" := (PyM.bind m (λ pat, k))
  (at level 20, pat pattern, m at level 99, k at level 200, only parsing).

(** ** Python string and path functions *)
Module PyString.

(** [s.startswith(prefix)] *)
Fixpoint startswith (s prefix : string) : bool :=
  match prefix, s with
  | "", _ => true
  | String p prefix', String c s' => Ascii.eqb p c && startswith s' prefix'
  | String _ _, "" => false
  end.

(** [s.split(sep)] for a one-character separator. *)
Fixpoint split (sep : ascii) (s : string) : list string :=
  match s with
  | "" => [""]
  | String c s' =>
      if Ascii.eqb c sep then "" :: split sep s'
      else match split sep s' with
           | [] => [String c ""]
           | w :: ws => String c w :: ws
           end
  end.

(** [sep.join(words)] *)
Fixpoint join (sep : string) (words : list string) : string :=
  match words with
  | [] => ""
  | [w] => w
  | w :: words' => w +:+ sep +:+ join sep words'
  end.

(** [s.rstrip('/')] *)
Fixpoint rstrip_slash (s : string) : string :=
  match s with
  | "" => ""
  | String c s' =>
      let r := rstrip_slash s' in
      if decide (r = "") then
        if Ascii.eqb c "/"%char then "" else String c ""
      else String c r
  end.

(** [(p[:i], p[i:])] for [i = p.rfind('/') + 1]. *)
Fixpoint rsplit_slash (p : string) : string * string :=
  match p with
  | "" => ("", "")
  | String c p' =>
      let '(head, tail) := rsplit_slash p' in
      if decide (head = "") then
        if Ascii.eqb c "/"%char then (String c "", p')
        else ("", String c tail)
      else (String c head, tail)
  end.

(** [os.path.dirname(p)] (posixpath): the head up to the last slash, with
    trailing slashes stripped unless it consists of slashes only. *)
Definition dirname (p : string) : string :=
  let head := (rsplit_slash p).1 in
  if decide (rstrip_slash head = "") then head else rstrip_slash head.

(** [os.path.basename(p)] *)
Definition basename (p : string) : string := (rsplit_slash p).2.

(** The longest common prefix of two strings. *)
Fixpoint commonprefix2 (a b : string) : string :=
  match a, b with
  | String x a', String y b' =>
      if Ascii.eqb x y then String x (commonprefix2 a' b') else ""
  | _, _ => ""
  end.

(** [os.path.commonprefix(m)]: character-wise. *)
Definition commonprefix (m : list string) : string :=
  match m with
  | [] => ""
  | s :: m' => foldl commonprefix2 s m'
  end.

(** The components of a relative path, as [os.path.normpath] keeps them:
    empty components and [.] are dropped. *)
Definition components (p : string) : list string :=
  filter (λ c, c ≠ "" ∧ c ≠ ".") (split "/"%char p).

Fixpoint dropCommon (a b : list string) : list string * list string :=
  match a, b with
  | x :: a', y :: b' => if decide (x = y) then dropCommon a' b' else (a, b)
  | _, _ => (a, b)
  end.

(** [os.path.relpath(path, start)] for relative paths that hold no [..]
    component, where the working directory both are resolved against
    cancels out. *)
Definition relpath (path start : string) : string :=
  let '(rest, up) := dropCommon (components path) (components start) in
  match (replicate (List.length up) ".." ++ rest)%list with
  | [] => "."
  | rel => join "/" rel
  end.

End PyString.

(** ** Helper.py *)
Module Helper.

(** [str(i)] for a non-negative int: its decimal rendering. *)
Definition str (i : nat) : string := pretty i.

(** The candidate tried at iteration [i] of [getUnusedName]'s loop:
    [basename] before the first iteration, [basename + str(i)] afterwards. *)
Definition candidate (basename : string) (i : nat) : string :=
  match i with
  | 0 => basename
  | S _ => basename +:+ str i
  end.

(** [while (name in children): i = i + 1; name = basename + str(i)].
    [fuel] bounds the number of iterations still allowed. *)
Fixpoint getUnusedName_loop (fuel : nat) (basename : string)
    (children : list string) (i : nat) (name : string) : option string :=
  if bool_decide (name ∈ children) then
    match fuel with
    | 0 => None
    | S fuel' =>
        getUnusedName_loop fuel' basename children (i + 1)
          (basename +:+ str (i + 1))
    end
  else Some name.

(** [def getUnusedName(basename, children)]: [i = 0; name = basename],
    then the loop, then [return name].  The loop body can run at most
    [len(children)] times (see [getUnusedName_loop_total]). *)
Definition getUnusedName (basename : string) (children : list string)
    : option string :=
  getUnusedName_loop (length children) basename children 0 basename.

End Helper.

(** ** Attributes and group builders

    Modelled from the spec: the attribute-group is "the host's hierarchical,
    typed ... key/value tree"; its implementation ([FnAttribute] of the
    host, [kodachi.GroupBuilder] of the native library) is not part of the
    Python sources.  A group is kept as the list of its named children in
    insertion order; numbers carried by a [FloatAttribute] are never
    computed with, they are only copied. *)
Module FnAttribute.

Inductive Attribute : Type :=
  | IntAttribute (v : Z)
  | FloatAttribute (v : Qc)
  | StringAttribute (v : string)
  | StringArrayAttribute (vs : list string)
  | GroupAttribute (children : list (string * Attribute)).

(** [a == b] on attributes. *)
Fixpoint Attribute_eqb (a b : Attribute) : bool :=
  match a, b with
  | IntAttribute v, IntAttribute w => bool_decide (v = w)
  | FloatAttribute v, FloatAttribute w => bool_decide (v = w)
  | StringAttribute v, StringAttribute w => bool_decide (v = w)
  | StringArrayAttribute v, StringArrayAttribute w => bool_decide (v = w)
  | GroupAttribute cs, GroupAttribute ds =>
      (fix go (cs ds : list (string * Attribute)) : bool :=
         match cs, ds with
         | [], [] => true
         | (n, c) :: cs', (m, d) :: ds' =>
             bool_decide (n = m) && Attribute_eqb c d && go cs' ds'
         | _, _ => false
         end) cs ds
  | _, _ => false
  end.

(** [name.split('.')]: a child name with dots is a path into nested
    groups. *)
Definition split_dot (name : string) : list string :=
  PyString.split "."%char name.

(** The direct child of that name. *)
Fixpoint child (children : list (string * Attribute)) (name : string)
    : option Attribute :=
  match children with
  | [] => None
  | (n, a) :: children' =>
      if decide (n = name) then Some a else child children' name
  end.

(** Replaces the direct child of that name, or appends it. *)
Fixpoint setChild (children : list (string * Attribute)) (name : string)
    (attr : Attribute) : list (string * Attribute) :=
  match children with
  | [] => [(name, attr)]
  | (n, a) :: children' =>
      if decide (n = name) then (name, attr) :: children'
      else (n, a) :: setChild children' name attr
  end.

Fixpoint setPath (children : list (string * Attribute)) (path : list string)
    (attr : Attribute) : list (string * Attribute) :=
  match path with
  | [] => children
  | [name] => setChild children name attr
  | name :: path' =>
      let sub := match child children name with
                 | Some (GroupAttribute sub) => sub
                 | _ => []
                 end in
      setChild children name (GroupAttribute (setPath sub path' attr))
  end.

Fixpoint getPath (children : list (string * Attribute)) (path : list string)
    : option Attribute :=
  match path with
  | [] => None
  | [name] => child children name
  | name :: path' =>
      match child children name with
      | Some (GroupAttribute sub) => getPath sub path'
      | _ => None
      end
  end.

(** A [GroupBuilder] holds the children set so far. *)
Definition GroupBuilder : Type := list (string * Attribute).

Definition GroupBuilder_new : GroupBuilder := [].

(** [gb.set(name, attr)] *)
Definition set (gb : GroupBuilder) (name : string) (attr : Attribute)
    : GroupBuilder :=
  setPath gb (split_dot name) attr.

(** [gb.delete(name)]. *)
Definition delete (gb : GroupBuilder) (name : string) : GroupBuilder :=
  filter (λ na, na.1 ≠ name) gb.

(** [gb.update(group)]: sets every child of [group] in the builder. *)
Definition update (gb : GroupBuilder) (children : list (string * Attribute))
    : GroupBuilder :=
  foldl (λ acc na, set acc na.1 na.2) gb children.

(** [gb.build()]: the default build mode returns the group and flushes
    the builder. *)
Definition build (gb : GroupBuilder) : Attribute * GroupBuilder :=
  (GroupAttribute gb, GroupBuilder_new).

(** [group.getChildByName(name)]: [None] when there is no such child. *)
Definition getChildByName (children : list (string * Attribute))
    (name : string) : option Attribute :=
  getPath children (split_dot name).

(** [group.getNumberOfChildren()]; a non-group attribute has none. *)
Definition getNumberOfChildren (a : Attribute) : nat :=
  match a with
  | GroupAttribute children => length children
  | _ => 0
  end.

(** [gb.setWithUniqueName(name, attr)]: "a suffix is chosen that makes the
    path unique"; the first of [name], [name1], [name2], ... that is not
    yet a child is taken, so an existing child is never replaced. *)
Definition uniqueName (gb : GroupBuilder) (name : string) : string :=
  default name (Helper.getUnusedName name gb.*1).

Definition setWithUniqueName (gb : GroupBuilder) (name : string)
    (attr : Attribute) : GroupBuilder :=
  (gb ++ [(uniqueName gb name, attr)])%list.

End FnAttribute.

(** ** Node-type registrars

    [Nodes3DAPI.NodeTypeBuilder.BuildChainInterface] is the host object a
    [buildOpChain] callback receives: [addOpSystemArgs(gb)] sets the graph
    state's system op args as the child [system] of the builder, and
    [appendOp(opType, opArgs)] appends an op to the chain being built. *)
Module NodeTypeBuilder.
Import FnAttribute.

Record BuildChainInterface : Type := {
  systemOpArgs : Attribute;
  ops : list (string * Attribute)
}.

Definition addOpSystemArgs (interface : BuildChainInterface)
    (gb : GroupBuilder) : GroupBuilder :=
  set gb "system" (systemOpArgs interface).

Definition appendOp (interface : BuildChainInterface) (opType : string)
    (opArgs : Attribute) : BuildChainInterface :=
  {| systemOpArgs := systemOpArgs interface;
     ops := ops interface ++ [(opType, opArgs)] |}.

End NodeTypeBuilder.

(** Ops/PruneByFrustum/RegisterPruneByFrustum.py *)
Module RegisterPruneByFrustum.
Import FnAttribute NodeTypeBuilder.

(** The values [node.getParameter(name).getValue(0)] of a PruneByFrustum
    node: string parameters hold strings, number parameters numbers. *)
Record Node : Type := {
  camera_location : string;
  CEL : string;
  invert : Z;
  method : string;
  executionMode : string;
  prune_primitives : Z;
  padding : Qc
}.

Definition methods : gmap string string :=
  {[ "intersect" := "intersect";
     "contains center" := "contains center";
     "contains all" := "contains all" ]}.

Definition executionModes : gmap string string :=
  {[ "immediate" := "immediate"; "deferred" := "deferred" ]}.

Definition buildPruneByFrustumOpChain (node : Node)
    (interface : BuildChainInterface) : Py.result BuildChainInterface :=
  let camLocationValue := camera_location node in
  let CEL := CEL node in
  methodType ←! Py.getitem methods (method node);
  executionType ←! Py.getitem executionModes (executionMode node);
  let prunePrimitives := prune_primitives node in
  let padding := padding node in
  let gb := GroupBuilder_new in
  let gb := addOpSystemArgs interface gb in
  let gb := set gb "cameraLocation" (StringAttribute camLocationValue) in
  let gb := set gb "CEL" (StringAttribute CEL) in
  let gb := set gb "method" (StringAttribute methodType) in
  let gb := set gb "executionMode" (StringAttribute executionType) in
  let gb := set gb "prune_primitives" (IntAttribute prunePrimitives) in
  let gb := set gb "padding" (FloatAttribute padding) in
  let gb := set gb "invert" (IntAttribute (invert node)) in
  inr (appendOp interface "PruneByFrustum" (build gb).1).

End RegisterPruneByFrustum.

(** Ops/DeferredPrune/RegisterDeferredPrune.py *)
Module RegisterDeferredPrune.
Import FnAttribute NodeTypeBuilder.

Record Node : Type := { CEL : string }.

Definition buildDeferredPruneOpChain (node : Node)
    (interface : BuildChainInterface) : Py.result BuildChainInterface :=
  let CEL := CEL node in
  let gb := GroupBuilder_new in
  let gb := addOpSystemArgs interface gb in
  let gb := set gb "CEL" (StringAttribute CEL) in
  inr (appendOp interface "DeferredPrune" (build gb).1).

End RegisterDeferredPrune.

(** ** kodachi/generate_implicit_resolvers_list/generate_implicit_resolvers_list.py *)
Module GenerateImplicitResolversList.
Import FnAttribute.

(** [op.getOpArgs()]: the op type and the children of its argument group. *)
Abbreviation OpArgs := (string * list (string * Attribute))%type.

Definition package_name : string := "kodachi".
Definition attr_name : string := package_name +:+ "_implicit_resolver".

(** The module-level names the script assigns: the collection builder [gb]
    and [op_gb], which is unbound ([None]) until one of the two statements
    [op_gb = FnAttribute.GroupBuilder()] has run. *)
Record Globals : Type := {
  gb : GroupBuilder;
  op_gb : option GroupBuilder
}.

(** [int(b)] *)
Definition int_of_bool (b : bool) : Z := if b then 1 else 0.

(** Lines 63-100: the leading AttributeSet op gets priority -1 and is
    removed from the chain. [opChain[0]] raises on an empty chain. *)
Definition leadingAttributeSet (opChain : list OpArgs) (g : Globals)
    : Py.result (list OpArgs * Globals) :=
  match opChain with
  | [] => inl Py.IndexError
  | (opType, opArgs) :: rest =>
      if decide (opType = "AttributeSet") then
        let op_gb := GroupBuilder_new in
        let op_gb := set op_gb "priority" (IntAttribute (-1)) in
        let op_gb := set op_gb "opType" (StringAttribute "AttributeSet") in
        let op_gb := set op_gb "ignore" (StringAttribute "katana") in
        let op_gb :=
          set op_gb "addSystemOpArgs" (IntAttribute (int_of_bool false)) in
        let op_gb := set op_gb "opArgs" (GroupAttribute opArgs) in
        let '(attr, op_gb) := build op_gb in
        inr (rest, {| gb := setWithUniqueName (gb g) attr_name attr;
                      op_gb := Some op_gb |})
      else inr (opChain, g)
  end.

(** Lines 127-173: [for op in opChain], carrying [current_priority]. *)
Fixpoint stageLoop (opChain : list OpArgs) (current_priority : Z)
    (g : Globals) : Globals :=
  match opChain with
  | [] => g
  | (opType, opArgs) :: rest =>
      if decide (opType = "no-op") then
        stageLoop rest (current_priority + 200) g
      else
        let op_gb := GroupBuilder_new in
        let op_gb := set op_gb "priority" (IntAttribute current_priority) in
        let op_gb := set op_gb "opType" (StringAttribute opType) in
        let op_gb := set op_gb "ignore" (StringAttribute "katana") in
        let '(opArgs, addSystemOpArgs) :=
          match getChildByName opArgs "system" with
          | Some _ =>
              ((build (delete (update GroupBuilder_new opArgs) "system")).1,
               true)
          | None => (GroupAttribute opArgs, false)
          end in
        let op_gb :=
          set op_gb "addSystemOpArgs"
            (IntAttribute (int_of_bool addSystemOpArgs)) in
        let op_gb := set op_gb "opArgs" opArgs in
        let '(attr, op_gb) := build op_gb in
        stageLoop rest current_priority
          {| gb := setWithUniqueName (gb g) attr_name attr;
             op_gb := Some op_gb |}
  end.

(** The seven [register...] functions share one body.  Each binds a fresh
    builder to the local name [op_gp] and never uses it; the [set] and
    [build] calls go to the module-level [op_gb], and raise [NameError]
    while that name is unbound.  A Python string passed to [set] is taken
    as a [StringAttribute]. *)
Definition registerBody (priority : Z) (opType : string) (g : Globals)
    : Py.result (Attribute * Globals) :=
  match op_gb g with
  | None => inl Py.NameError
  | Some op_gb =>
      let op_gb := set op_gb "priority" (IntAttribute priority) in
      let op_gb := set op_gb "opType" (StringAttribute opType) in
      let op_gb := set op_gb "ignore" (StringAttribute "none") in
      let op_gb := set op_gb "addSystemOpArgs" (IntAttribute 1) in
      let '(attr, op_gb) := build op_gb in
      inr (attr, {| gb := gb g; op_gb := Some op_gb |})
  end.

Definition registerDeferredPrune := registerBody 100 "DeferredPruneResolve".
Definition registerCurveReduction := registerBody 400 "CurveReductionOp".
Definition registerPrimitivePruneFrustum :=
  registerBody 401 "PrimitivePruneByFrustumOp".
Definition registerPrimitivePruneVolume :=
  registerBody 402 "PrimitivePruneByVolumeOp".
Definition registerCurveDensity := registerBody 403 "CurveDensityOp".
Definition registerCurveWidth := registerBody 404 "CurveWidthOp".
Definition registerUsdOpSchema := registerBody 405 "OpSchemaResolve".

(** [gb.setWithUniqueName(attr_name, register...())] *)
Definition addRegistered
    (register : Globals → Py.result (Attribute * Globals)) (g : Globals)
    : Py.result Globals :=
  '(attr, g) ←! register g;
  inr {| gb := setWithUniqueName (gb g) attr_name attr; op_gb := op_gb g |}.

(** The script from the end of the walk (line 43) to
    [implicitResolverCollection = gb.build()] (line 256).  [walk] is what
    the [while op:] loop over first inputs collects: the argument pairs of
    the resolver ops from the most downstream one up to the dummy op.  The
    result is [implicitResolverCollection].  The calls of the host before
    the walk (lines 17 to 30: the two markers are registered and the
    resolver ops are applied in a transaction) and the writing of the
    collection to the xml file after it (lines 262 to 264) are not part of
    [main]. *)
Definition main (walk : list OpArgs) : Py.result Attribute :=
  match walk with
  | [] => inl Py.IndexError
  | _ :: _ =>
      let opChain := reverse (removelast walk) in
      let g := {| gb := GroupBuilder_new; op_gb := None |} in
      '(opChain, g) ←! leadingAttributeSet opChain g;
      let g := stageLoop opChain 100 g in
      g ←! addRegistered registerDeferredPrune g;
      g ←! addRegistered registerCurveReduction g;
      g ←! addRegistered registerPrimitivePruneFrustum g;
      g ←! addRegistered registerPrimitivePruneVolume g;
      g ←! addRegistered registerCurveDensity g;
      g ←! addRegistered registerCurveWidth g;
      g ←! addRegistered registerUsdOpSchema g;
      inr (build (gb g)).1
  end.

End GenerateImplicitResolversList.

(** ** UIPlugins/MoonrayRenderManager/MoonrayRenderManager.py

    The render manager talks to the host's Geolib3 runtime, whose ops are
    kept here as a store from op ids to their type, arguments and inputs.
    Every read of an op in the methods below happens after the
    [rt.commit(txn)] that follows the writes, so a transaction's writes are
    applied to the store at once; they are also appended to [committed],
    the log of what the Python code asked the runtime to do.  The host
    works on the store only. *)
Module MoonrayRenderManager.
Import FnAttribute.

Inductive RenderMethodType : Type := previewRender | liveRender | diskRender.

Global Instance RenderMethodType_eq_dec : EqDecision RenderMethodType.
Proof. solve_decision. Defined.

(** [str(rmt)] *)
Definition RenderMethodType_str (rmt : RenderMethodType) : string :=
  match rmt with
  | previewRender => "previewRender"
  | liveRender => "liveRender"
  | diskRender => "diskRender"
  end.

Definition rendererName : string := "moonray".

(** [timedelta(milliseconds=100)]; times are counted in microseconds. *)
Definition liveUpdateDelta : Z := 100000.

(** [FnGeolib.NO_OP] *)
Definition NO_OP : string := "no-op".

(** The Python value [attr.getValue()] returns. *)
Inductive PyValue : Type :=
  | PyInt (v : Z)
  | PyFloat (v : Qc)
  | PyStr (v : string).

Definition getValue (a : Attribute) : Py.result PyValue :=
  match a with
  | IntAttribute v => inr (PyInt v)
  | FloatAttribute v => inr (PyFloat v)
  | StringAttribute v => inr (PyStr v)
  | StringArrayAttribute (v :: _) => inr (PyStr v)
  | StringArrayAttribute [] => inl Py.IndexError
  | GroupAttribute _ => inl Py.AttributeError
  end.

(** [attr.getChildByName(name)] on an attribute that is a group. *)
Definition attr_getChildByName (a : Attribute) (name : string)
    : option Attribute :=
  match a with
  | GroupAttribute children => getChildByName children name
  | _ => None
  end.

(** *** The Geolib3 runtime *)

Abbreviation Op := nat (only parsing).

Record OpData : Type := {
  opType : string;
  opArgs : Attribute;
  opInputs : list Op
}.

Inductive TxnAction : Type :=
  | CreateOp (op : Op)
  | SetOpArgs (op : Op) (opType : string) (opArgs : Attribute)
  | SetOpInputs (op : Op) (inputs : list Op)
  | SetClientOp (op : Op).

(** The ops the runtime holds, and the next free op id. *)
Record Store : Type := {
  ops : gmap nat OpData;
  nextOp : nat
}.

Record Runtime : Type := {
  store : Store;
  committed : list TxnAction
}.

Definition newOpData : OpData :=
  {| opType := NO_OP; opArgs := GroupAttribute []; opInputs := [] |}.

Definition opData (st : Store) (op : Op) : OpData :=
  default newOpData (ops st !! op).

(** [op.getOpArgs()] and [op.getInputs()] *)
Definition getOpArgs (st : Store) (op : Op) : string * Attribute :=
  (opType (opData st op), opArgs (opData st op)).

Definition getInputs (st : Store) (op : Op) : list Op :=
  opInputs (opData st op).

Definition putOp (op : Op) (d : OpData) (st : Store) : Store :=
  {| ops := <[op := d]> (ops st); nextOp := nextOp st |}.

(** [txn.createOp()] *)
Definition createOp (rt : Runtime) : Runtime * Op :=
  let op := nextOp (store rt) in
  ({| store := {| ops := <[op := newOpData]> (ops (store rt));
                  nextOp := S op |};
      committed := committed rt ++ [CreateOp op] |},
   op).

(** [txn.setOpArgs(op, opType, opArgs)] *)
Definition setOpArgs (op : Op) (ty : string) (args : Attribute)
    (rt : Runtime) : Runtime :=
  {| store :=
       putOp op {| opType := ty; opArgs := args;
                   opInputs := opInputs (opData (store rt) op) |}
         (store rt);
     committed := committed rt ++ [SetOpArgs op ty args] |}.

(** [txn.setOpInputs(op, inputs)] *)
Definition setOpInputs (op : Op) (inputs : list Op) (rt : Runtime)
    : Runtime :=
  {| store :=
       putOp op {| opType := opType (opData (store rt) op);
                   opArgs := opArgs (opData (store rt) op);
                   opInputs := inputs |}
         (store rt);
     committed := committed rt ++ [SetOpInputs op inputs] |}.

(** [txn.setClientOp(client, op)] *)
Definition setClientOp (op : Op) (rt : Runtime) : Runtime :=
  {| store := store rt;
     committed := committed rt ++ [SetClientOp op] |}.

(** *** The host and the native kodachi library

    What the methods call but the Python sources do not define: the
    host's node graph, graph states, op construction and cooking, and the
    native [kodachi] builders. *)
Class Host : Type := {
  Node : Type;
  GraphState : Type;
  OpTreeBuilder : Type;
  OtbOp : Type;
  OtbOp_eq_dec :: EqDecision OtbOp;
  (** [node.getType()], [hash(node)] *)
  node_getType : Node → string;
  node_hash : Node → Z;
  (** the node connected to input port 0 of a Render node (lines 249-259) *)
  connectedInputNode : Node → GraphState → Node;
  (** [gs.getHash()], [gs.getOpSystemArgs()], [gs.edit()....build()] *)
  gs_getHash : GraphState → string;
  gs_getOpSystemArgs : GraphState → Attribute;
  gs_setDynamicEntry : string → PyValue → GraphState → GraphState;
  gs_setShutterOpen : PyValue → GraphState → GraphState;
  gs_setShutterClose : PyValue → GraphState → GraphState;
  gs_setMaxTimeSamples : PyValue → GraphState → GraphState;
  (** [attr.getHash()] *)
  attr_getHash : Attribute → string;
  (** [Nodes3DAPI.GetOp(txn, node, gs, applyTerminalOpDelegates=False)] *)
  GetOp : Store → Node → GraphState → Store * Op;
  (** lines 274-293: the op of the last active render filter node *)
  GetOpThroughRenderFilters :
    Store → list Node → Node → GraphState → Store * Op;
  (** [Nodes3DAPI.ApplyImplicitResolverOps(txn, op, node, gs)] *)
  ApplyImplicitResolverOps :
    Store → Op → Node → GraphState → Store * Op;
  (** [Nodes3DAPI.GetRenderTerminalOps(txn, renderer, method, gs)] *)
  GetRenderTerminalOps :
    Store → string → string → GraphState → Store * list Op;
  (** [client.cookLocation('/root').getAttrs()] for the client's op *)
  cookRootAttrs : Store → Op → option Attribute;
  (** [ResolutionTable.GetResolutionTable().getResolution(name)]:
      [(xres(), yres())] *)
  getResolution : PyValue → Z * Z;
  (** [kodachi.op_args_builder.AttributeSet]: the args built from the
      location paths, the attributes set and the attributes deleted *)
  AttributeSet_build :
    list string → list (string * Attribute) → list string → Attribute;
  (** [kodachi.OpTreeBuilder] *)
  otb_new : OpTreeBuilder;
  otb_createOp : OpTreeBuilder → OpTreeBuilder * OtbOp;
  otb_setOpArgs : OtbOp → string → Attribute → OpTreeBuilder → OpTreeBuilder;
  otb_setOpInputs : OtbOp → list OtbOp → OpTreeBuilder → OpTreeBuilder;
  otb_build : OpTreeBuilder → OtbOp → OpTreeBuilder * Attribute;
  otb_buildDelta : OpTreeBuilder → OpTreeBuilder * Attribute
}.

Section WithHost.
Context `{host : Host}.

(** What the host reports when a method runs. *)
Record World : Type := {
  GetCurrentGraphState : GraphState;
  getActiveRenderFilterNodes : list Node;
  getSelectedLocations : list string;
  GetRenderIDPass : bool;
  uuid4 : string
}.

(** [txn.createClient()]; the client remembers its op. *)
Record Client : Type := { clientOp : option Op }.

(** An entry of [_opDict]: [[OpTreeBuilder::Op, opType, opArgs, opInputs]]. *)
Record OpEntry : Type := {
  entryOp : OtbOp;
  entryType : option string;
  entryArgs : option Attribute;
  entryInputs : option (list OtbOp)
}.

(** The attributes of a [Context] object.  An attribute that a method
    assigns for the first time after [__init__] is [None] until then. *)
Record Context : Type := {
  _contextId : string;
  _index : nat;
  _node : Node;
  _nodeIsRender : bool;
  _rmt : RenderMethodType;
  _renderId : Attribute;
  _liveAttrSet : bool;
  _liveAttrs : gmap string Attribute;
  _liveAttrOp : option Op;
  _nodeOp : option Op;
  _client : option Client;
  _opChain : list Op;
  _lastLiveUpdateTime : Z;
  _lastUpdateTime : option Z;
  _renderSelected : bool;
  _isMultiContext : bool;
  isArrasRender : bool;
  _gs : GraphState;
  _renderOp : option Op;
  _opTreeBuilder : OpTreeBuilder;
  _opDict : gmap nat OpEntry;
  _renderSettingsLocalizeOp : option Op;
  _systemArgsHash : option string;
  _liveAttrOtbOp : option OtbOp
}.

(** [self.<attribute> = v] *)
Definition set_node (v : Node) (self : Context) : Context :=
  Build_Context (_contextId self) (_index self) v (_nodeIsRender self) (_rmt
    self) (_renderId self) (_liveAttrSet self) (_liveAttrs self) (_liveAttrOp
    self) (_nodeOp self) (_client self) (_opChain self) (_lastLiveUpdateTime
    self) (_lastUpdateTime self) (_renderSelected self) (_isMultiContext self)
    (isArrasRender self) (_gs self) (_renderOp self) (_opTreeBuilder self)
    (_opDict self) (_renderSettingsLocalizeOp self) (_systemArgsHash self)
    (_liveAttrOtbOp self).

Definition set_nodeIsRender (v : bool) (self : Context) : Context :=
  Build_Context (_contextId self) (_index self) (_node self) v (_rmt self)
    (_renderId self) (_liveAttrSet self) (_liveAttrs self) (_liveAttrOp self)
    (_nodeOp self) (_client self) (_opChain self) (_lastLiveUpdateTime self)
    (_lastUpdateTime self) (_renderSelected self) (_isMultiContext self)
    (isArrasRender self) (_gs self) (_renderOp self) (_opTreeBuilder self)
    (_opDict self) (_renderSettingsLocalizeOp self) (_systemArgsHash self)
    (_liveAttrOtbOp self).

Definition set_liveAttrSet (v : bool) (self : Context) : Context :=
  Build_Context (_contextId self) (_index self) (_node self) (_nodeIsRender
    self) (_rmt self) (_renderId self) v (_liveAttrs self) (_liveAttrOp self)
    (_nodeOp self) (_client self) (_opChain self) (_lastLiveUpdateTime self)
    (_lastUpdateTime self) (_renderSelected self) (_isMultiContext self)
    (isArrasRender self) (_gs self) (_renderOp self) (_opTreeBuilder self)
    (_opDict self) (_renderSettingsLocalizeOp self) (_systemArgsHash self)
    (_liveAttrOtbOp self).

Definition set_liveAttrs (v : gmap string Attribute) (self : Context) : Context :=
  Build_Context (_contextId self) (_index self) (_node self) (_nodeIsRender
    self) (_rmt self) (_renderId self) (_liveAttrSet self) v (_liveAttrOp
    self) (_nodeOp self) (_client self) (_opChain self) (_lastLiveUpdateTime
    self) (_lastUpdateTime self) (_renderSelected self) (_isMultiContext self)
    (isArrasRender self) (_gs self) (_renderOp self) (_opTreeBuilder self)
    (_opDict self) (_renderSettingsLocalizeOp self) (_systemArgsHash self)
    (_liveAttrOtbOp self).

Definition set_liveAttrOp (v : option Op) (self : Context) : Context :=
  Build_Context (_contextId self) (_index self) (_node self) (_nodeIsRender
    self) (_rmt self) (_renderId self) (_liveAttrSet self) (_liveAttrs self) v
    (_nodeOp self) (_client self) (_opChain self) (_lastLiveUpdateTime self)
    (_lastUpdateTime self) (_renderSelected self) (_isMultiContext self)
    (isArrasRender self) (_gs self) (_renderOp self) (_opTreeBuilder self)
    (_opDict self) (_renderSettingsLocalizeOp self) (_systemArgsHash self)
    (_liveAttrOtbOp self).

Definition set_nodeOp (v : option Op) (self : Context) : Context :=
  Build_Context (_contextId self) (_index self) (_node self) (_nodeIsRender
    self) (_rmt self) (_renderId self) (_liveAttrSet self) (_liveAttrs self)
    (_liveAttrOp self) v (_client self) (_opChain self) (_lastLiveUpdateTime
    self) (_lastUpdateTime self) (_renderSelected self) (_isMultiContext self)
    (isArrasRender self) (_gs self) (_renderOp self) (_opTreeBuilder self)
    (_opDict self) (_renderSettingsLocalizeOp self) (_systemArgsHash self)
    (_liveAttrOtbOp self).

Definition set_client (v : option Client) (self : Context) : Context :=
  Build_Context (_contextId self) (_index self) (_node self) (_nodeIsRender
    self) (_rmt self) (_renderId self) (_liveAttrSet self) (_liveAttrs self)
    (_liveAttrOp self) (_nodeOp self) v (_opChain self) (_lastLiveUpdateTime
    self) (_lastUpdateTime self) (_renderSelected self) (_isMultiContext self)
    (isArrasRender self) (_gs self) (_renderOp self) (_opTreeBuilder self)
    (_opDict self) (_renderSettingsLocalizeOp self) (_systemArgsHash self)
    (_liveAttrOtbOp self).

Definition set_opChain (v : list Op) (self : Context) : Context :=
  Build_Context (_contextId self) (_index self) (_node self) (_nodeIsRender
    self) (_rmt self) (_renderId self) (_liveAttrSet self) (_liveAttrs self)
    (_liveAttrOp self) (_nodeOp self) (_client self) v (_lastLiveUpdateTime
    self) (_lastUpdateTime self) (_renderSelected self) (_isMultiContext self)
    (isArrasRender self) (_gs self) (_renderOp self) (_opTreeBuilder self)
    (_opDict self) (_renderSettingsLocalizeOp self) (_systemArgsHash self)
    (_liveAttrOtbOp self).

Definition set_lastUpdateTime (v : option Z) (self : Context) : Context :=
  Build_Context (_contextId self) (_index self) (_node self) (_nodeIsRender
    self) (_rmt self) (_renderId self) (_liveAttrSet self) (_liveAttrs self)
    (_liveAttrOp self) (_nodeOp self) (_client self) (_opChain self)
    (_lastLiveUpdateTime self) v (_renderSelected self) (_isMultiContext self)
    (isArrasRender self) (_gs self) (_renderOp self) (_opTreeBuilder self)
    (_opDict self) (_renderSettingsLocalizeOp self) (_systemArgsHash self)
    (_liveAttrOtbOp self).

Definition set_isArrasRender (v : bool) (self : Context) : Context :=
  Build_Context (_contextId self) (_index self) (_node self) (_nodeIsRender
    self) (_rmt self) (_renderId self) (_liveAttrSet self) (_liveAttrs self)
    (_liveAttrOp self) (_nodeOp self) (_client self) (_opChain self)
    (_lastLiveUpdateTime self) (_lastUpdateTime self) (_renderSelected self)
    (_isMultiContext self) v (_gs self) (_renderOp self) (_opTreeBuilder self)
    (_opDict self) (_renderSettingsLocalizeOp self) (_systemArgsHash self)
    (_liveAttrOtbOp self).

Definition set_gs (v : GraphState) (self : Context) : Context :=
  Build_Context (_contextId self) (_index self) (_node self) (_nodeIsRender
    self) (_rmt self) (_renderId self) (_liveAttrSet self) (_liveAttrs self)
    (_liveAttrOp self) (_nodeOp self) (_client self) (_opChain self)
    (_lastLiveUpdateTime self) (_lastUpdateTime self) (_renderSelected self)
    (_isMultiContext self) (isArrasRender self) v (_renderOp self)
    (_opTreeBuilder self) (_opDict self) (_renderSettingsLocalizeOp self)
    (_systemArgsHash self) (_liveAttrOtbOp self).

Definition set_renderOp (v : option Op) (self : Context) : Context :=
  Build_Context (_contextId self) (_index self) (_node self) (_nodeIsRender
    self) (_rmt self) (_renderId self) (_liveAttrSet self) (_liveAttrs self)
    (_liveAttrOp self) (_nodeOp self) (_client self) (_opChain self)
    (_lastLiveUpdateTime self) (_lastUpdateTime self) (_renderSelected self)
    (_isMultiContext self) (isArrasRender self) (_gs self) v (_opTreeBuilder
    self) (_opDict self) (_renderSettingsLocalizeOp self) (_systemArgsHash
    self) (_liveAttrOtbOp self).

Definition set_opTreeBuilder (v : OpTreeBuilder) (self : Context) : Context :=
  Build_Context (_contextId self) (_index self) (_node self) (_nodeIsRender
    self) (_rmt self) (_renderId self) (_liveAttrSet self) (_liveAttrs self)
    (_liveAttrOp self) (_nodeOp self) (_client self) (_opChain self)
    (_lastLiveUpdateTime self) (_lastUpdateTime self) (_renderSelected self)
    (_isMultiContext self) (isArrasRender self) (_gs self) (_renderOp self) v
    (_opDict self) (_renderSettingsLocalizeOp self) (_systemArgsHash self)
    (_liveAttrOtbOp self).

Definition set_opDict (v : gmap nat OpEntry) (self : Context) : Context :=
  Build_Context (_contextId self) (_index self) (_node self) (_nodeIsRender
    self) (_rmt self) (_renderId self) (_liveAttrSet self) (_liveAttrs self)
    (_liveAttrOp self) (_nodeOp self) (_client self) (_opChain self)
    (_lastLiveUpdateTime self) (_lastUpdateTime self) (_renderSelected self)
    (_isMultiContext self) (isArrasRender self) (_gs self) (_renderOp self)
    (_opTreeBuilder self) v (_renderSettingsLocalizeOp self) (_systemArgsHash
    self) (_liveAttrOtbOp self).

Definition set_renderSettingsLocalizeOp (v : option Op) (self : Context) : Context :=
  Build_Context (_contextId self) (_index self) (_node self) (_nodeIsRender
    self) (_rmt self) (_renderId self) (_liveAttrSet self) (_liveAttrs self)
    (_liveAttrOp self) (_nodeOp self) (_client self) (_opChain self)
    (_lastLiveUpdateTime self) (_lastUpdateTime self) (_renderSelected self)
    (_isMultiContext self) (isArrasRender self) (_gs self) (_renderOp self)
    (_opTreeBuilder self) (_opDict self) v (_systemArgsHash self)
    (_liveAttrOtbOp self).

Definition set_systemArgsHash (v : option string) (self : Context) : Context :=
  Build_Context (_contextId self) (_index self) (_node self) (_nodeIsRender
    self) (_rmt self) (_renderId self) (_liveAttrSet self) (_liveAttrs self)
    (_liveAttrOp self) (_nodeOp self) (_client self) (_opChain self)
    (_lastLiveUpdateTime self) (_lastUpdateTime self) (_renderSelected self)
    (_isMultiContext self) (isArrasRender self) (_gs self) (_renderOp self)
    (_opTreeBuilder self) (_opDict self) (_renderSettingsLocalizeOp self) v
    (_liveAttrOtbOp self).

Definition set_liveAttrOtbOp (v : option OtbOp) (self : Context) : Context :=
  Build_Context (_contextId self) (_index self) (_node self) (_nodeIsRender
    self) (_rmt self) (_renderId self) (_liveAttrSet self) (_liveAttrs self)
    (_liveAttrOp self) (_nodeOp self) (_client self) (_opChain self)
    (_lastLiveUpdateTime self) (_lastUpdateTime self) (_renderSelected self)
    (_isMultiContext self) (isArrasRender self) (_gs self) (_renderOp self)
    (_opTreeBuilder self) (_opDict self) (_renderSettingsLocalizeOp self)
    (_systemArgsHash self) v.

(** *** class Context *)

(** The state a [Context] method works on: the runtime and [self]. *)
Abbreviation St := (Runtime * Context)%type (only parsing).

Definition getSelf : PyM.M St Context := PyM.gets snd.

Definition setSelf (f : Context → Context) : PyM.M St unit :=
  PyM.modify (λ s, (s.1, f s.2)).

Definition getRt : PyM.M St Runtime := PyM.gets fst.

(** A write of the transaction. *)
Definition txn (f : Runtime → Runtime) : PyM.M St unit :=
  PyM.modify (λ s, (f s.1, s.2)).

(** A call into the host, which may add ops to the store. *)
Definition hostCall {A : Type} (f : Store → Store * A) : PyM.M St A :=
  λ s, (({| store := (f (store s.1)).1; committed := committed s.1 |}, s.2),
        inr (f (store s.1)).2).

(** [txn.createOp()] *)
Definition txn_createOp : PyM.M St Op :=
  λ s, (((createOp s.1).1, s.2), inr (createOp s.1).2).

(** The store as the ops read it. *)
Definition getStore : PyM.M St Store := PyM.gets (λ s, store s.1).

(** [self._opDict[opId]]: a [defaultdict] whose missing entries are created
    as [[self._opTreeBuilder.createOp(), None, None, None]]. *)
Definition opDict_get (opId : Op) : PyM.M St OpEntry :=
  self <- getSelf;;
  match _opDict self !! opId with
  | Some entry => PyM.ret entry
  | None =>
      let '(otb, kOp) := otb_createOp (_opTreeBuilder self) in
      let entry := {| entryOp := kOp; entryType := None;
                      entryArgs := None; entryInputs := None |} in
      setSelf (λ self, set_opDict (<[opId := entry]> (_opDict self))
                         (set_opTreeBuilder otb self));;
      PyM.ret entry
  end.

(** [Context.resetGraphState] *)
Definition Context_resetGraphState (w : World) (self : Context) : Context :=
  set_gs
    (gs_setDynamicEntry "var:nodeHash" (PyInt (node_hash (_node self)))
       (gs_setDynamicEntry "var:contextID" (PyStr (_contextId self))
          (GetCurrentGraphState w)))
    self.

(** [Context.getNodeOpWithIRFs] *)
Definition getNodeOpWithIRFs (w : World) : PyM.M St Op :=
  self <- getSelf;;
  op <- match getActiveRenderFilterNodes w with
       | [] => hostCall (λ st, GetOp st (_node self) (_gs self))
       | activeNodes =>
           hostCall (λ st, GetOpThroughRenderFilters st activeNodes
                             (_node self) (_gs self))
       end;;
  if _nodeIsRender self then
    match _renderOp self with
    | Some renderOp => txn (setOpInputs renderOp [op]);; PyM.ret renderOp
    | None => PyM.raise Py.AttributeError
    end
  else PyM.ret op.

(** [Context.applyImplicitResolvers] *)
Definition applyImplicitResolvers (w : World) (op : Op) (cameraName : PyValue)
    : PyM.M St Op :=
  self <- getSelf;;
  irOp <- hostCall (λ st, ApplyImplicitResolverOps st op (_node self)
                           (_gs self));;
  setSelf (set_renderSettingsLocalizeOp (Some irOp));;
  if _renderSelected self then
    let selectedLocations :=
      filter (λ x, PyString.startswith x "/root/world" = true
                   ∧ 4 < length (PyString.split "/"%char x))
        (getSelectedLocations w) in
    match selectedLocations with
    | [] => PyM.ret irOp
    | _ :: _ =>
        let commonPrefix :=
          PyString.join "/"
            (take 4 (PyString.split "/"%char
                       (PyString.dirname
                          (PyString.commonprefix selectedLocations)))) in
        selectedLocations <-
          match cameraName with
          | PyStr cameraName =>
              PyM.ret (if PyString.startswith cameraName commonPrefix
                       then selectedLocations ++ [cameraName]
                       else selectedLocations)
          | _ => PyM.raise Py.AttributeError
          end;;
        let gb := GroupBuilder_new in
        let gb := set gb "isolateFrom" (StringAttribute commonPrefix) in
        let gb :=
          set gb "isolateLocations" (StringArrayAttribute selectedLocations) in
        isolateOp <- txn_createOp;;
        txn (setOpArgs isolateOp "Isolate" (build gb).1);;
        txn (setOpInputs isolateOp [irOp]);;
        PyM.ret isolateOp
    end
  else PyM.ret irOp.

(** [Context.applyRenderOps] *)
Definition applyRenderOps (w : World) (op : Op) : PyM.M St Op :=
  rsdOp <- txn_createOp;;
  txn (setOpArgs rsdOp "RenderSettingsDefaults" (GroupAttribute []));;
  txn (setOpInputs rsdOp [op]);;
  if GetRenderIDPass w then
    idPassOp <- txn_createOp;;
    let gb := GroupBuilder_new in
    let gb := set gb "opType" (StringAttribute "GenerateKatanaId") in
    let gb := set gb "opArgs" (GroupAttribute []) in
    let gb := set gb "recursiveEnable" (IntAttribute 1) in
    txn (setOpArgs idPassOp "AttributeSet"
           (AttributeSet_build ["/root"] [("ops.katanaId", (build gb).1)] []));;
    txn (setOpInputs idPassOp [rsdOp]);;
    PyM.ret idPassOp
  else PyM.ret rsdOp.

(** [Context.applyTerminalOps] *)
Definition applyTerminalOps (op : Op) : PyM.M St Op :=
  self <- getSelf;;
  terminalOps <- hostCall (λ st, GetRenderTerminalOps st rendererName
                                  (RenderMethodType_str (_rmt self))
                                  (_gs self));;
  match terminalOps with
  | [] => PyM.raise Py.IndexError
  | first :: _ =>
      txn (setOpInputs first [op]);;
      PyM.ret (List.last terminalOps first)
  end.

(** [Context.getOps]: the [while op:] loop.  An op handle is never falsy,
    so the loop is left only by the [return] or by the [raise] inside it;
    [fuel] is the number of iterations still allowed. *)
Fixpoint getOps_loop (fuel : nat) (rt : Store) (op end_ : Op)
    (ops : list Op) : Py.result (list Op) :=
  match fuel with
  | 0 => inl Py.Diverges
  | S fuel' =>
      if decide (op = end_) then inr (reverse ops)
      else
        let ops := ops ++ [op] in
        match getInputs rt op with
        | [] => inl (Py.Exception "op has no inputs")
        | input :: _ => getOps_loop fuel' rt input end_ ops
        end
  end.

(** A walk that has not ended after visiting more ops than the runtime
    holds is in a cycle and never ends. *)
Definition getOps (rt : Store) (start end_ : Op) : Py.result (list Op) :=
  getOps_loop (S (size (ops rt))) rt start end_ [].


(** [Context.buildOpChain].  [renderSettingsAttr] is [None] when the root
    location has no [renderSettings] attribute. *)
Definition buildOpChain (w : World) (renderSettingsAttr : option Attribute)
    : PyM.M St (list Op) :=
  renderSettingsAttr <-
    match renderSettingsAttr with
    | Some a => PyM.ret a
    | None => PyM.raise Py.AttributeError
    end;;
  numberedResolution <-
    match attr_getChildByName renderSettingsAttr "resolution" with
    | Some resolutionAttr =>
        namedResolution <- PyM.lift (getValue resolutionAttr);;
        let '(xres, yres) := getResolution namedResolution in
        PyM.ret (pretty xres +:+ "x" +:+ pretty yres)
    | None => PyM.ret "512x512"
    end;;
  self <- getSelf;;
  resolutionOp <- txn_createOp;;
  txn (setOpArgs resolutionOp "AttributeSet"
         (AttributeSet_build ["/root"]
            [("renderSettings.resolution",
              StringAttribute numberedResolution)]
            (if _isMultiContext self then ["renderSettings.overscan"]
             else [])));;
  let opChain := [resolutionOp] in
  cameraName <-
    match attr_getChildByName renderSettingsAttr "cameraName" with
    | Some cameraNameAttr => PyM.lift (getValue cameraNameAttr)
    | None => PyM.ret (PyStr "/root/world/cam/camera")
    end;;
  irOp <- applyImplicitResolvers w (List.last opChain resolutionOp)
            cameraName;;
  rt <- getStore;;
  irOps <- PyM.lift (getOps rt irOp (List.last opChain resolutionOp));;
  let opChain := opChain ++ irOps in
  renderOp <- applyRenderOps w (List.last opChain resolutionOp);;
  rt <- getStore;;
  renderOps <- PyM.lift (getOps rt renderOp (List.last opChain resolutionOp));;
  let opChain := opChain ++ renderOps in
  renderIdOp <- txn_createOp;;
  txn (setOpArgs renderIdOp "AttributeSet"
         (AttributeSet_build ["/root"] [("kodachi.renderID", _renderId self)]
            []));;
  txn (setOpInputs renderIdOp [List.last opChain resolutionOp]);;
  let opChain := opChain ++ [renderIdOp] in
  opChain <-
    (if decide (_rmt self = liveRender) then
       liveAttrOp <- txn_createOp;;
       setSelf (set_liveAttrOp (Some liveAttrOp));;
       txn (setOpArgs liveAttrOp NO_OP (GroupAttribute []));;
       txn (setOpInputs liveAttrOp [List.last opChain resolutionOp]);;
       PyM.ret (opChain ++ [liveAttrOp])
     else PyM.ret opChain);;
  terminalOp <- applyTerminalOps (List.last opChain resolutionOp);;
  rt <- getStore;;
  terminalOps <-
    PyM.lift (getOps rt terminalOp (List.last opChain resolutionOp));;
  PyM.ret (opChain ++ terminalOps).

(** The children of an attribute that is a group. *)
Definition attr_children (a : Attribute) : list (string * Attribute) :=
  match a with
  | GroupAttribute children => children
  | _ => []
  end.

(** [Context.updateOpChainSystemArgs] *)
Definition updateOpChainSystemArgs (systemArgs : Attribute)
    : PyM.M St unit :=
  self <- getSelf;;
  PyM.for_each (_opChain self) (λ op,
    rt <- getStore;;
    let '(ty, opArgsAttr) := getOpArgs rt op in
    match attr_getChildByName opArgsAttr "system" with
    | Some _ =>
        let gb := GroupBuilder_new in
        let gb := update gb (attr_children opArgsAttr) in
        let gb := set gb "system" systemArgs in
        txn (setOpArgs op ty (build gb).1)
    | None => PyM.ret tt
    end).

(** [Context.syncOpTree]: the [for input in opInputs] loop. *)
Fixpoint syncOpTree_inputs (opInputs : list Op) (kOpInputs : list OtbOp)
    (ops : list Op) (visitedIds : gset nat)
    : PyM.M St (list OtbOp * list Op * gset nat) :=
  match opInputs with
  | [] => PyM.ret (kOpInputs, ops, visitedIds)
  | input :: opInputs' =>
      entry <- opDict_get input;;
      let kOpInputs := kOpInputs ++ [entryOp entry] in
      if decide (input ∉ visitedIds) then
        syncOpTree_inputs opInputs' kOpInputs (ops ++ [input])
          ({[input]} ∪ visitedIds)
      else syncOpTree_inputs opInputs' kOpInputs ops visitedIds
  end.

(** [opEntry[i] = v] on the entry of [opId]. *)
Definition opDict_update (opId : Op) (f : OpEntry → OpEntry)
    : PyM.M St unit :=
  setSelf (λ self, set_opDict (alter f opId (_opDict self)) self).

(** [Context.syncOpTree]: the [while ops:] loop; [ops.pop()] takes the last
    element. *)
Fixpoint syncOpTree_loop (fuel : nat) (ops : list Op) (visitedIds : gset nat)
    : PyM.M St unit :=
  match fuel with
  | 0 => PyM.raise Py.Diverges
  | S fuel' =>
      match reverse ops with
      | [] => PyM.ret tt
      | op :: rest =>
          let ops := reverse rest in
          opEntry <- opDict_get op;;
          rt <- getStore;;
          let '(ty, args) := getOpArgs rt op in
          (if bool_decide (Some ty ≠ entryType opEntry)
              || negb (from_option (Attribute_eqb args) false
                         (entryArgs opEntry))
           then
             setSelf (λ self,
               set_opTreeBuilder
                 (otb_setOpArgs (entryOp opEntry) ty args
                    (_opTreeBuilder self)) self);;
             opDict_update op (λ e,
               {| entryOp := entryOp e; entryType := Some ty;
                  entryArgs := Some args; entryInputs := entryInputs e |})
           else PyM.ret tt);;
          '(kOpInputs, ops, visitedIds) <-
            syncOpTree_inputs (getInputs rt op) [] ops visitedIds;;
          self <- getSelf;;
          (if bool_decide
                (Some kOpInputs
                 ≠ (_opDict self !! op) ≫= entryInputs)
           then
             setSelf (λ self,
               set_opTreeBuilder
                 (otb_setOpInputs (entryOp opEntry) kOpInputs
                    (_opTreeBuilder self)) self);;
             opDict_update op (λ e,
               {| entryOp := entryOp e; entryType := entryType e;
                  entryArgs := entryArgs e;
                  entryInputs := Some kOpInputs |})
           else PyM.ret tt);;
          syncOpTree_loop fuel' ops visitedIds
      end
  end.

(** Every iteration pops an op that was pushed when it was first seen, so
    there are at most as many iterations as there are ops and input
    references in the runtime. *)
Definition syncOpTree (rootOp : Op) : PyM.M St unit :=
  rt <- getStore;;
  syncOpTree_loop
    (S (size (ops rt)
        + sum_list ((λ d, length (opInputs d)) <$> (map_to_list (ops rt)).*2)))
    [rootOp] {[rootOp]}.


(** [Context.syncWithNodegraph] *)
Definition syncWithNodegraph (w : World) : PyM.M St unit :=
  self <- getSelf;;
  (match _client self with
   | None => setSelf (set_client (Some {| clientOp := None |}))
   | Some _ => PyM.ret tt
   end);;
  nodeOp <- getNodeOpWithIRFs w;;
  setSelf (set_client (Some {| clientOp := Some nodeOp |}));;
  txn (setClientOp nodeOp);;
  rt <- getStore;;
  rootAttrs <-
    match cookRootAttrs rt nodeOp with
    | Some rootAttrs => PyM.ret rootAttrs
    | None => PyM.raise (Py.Exception "could not get root attrs for context")
    end;;
  let renderSettingsAttr := attr_getChildByName rootAttrs "renderSettings" in
  '(shutterOpen, shutterClose, maxTimeSamples) <-
    match renderSettingsAttr with
    | Some renderSettingsAttr =>
        (match attr_getChildByName rootAttrs "moonrayArrasSettings.use arras"
         with
         | Some useArrasAttr =>
             v <- PyM.lift (getValue useArrasAttr);;
             match v with
             | PyInt 1 => setSelf (set_isArrasRender true)
             | PyFloat q =>
                 if decide (q = 1%Qc) then setSelf (set_isArrasRender true)
                 else PyM.ret tt
             | _ => PyM.ret tt
             end
         | None => PyM.ret tt
         end);;
        shutterOpen <-
          match attr_getChildByName renderSettingsAttr "shutterOpen" with
          | Some a => PyM.lift (getValue a)
          | None => PyM.ret (PyFloat 0)
          end;;
        shutterClose <-
          match attr_getChildByName renderSettingsAttr "shutterClose" with
          | Some a => PyM.lift (getValue a)
          | None => PyM.ret (PyFloat 0)
          end;;
        maxTimeSamples <-
          match attr_getChildByName renderSettingsAttr "maxTimeSamples" with
          | Some a => PyM.lift (getValue a)
          | None => PyM.ret (PyInt 1)
          end;;
        PyM.ret (shutterOpen, shutterClose, maxTimeSamples)
    | None => PyM.ret (PyFloat 0, PyFloat 0, PyInt 1)
    end;;
  self <- getSelf;;
  let gs :=
    gs_setMaxTimeSamples maxTimeSamples
      (gs_setShutterClose shutterClose
         (gs_setShutterOpen shutterOpen (_gs self))) in
  match _opChain self with
  | [] =>
      (* First time syncing with nodegraph, build the opchain *)
      setSelf (set_gs gs);;
      nodeOp <- getNodeOpWithIRFs w;;
      setSelf (set_nodeOp (Some nodeOp));;
      opChain <- buildOpChain w renderSettingsAttr;;
      setSelf (set_opChain opChain);;
      rt <- getStore;;
      rsl <-
        match list_find (λ op, (getOpArgs rt op).1 = "RenderSettingsLocalize")
                opChain with
        | Some (_, op) => PyM.ret op
        | None =>
            PyM.raise
              (Py.Exception "RenderSettingsLocalize not found in opchain")
        end;;
      setSelf (set_renderSettingsLocalizeOp (Some rsl));;
      match opChain with
      | [] => PyM.raise Py.IndexError
      | first :: _ =>
          txn (setOpInputs first [nodeOp]);;
          syncOpTree (List.last opChain first);;
          let systemArgs := gs_getOpSystemArgs gs in
          setSelf (set_systemArgsHash (Some (attr_getHash systemArgs)));;
          self <- getSelf;;
          if decide (_rmt self = liveRender) then
            match _liveAttrOp self with
            | Some liveAttrOp =>
                entry <- opDict_get liveAttrOp;;
                setSelf (set_liveAttrOtbOp (Some (entryOp entry)))
            | None => PyM.raise Py.AttributeError
            end
          else PyM.ret tt
      end
  | first :: _ =>
      nodeOp <-
        (if decide (gs_getHash gs ≠ gs_getHash (_gs self)) then
           (* graphstate has changed, get the node op with the new graph
              state *)
           setSelf (set_gs gs);;
           nodeOp <- getNodeOpWithIRFs w;;
           let systemArgs := gs_getOpSystemArgs gs in
           let systemArgsHash := attr_getHash systemArgs in
           self <- getSelf;;
           match _systemArgsHash self with
           | None => PyM.raise Py.AttributeError
           | Some storedHash =>
               (if decide (systemArgsHash ≠ storedHash) then
                  updateOpChainSystemArgs systemArgs;;
                  setSelf (set_systemArgsHash (Some systemArgsHash))
                else PyM.ret tt);;
               PyM.ret nodeOp
           end
         else PyM.ret nodeOp);;
      self <- getSelf;;
      (if decide (Some nodeOp ≠ _nodeOp self) then
         setSelf (set_nodeOp (Some nodeOp));;
         txn (setOpInputs first [nodeOp])
       else PyM.ret tt);;
      syncOpTree (List.last (_opChain self) first)
  end.

(** [Context.setLiveAttr]; [now] is what [datetime.now()] returns. *)
Definition setLiveAttr (locationPath : string) (attrValue : option Attribute)
    (now : Z) : PyM.M Context bool :=
  let attrValue := default (GroupAttribute []) attrValue in
  PyM.modify (λ self,
    set_liveAttrs (<[locationPath := attrValue]> (_liveAttrs self)) self);;
  self <- PyM.get;;
  if decide (_lastLiveUpdateTime self + liveUpdateDelta ≤ now)%Z then
    let attrsBuilder :=
      foldl (λ gb lv, set gb lv.1 lv.2) GroupBuilder_new
        (map_to_list (_liveAttrs self)) in
    let '(attrs, attrsBuilder) := build attrsBuilder in
    let attrsBuilder := set attrsBuilder "liveAttrs" attrs in
    match _liveAttrOtbOp self with
    | None => PyM.raise Py.AttributeError
    | Some liveAttrOtbOp =>
        PyM.modify (λ self,
          set_opTreeBuilder
            (otb_setOpArgs liveAttrOtbOp "MoonrayLiveAttribute"
               (build attrsBuilder).1 (_opTreeBuilder self)) self);;
        PyM.modify (set_liveAttrSet true);;
        PyM.modify (set_lastUpdateTime (Some now));;
        PyM.ret true
    end
  else PyM.ret false.

(** [Context.resetLiveAttr] *)
Definition resetLiveAttr : PyM.M Context unit :=
  PyM.modify (set_liveAttrs ∅);;
  self <- PyM.get;;
  if _liveAttrSet self then
    match _liveAttrOtbOp self with
    | None => PyM.raise Py.AttributeError
    | Some liveAttrOtbOp =>
        PyM.modify (λ self,
          set_opTreeBuilder
            (otb_setOpArgs liveAttrOtbOp NO_OP (GroupAttribute [])
               (_opTreeBuilder self)) self);;
        PyM.modify (set_liveAttrSet false)
    end
  else PyM.ret tt.

(** [Context.buildOpTreeDelta] *)
Definition buildOpTreeDelta : PyM.M Context Attribute :=
  self <- PyM.get;;
  let '(otb, delta) := otb_buildDelta (_opTreeBuilder self) in
  PyM.modify (set_opTreeBuilder otb);;
  PyM.ret delta.

(** A method of [self] that does not touch the runtime. *)
Definition onSelf {A : Type} (m : PyM.M Context A) : PyM.M St A :=
  λ s, let '(self, r) := m s.2 in ((s.1, self), r).

(** [Context.__init__]; [now] is what [datetime.now()] returns. *)
Definition Context_init (w : World) (now : Z) (contextId : string)
    (index : nat) (node : Node) (rmt : RenderMethodType)
    (renderSelected isMultiContext : bool) (rt : Runtime)
    : St * Py.result unit :=
  let self :=
    {| _contextId := contextId; _index := index; _node := node;
       _nodeIsRender := false; _rmt := rmt;
       _renderId := StringAttribute (uuid4 w);
       _liveAttrSet := false; _liveAttrs := ∅; _liveAttrOp := None;
       _nodeOp := None; _client := None; _opChain := [];
       _lastLiveUpdateTime := now; _lastUpdateTime := None;
       _renderSelected :=
         bool_decide (rmt = previewRender) && renderSelected;
       _isMultiContext := isMultiContext; isArrasRender := false;
       _gs := GetCurrentGraphState w; _renderOp := None;
       _opTreeBuilder := otb_new; _opDict := ∅;
       _renderSettingsLocalizeOp := None; _systemArgsHash := None;
       _liveAttrOtbOp := None |} in
  (setSelf (Context_resetGraphState w);;
   self <- getSelf;;
   (if decide (node_getType (_node self) = "Render") then
      setSelf (set_nodeIsRender true);;
      renderOp <- hostCall (λ st, GetOp st (_node self) (_gs self));;
      rt <- getStore;;
      let renderOpArgs := getOpArgs rt renderOp in
      renderOp' <- txn_createOp;;
      setSelf (set_renderOp (Some renderOp'));;
      txn (setOpArgs renderOp' renderOpArgs.1 renderOpArgs.2);;
      setSelf (set_node (connectedInputNode (_node self) (_gs self)))
    else PyM.ret tt);;
   setSelf (set_opTreeBuilder otb_new);;
   setSelf (set_opDict ∅);;
   syncWithNodegraph w) (rt, self).


(** *** class OpTreeSender *)

(** [process_emitted] collects the messages passed to [self.process.emit]. *)
Record OpTreeSender : Type := {
  _renderMethodType : RenderMethodType;
  _contexts : gmap string Context;
  _activeContextId : string;
  _currentGraphStateHash : string;
  process_emitted : list Attribute
}.

Definition set_contexts (v : gmap string Context) (self : OpTreeSender)
    : OpTreeSender :=
  {| _renderMethodType := _renderMethodType self; _contexts := v;
     _activeContextId := _activeContextId self;
     _currentGraphStateHash := _currentGraphStateHash self;
     process_emitted := process_emitted self |}.

Definition set_currentGraphStateHash (v : string) (self : OpTreeSender)
    : OpTreeSender :=
  {| _renderMethodType := _renderMethodType self;
     _contexts := _contexts self;
     _activeContextId := _activeContextId self;
     _currentGraphStateHash := v;
     process_emitted := process_emitted self |}.

(** [self.process.emit(attr)] *)
Definition process_emit (attr : Attribute) (self : OpTreeSender)
    : OpTreeSender :=
  {| _renderMethodType := _renderMethodType self;
     _contexts := _contexts self;
     _activeContextId := _activeContextId self;
     _currentGraphStateHash := _currentGraphStateHash self;
     process_emitted := process_emitted self ++ [attr] |}.

Abbreviation SenderSt := (Runtime * OpTreeSender)%type (only parsing).

(** A method call on [self._contexts[contextId]]; the context object is
    mutated in place. *)
Definition onContext {A : Type} (contextId : string) (m : PyM.M St A)
    : PyM.M SenderSt A :=
  λ s,
    match _contexts s.2 !! contextId with
    | None => (s, inl Py.KeyError)
    | Some context =>
        let '((rt, context), r) := m (s.1, context) in
        ((rt, set_contexts (<[contextId := context]> (_contexts s.2)) s.2),
         r)
    end.

(** [OpTreeSender.resetGraphState] *)
Definition OpTreeSender_resetGraphState (w : World) (self : OpTreeSender)
    : OpTreeSender :=
  let gsHash := gs_getHash (GetCurrentGraphState w) in
  if decide (gsHash ≠ _currentGraphStateHash self) then
    let self := set_currentGraphStateHash gsHash self in
    set_contexts (Context_resetGraphState w <$> _contexts self) self
  else self.

(** [OpTreeSender.syncContexts] *)
Definition syncContexts (w : World) : PyM.M SenderSt unit :=
  self <- PyM.gets snd;;
  PyM.for_each (map_to_list (_contexts self)).*1 (λ contextId,
    onContext contextId (syncWithNodegraph w)).

(** [OpTreeSender.processUpdates]: the loop that collects the deltas. *)
Fixpoint collectDeltas (contextIds : list string)
    (deltas : list (string * Attribute))
    : PyM.M SenderSt (list (string * Attribute)) :=
  match contextIds with
  | [] => PyM.ret deltas
  | contextId :: contextIds' =>
      delta <- onContext contextId (onSelf buildOpTreeDelta);;
      if decide (0 < getNumberOfChildren delta) then
        collectDeltas contextIds' (deltas ++ [(contextId, delta)])
      else collectDeltas contextIds' deltas
  end.

(** [OpTreeSender.processUpdates] *)
Definition processUpdates (w : World) : PyM.M SenderSt unit :=
  self <- PyM.gets snd;;
  onContext (_activeContextId self) (onSelf resetLiveAttr);;
  syncContexts w;;
  self <- PyM.gets snd;;
  deltas <- collectDeltas (map_to_list (_contexts self)).*1 [];;
  match deltas with
  | [] => PyM.ret tt
  | _ :: _ =>
      let gb := GroupBuilder_new in
      let gb := set gb "type" (StringAttribute "OPTREE_DELTA") in
      let gb :=
        foldl (λ gb cd, set gb ("optrees." +:+ cd.1) cd.2) gb deltas in
      let attr := (build gb).1 in
      PyM.modify (λ s, (s.1, process_emit attr s.2))
  end.

(** [OpTreeSender.sendLiveAttribute] *)
Definition sendLiveAttribute (locationPath attrPath : string)
    (attrValue : option Attribute) (now : Z) : PyM.M SenderSt unit :=
  self <- PyM.gets snd;;
  pushed <- onContext (_activeContextId self)
              (onSelf (setLiveAttr locationPath attrValue now));;
  if (pushed : bool) then
    delta <- onContext (_activeContextId self) (onSelf buildOpTreeDelta);;
    let gb := GroupBuilder_new in
    let gb := set gb "type" (StringAttribute "OPTREE_DELTA") in
    let gb := set gb ("optrees." +:+ _activeContextId self) delta in
    PyM.modify (λ s, (s.1, process_emit (build gb).1 s.2))
  else PyM.ret tt.


End WithHost.

End MoonrayRenderManager.

(** ** SuperTools/DreamGaffer/Cache.py and InternalControl.py

    The four caches of an [InternalControl] are objects of the classes
    [BaseCache] and [LightRigCache]; a method called on a cache runs the
    code of its class.  The entries of a cache are dicts with the keys
    "index" and "children"; the children are a list of names in a
    [BaseCache] and a dict from names to location types in a
    [LightRigCache].  An entry is referenced from one key at a time and its
    children are copied when an entry is duplicated, so entries are kept as
    values.  The host nodes record the calls made on them, which are taken
    to succeed; a node that does not exist is [None]. *)
Module DreamGaffer.

(** [def getLocationPath(parentPath, name)] *)
Definition getLocationPath (parentPath name : string) : string :=
  if decide (parentPath = "") then name else parentPath +:+ "/" +:+ name.

Inductive Children : Type :=
  | ChildList (names : list string)
  | ChildDict (types : gmap string string).

Record Info : Type := {
  index : nat;
  children : Children
}.

(** Calls on the node that creates the locations of a cache. *)
Inductive NodeCall : Type :=
  | NodeAddLocationAtIndex (locationPath : string) (index : nat)
      (isChild : option bool)
  | NodeRenameLocation (index : nat) (newLocation : string)
  | NodeDuplicateLocation (srcIndex dstIndex : nat) (dstLocation : string)
  | NodeRemoveLocationAtIndex (index : nat).

(** Calls on the material edit node. *)
Inductive EditCall : Type :=
  | EditRenameLocation (location newLocation : string)
  | EditDuplicateLocation (location newLocation : string)
  | EditRemoveLocation (location : string).

Record Cache : Type := {
  cache : gmap string Info;
  unused : list nat;
  node : option (list NodeCall)
}.

Definition set_cache (v : gmap string Info) (self : Cache) : Cache :=
  {| cache := v; unused := unused self; node := node self |}.

Definition set_unused (v : list nat) (self : Cache) : Cache :=
  {| cache := cache self; unused := v; node := node self |}.

Definition set_node (v : option (list NodeCall)) (self : Cache) : Cache :=
  {| cache := cache self; unused := unused self; node := v |}.

(** [materialEditNode] is what [self.node.getMaterialEditNode()] returns. *)
Record InternalControl : Type := {
  lightCache : Cache;
  rigCache : Cache;
  materialCache : Cache;
  lightFilterCache : Cache;
  adoptedLocations : list string;
  materialEditNode : option (list EditCall)
}.

(** The cache objects of a control. *)
Inductive CacheRef : Type := Light | Rig | Material | LightFilter.

Global Instance CacheRef_eq_dec : EqDecision CacheRef.
Proof. solve_decision. Defined.

Inductive CacheClass : Type := BaseCache | LightRigCache.

(** [InternalControl.__init__]: the class and the location type of each
    cache. *)
Definition classOf (self : CacheRef) : CacheClass :=
  match self with
  | Light | Rig => LightRigCache
  | Material | LightFilter => BaseCache
  end.

Definition locationType (self : CacheRef) : string :=
  match self with
  | Light => "light"
  | Rig => "rig"
  | Material => "material"
  | LightFilter => "light filter"
  end.

Definition getCache (self : CacheRef) (control : InternalControl) : Cache :=
  match self with
  | Light => lightCache control
  | Rig => rigCache control
  | Material => materialCache control
  | LightFilter => lightFilterCache control
  end.

Definition setCache (self : CacheRef) (v : Cache) (control : InternalControl)
    : InternalControl :=
  {| lightCache := if decide (self = Light) then v else lightCache control;
     rigCache := if decide (self = Rig) then v else rigCache control;
     materialCache :=
       if decide (self = Material) then v else materialCache control;
     lightFilterCache :=
       if decide (self = LightFilter) then v else lightFilterCache control;
     adoptedLocations := adoptedLocations control;
     materialEditNode := materialEditNode control |}.

Definition set_materialEditNode (v : option (list EditCall))
    (control : InternalControl) : InternalControl :=
  {| lightCache := lightCache control; rigCache := rigCache control;
     materialCache := materialCache control;
     lightFilterCache := lightFilterCache control;
     adoptedLocations := adoptedLocations control;
     materialEditNode := v |}.

(** [InternalControl.getCacheOfLocationType] *)
Definition getCacheOfLocationType (locationType : string)
    : option CacheRef :=
  if decide (locationType = "light") then Some Light
  else if decide (locationType = "rig") then Some Rig
  else if decide (locationType = "material") then Some Material
  else if decide (locationType = "light filter") then Some LightFilter
  else None.

Abbreviation M := (PyM.M InternalControl).

Definition modifyCache (self : CacheRef) (f : Cache → Cache) : M unit :=
  PyM.modify (λ control, setCache self (f (getCache self control)) control).

(** [self.cache.get(key)], [self.cache[key]], [self.cache.pop(key)],
    [self.cache[key] = info] *)
Definition cache_get (self : CacheRef) (key : string) : M (option Info) :=
  PyM.gets (λ control, cache (getCache self control) !! key).

Definition cache_getitem (self : CacheRef) (key : string) : M Info :=
  info <- cache_get self key;;
  match info with
  | Some info => PyM.ret info
  | None => PyM.raise Py.KeyError
  end.

Definition cache_pop (self : CacheRef) (key : string) : M Info :=
  info <- cache_get self key;;
  match info with
  | Some info =>
      modifyCache self (λ c, set_cache (delete key (cache c)) c);;
      PyM.ret info
  | None => PyM.raise Py.KeyError
  end.

Definition cache_setitem (self : CacheRef) (key : string) (info : Info)
    : M unit :=
  modifyCache self (λ c, set_cache (<[key := info]> (cache c)) c).

(** A method call on [self.node]. *)
Definition nodeCall (self : CacheRef) (call : NodeCall) : M unit :=
  c <- PyM.gets (getCache self);;
  match node c with
  | Some calls => modifyCache self (set_node (Some (calls ++ [call])))
  | None => PyM.raise Py.AttributeError
  end.

(** A method call on [self.node.getMaterialEditNode()]:
    [InternalControl.renameSingleLocation], [duplicateSingleLocation] and
    [removeSingleLocation]. *)
Definition editCall (call : EditCall) : M unit :=
  control <- PyM.get;;
  match materialEditNode control with
  | Some calls => PyM.modify (set_materialEditNode (Some (calls ++ [call])))
  | None => PyM.raise Py.AttributeError
  end.

Definition renameSingleLocation (location newLocation : string) : M unit :=
  editCall (EditRenameLocation location newLocation).

Definition duplicateSingleLocation (location newLocation : string)
    : M unit :=
  editCall (EditDuplicateLocation location newLocation).

Definition removeSingleLocation (location : string) : M unit :=
  editCall (EditRemoveLocation location).

(** [InternalControl.initTargetNode]: the create node of the location type
    is created (Node.py, [getCreateNodeForLocationType] with
    [forceCreate=True]); creating the create node of lights, materials or
    light filters also creates the material edit node when there is
    none. *)
Definition initTargetNode (self : CacheRef) : M (list NodeCall) :=
  (match self with
   | Rig => PyM.ret tt
   | _ =>
       PyM.modify (λ control,
         set_materialEditNode
           (Some (default [] (materialEditNode control))) control)
   end);;
  PyM.ret [].

(** What Python does with the children of an entry. *)

(** [for childName in children] *)
Definition iter_names (children : Children) : list string :=
  match children with
  | ChildList names => names
  | ChildDict types => (map_to_list types).*1
  end.

(** [children.iteritems()] *)
Definition iteritems (children : Children)
    : Py.result (list (string * string)) :=
  match children with
  | ChildDict types => inr (map_to_list types)
  | ChildList _ => inl Py.AttributeError
  end.

(** [children.keys()] *)
Definition keys (children : Children) : Py.result (list string) :=
  match children with
  | ChildDict types => inr (map_to_list types).*1
  | ChildList _ => inl Py.AttributeError
  end.

(** [name in children] *)
Definition contains (children : Children) (name : string) : bool :=
  match children with
  | ChildList names => bool_decide (name ∈ names)
  | ChildDict types => bool_decide (is_Some (types !! name))
  end.

(** [names.remove(name)] for a name that occurs in the list. *)
Fixpoint list_remove (name : string) (names : list string) : list string :=
  match names with
  | [] => []
  | x :: names' =>
      if decide (x = name) then names' else x :: list_remove name names'
  end.

(** [children.remove(name)], [children.append(name)] *)
Definition children_remove (children : Children) (name : string)
    : Py.result Children :=
  match children with
  | ChildList names => inr (ChildList (list_remove name names))
  | ChildDict _ => inl Py.AttributeError
  end.

Definition children_append (children : Children) (name : string)
    : Py.result Children :=
  match children with
  | ChildList names => inr (ChildList (names ++ [name]))
  | ChildDict _ => inl Py.AttributeError
  end.

(** [del children[name]], [children[name] = locationType] *)
Definition children_delitem (children : Children) (name : string)
    : Py.result Children :=
  match children with
  | ChildDict types => inr (ChildDict (delete name types))
  | ChildList _ => inl Py.TypeError
  end.

Definition children_setitem (children : Children) (name ty : string)
    : Py.result Children :=
  match children with
  | ChildDict types => inr (ChildDict (<[name := ty]> types))
  | ChildList _ => inl Py.TypeError
  end.

(** [children[:]], [children.copy()] *)
Definition children_slice (children : Children) : Py.result Children :=
  match children with
  | ChildList names => inr (ChildList names)
  | ChildDict _ => inl Py.TypeError
  end.

Definition children_copy (children : Children) : Py.result Children :=
  match children with
  | ChildDict types => inr (ChildDict types)
  | ChildList _ => inl Py.AttributeError
  end.

(** A string that is not [None] and not empty. *)
Definition truthy (s : option string) : option string :=
  match s with
  | Some s => if decide (s = "") then None else Some s
  | None => None
  end.

(** *** class BaseCache *)

(** [BaseCache.getIndexForNewLocation] *)
Definition getIndexForNewLocation (self : CacheRef) : M nat :=
  c <- PyM.gets (getCache self);;
  match last (unused c) with
  | Some i =>
      modifyCache self (set_unused (removelast (unused c)));;
      PyM.ret i
  | None => PyM.ret (size (cache c))
  end.

(** [children] stored back into the entry of [parentPath]: the list or dict
    is mutated in place. *)
Definition set_children (self : CacheRef) (parentPath : string)
    (children : Children) : M unit :=
  modifyCache self (λ c,
    set_cache
      (alter (λ info, {| index := index info; children := children |})
         parentPath (cache c)) c).

(** [BaseCache.updateChildName] *)
Definition BaseCache_updateChildName (self : CacheRef) (parentPath : string)
    (newName oldName : option string) (locationType : string) : M bool :=
  info <- cache_get self parentPath;;
  match info with
  | Some info =>
      children <-
        PyM.lift
          (children ←!
             match oldName with
             | Some oldName =>
                 if contains (children info) oldName
                 then children_remove (children info) oldName
                 else inr (children info)
             | None => inr (children info)
             end;
           match truthy newName with
           | Some newName => children_append children newName
           | None => inr children
           end);;
      set_children self parentPath children;;
      PyM.ret true
  | None => PyM.ret false
  end.

(** [LightRigCache.updateChildName] *)
Definition LightRigCache_updateChildName (self : CacheRef)
    (parentPath : string) (newName oldName : option string)
    (locationType : string) : M bool :=
  info <- cache_get self parentPath;;
  match info with
  | Some info =>
      children <-
        PyM.lift
          (children ←!
             match oldName with
             | Some oldName =>
                 if contains (children info) oldName
                 then children_delitem (children info) oldName
                 else inr (children info)
             | None => inr (children info)
             end;
           match truthy newName with
           | Some newName => children_setitem children newName locationType
           | None => inr children
           end);;
      set_children self parentPath children;;
      PyM.ret true
  | None => PyM.ret false
  end.

(** [cache.updateChildName(...)]: the method of the class of the cache. *)
Definition updateChildName (self : CacheRef) (parentPath : string)
    (newName oldName : option string) (locationType : string) : M bool :=
  match classOf self with
  | BaseCache =>
      BaseCache_updateChildName self parentPath newName oldName locationType
  | LightRigCache =>
      LightRigCache_updateChildName self parentPath newName oldName
        locationType
  end.

(** [InternalControl.findAndUpdateChildName] *)
Definition findAndUpdateChildName (parentPath : string)
    (newName oldName : option string) (locationType : string)
    (parentType : option string) : M unit :=
  match truthy parentType with
  | Some parentType =>
      match getCacheOfLocationType parentType with
      | Some parentCache =>
          updateChildName parentCache parentPath newName oldName
            locationType;;
          PyM.ret tt
      | None => PyM.raise Py.AttributeError
      end
  | None =>
      if decide (locationType = "light") then
        updated <- updateChildName Light parentPath newName oldName
                     locationType;;
        if (updated : bool) then PyM.ret tt
        else
          updateChildName Rig parentPath newName oldName locationType;;
          PyM.ret tt
      else if decide (locationType = "light filter") then
        updated <- updateChildName LightFilter parentPath newName oldName
                     locationType;;
        if (updated : bool) then PyM.ret tt
        else
          updateChildName Light parentPath newName oldName locationType;;
          PyM.ret tt
      else
        match getCacheOfLocationType locationType with
        | Some cache =>
            updateChildName cache parentPath newName oldName locationType;;
            PyM.ret tt
        | None => PyM.raise Py.AttributeError
        end
  end.

(** [BaseCache.renameLocation] and [recursiveRenameChildLocation], with
    the override of [LightRigCache].  [depth] is the number of nested calls
    the interpreter still allows; beyond it a call raises. *)
Fixpoint renameLocation (depth : nat) (self : CacheRef)
    (oldLocation newLocation : string) {struct depth} : M unit :=
  match depth with
  | 0 => PyM.raise Py.RecursionError
  | S depth =>
      info <- cache_pop self oldLocation;;
      cache_setitem self newLocation info;;
      nodeCall self (NodeRenameLocation (index info) newLocation);;
      renameSingleLocation oldLocation newLocation;;
      recursiveRenameChildLocation depth self oldLocation (children info)
        newLocation
  end
with recursiveRenameChildLocation (depth : nat) (self : CacheRef)
    (parentPath : string) (children : Children) (newParentPath : string)
    {struct depth} : M unit :=
  match depth with
  | 0 => PyM.raise Py.RecursionError
  | S depth =>
      match classOf self with
      | BaseCache =>
          PyM.for_each (iter_names children) (λ childName,
            let location := getLocationPath parentPath childName in
            let newLocation := getLocationPath newParentPath childName in
            cached <- cache_get self location;;
            match cached with
            | Some _ =>
                info <- cache_pop self location;;
                cache_setitem self newLocation info;;
                nodeCall self (NodeRenameLocation (index info) newLocation);;
                renameSingleLocation location newLocation;;
                recursiveRenameChildLocation depth self location
                  (DreamGaffer.children info) newLocation
            | None => PyM.ret tt
            end)
      | LightRigCache =>
          items <- PyM.lift (iteritems children);;
          PyM.for_each items (λ '(childName, childType),
            let location := getLocationPath parentPath childName in
            let newLocation := getLocationPath newParentPath childName in
            if decide (childType = locationType self) then
              cached <- cache_get self location;;
              match cached with
              | Some _ =>
                  info <- cache_pop self location;;
                  cache_setitem self newLocation info;;
                  nodeCall self
                    (NodeRenameLocation (index info) newLocation);;
                  renameSingleLocation location newLocation;;
                  recursiveRenameChildLocation depth self location
                    (DreamGaffer.children info) newLocation
              | None => PyM.ret tt
              end
            else
              match getCacheOfLocationType childType with
              | Some childCache =>
                  renameLocation depth childCache location newLocation
              | None => PyM.ret tt
              end)
      end
  end.

(** [BaseCache.rename] *)
Definition rename (depth : nat) (self : CacheRef) (oldLocation newName : string)
    : M unit :=
  PyM.try_except
    (let parentPath := PyString.dirname oldLocation in
     let newLocation := getLocationPath parentPath newName in
     let oldName := PyString.basename oldLocation in
     findAndUpdateChildName parentPath (Some newName) (Some oldName)
       (locationType self) None;;
     renameLocation depth self oldLocation newLocation).

(** [BaseCache.recursiveRemoveLocation], with the override of
    [LightRigCache]. *)
Fixpoint recursiveRemoveLocation (depth : nat) (self : CacheRef)
    (parentPath name : string) {struct depth} : M unit :=
  match depth with
  | 0 => PyM.raise Py.RecursionError
  | S depth =>
      PyM.try_except
        (let location := getLocationPath parentPath name in
         lightInfo <- cache_pop self location;;
         modifyCache self (λ c, set_unused (unused c ++ [index lightInfo]) c);;
         nodeCall self (NodeRemoveLocationAtIndex (index lightInfo));;
         removeSingleLocation location;;
         match classOf self with
         | BaseCache =>
             PyM.for_each (iter_names (children lightInfo)) (λ childName,
               recursiveRemoveLocation depth self location childName)
         | LightRigCache =>
             items <- PyM.lift (iteritems (children lightInfo));;
             PyM.for_each items (λ '(childName, childType),
               if decide (childType = locationType self) then
                 recursiveRemoveLocation depth self location childName
               else
                 match getCacheOfLocationType childType with
                 | Some childCache =>
                     recursiveRemoveLocation depth childCache location
                       childName
                 | None => PyM.ret tt
                 end)
         end)
  end.

(** [BaseCache.recursiveDuplicateLocation], with the override of
    [LightRigCache]. *)
Fixpoint recursiveDuplicateLocation (depth : nat) (self : CacheRef)
    (srcLocation dstLocation : string) {struct depth} : M unit :=
  match depth with
  | 0 => PyM.raise Py.RecursionError
  | S depth =>
      src <- cache_get self srcLocation;;
      match src with
      | None => PyM.ret tt
      | Some src =>
          let srcIndex := index src in
          dstIndex <- getIndexForNewLocation self;;
          copied <-
            PyM.lift
              (match classOf self with
               | BaseCache => children_slice (children src)
               | LightRigCache => children_copy (children src)
               end);;
          cache_setitem self dstLocation
            {| index := dstIndex; children := copied |};;
          nodeCall self (NodeDuplicateLocation srcIndex dstIndex dstLocation);;
          duplicateSingleLocation srcLocation dstLocation;;
          src <- cache_getitem self srcLocation;;
          match classOf self with
          | BaseCache =>
              PyM.for_each (iter_names (children src)) (λ name,
                recursiveDuplicateLocation depth self
                  (getLocationPath srcLocation name)
                  (getLocationPath dstLocation name))
          | LightRigCache =>
              items <- PyM.lift (iteritems (children src));;
              PyM.for_each items (λ '(name, locationType),
                let childLocationSrc := getLocationPath srcLocation name in
                let childLocationDst := getLocationPath dstLocation name in
                if decide (locationType = DreamGaffer.locationType self) then
                  recursiveDuplicateLocation depth self childLocationSrc
                    childLocationDst
                else
                  match getCacheOfLocationType locationType with
                  | Some childCache =>
                      recursiveDuplicateLocation depth childCache
                        childLocationSrc childLocationDst
                  | None => PyM.ret tt
                  end)
          end
      end
  end.

(** [BaseCache.getChildren] and [LightRigCache.getChildren]; [None] when
    the parent is not cached. *)
Definition getChildren (self : CacheRef) (parentPath : string)
    : M (option (list string)) :=
  info <- cache_get self parentPath;;
  match info with
  | Some info =>
      match classOf self with
      | BaseCache => PyM.ret (Some (iter_names (children info)))
      | LightRigCache =>
          names <- PyM.lift (keys (children info));;
          PyM.ret (Some names)
      end
  | None => PyM.ret None
  end.

(** [BaseCache.addLocation] and [LightRigCache.addLocation] *)
Definition addLocation (self : CacheRef) (locationPath : string)
    (index : nat) (isChild : bool) : M unit :=
  cache_setitem self locationPath
    {| index := index;
       children := match classOf self with
                   | BaseCache => ChildList []
                   | LightRigCache => ChildDict ∅
                   end |};;
  c <- PyM.gets (getCache self);;
  (match node c with
   | Some _ => PyM.ret tt
   | None =>
       created <- initTargetNode self;;
       modifyCache self (set_node (Some created))
   end);;
  nodeCall self
    (NodeAddLocationAtIndex locationPath index
       match classOf self with
       | BaseCache => Some isChild
       | LightRigCache => None
       end).

(** [Helper.getUnusedName], whose loop ends (see
    [getUnusedName_loop_total]). *)
Definition Helper_getUnusedName (basename : string) (children : list string)
    : M string :=
  match Helper.getUnusedName basename children with
  | Some name => PyM.ret name
  | None => PyM.raise Py.Diverges
  end.

(** [not children] *)
Definition falsy (children : option (list string)) : bool :=
  match children with
  | Some (_ :: _) => false
  | _ => true
  end.

(** [BaseCache.getUnusedName] *)
Definition getUnusedName (self : CacheRef) (parentPath basename : string)
    : M string :=
  c <- PyM.gets (getCache self);;
  if decide (parentPath = "") then
    if decide (cache c !! basename = None) then PyM.ret basename
    else Helper_getUnusedName basename (map_to_list (cache c)).*1
  else
    children <- getChildren self parentPath;;
    children <-
      (if falsy children then getChildren Rig parentPath
       else PyM.ret children);;
    let children :=
      if falsy children then
        (λ each, PyString.relpath each parentPath)
          <$> filter (λ each, PyString.startswith each parentPath = true)
                (map_to_list (cache c)).*1
      else default [] children in
    Helper_getUnusedName basename children.

(** *** class InternalControl *)

(** [InternalControl.rename] *)
Definition InternalControl_rename (depth : nat)
    (locationPath newName locationType : string) : M unit :=
  match getCacheOfLocationType locationType with
  | Some cache => rename depth cache locationPath newName
  | None => PyM.raise Py.AttributeError
  end.

(** [InternalControl.removeLocation] *)
Definition removeLocation (depth : nat)
    (parentPath location locationType : string) : M unit :=
  let name := PyString.basename location in
  findAndUpdateChildName parentPath None (Some name) locationType None;;
  match getCacheOfLocationType locationType with
  | Some cache => recursiveRemoveLocation depth cache parentPath name
  | None => PyM.raise Py.AttributeError
  end.

(** [InternalControl.duplicateLocation] *)
Definition duplicateLocation (depth : nat)
    (srcLocation locationType : string) : M unit :=
  PyM.try_except
    (let parentPath := PyString.dirname srcLocation in
     match getCacheOfLocationType locationType with
     | Some cache =>
         name <- getUnusedName cache parentPath
                   (PyString.basename srcLocation);;
         let dstLocation := getLocationPath parentPath name in
         findAndUpdateChildName parentPath (Some name) None locationType
           None;;
         recursiveDuplicateLocation depth cache srcLocation dstLocation
     | None => PyM.raise Py.AttributeError
     end).

(** [InternalControl.addLocation] *)
Definition InternalControl_addLocation (parentPath basename : string)
    (parentType : option string) (locationType : string)
    : M (string * nat * CacheRef) :=
  match getCacheOfLocationType locationType with
  | Some cache =>
      name <- getUnusedName cache parentPath basename;;
      index <- getIndexForNewLocation cache;;
      let fullPath := getLocationPath parentPath name in
      let isChild := bool_decide (truthy parentType = Some locationType) in
      addLocation cache fullPath index isChild;;
      (match truthy parentType with
       | Some _ =>
           findAndUpdateChildName parentPath (Some name) None locationType
             parentType
       | None => PyM.ret tt
       end);;
      PyM.ret (name, index, cache)
  | None => PyM.raise Py.AttributeError
  end.

(** [InternalControl.__init__] on a node without create nodes: the caches
    are built from nothing. *)
Definition emptyCache : Cache :=
  {| cache := ∅; unused := []; node := None |}.

Definition InternalControl_init : InternalControl :=
  {| lightCache := emptyCache; rigCache := emptyCache;
     materialCache := emptyCache; lightFilterCache := emptyCache;
     adoptedLocations := []; materialEditNode := None |}.

End DreamGaffer.

(** ** SuperTools/DreamGaffer/Cache.py and InternalControl.py: the
    remaining methods *)
Module GafferCache.
Import DreamGaffer.

(** [BaseCache.clearCache] *)
Definition clearCache (self : CacheRef) : M unit :=
  modifyCache self (set_unused []);;
  modifyCache self (set_cache ∅).

(** [BaseCache.locationExists] *)
Definition locationExists (self : CacheRef) (location : string) : M bool :=
  info <- cache_get self location;;
  match info with
  | Some _ => PyM.ret true
  | None => PyM.ret false
  end.

(** [BaseCache.getIndexForLocation]: an entry is a dict with two keys, so
    one that is found is truthy; without one the method returns [None]. *)
Definition getIndexForLocation (self : CacheRef) (location : string)
    : M (option nat) :=
  info <- cache_get self location;;
  match info with
  | Some info => PyM.ret (Some (index info))
  | None => PyM.ret None
  end.

(** [BaseCache.getLocationList] *)
Definition getLocationList (self : CacheRef) : M (list string) :=
  PyM.gets (λ control, (map_to_list (cache (getCache self control))).*1).

(** [BaseCache.addChildToParent] and [LightRigCache.addChildToParent] *)
Definition BaseCache_addChildToParent (self : CacheRef)
    (parentPath childName locationType : string) : M bool :=
  info <- cache_get self parentPath;;
  match info with
  | None => PyM.ret false
  | Some info =>
      children <- PyM.lift (children_append (children info) childName);;
      set_children self parentPath children;;
      PyM.ret true
  end.

Definition LightRigCache_addChildToParent (self : CacheRef)
    (parentPath childName locationType : string) : M bool :=
  info <- cache_get self parentPath;;
  match info with
  | None => PyM.ret false
  | Some info =>
      children <-
        PyM.lift (children_setitem (children info) childName locationType);;
      set_children self parentPath children;;
      PyM.ret true
  end.

Definition addChildToParent (self : CacheRef)
    (parentPath childName locationType : string) : M bool :=
  match classOf self with
  | BaseCache =>
      BaseCache_addChildToParent self parentPath childName locationType
  | LightRigCache =>
      LightRigCache_addChildToParent self parentPath childName locationType
  end.

(** [BaseCache.removeChild] and [LightRigCache.removeChild]: [False] when
    the parent is not cached, [True] when the child was removed, and
    [None] when the parent does not record the child. *)
Definition BaseCache_removeChild (self : CacheRef)
    (parentPath childName : string) : M (option bool) :=
  info <- cache_get self parentPath;;
  match info with
  | None => PyM.ret (Some false)
  | Some info =>
      if contains (children info) childName then
        children <- PyM.lift (children_remove (children info) childName);;
        set_children self parentPath children;;
        PyM.ret (Some true)
      else PyM.ret None
  end.

Definition LightRigCache_removeChild (self : CacheRef)
    (parentPath childName : string) : M (option bool) :=
  info <- cache_get self parentPath;;
  match info with
  | None => PyM.ret (Some false)
  | Some info =>
      if contains (children info) childName then
        children <- PyM.lift (children_delitem (children info) childName);;
        set_children self parentPath children;;
        PyM.ret (Some true)
      else PyM.ret None
  end.

Definition removeChild (self : CacheRef) (parentPath childName : string)
    : M (option bool) :=
  match classOf self with
  | BaseCache => BaseCache_removeChild self parentPath childName
  | LightRigCache => LightRigCache_removeChild self parentPath childName
  end.

(** What [buildCache] reads from the create node it is given: the calls
    made on the node so far and the values [child.getValue(0)] of the
    children of its [locations] parameter. *)
Record TargetNode : Type := {
  calls : list NodeCall;
  locations : list string
}.

(** [for i, child in enumerate(p.getChildren())]: the indices of the empty
    slots are appended to [unused], the other slots are entered into the
    dict [locationList]. *)
Fixpoint scanLocations (i : nat) (values : list string)
    (unused : list nat) (locationList : gmap string nat)
    : list nat * gmap string nat :=
  match values with
  | [] => (unused, locationList)
  | value :: values' =>
      if decide (value = "") then
        scanLocations (S i) values' (unused ++ [i]) locationList
      else
        scanLocations (S i) values' unused (<[value := i]> locationList)
  end.

(** [BaseCache.buildCache] and [LightRigCache.buildCache] *)
Definition buildCache (self : CacheRef) (targetNode : option TargetNode)
    : M unit :=
  match targetNode with
  | None => PyM.ret tt
  | Some targetNode =>
      modifyCache self (set_node (Some (calls targetNode)));;
      c <- PyM.gets (getCache self);;
      let '(unused, locationList) :=
        scanLocations 0 (locations targetNode) (unused c) ∅ in
      modifyCache self (set_unused unused);;
      PyM.for_each (map_to_list locationList) (λ '(location, i),
        cache_setitem self location
          {| index := i;
             children := match classOf self with
                         | BaseCache => ChildList []
                         | LightRigCache => ChildDict ∅
                         end |});;
      PyM.for_each (map_to_list locationList).*1 (λ location,
        let parent := PyString.dirname location in
        if decide (parent = "") then PyM.ret tt
        else
          let childName := PyString.basename location in
          added <- addChildToParent self parent childName
                     (locationType self);;
          if (added : bool) then PyM.ret tt
          else
            match classOf self with
            | BaseCache =>
                if decide (locationType self = "light filter") then
                  addChildToParent Light parent childName
                    (locationType self);;
                  PyM.ret tt
                else PyM.ret tt
            | LightRigCache =>
                if decide (locationType self = "light") then
                  addChildToParent Rig parent childName (locationType self);;
                  PyM.ret tt
                else PyM.ret tt
            end)
  end.

(** [InternalControl.locationExists] *)
Definition InternalControl_locationExists (location locationType : string)
    : M bool :=
  match getCacheOfLocationType locationType with
  | None => PyM.ret false
  | Some cache => locationExists cache location
  end.

(** [InternalControl.locationAdopted] *)
Definition locationAdopted (location : string) : M bool :=
  PyM.gets (λ control, bool_decide (location ∈ adoptedLocations control)).

(** [InternalControl.getIndexForLocation] *)
Definition InternalControl_getIndexForLocation
    (location locationType : string) : M (option nat) :=
  match getCacheOfLocationType locationType with
  | None => PyM.ret None
  | Some cache => getIndexForLocation cache location
  end.

(** [InternalControl.clearCache] *)
Definition InternalControl_clearCache : M unit :=
  clearCache Rig;;
  clearCache Light;;
  clearCache Material;;
  clearCache LightFilter.

(** [InternalControl.getAvailableMasterMaterials] *)
Definition getAvailableMasterMaterials : M (list string) :=
  getLocationList Material.

(** [InternalControl.move] *)
Definition move (depth : nat) (oldLocation newLocation locationType : string)
    (oldParentType newParentType : option string) : M unit :=
  (match truthy oldParentType with
   | Some oldParentType =>
       let childName := PyString.basename oldLocation in
       let parentPath := PyString.dirname oldLocation in
       match getCacheOfLocationType oldParentType with
       | Some cache => removeChild cache parentPath childName;; PyM.ret tt
       | None => PyM.raise Py.AttributeError
       end
   | None => PyM.ret tt
   end);;
  (match truthy newParentType with
   | Some newParentType =>
       let newParentPath := PyString.dirname newLocation in
       let childName := PyString.basename newLocation in
       match getCacheOfLocationType newParentType with
       | Some newParentCache =>
           addChildToParent newParentCache newParentPath childName
             locationType;;
           PyM.ret tt
       | None => PyM.raise Py.AttributeError
       end
   | None => PyM.ret tt
   end);;
  PyM.try_except
    (match getCacheOfLocationType locationType with
     | Some cache => renameLocation depth cache oldLocation newLocation
     | None => PyM.raise Py.AttributeError
     end).

End GafferCache.

(** ** Plugins/DreamGaffer/SharedFunc.py

    The create nodes keep one child per location in the array parameter
    [locations] and three children per location in [translate], [rotate]
    and [scale].  The children of [locations] are kept as the strings
    [child.getValue(0)] returns; what the host keeps in a number
    parameter (a value, a curve or an expression) is left to the host. *)
Module SharedFunc.

(** The host's number parameters, and the child [param.resizeArray] adds
    to an array of numbers and to an array of strings. *)
Class ParamHost : Type := {
  Param : Type;
  Curve : Type;
  Expression : Type;
  Value : Type;
  newChild : Param;
  newString : string;
  (** the Python numbers [0] and [1] as parameter values *)
  number : Z → Value;
  isAnimated : Param → bool;
  getCurve : Param → Curve;
  setCurve : Curve → Param → Param;
  getAutoKey : Param → bool;
  setAutoKey : bool → Param → Param;
  isExpression : Param → bool;
  getExpression : Param → Expression;
  setExpression : Expression → Param → Param;
  (** [p.getValue(0)], [p.setValue(v, 0)] *)
  getValue : Param → Value;
  setValue : Value → Param → Param
}.

Section WithParams.
Context `{params : ParamHost}.

(** The array parameters of a MultiRigCreate node. *)
Record Node : Type := {
  locations : list string;
  order : list Param;
  translate : list Param;
  rotate : list Param;
  scale : list Param
}.

Definition set_locations (v : list string) (node : Node) : Node :=
  {| locations := v; order := order node; translate := translate node;
     rotate := rotate node; scale := scale node |}.

Definition set_order (v : list Param) (node : Node) : Node :=
  {| locations := locations node; order := v; translate := translate node;
     rotate := rotate node; scale := scale node |}.

(** [paramName] in [["translate", "rotate", "scale"]] *)
Inductive Xform : Type := Translate | Rotate | Scale.

Global Instance Xform_eq_dec : EqDecision Xform.
Proof. solve_decision. Defined.

(** [node.getParameter(paramName)] *)
Definition getParameter (paramName : Xform) (node : Node) : list Param :=
  match paramName with
  | Translate => translate node
  | Rotate => rotate node
  | Scale => scale node
  end.

Definition setParameter (paramName : Xform) (v : list Param) (node : Node)
    : Node :=
  {| locations := locations node; order := order node;
     translate := if decide (paramName = Translate) then v
                  else translate node;
     rotate := if decide (paramName = Rotate) then v else rotate node;
     scale := if decide (paramName = Scale) then v else scale node |}.

(** [param.getChildByIndex(index).setValue(...)]: [getChildByIndex]
    returns [None] when the array has no such child. *)
Definition child_setValue {A : Type} (children : list A) (index : nat)
    (v : A → A) : Py.result (list A) :=
  match children !! index with
  | Some child => inr (<[index := v child]> children)
  | None => inl Py.AttributeError
  end.

(** [node.getParameter(paramName).getChildByIndex(index).setValue(v, 0)] *)
Definition xform_setValue (paramName : Xform) (index : nat) (v : Z)
    : PyM.M Node unit :=
  node <- PyM.get;;
  children <-
    PyM.lift (child_setValue (getParameter paramName node) index
                (setValue (number v)));;
  PyM.modify (setParameter paramName children).

Definition locations_setValue (index : nat) (v : string) : PyM.M Node unit :=
  node <- PyM.get;;
  children <- PyM.lift (child_setValue (locations node) index (λ _, v));;
  PyM.modify (set_locations children).

(** [def copyParamToParam(srcParam, dstParam)] *)
Definition copyParamToParam (srcParam dstParam : Param) : Param :=
  if isAnimated srcParam then
    setAutoKey (getAutoKey srcParam) (setCurve (getCurve srcParam) dstParam)
  else if isExpression srcParam then
    setExpression (getExpression srcParam) dstParam
  else setValue (getValue srcParam) dstParam.

(** [def initXformParam(node)]: the three new children exist when the
    scale is set. *)
Definition initXformParam (node : Node) : Node :=
  foldl (λ node paramName,
           let param := getParameter paramName node in
           let num := length param in
           let param := param ++ replicate 3 newChild in
           let param :=
             if decide (paramName = Scale) then
               alter (setValue (number 1)) (num + 2)
                 (alter (setValue (number 1)) (num + 1)
                    (alter (setValue (number 1)) num param))
             else param in
           setParameter paramName param node)
    node [Translate; Rotate; Scale].

(** [def addLocationAtIndex(node, locName, index)]; [increaseArrays] is
    the method of the node. *)
Definition addLocationAtIndex (increaseArrays : Node → Node)
    (locName : string) (index : nat) : PyM.M Node unit :=
  node <- PyM.get;;
  (if decide (index = length (locations node)) then
     PyM.modify increaseArrays
   else PyM.ret tt);;
  locations_setValue index locName.

(** [def renameLocation(node, index, newLocation)] *)
Definition renameLocation (index : nat) (newLocation : string) : PyM.M Node unit :=
  locations_setValue index newLocation.

(** [def getListFromParam(node, paramName, frameTime)] for [locations] *)
Definition getListFromParam (node : Node) : list string := locations node.

(** [def getIndexForLocation(node, location)]: the first child with that
    value; without one the function returns [None]. *)
Definition getIndexForLocation (node : Node) (location : string)
    : option nat :=
  fst <$> list_find (λ value, value = location) (locations node).

End WithParams.

Arguments Node {_}.

Abbreviation M := (PyM.M Node).

End SharedFunc.

(** ** Plugins/DreamGaffer/MultiRigCreate.py *)
Module MultiRigCreate.
Import SharedFunc.

Section WithParams.
Context `{params : ParamHost}.

(** [def increaseArrays(self)] *)
Definition increaseArrays (self : Node) : Node :=
  let self := set_locations (locations self ++ [newString]) self in
  let self := set_order (order self ++ [newChild]) self in
  initXformParam self.

(** [nb.setCustomMethod('addLocationAtIndex',
    SharedFunc.addLocationAtIndex)] *)
Definition addLocationAtIndex (locName : string) (index : nat) : M unit :=
  SharedFunc.addLocationAtIndex increaseArrays locName index.

(** [def removeLocationAtIndex(self, index)] *)
Definition removeLocationAtIndex (index : nat) : M unit :=
  locations_setValue index "";;
  PyM.for_each [Translate; Rotate; Scale] (λ paramName,
    let newValue := if decide (paramName = Scale) then 1%Z else 0%Z in
    xform_setValue paramName (index * 3) newValue;;
    xform_setValue paramName (index * 3 + 1) newValue;;
    xform_setValue paramName (index * 3 + 2) newValue).

(** [SharedFunc.copyParamToParam(param.getChildByIndex(src),
    param.getChildByIndex(dst))]: a missing child is [None], on which the
    first method call fails. *)
Definition xform_copy (paramName : Xform) (src dst : nat) : M unit :=
  node <- PyM.get;;
  let param := getParameter paramName node in
  match param !! src, param !! dst with
  | Some srcParam, Some dstParam =>
      PyM.modify
        (setParameter paramName
           (<[dst := copyParamToParam srcParam dstParam]> param))
  | _, _ => PyM.raise Py.AttributeError
  end.

(** [def duplicateLocation(self, srcIndex, dstIndex, dstLocation)] *)
Definition duplicateLocation (srcIndex dstIndex : nat)
    (dstLocation : string) : M unit :=
  addLocationAtIndex dstLocation dstIndex;;
  PyM.for_each [Translate; Rotate; Scale] (λ paramName,
    xform_copy paramName (srcIndex * 3) (dstIndex * 3);;
    xform_copy paramName (srcIndex * 3 + 1) (dstIndex * 3 + 1);;
    xform_copy paramName (srcIndex * 3 + 2) (dstIndex * 3 + 2)).

End WithParams.

End MultiRigCreate.

(** ** Helper.py: the second function *)
Module HelperNames.

(** [def stripNodeName(paramName)]:
    [".".join(paramName.split(".")[1:])] *)
Definition stripNodeName (paramName : string) : string :=
  PyString.join "." (drop 1 (PyString.split "."%char paramName)).

End HelperNames.

(** ** MoonrayRenderManager.py: the render log and the live-attribute
    wrapper *)
Module RenderManagerSetup.
Import FnAttribute MoonrayRenderManager.

(** [message.split(' -')] *)
Fixpoint split_space_dash (s : string) : list string :=
  match s with
  | "" => [""]
  | String c s' =>
      match s' with
      | String d s'' =>
          if Ascii.eqb c " " && Ascii.eqb d "-" then
            "" :: split_space_dash s''
          else
            match split_space_dash s' with
            | [] => [String c ""]
            | w :: ws => String c w :: ws
            end
      | "" => [String c ""]
      end
  end.

(** The characters [str.split()] splits at. *)
Definition isspace (c : ascii) : bool :=
  Ascii.eqb c " " || Ascii.eqb c "009" || Ascii.eqb c "010"
  || Ascii.eqb c "011" || Ascii.eqb c "012" || Ascii.eqb c "013".

(** [arg.split()]: the words between runs of whitespace. *)
Fixpoint split_whitespace (s : string) : list string :=
  match s with
  | "" => []
  | String c s' =>
      if isspace c then split_whitespace s'
      else
        match s' with
        | "" => [String c ""]
        | String d _ =>
            if isspace d then String c "" :: split_whitespace s'
            else
              match split_whitespace s' with
              | [] => [String c ""]
              | w :: ws => String c w :: ws
              end
        end
  end.

(** [' ' in s] *)
Fixpoint has_space (s : string) : bool :=
  match s with
  | "" => false
  | String c s' => Ascii.eqb c " " || has_space s'
  end.

(** [for arg in args[1:]]: an argument that does not split into two words
    is passed over. *)
Fixpoint collectArguments (args : list string) (ret : gmap string string)
    : gmap string string :=
  match args with
  | [] => ret
  | arg :: args' =>
      match split_whitespace arg with
      | [argument; value] => collectArguments args' (<[argument := value]> ret)
      | _ => collectArguments args' ret
      end
  end.

(** [MoonrayRenderManager.parseRenderbootMsg]: [args[0].rsplit(' ', 1)]
    gives two parts, which the tuple assignment needs, when [args[0]]
    holds a space; otherwise the assignment raises [ValueError]. *)
Definition parseRenderbootMsg (message : string)
    : Py.result (gmap string string) :=
  match split_space_dash message with
  | [] => inl Py.IndexError
  | first :: rest =>
      if has_space first then inr (collectArguments rest ∅)
      else inl (Py.Exception "ValueError")
  end.

Section WithHost.
Context `{host : Host}.

(** [bool(attrValue)] for an attribute object. *)
Variable attr_bool : Attribute → bool.

(** What the host reports when [isValidUpdate] is called:
    [RenderManager.RenderGlobals.IsRerendering()],
    [Nodes3DAPI.UpdateModes.GetUpdateMode()] and
    [Nodes3DAPI.UpdateModes.Continuous]. *)
Record UpdateWorld : Type := {
  IsRerendering : bool;
  GetUpdateMode : Z;
  Continuous : Z
}.

(** [isValidUpdate], a closure over the dict [attrHashes]; [attrValue] is
    [None] or an attribute object. *)
Definition isValidUpdate (w : UpdateWorld) (locationPath attrPath : string)
    (attrValue : option Attribute) : PyM.M (gmap string string) bool :=
  if negb (IsRerendering w) then PyM.ret false
  else if decide (GetUpdateMode w < Continuous w)%Z then PyM.ret false
  else if negb (PyString.startswith locationPath "/root") then PyM.ret false
  else
    let attrHash :=
      match attrValue with
      | Some a => if attr_bool a then Some (attr_getHash a) else None
      | None => None
      end in
    let attributeKey := locationPath +:+ "|" +:+ attrPath in
    attrHashes <- PyM.get;;
    let cachedAttrHash := attrHashes !! attributeKey in
    if decide (attrHash = cachedAttrHash) then PyM.ret false
    else
      (match attrHash with
       | None =>
           match attrHashes !! attributeKey with
           | Some _ => PyM.modify (base.delete attributeKey)
           | None => PyM.raise Py.KeyError
           end
       | Some attrHash => PyM.modify (<[attributeKey := attrHash]>)
       end);;
      PyM.ret true.

End WithHost.

End RenderManagerSetup.


(** * Specification vocabulary

    The predicates and reference functions the theorems are stated with. *)

Section Vocabulary.
Import Helper FnAttribute NodeTypeBuilder GenerateImplicitResolversList.

(** The claim as written quantifies over every valuation of the
    parameters. *)
Definition PruneByFrustum_appends_for (node : RegisterPruneByFrustum.Node)
    (interface : BuildChainInterface) : Prop :=
  RegisterPruneByFrustum.buildPruneByFrustumOpChain node interface
  = inr (appendOp interface "PruneByFrustum"
     (GroupAttribute
        [("system", systemOpArgs interface);
         ("cameraLocation",
            StringAttribute (RegisterPruneByFrustum.camera_location node));
         ("CEL", StringAttribute (RegisterPruneByFrustum.CEL node));
         ("method", StringAttribute (RegisterPruneByFrustum.method node));
         ("executionMode",
            StringAttribute (RegisterPruneByFrustum.executionMode node));
         ("prune_primitives",
            IntAttribute (RegisterPruneByFrustum.prune_primitives node));
         ("padding", FloatAttribute (RegisterPruneByFrustum.padding node));
         ("invert", IntAttribute (RegisterPruneByFrustum.invert node))])).

Definition DeferredPrune_appends_for (node : RegisterDeferredPrune.Node)
    (interface : BuildChainInterface) : Prop :=
  RegisterDeferredPrune.buildDeferredPruneOpChain node interface
  = inr (appendOp interface "DeferredPrune"
     (GroupAttribute
        [("system", systemOpArgs interface);
         ("CEL", StringAttribute (RegisterDeferredPrune.CEL node))])).

(** The number of stage markers among the first [i] ops of a chain, and
    the priority of the stage the op at index [i] lies in. *)
Definition noopsBefore (chain : list OpArgs) (i : nat) : nat :=
  length (filter (λ op, op.1 = "no-op") (take i chain)).

Definition stagePriority (chain : list OpArgs) (i : nat) : Z :=
  (100 + 200 * Z.of_nat (noopsBefore chain i))%Z.

(** The ops of a chain that are not stage markers, in order, each with
    the priority [F] gives its index. *)
Definition staged (F : nat → Z) (chain : list OpArgs)
    : list (Z * OpArgs) :=
  omap id (imap (λ i op, if decide (op.1 = "no-op") then None
                         else Some (F i, op)) chain).

Definition stagedOps (chain : list OpArgs) : list (Z * OpArgs) :=
  staged (stagePriority chain) chain.

(** [entry] is a collection entry for op [pop.2] carrying priority
    [pop.1]. *)
Definition hostEntry (pop : Z * OpArgs) (entry : Attribute) : Prop :=
  ∃ children,
    entry = GroupAttribute children
    ∧ getChildByName children "priority" = Some (IntAttribute pop.1)
    ∧ getChildByName children "opType" = Some (StringAttribute pop.2.1).

Definition kodachiEntry (priority : Z) (opType : string) : Attribute :=
  GroupAttribute [("priority", IntAttribute priority);
                  ("opType", StringAttribute opType);
                  ("ignore", StringAttribute "none");
                  ("addSystemOpArgs", IntAttribute 1)].

Definition kodachiEntries : list Attribute :=
  [kodachiEntry 100 "DeferredPruneResolve";
   kodachiEntry 400 "CurveReductionOp";
   kodachiEntry 401 "PrimitivePruneByFrustumOp";
   kodachiEntry 402 "PrimitivePruneByVolumeOp";
   kodachiEntry 403 "CurveDensityOp";
   kodachiEntry 404 "CurveWidthOp";
   kodachiEntry 405 "OpSchemaResolve"].

(** The claim as written: the collection consists of one entry for every
    op of the host chain that is not a stage marker, carrying the
    priority of its stage, followed by the seven kodachi entries. *)
Definition collection_as_claimed (walk : list OpArgs) : Prop :=
  ∃ collection hostEntries,
    main walk = inr (GroupAttribute collection)
    ∧ collection.*2 = hostEntries ++ kodachiEntries
    ∧ Forall2 hostEntry (stagedOps (reverse (removelast walk)))
        hostEntries.

End Vocabulary.

(** Hoare triples for methods in [PyM.M]: [Q] holds of the result and the
    state when the method returns, [E] of the state when it raises. *)
Section HoareVocabulary.
Context {S : Type}.

Definition hoare {A : Type} (P : S → Prop) (m : PyM.M S A)
    (Q : A → S → Prop) (E : S → Prop) : Prop :=
  ∀ s, P s → match m s with
             | (s', inr a) => Q a s'
             | (s', inl _) => E s'
             end.

(** The method leaves the view [π] of the state as it was, whether it
    returns or raises. *)
Definition preserves {A X : Type} (π : S → X) (m : PyM.M S A) : Prop :=
  ∀ s, π (m s).1 = π s.

End HoareVocabulary.

Section RenderVocabulary.
Import FnAttribute MoonrayRenderManager.
Context `{host : Host}.

(** Running a list of [setLiveAttr] calls, each with the time at which it
    is made; the results are collected in call order. *)
Fixpoint setLiveAttr_calls (calls : list (string * option Attribute * Z))
    (self : Context) : Context * list (Py.result bool) :=
  match calls with
  | [] => (self, [])
  | (locationPath, attrValue, now) :: calls' =>
      let '(self, r) := setLiveAttr locationPath attrValue now self in
      let '(self, rs) := setLiveAttr_calls calls' self in
      (self, r :: rs)
  end.


(** *** Views of the state of a context *)

(** The [setOpArgs] writes among the committed transaction writes. *)
Definition isSetOpArgs (a : TxnAction) : bool :=
  match a with
  | SetOpArgs _ _ _ => true
  | _ => false
  end.

Definition argsWrites (rt : Runtime) : list TxnAction :=
  List.filter isSetOpArgs (committed rt).

(** A view of the state that reads the runtime through [argsWrites] only. *)
Class LogView {X : Type} (π : Runtime * Context → X) : Prop :=
  log_view : ∀ rt rt' self,
    argsWrites rt = argsWrites rt' → π (rt, self) = π (rt', self).

(** A view that does not read the runtime. *)
Class RuntimeBlind {X : Type} (π : Runtime * Context → X) : Prop :=
  runtime_blind : ∀ rt rt' self, π (rt, self) = π (rt', self).

(** A view that does not read the op-tree bookkeeping of the context. *)
Class OpTreeBlind {X : Type} (π : Runtime * Context → X) : Prop := {
  opDict_blind : ∀ rt self v, π (rt, set_opDict v self) = π (rt, self);
  opTreeBuilder_blind :
    ∀ rt self v, π (rt, set_opTreeBuilder v self) = π (rt, self)
}.

(** What [syncWithNodegraph] is claimed to leave alone when the hash of the
    graph state has not changed. *)
Definition syncView (s : Runtime * Context)
    : GraphState * option string * list nat * list TxnAction :=
  (_gs s.2, _systemArgsHash s.2, _opChain s.2, argsWrites s.1).

Definition gsView (s : Runtime * Context) : GraphState := _gs s.2.

Definition timeView (s : Runtime * Context) : Z := _lastLiveUpdateTime s.2.

(** *** Deltas and messages *)

(** The part of [processUpdates] that precedes the collection of the
    deltas. *)
Definition syncPhase (w : World) : PyM.M (Runtime * OpTreeSender) unit :=
  self <- PyM.gets snd;;
  onContext (_activeContextId self) (onSelf resetLiveAttr);;
  syncContexts w.

(** What [context.buildOpTreeDelta()] returns. *)
Definition deltaOf (context : Context) : Attribute :=
  (otb_buildDelta (_opTreeBuilder context)).2.

(** The contexts with a delta that has children, with that delta, in the
    order the dict is iterated. *)
Definition nonEmptyDeltas (contexts : gmap string Context)
    : list (string * Attribute) :=
  filter (λ cd, 0 < getNumberOfChildren cd.2)
    ((λ cc, (cc.1, deltaOf cc.2)) <$> map_to_list contexts).

(** A name without dots: it addresses a direct child. *)
Definition dotfree (name : string) : Prop := split_dot name = [name].

(** The messages emitted so far, and the ids of the contexts. *)
Definition emittedView (s : Runtime * OpTreeSender) : list Attribute :=
  process_emitted s.2.

Definition domView (s : Runtime * OpTreeSender) : gset string :=
  dom (_contexts s.2).

(** *** Walks along first inputs *)

(** [Steps st op l op']: following first inputs from [op], through the ops
    [l], leads to [op']. *)
Inductive Steps (st : Store) : nat → list nat → nat → Prop :=
  | Steps_nil op : Steps st op [] op
  | Steps_cons op input inputs l op' :
      getInputs st op = input :: inputs →
      Steps st input l op' →
      Steps st op (op :: l) op'.

(** The walk from [start] along first inputs reaches [end_], for the first
    time, after the ops [l]. *)
Definition Walk (st : Store) (end_ start : nat) (l : list nat) : Prop :=
  Steps st start l end_ ∧ end_ ∉ l.

(** The walk from [start] reaches, before [end_], an op without inputs. *)
Definition DeadEnd (st : Store) (end_ start : nat) : Prop :=
  ∃ l op, Steps st start l op ∧ (end_ ∉ l) ∧ op ≠ end_ ∧ getInputs st op = [].

(** Every op after the first has the element before it among its inputs. *)
Definition Linked (st : Store) (chain : list nat) : Prop :=
  ∀ i a b, chain !! i = Some a → chain !! S i = Some b → a ∈ getInputs st b.

Fixpoint linked (st : Store) (chain : list nat) : Prop :=
  match chain with
  | a :: (b :: _) as rest => a ∈ getInputs st b ∧ linked st rest
  | _ => True
  end.

(** Op ids are handed out in order: every op of the store is below
    [nextOp]. *)
Definition wfStore (st : Store) : Prop :=
  ∀ op, op ∈ dom (ops st) → op < nextOp st.

(** [st'] has the ops of [st], with the inputs they had, and possibly more
    ops. *)
Definition extendsStore (st st' : Store) : Prop :=
  wfStore st' ∧ nextOp st ≤ nextOp st'
  ∧ ∀ op, op < nextOp st → getInputs st' op = getInputs st op.

(** No walk along first inputs comes back to an op it has left: the ops
    can be ranked so that the first input of an op ranks below it. *)
Definition acyclic (st : Store) : Prop :=
  ∃ rank : nat → nat,
    map_Forall (λ op d, ∀ input, head (opInputs d) = Some input →
                        rank input < rank op) (ops st).

(** The chain built so far: it ends in [a], its ops are ops of the store,
    and each is an input of the next. *)
Definition ChainInv (st : Store) (chain : list nat) (a : nat) : Prop :=
  last chain = Some a
  ∧ Forall (λ o, o < nextOp st) chain
  ∧ linked st chain.

(** The [renderSettings] attribute holds values where [buildOpChain] reads
    values: a [resolution] that has a value, a [cameraName] that is a
    string. *)
Definition renderSettingsTyped (rs : Attribute) : Prop :=
  (∀ a, attr_getChildByName rs "resolution" = Some a →
        ∃ v, getValue a = inr v)
  ∧ (∀ a, attr_getChildByName rs "cameraName" = Some a →
          ∃ v, getValue a = inr (PyStr v)).

(** What the render manager relies on from the host: implicit resolvers
    are stacked on the op they are applied to, and the render terminal ops
    are new ops chained to each other. *)
Class HostChains : Prop := {
  implicitResolvers_extend st op node gs :
    wfStore st → extendsStore st (ApplyImplicitResolverOps st op node gs).1;
  implicitResolvers_walk st op node gs :
    wfStore st → op < nextOp st →
    ∃ l, Walk (ApplyImplicitResolverOps st op node gs).1 op
           (ApplyImplicitResolverOps st op node gs).2 l;
  terminalOps_extend st renderer method gs :
    wfStore st → extendsStore st (GetRenderTerminalOps st renderer method gs).1;
  terminalOps_chain st renderer method gs :
    wfStore st →
    ∃ first l,
      head (GetRenderTerminalOps st renderer method gs).2 = Some first
      ∧ nextOp st ≤ first
      ∧ first < nextOp (GetRenderTerminalOps st renderer method gs).1
      ∧ Steps (GetRenderTerminalOps st renderer method gs).1
          (List.last (GetRenderTerminalOps st renderer method gs).2 first)
          l first
      ∧ (first ∉ l)
      ∧ Forall (λ t, nextOp st ≤ t) l
}.

End RenderVocabulary.


(** * A small host

    A host with string-named nodes and graph states that are lists of
    entries, on which the methods of the render manager can be run. *)
Module DemoHost.
Import FnAttribute MoonrayRenderManager.

Definition GraphState : Type := list (string * PyValue).

Definition setEntry (k : string) (v : PyValue) (gs : GraphState)
    : GraphState :=
  filter (λ e, e.1 ≠ k) gs ++ [(k, v)].

Definition showValue (v : PyValue) : string :=
  match v with
  | PyInt z => pretty z
  | PyFloat q => pretty (QArith_base.Qnum (this q)) +:+ "/"
                 +:+ pretty (Zpos (QArith_base.Qden (this q)))
  | PyStr s => s
  end.

Definition showEntry (e : string * PyValue) : string :=
  e.1 +:+ "=" +:+ showValue e.2.

(** The ops created and the writes not yet sent. *)
Record OpTreeBuilder : Type := {
  created : nat;
  pending : list (string * Attribute)
}.

(** A new op of the given type on top of [input]. *)
Definition stack (st : Store) (ty : string) (args : Attribute)
    (inputs : list nat) : Store * nat :=
  let rt := {| store := st; committed := [] |} in
  let op := (createOp rt).2 in
  (store (setOpInputs op inputs (setOpArgs op ty args (createOp rt).1)), op).

#[export] Instance demoHost : Host := {|
  Node := string;
  MoonrayRenderManager.GraphState := GraphState;
  MoonrayRenderManager.OpTreeBuilder := OpTreeBuilder;
  OtbOp := nat;
  node_getType := λ node, node;
  node_hash := λ node, Z.of_nat (String.length node);
  connectedInputNode := λ node _, node;
  gs_getHash := λ gs, PyString.join ";" (showEntry <$> gs);
  gs_getOpSystemArgs := λ gs,
    GroupAttribute ((λ e, (e.1, StringAttribute (showValue e.2))) <$> gs);
  gs_setDynamicEntry := setEntry;
  gs_setShutterOpen := setEntry "shutterOpen";
  gs_setShutterClose := setEntry "shutterClose";
  gs_setMaxTimeSamples := setEntry "maxTimeSamples";
  attr_getHash := λ a,
    match a with
    | GroupAttribute children =>
        PyString.join ";"
          ((λ c, match c.2 with
                 | StringAttribute v => c.1 +:+ "=" +:+ v
                 | _ => c.1
                 end) <$> children)
    | _ => "-"
    end;
  GetOp := λ st node gs,
    stack st node (GroupAttribute [("system", GroupAttribute [])]) [];
  GetOpThroughRenderFilters := λ st activeNodes node gs,
    stack st (List.last activeNodes node)
      (GroupAttribute [("system", GroupAttribute [])]) [];
  ApplyImplicitResolverOps := λ st op node gs,
    stack st "RenderSettingsLocalize" (GroupAttribute []) [op];
  GetRenderTerminalOps := λ st renderer method gs,
    let '(st1, t1) := stack st "MoonrayRenderSettings" (GroupAttribute []) [] in
    let '(st2, t2) := stack st1 "KPOPMeta" (GroupAttribute []) [t1] in
    (st2, [t1; t2]);
  cookRootAttrs := λ st op,
    Some (GroupAttribute
            [("renderSettings",
              GroupAttribute [("resolution", StringAttribute "hd")])]);
  getResolution := λ name, (1920, 1080)%Z;
  AttributeSet_build := λ paths sets deletes,
    GroupAttribute [("locationPaths", StringArrayAttribute paths);
                    ("setAttrs", GroupAttribute sets);
                    ("deleteAttrs", StringArrayAttribute deletes)];
  otb_new := {| created := 0; pending := [] |};
  otb_createOp := λ otb,
    ({| created := S (created otb); pending := pending otb |}, created otb);
  otb_setOpArgs := λ op ty args otb,
    {| created := created otb;
       pending := pending otb
                  ++ [(pretty op,
                       GroupAttribute [("opType", StringAttribute ty);
                                       ("opArgs", args)])] |};
  otb_setOpInputs := λ op inputs otb,
    {| created := created otb;
       pending := pending otb
                  ++ [(pretty op,
                       GroupAttribute
                         [("opInputs",
                           StringArrayAttribute (pretty <$> inputs))])] |};
  otb_build := λ otb op, (otb, GroupAttribute (pending otb));
  otb_buildDelta := λ otb,
    ({| created := created otb; pending := [] |},
     GroupAttribute (pending otb))
|}.

Definition demoWorld : World := {|
  GetCurrentGraphState := [];
  getActiveRenderFilterNodes := [];
  getSelectedLocations := [];
  GetRenderIDPass := true;
  uuid4 := "6fa459ea-ee8a-3ca4-894e-db77e160355e"
|}.

Definition emptyRuntime : Runtime :=
  {| store := {| ops := ∅; nextOp := 0 |}; committed := [] |}.

(** A context as [__init__] sets it up before its first sync. *)
Definition newContext (contextId : string) (rmt : RenderMethodType)
    (now : Z) : Context := {|
  _contextId := contextId; _index := 0; _node := "GafferThree";
  _nodeIsRender := false; _rmt := rmt;
  _renderId := StringAttribute (uuid4 demoWorld);
  _liveAttrSet := false; _liveAttrs := ∅; _liveAttrOp := None;
  _nodeOp := None; _client := None; _opChain := [];
  _lastLiveUpdateTime := now; _lastUpdateTime := None;
  _renderSelected := false; _isMultiContext := false;
  isArrasRender := false; _gs := []; _renderOp := None;
  _opTreeBuilder := otb_new; _opDict := ∅;
  _renderSettingsLocalizeOp := None; _systemArgsHash := None;
  _liveAttrOtbOp := None
|}.

(** One op that is made its own input. *)
Definition loopStore : Store :=
  store (setOpInputs 0 [0] (createOp emptyRuntime).1).

(** Three ops in a row: 2 reads 1, 1 reads 0, 0 has no inputs. *)
Definition demoStore : Store := {|
  ops := <[2 := {| opType := "AttributeSet"; opArgs := GroupAttribute [];
                   opInputs := [1] |}]>
         (<[1 := {| opType := "RenderSettingsLocalize";
                    opArgs := GroupAttribute []; opInputs := [0] |}]>
          (<[0 := newOpData]> ∅));
  nextOp := 3
|}.

(** The demo host, but for a host that hands out the same op every time it
    is asked for the op of a node, as long as the node graph is not
    edited. *)
Definition stableHost : Host := {|
  Node := string;
  MoonrayRenderManager.GraphState := GraphState;
  MoonrayRenderManager.OpTreeBuilder := OpTreeBuilder;
  OtbOp := nat;
  node_getType := @node_getType demoHost;
  node_hash := @node_hash demoHost;
  connectedInputNode := @connectedInputNode demoHost;
  gs_getHash := @gs_getHash demoHost;
  gs_getOpSystemArgs := @gs_getOpSystemArgs demoHost;
  gs_setDynamicEntry := @gs_setDynamicEntry demoHost;
  gs_setShutterOpen := @gs_setShutterOpen demoHost;
  gs_setShutterClose := @gs_setShutterClose demoHost;
  gs_setMaxTimeSamples := @gs_setMaxTimeSamples demoHost;
  attr_getHash := @attr_getHash demoHost;
  GetOp := λ st node gs,
    match ops st !! 0 with
    | Some _ => (st, 0)
    | None =>
        stack st node (GroupAttribute [("system", GroupAttribute [])]) []
    end;
  GetOpThroughRenderFilters := @GetOpThroughRenderFilters demoHost;
  ApplyImplicitResolverOps := @ApplyImplicitResolverOps demoHost;
  GetRenderTerminalOps := @GetRenderTerminalOps demoHost;
  cookRootAttrs := @cookRootAttrs demoHost;
  getResolution := @getResolution demoHost;
  AttributeSet_build := @AttributeSet_build demoHost;
  otb_new := @otb_new demoHost;
  otb_createOp := @otb_createOp demoHost;
  otb_setOpArgs := @otb_setOpArgs demoHost;
  otb_setOpInputs := @otb_setOpInputs demoHost;
  otb_build := @otb_build demoHost;
  otb_buildDelta := @otb_buildDelta demoHost
|}.

Definition stableWorld : @World stableHost :=
  @Build_World stableHost [] [] [] true "6fa459ea-ee8a-3ca4-894e-db77e160355e".

(** Two contexts, [main] and [aux], are set up one after the other; the
    delta of [aux] has been fetched since, the one of [main] has not. *)
Definition mainInit : (Runtime * @Context stableHost) * Py.result unit :=
  @Context_init stableHost stableWorld 0%Z "main" 0 "GafferThree"
    previewRender false false emptyRuntime.

Definition auxInit : (Runtime * @Context stableHost) * Py.result unit :=
  @Context_init stableHost stableWorld 0%Z "aux" 1 "GafferThree"
    previewRender false false mainInit.1.1.

Definition stableRuntime : Runtime := auxInit.1.1.

Definition stableSender : @OpTreeSender stableHost :=
  @Build_OpTreeSender stableHost previewRender
    (<["main" := mainInit.1.2]>
       (<["aux" := (@buildOpTreeDelta stableHost auxInit.1.2).1]> ∅))
    "main" "" [].

(** The host reports a graph state with the one entry [var:frame]. *)
Definition frameWorld (frame : Z) : World :=
  {| GetCurrentGraphState := [("var:frame", PyInt frame)];
     getActiveRenderFilterNodes := [];
     getSelectedLocations := [];
     GetRenderIDPass := false;
     uuid4 := "6fa459ea-ee8a-3ca4-894e-db77e160355e" |}.

(** A context after its first sync, which has built the op chain. *)
Definition firstSync : (Runtime * Context) * Py.result unit :=
  syncWithNodegraph demoWorld (emptyRuntime, newContext "main" previewRender 0).

Definition firstSyncSender : OpTreeSender :=
  {| _renderMethodType := previewRender;
     _contexts := {["main" := firstSync.1.2]};
     _activeContextId := "main";
     _currentGraphStateHash := "var:frame=7";
     process_emitted := [] |}.
End DemoHost.

(** ** Vocabulary of the gaffer caches *)

Section StepsVocabulary.
Context {S : Type}.
(** Every run of the method, whether it returns or raises, takes a state to
    one related to it by [R]. *)
Definition steps {A : Type} (R : relation S) (m : PyM.M S A) : Prop :=
  ∀ s, R s (m s).1.
End StepsVocabulary.

Section GafferVocabulary.
Import DreamGaffer.
(** The entry of a location in a cache of the control. *)
Definition look (control : InternalControl) (self : CacheRef)
    (location : string) : option Info :=
  cache (getCache self control) !! location.

(** Entries are only removed and indices are only appended to the unused
    lists. *)
Definition shrinks (control control' : InternalControl) : Prop :=
  ∀ self,
    cache (getCache self control') ⊆ cache (getCache self control)
    ∧ ∃ freed,
        unused (getCache self control')
        = unused (getCache self control) ++ freed.

(** Successive additions to a cache, each with the index
    [getIndexForNewLocation] hands out; the indices are collected. *)
Fixpoint drawIndices (self : CacheRef) (locations : list string)
    : M (list nat) :=
  match locations with
  | [] => PyM.ret []
  | locationPath :: locations' =>
      index <- getIndexForNewLocation self;;
      addLocation self locationPath index false;;
      indices <- drawIndices self locations';;
      PyM.ret (index :: indices)
  end.
End GafferVocabulary.

Section RenameVocabulary.
Import DreamGaffer.

(** [k] is the location [P] or a location below it. *)
Definition under (P k : string) : Prop :=
  k = P ∨ ∃ t, k = P +:+ "/" +:+ t.

(** A name that holds no slash. *)
Fixpoint slashfree (name : string) : bool :=
  match name with
  | "" => true
  | String c name' => negb (Ascii.eqb c "/"%char) && slashfree name'
  end.

(** The cache in which a child recorded with type [ty] in [self] lives. *)
Definition childCache (self : CacheRef) (ty : string) : option CacheRef :=
  if decide (ty = locationType self) then Some self
  else getCacheOfLocationType ty.

(** [c] is recorded as a child in [info], an entry of the cache [self], and
    lives in the cache [child]. *)
Definition recordedChild (self : CacheRef) (info : Info) (c : string)
    (child : CacheRef) : Prop :=
  match children info with
  | ChildList names => c ∈ names ∧ child = self
  | ChildDict types => ∃ ty, types !! c = Some ty ∧ childCache self ty = Some child
  end.

(** [Desc control self P r sfx]: the location [P +:+ sfx] of the cache [r]
    is the location [P] of [self] or is reached from it through cached
    locations, each recorded as a child in the one before. *)
Inductive Desc (control : InternalControl) (self : CacheRef) (P : string)
    : CacheRef → string → Prop :=
  | Desc_here : Desc control self P self ""
  | Desc_child info c child r sfx :
      look control self P = Some info →
      recordedChild self info c child →
      look control child (getLocationPath P c) ≠ None →
      Desc control child (getLocationPath P c) r sfx →
      Desc control self P r ("/" +:+ c +:+ sfx).

(** The entry [info] of the location [k] of the cache [self] is as the
    methods of the class of [self] leave it: a list of names in a
    [BaseCache], a dict in a [LightRigCache]; the names hold no slash, and a
    child recorded with another location type is cached in the cache of
    that type. *)
Definition okInfo (control : InternalControl) (self : CacheRef) (k : string)
    (info : Info) : Prop :=
  match classOf self, children info with
  | BaseCache, ChildList names => Forall (λ c, slashfree c = true) names
  | LightRigCache, ChildDict types =>
      map_Forall (λ c ty,
        slashfree c = true
        ∧ ∀ child, ty ≠ locationType self →
                   getCacheOfLocationType ty = Some child →
                   look control child (getLocationPath k c) ≠ None) types
  | _, _ => False
  end.

(** The create nodes of the caches in [N] and the material edit node
    exist.  A create node is made when the first location of its type is
    added, so that a gaffer may lack some of them. *)
Definition nodesOK (N : CacheRef → Prop) (control : InternalControl)
    : Prop :=
  (∀ self, N self → node (getCache self control) ≠ None)
  ∧ materialEditNode control ≠ None.

(** What [recursiveRenameChildLocation] does for the child [c], which
    lives in the cache [child]: a child of the cache's own type is renamed
    when it is cached ([guarded]), a child of another type is renamed by
    its cache. *)
Definition childStep (depth : nat) (Q Q' : string)
    (item : string * CacheRef * bool) : M unit :=
  let '(c, child, guarded) := item in
  let location := getLocationPath Q c in
  let newLocation := getLocationPath Q' c in
  if guarded then
    cached <- cache_get child location;;
    match cached with
    | Some _ =>
        info <- cache_pop child location;;
        cache_setitem child newLocation info;;
        nodeCall child (NodeRenameLocation (index info) newLocation);;
        renameSingleLocation location newLocation;;
        recursiveRenameChildLocation depth child location (children info)
          newLocation
    | None => PyM.ret tt
    end
  else renameLocation depth child location newLocation.

(** The child a [LightRigCache] visits for an item of a children dict. *)
Definition itemOf (self : CacheRef) (item : string * string)
    : option (string * CacheRef * bool) :=
  if decide (item.2 = locationType self) then Some (item.1, self, true)
  else match getCacheOfLocationType item.2 with
       | Some child => Some (item.1, child, false)
       | None => None
       end.

(** The children [recursiveRenameChildLocation] visits. *)
Definition itemsOf (self : CacheRef) (children : Children)
    : list (string * CacheRef * bool) :=
  match children with
  | ChildList names => (λ c, (c, self, true)) <$> names
  | ChildDict types => omap (itemOf self) (map_to_list types)
  end.

(** The body of [renameLocation]. *)
Definition renameSubtree (depth : nat) (self : CacheRef) (Q Q' : string)
    : M unit :=
  info <- cache_pop self Q;;
  cache_setitem self Q' info;;
  nodeCall self (NodeRenameLocation (index info) Q');;
  renameSingleLocation Q Q';;
  recursiveRenameChildLocation depth self Q (children info) Q'.

(** The nodes that renaming [Q] calls: the material edit node, and the
    create node of every cache that holds an entry at or below [Q]. *)
Definition nodesReady (control : InternalControl) (Q : string) : Prop :=
  materialEditNode control ≠ None
  ∧ ∀ r k, under Q k → look control r k ≠ None →
           node (getCache r control) ≠ None.

(** What renaming [Q] to [Q'] asks of the control: the nodes it calls
    exist, no location is below both, nothing is cached at or below [Q'],
    the entries at and below [Q] are well formed, and [depth] nested calls
    reach every cached location below [Q]. *)
Definition renamePre (depth : nat) (control : InternalControl)
    (Q Q' : string) : Prop :=
  nodesReady control Q
  ∧ Q ≠ "" ∧ Q' ≠ ""
  ∧ (∀ k, under Q k → under Q' k → False)
  ∧ (∀ r k, under Q' k → look control r k = None)
  ∧ (∀ r k info, under Q k → look control r k = Some info →
                 okInfo control r k info)
  ∧ (∀ r k, under Q k → look control r k ≠ None →
            2 * String.length k + 1 ≤ depth + 2 * String.length Q).

(** The same over a set [N] of caches that is kept while the state
    changes: the create nodes of the caches in [N] exist, and the caches
    that hold an entry at or below [Q] are in [N]. *)
Definition renamePreN (N : CacheRef → Prop) (depth : nat)
    (control : InternalControl) (Q Q' : string) : Prop :=
  nodesOK N control
  ∧ Q ≠ "" ∧ Q' ≠ ""
  ∧ (∀ k, under Q k → under Q' k → False)
  ∧ (∀ r k, under Q' k → look control r k = None)
  ∧ (∀ r k info, under Q k → look control r k = Some info →
                 okInfo control r k info)
  ∧ (∀ r k, under Q k → look control r k ≠ None →
            2 * String.length k + 1 ≤ depth + 2 * String.length Q)
  ∧ (∀ r k, under Q k → look control r k ≠ None → N r).

(** What renaming [Q] of [self] to [Q'] does: every recorded descendant is
    moved from below [Q] to the same place below [Q'], and nothing else
    outside of these two subtrees changes. *)
Definition renamePost (N : CacheRef → Prop)
    (control control' : InternalControl)
    (self : CacheRef) (Q Q' : string) : Prop :=
  nodesOK N control'
  ∧ (∀ r k, ¬ under Q k → ¬ under Q' k →
            look control' r k = look control r k)
  ∧ (∀ r sfx, Desc control self Q r sfx →
              look control' r (Q' +:+ sfx) = look control r (Q +:+ sfx)
              ∧ look control' r (Q +:+ sfx) = None).

(** The locations at and below the child [c], before and after. *)
Definition inChild (Q Q' c k : string) : Prop :=
  under (getLocationPath Q c) k ∨ under (getLocationPath Q' c) k.

(** The loop of [recursiveRenameChildLocation]: since the state
    [control1] in which the loop was entered, a child has either not been
    touched or, if it was cached, been moved with its descendants. *)
Definition untouched (Q Q' : string) (control1 : InternalControl)
    (c : string) (control : InternalControl) : Prop :=
  ∀ r k, inChild Q Q' c k → look control r k = look control1 r k.

Definition processed (Q Q' : string) (control1 : InternalControl)
    (item : string * CacheRef * bool) (control : InternalControl) : Prop :=
  ∀ r sfx,
    Desc control1 item.1.2 (getLocationPath Q item.1.1) r sfx →
    look control r (getLocationPath Q' item.1.1 +:+ sfx)
    = look control1 r (getLocationPath Q item.1.1 +:+ sfx)
    ∧ look control r (getLocationPath Q item.1.1 +:+ sfx) = None.

Definition loopInv (N : CacheRef → Prop) (Q Q' : string)
    (items : list (string * CacheRef * bool))
    (control1 : InternalControl) (rest : list (string * CacheRef * bool))
    (control : InternalControl) : Prop :=
  nodesOK N control
  ∧ (∀ r k, (∀ item, item ∈ items → ¬ inChild Q Q' item.1.1 k) →
            look control r k = look control1 r k)
  ∧ (∀ item, item ∈ items →
       untouched Q Q' control1 item.1.1 control
       ∨ (look control1 item.1.2 (getLocationPath Q item.1.1) ≠ None
          ∧ processed Q Q' control1 item control))
  ∧ (∀ item, item ∈ items → item ∉ rest →
       look control1 item.1.2 (getLocationPath Q item.1.1) ≠ None →
       processed Q Q' control1 item control)
  ∧ (∀ item, item ∈ rest → item.2 = false →
       untouched Q Q' control1 item.1.1 control).

(** [renameSubtree] with [depth] nested calls left does what is asked of
    it. *)
Definition renameSubtree_ok (N : CacheRef → Prop) (depth : nat) : Prop :=
  ∀ self Q Q' control info,
    renamePreN N depth control Q Q' →
    look control self Q = Some info →
    ∃ control',
      renameSubtree depth self Q Q' control = (control', inr tt)
      ∧ renamePost N control control' self Q Q'.

(** The children of an entry are of the kind the class of its cache
    keeps. *)
Definition kindOK (self : CacheRef) (info : Info) : Prop :=
  match classOf self, children info with
  | BaseCache, ChildList _ => True
  | LightRigCache, ChildDict _ => True
  | _, _ => False
  end.

(** The cache in which [findAndUpdateChildName] finds the parent of a
    location of the cache [self], when no parent type is given. *)
Definition parentCache (self : CacheRef) (control : InternalControl)
    (parentPath : string) : option CacheRef :=
  let cached r := bool_decide (is_Some (look control r parentPath)) in
  match self with
  | Light =>
      if cached Light then Some Light
      else if cached Rig then Some Rig else None
  | LightFilter =>
      if cached LightFilter then Some LightFilter
      else if cached Light then Some Light else None
  | Rig => if cached Rig then Some Rig else None
  | Material => if cached Material then Some Material else None
  end.

(** A children record in which [oldName] has been removed and [newName]
    added with the type [ty]. *)
Definition renamedChild (children : Children) (oldName newName ty : string)
    : Children :=
  match children with
  | ChildList names => ChildList (list_remove oldName names ++ [newName])
  | ChildDict types => ChildDict (<[newName := ty]> (delete oldName types))
  end.

(** What [rename(L, newName)] needs to go through: the material edit
    node exists, and so does the create node of every cache that holds an
    entry at or below [L]; [L] is a path in normal form; the new
    name is not empty, holds no slash and differs from the old one;
    nothing is cached at or below the new location; the entries at and
    below [L] are well formed, and an entry of the parent is of the kind of
    its cache; [depth] nested calls reach every cached location below
    [L]. *)
Definition renameReady (depth : nat) (control : InternalControl)
    (L newName : string) : Prop :=
  nodesReady control L
  ∧ L ≠ ""
  ∧ getLocationPath (PyString.dirname L) (PyString.basename L) = L
  ∧ newName ≠ "" ∧ slashfree newName = true
  ∧ newName ≠ PyString.basename L
  ∧ (∀ r k, under (getLocationPath (PyString.dirname L) newName) k →
            look control r k = None)
  ∧ (∀ r k info, under L k → look control r k = Some info →
                 okInfo control r k info)
  ∧ (∀ r info, look control r (PyString.dirname L) = Some info →
               kindOK r info)
  ∧ (∀ r k, under L k → look control r k ≠ None →
            2 * String.length k + 2 ≤ depth + 2 * String.length L).

End RenameVocabulary.

(** A gaffer to run the caches on. *)
Module DemoGaffer.
Import DreamGaffer.

(** A gaffer with a rig [all], a rig [all/set] in it, and in that one a
    light [key] with a light filter [blocker] and an empty rig [sub]. *)
Definition rigs : Cache :=
  {| cache :=
       {[ "all" := {| index := 0;
                      children := ChildDict {[ "set" := "rig" ]} |};
          "all/set" := {| index := 1;
                          children := ChildDict {[ "key" := "light";
                                                   "sub" := "rig" ]} |};
          "all/set/sub" := {| index := 2; children := ChildDict ∅ |} ]};
     unused := []; node := Some [] |}.

Definition lights : Cache :=
  {| cache :=
       {[ "all/set/key" :=
            {| index := 0;
               children := ChildDict {[ "blocker" := "light filter" ]} |} ]};
     unused := []; node := Some [] |}.

Definition lightFilters : Cache :=
  {| cache :=
       {[ "all/set/key/blocker" :=
            {| index := 0; children := ChildList [] |} ]};
     unused := []; node := Some [] |}.

Definition control : InternalControl :=
  {| lightCache := lights; rigCache := rigs;
     materialCache := {| cache := ∅; unused := []; node := Some [] |};
     lightFilterCache := lightFilters;
     adoptedLocations := []; materialEditNode := Some [] |}.

(** A gaffer with one light in slot 2, after the lights of the slots 1
    and 0 have been removed, in this order. *)
Definition freed : InternalControl :=
  {| lightCache :=
       {| cache := {[ "key" := {| index := 2; children := ChildDict ∅ |} ]};
          unused := [1; 0]; node := Some [] |};
     rigCache := emptyCache; materialCache := emptyCache;
     lightFilterCache := emptyCache;
     adoptedLocations := []; materialEditNode := Some [] |}.

(** Two lights are added to a new gaffer, the second is renamed to the
    name of the first, and a third light is added. *)
Definition renameOntoExisting : M unit :=
  InternalControl_addLocation "" "light" None "light";;
  InternalControl_addLocation "" "light" None "light";;
  InternalControl_rename 100 "light1" "light" "light";;
  InternalControl_addLocation "" "light" None "light";;
  PyM.ret tt.

(** A light [a] is added at the top level of a new gaffer. *)
Definition topLevel : InternalControl :=
  (InternalControl_addLocation "" "a" None "light" InternalControl_init).1.

(** A rig [a] with a rig [b] in it is added to a new gaffer: no light,
    material or light filter was added, and there is no material edit
    node. *)
Definition rigOnly : InternalControl :=
  (InternalControl_addLocation "a" "b" (Some "rig") "rig"
     (InternalControl_addLocation "" "a" None "rig"
        InternalControl_init).1).1.

End DemoGaffer.

Section UnderDec.
Import DreamGaffer.

(** [under], decided. *)
Definition underb (P k : string) : bool :=
  bool_decide (k = P) || PyString.startswith k (P +:+ "/").

End UnderDec.

(** ** Vocabulary of the remaining gaffer methods *)

Section SlotVocabulary.
Import DreamGaffer.

(** The slots a cache knows of: the unused ones and those of its
    locations. *)
Definition slots (c : Cache) : list nat :=
  unused c ++ (map_to_list (index <$> cache c)).*2.

(** The slots a cache knows of are the numbers below their count, each
    once: no slot is both unused and taken, no two locations share a slot,
    and no slot in between is lost. *)
Definition slotsOK (c : Cache) : Prop :=
  slots c ≡ₚ seq 0 (length (slots c)).

(** Only the children records of cached locations change. *)
Definition sameSlots (control control' : InternalControl) : Prop :=
  ∀ self,
    index <$> cache (getCache self control')
    = index <$> cache (getCache self control)
    ∧ unused (getCache self control') = unused (getCache self control).

(** Every location that is cached afterwards was cached before, in the
    same slot, and the unused lists have only been appended to. *)
Definition onlyFrees (control control' : InternalControl) : Prop :=
  ∀ self,
    index <$> cache (getCache self control')
    ⊆ index <$> cache (getCache self control)
    ∧ ∃ freed,
        unused (getCache self control')
        = unused (getCache self control) ++ freed.

(** The entries and the unused lists of all caches are the same. *)
Definition sameEntries (control control' : InternalControl) : Prop :=
  ∀ self,
    cache (getCache self control') = cache (getCache self control)
    ∧ unused (getCache self control') = unused (getCache self control).

(** The entries of all caches at the locations that are not in [P] are
    the same. *)
Definition outside (P : string → Prop) (control control' : InternalControl)
    : Prop :=
  ∀ r k, ¬ P k → look control' r k = look control r k.

(** The slots of every cache of the control are in order. *)
Definition allSlotsOK (control : InternalControl) : Prop :=
  ∀ self, slotsOK (getCache self control).

Definition keepsSlots (control control' : InternalControl) : Prop :=
  allSlotsOK control → allSlotsOK control'.

End SlotVocabulary.

Section MoveVocabulary.
Import DreamGaffer GafferCache.

(** A children record without [name], and one with [name] added with the
    type [ty]. *)
Definition removedChild (children : Children) (name : string) : Children :=
  match children with
  | ChildList names => ChildList (list_remove name names)
  | ChildDict types => ChildDict (delete name types)
  end.

Definition addedChild (children : Children) (name ty : string) : Children :=
  match children with
  | ChildList names => ChildList (names ++ [name])
  | ChildDict types => ChildDict (<[name := ty]> types)
  end.

(** The cache and the key of the parent entry [move] updates for a
    location, when it is given a parent type. *)
Definition parentOf (parentType : option string) (location : string)
    : option (CacheRef * string) :=
  match truthy parentType with
  | Some parentType =>
      match getCacheOfLocationType parentType with
      | Some cache => Some (cache, PyString.dirname location)
      | None => None
      end
  | None => None
  end.

(** A parent type that is given names a cache, and the entry of the
    parent there is of the kind of this cache. *)
Definition parentReady (control : InternalControl)
    (parentType : option string) (location : string) : Prop :=
  ∀ parentType', truthy parentType = Some parentType' →
    ∃ cache, getCacheOfLocationType parentType' = Some cache
             ∧ ∀ info, look control cache (PyString.dirname location)
                       = Some info → kindOK cache info.

(** What [move] does to the entry [info] found in the cache [r] at the
    key [k], when this is an entry of a parent. *)
Definition movedParent (oldLocation newLocation locationType : string)
    (oldParentType newParentType : option string) (r : CacheRef)
    (k : string) (info : Info) : Info :=
  let children := children info in
  let children :=
    if decide (parentOf oldParentType oldLocation = Some (r, k)) then
      removedChild children (PyString.basename oldLocation)
    else children in
  let children :=
    if decide (parentOf newParentType newLocation = Some (r, k)) then
      addedChild children (PyString.basename newLocation) locationType
    else children in
  {| index := index info; children := children |}.

End MoveVocabulary.

(** ** Vocabulary of the rig create node *)

Section RigNodeVocabulary.
Import DreamGaffer SharedFunc.
Context `{params : ParamHost}.

(** The rig create node performs a call of the rig cache.  The rig cache
    is a [LightRigCache], which passes no [isChild]; the methods of the
    node take none. *)
Definition perform (call : NodeCall) : M unit :=
  match call with
  | NodeAddLocationAtIndex locationPath index None =>
      MultiRigCreate.addLocationAtIndex locationPath index
  | NodeAddLocationAtIndex _ _ (Some _) => PyM.raise Py.TypeError
  | NodeRenameLocation index newLocation =>
      renameLocation index newLocation
  | NodeDuplicateLocation srcIndex dstIndex dstLocation =>
      MultiRigCreate.duplicateLocation srcIndex dstIndex dstLocation
  | NodeRemoveLocationAtIndex index =>
      MultiRigCreate.removeLocationAtIndex index
  end.

(** The arrays of the node hold one child of [order] and three children
    of [translate], [rotate] and [scale] for every child of
    [locations]. *)
Definition lockstep (node : Node) : Prop :=
  length (order node) = length (SharedFunc.locations node)
  ∧ ∀ paramName,
      length (getParameter paramName node)
      = 3 * length (SharedFunc.locations node).

(** The values of [locations] after a call that returns. *)
Definition locationsAfter (call : NodeCall) (values : list string)
    : list string :=
  let grown index :=
    if decide (index = length values) then values ++ [newString]
    else values in
  match call with
  | NodeAddLocationAtIndex locationPath index _ =>
      <[index := locationPath]> (grown index)
  | NodeRenameLocation index newLocation => <[index := newLocation]> values
  | NodeDuplicateLocation _ dstIndex dstLocation =>
      <[dstIndex := dstLocation]> (grown dstIndex)
  | NodeRemoveLocationAtIndex index => <[index := ""]> values
  end.

(** The indices of a call are those of children the node has, or the
    next one where the arrays grow. *)
Definition inRange (call : NodeCall) (values : list string) : Prop :=
  match call with
  | NodeAddLocationAtIndex _ index isChild =>
      isChild = None ∧ index ≤ length values
  | NodeRenameLocation index _ => index < length values
  | NodeDuplicateLocation srcIndex dstIndex _ =>
      dstIndex ≤ length values
      ∧ srcIndex < length (locationsAfter call values)
  | NodeRemoveLocationAtIndex index => index < length values
  end.

(** A cache and its create node agree: the cached locations are the
    values of [locations] that are not empty, each in the slot of its
    position, the unused slots, none of them twice, are the positions
    of the empty values, and the node has as many locations as the cache
    has slots. *)
Definition synced (c : Cache) (node : Node) : Prop :=
  lockstep node
  ∧ NoDup (unused c)
  ∧ (∀ v j, index <$> cache c !! v = Some j
            ↔ SharedFunc.locations node !! j = Some v ∧ v ≠ "")
  ∧ (∀ j, j ∈ unused c ↔ SharedFunc.locations node !! j = Some "")
  ∧ length (SharedFunc.locations node) = size (cache c) + length (unused c).

(** The calls on the number parameters leave the values of [locations]
    and the sizes of all arrays as they are. *)
Definition keeps (node node' : Node) : Prop :=
  SharedFunc.locations node' = SharedFunc.locations node
  ∧ length (order node') = length (order node)
  ∧ ∀ paramName,
      length (getParameter paramName node')
      = length (getParameter paramName node).

(** A call that returns, and keeps, from every node that satisfies [P]. *)
Definition returns (P : Node → Prop) (m : M unit) : Prop :=
  ∀ node, P node → ∃ node', m node = (node', inr tt) ∧ keeps node node'.

End RigNodeVocabulary.

(** A host whose number parameters hold a value only, a gaffer with the
    top-level rig [top], and its rig create node. *)
Module DemoRig.
Import DreamGaffer SharedFunc.

#[export] Instance demoParams : ParamHost := {|
  Param := Z; Curve := unit; Expression := unit; Value := Z;
  newChild := 0%Z;
  newString := "";
  number := λ v, v;
  isAnimated := λ _, false;
  getCurve := λ _, tt;
  setCurve := λ _ p, p;
  getAutoKey := λ _, false;
  setAutoKey := λ _ p, p;
  isExpression := λ _, false;
  getExpression := λ _, tt;
  setExpression := λ _ p, p;
  getValue := λ p, p;
  setValue := λ v _, v
|}.

Definition control : InternalControl :=
  {| lightCache := emptyCache;
     rigCache :=
       {| cache := {[ "top" := {| index := 0; children := ChildDict ∅ |} ]};
          unused := []; node := Some [] |};
     materialCache := emptyCache; lightFilterCache := emptyCache;
     adoptedLocations := []; materialEditNode := None |}.

Definition rigNode : Node :=
  {| SharedFunc.locations := ["top"]; order := [0%Z];
     translate := [0%Z; 0%Z; 0%Z]; rotate := [0%Z; 0%Z; 0%Z];
     scale := [1%Z; 1%Z; 1%Z] |}.

End DemoRig.

(** ** Vocabulary of the render log *)

Section RenderbootVocabulary.
Import RenderManagerSetup.

(** [' -' in s] *)
Fixpoint has_space_dash (s : string) : bool :=
  match s with
  | "" => false
  | String c s' =>
      match s' with
      | String d _ =>
          (Ascii.eqb c " " && Ascii.eqb d "-") || has_space_dash s'
      | "" => false
      end
  end.

(** A word: not empty and without whitespace. *)
Fixpoint nospace (s : string) : bool :=
  match s with
  | "" => true
  | String c s' => negb (isspace c) && nospace s'
  end.

Definition word (s : string) : Prop := s ≠ "" ∧ nospace s = true.

(** The log line of a command and its options: [cmd -k1 v1 -k2 v2 ...]. *)
Definition renderbootMsg (cmd : string) (options : list (string * string))
    : string :=
  cmd +:+ foldr (λ kv s, " -" +:+ kv.1 +:+ " " +:+ kv.2 +:+ s) "" options.

(** An option of the log line that [parseRenderbootMsg] reads back. *)
Definition optionOK (kv : string * string) : Prop :=
  word kv.1 ∧ word kv.2 ∧ PyString.startswith kv.2 "-" = false.

End RenderbootVocabulary.

(** * Properties *)

Section HelperFacts.
Import Helper.

Lemma string_app_nonempty (a b : string) : b ≠ "" → a +:+ b ≠ a.
Proof.
  intros Hb. induction a as [|c a IH]; simpl; [done|].
  intros [=]. by apply IH.
Qed.

Lemma string_app_inj_l (a b c : string) : a +:+ b = a +:+ c → b = c.
Proof. induction a; simpl; [done|]. intros [=]. auto. Qed.

Lemma pretty_N_go_length (x : N) (s : string) :
  String.length s ≤ String.length (pretty_N_go x s).
Proof.
  revert s. induction (N.lt_wf_0 x) as [x _ IH]; intros s.
  destruct (decide (x = 0)%N) as [->|Hx]; [by rewrite pretty_N_go_0|].
  rewrite pretty_N_go_step by lia.
  etrans; [|apply IH, N.div_lt; lia]. simpl; lia.
Qed.

Lemma str_nonempty (i : nat) : str i ≠ "".
Proof.
  unfold str, pretty, pretty_nat, pretty, pretty_N.
  case_decide; [done|]. intros Hs.
  rewrite pretty_N_go_step in Hs by lia.
  pose proof (pretty_N_go_length (N.of_nat i `div` 10)
    (String (pretty_N_char (N.of_nat i `mod` 10)) "")) as Hl.
  rewrite Hs in Hl. simpl in Hl. lia.
Qed.

Lemma candidate_inj (b : string) : Inj (=) (=) (candidate b).
Proof.
  intros [|i] [|j]; simpl; try done.
  - intros H. symmetry in H.
    destruct (string_app_nonempty _ _ (str_nonempty _) H).
  - intros H. destruct (string_app_nonempty _ _ (str_nonempty _) H).
  - intros H%string_app_inj_l. by apply (inj pretty) in H.
Qed.

Lemma candidate_succ (b : string) (i : nat) :
  b +:+ str (i + 1) = candidate b (i + 1).
Proof. by replace (i + 1) with (S i) by lia. Qed.

(** Pigeonhole: the candidates are pairwise distinct, so at most
    [length children] of them can be members of [children]. *)
Lemma candidates_bound (b : string) (children : list string) (n : nat) :
  (∀ j, j < n → candidate b j ∈ children) → n ≤ length children.
Proof.
  intros H.
  assert (candidate b <$> seq 0 n ⊆+ children) as Hs.
  { apply NoDup_submseteq.
    - apply NoDup_fmap_2; [apply candidate_inj | apply NoDup_seq].
    - intros x [j [-> Hj]]%list_elem_of_fmap. apply H.
      apply elem_of_seq in Hj. lia. }
  apply submseteq_length in Hs.
  by rewrite length_fmap, length_seq in Hs.
Qed.

Lemma getUnusedName_loop_total (b : string) (children : list string)
    (fuel i : nat) :
  (∀ j, j < i → candidate b j ∈ children) →
  length children ≤ i + fuel →
  ∃ k, (getUnusedName_loop fuel b children i (candidate b i)
          = Some (candidate b k))
       ∧ i ≤ k
       ∧ (candidate b k ∉ children)
       ∧ ∀ j, j < k → candidate b j ∈ children.
Proof.
  revert i. induction fuel as [|fuel IH]; intros i Hlt Hlen; simpl.
  - case_bool_decide as Hin; [|by exists i].
    exfalso. assert (i + 1 ≤ length children); [|lia].
    apply (candidates_bound b). intros j Hj.
    destruct (decide (j = i)) as [->|]; [done|]. apply Hlt. lia.
  - case_bool_decide as Hin; [|by exists i].
    rewrite candidate_succ.
    destruct (IH (i + 1)) as (k & Hk & Hik & Hnot & Hall); [| lia |].
    + intros j Hj. destruct (decide (j = i)) as [->|]; [done|].
      apply Hlt. lia.
    + exists k. split_and!; [done | lia | done | done].
Qed.

(** C10. [Helper.getUnusedName] terminates on every basename and every
    finite collection of names; it returns [basename] itself when that
    is not in the collection, and otherwise [basename + str(i)] for the
    least [i >= 1] whose concatenation is not in the collection; the
    name returned is never a member of the collection. *)
Theorem getUnusedName_spec (basename : string) (children : list string) :
  ∃ name,
    (getUnusedName basename children = Some name)
    ∧ (name ∉ children)
    ∧ (basename ∉ children → name = basename)
    ∧ (basename ∈ children →
         ∃ i, 1 ≤ i
              ∧ (name = basename +:+ str i)
              ∧ (basename +:+ str i ∉ children)
              ∧ ∀ j, 1 ≤ j < i → basename +:+ str j ∈ children).
Proof.
  destruct (getUnusedName_loop_total basename children
              (length children) 0) as (k & Hk & _ & Hnot & Hall);
    [intros j Hj; lia | lia |].
  exists (candidate basename k). split_and!; [done | done | |].
  - intros Hb. destruct k as [|k]; [done|].
    destruct Hb. apply (Hall 0). lia.
  - intros Hb. destruct k as [|k]; [done|].
    exists (S k). split_and!; [lia | done | done |].
    intros j [Hj1 Hj2]. specialize (Hall j Hj2).
    destruct j; [lia | done].
Qed.

End HelperFacts.

Section RegistrarFacts.
Import FnAttribute NodeTypeBuilder.

Lemma getitem_methods (m : string) :
  m ∈ ["intersect"; "contains center"; "contains all"] →
  Py.getitem RegisterPruneByFrustum.methods m = inr m.
Proof.
  intros Hm. repeat (apply elem_of_cons in Hm as [->|Hm]; [done|]).
  by apply elem_of_nil in Hm.
Qed.

Lemma getitem_executionModes (m : string) :
  m ∈ ["immediate"; "deferred"] →
  Py.getitem RegisterPruneByFrustum.executionModes m = inr m.
Proof.
  intros Hm. repeat (apply elem_of_cons in Hm as [->|Hm]; [done|]).
  by apply elem_of_nil in Hm.
Qed.

(** C5, counterexample.  A PruneByFrustum node whose [method] parameter
    holds a string that is not one of the three popup options makes the
    callback raise [KeyError] at [methods[...]]: no op is appended. *)
Lemma buildPruneByFrustumOpChain_unknown_method :
  let node := {| RegisterPruneByFrustum.camera_location := "/root/world/cam/camera";
                 RegisterPruneByFrustum.CEL := "/root/world/geo//*";
                 RegisterPruneByFrustum.invert := 0;
                 RegisterPruneByFrustum.method := "overlaps";
                 RegisterPruneByFrustum.executionMode := "immediate";
                 RegisterPruneByFrustum.prune_primitives := 0;
                 RegisterPruneByFrustum.padding := 1%Qc |} in
  let interface := {| systemOpArgs := GroupAttribute []; ops := [] |} in
  RegisterPruneByFrustum.buildPruneByFrustumOpChain node interface
    = inl Py.KeyError
  ∧ ¬ PruneByFrustum_appends_for node interface.
Proof. split; [reflexivity | discriminate]. Qed.

(** C5, amended.  For every valuation of the parameters whose [method]
    and [executionMode] values are among the registered popup options,
    the PruneByFrustum callback appends exactly one op, named
    'PruneByFrustum', whose arguments are the system op args followed by
    cameraLocation, CEL, method, executionMode, prune_primitives, padding
    and invert holding the parameter values; for every valuation the
    DeferredPrune callback appends exactly one op, named 'DeferredPrune',
    whose arguments are the system op args and CEL. *)
Theorem buildOpChain_callbacks_spec
    (pbf : RegisterPruneByFrustum.Node) (dp : RegisterDeferredPrune.Node)
    (interface : BuildChainInterface) :
  RegisterPruneByFrustum.method pbf
    ∈ ["intersect"; "contains center"; "contains all"] →
  RegisterPruneByFrustum.executionMode pbf ∈ ["immediate"; "deferred"] →
  PruneByFrustum_appends_for pbf interface
  ∧ DeferredPrune_appends_for dp interface.
Proof.
  intros Hm He. split; [|reflexivity].
  unfold PruneByFrustum_appends_for,
    RegisterPruneByFrustum.buildPruneByFrustumOpChain.
  rewrite (getitem_methods _ Hm), (getitem_executionModes _ He).
  reflexivity.
Qed.

Lemma buildOpChain_callbacks_spec_witness :
  let pbf := {| RegisterPruneByFrustum.camera_location := "/root/world/cam/camera";
                RegisterPruneByFrustum.CEL := "/root/world/geo//*";
                RegisterPruneByFrustum.invert := 1;
                RegisterPruneByFrustum.method := "contains all";
                RegisterPruneByFrustum.executionMode := "deferred";
                RegisterPruneByFrustum.prune_primitives := 0;
                RegisterPruneByFrustum.padding := 1%Qc |} in
  let dp := {| RegisterDeferredPrune.CEL := "/root/world/geo/tree" |} in
  let interface := {| systemOpArgs := GroupAttribute []; ops := [] |} in
  PruneByFrustum_appends_for pbf interface
  ∧ DeferredPrune_appends_for dp interface.
Proof.
  intros pbf dp interface.
  apply (buildOpChain_callbacks_spec pbf dp interface); simpl.
  - set_solver.
  - set_solver.
Defined.

End RegistrarFacts.

Section ResolverListFacts.
Import FnAttribute GenerateImplicitResolversList.

Lemma uniqueName_fresh (gb : GroupBuilder) (name : string) :
  uniqueName gb name ∉ gb.*1.
Proof.
  unfold uniqueName.
  destruct (getUnusedName_spec name gb.*1) as (n & -> & Hn & _). done.
Qed.

Lemma setWithUniqueName_keys (gb : GroupBuilder) name attr :
  NoDup gb.*1 → NoDup (setWithUniqueName gb name attr).*1.
Proof.
  intros Hnd. unfold setWithUniqueName. rewrite fmap_app. simpl.
  apply NoDup_app. split_and!; [done | | apply NoDup_singleton].
  intros k Hk ->%list_elem_of_singleton.
  by apply (uniqueName_fresh gb name).
Qed.

Lemma setWithUniqueName_values (gb : GroupBuilder) name attr :
  (setWithUniqueName gb name attr).*2 = gb.*2 ++ [attr].
Proof. unfold setWithUniqueName. by rewrite fmap_app. Qed.

Lemma noopsBefore_0 (chain : list OpArgs) : noopsBefore chain 0 = 0.
Proof. done. Qed.

Lemma noopsBefore_S (op : OpArgs) (chain : list OpArgs) (i : nat) :
  noopsBefore (op :: chain) (S i)
  = (if decide (op.1 = "no-op") then 1 else 0) + noopsBefore chain i.
Proof.
  unfold noopsBefore. simpl. rewrite filter_cons.
  by destruct (decide (op.1 = "no-op")).
Qed.

Lemma staged_ext (F G : nat → Z) (chain : list OpArgs) :
  (∀ i, F i = G i) → staged F chain = staged G chain.
Proof.
  intros HFG. unfold staged. f_equal. apply imap_ext.
  intros i op _. simpl. by rewrite HFG.
Qed.

Lemma staged_cons (F : nat → Z) (op : OpArgs) (chain : list OpArgs) :
  staged F (op :: chain)
  = (if decide (op.1 = "no-op") then [] else [(F 0, op)])
    ++ staged (F ∘ S) chain.
Proof.
  unfold staged. rewrite imap_cons. simpl.
  by destruct (decide (op.1 = "no-op")).
Qed.

(** One iteration of the stage loop on an op that is not a marker. *)
Lemma stageLoop_cons_op (opType : string) opArgs (chain : list OpArgs)
    (p : Z) (g : Globals) :
  opType ≠ "no-op" →
  ∃ children,
    stageLoop ((opType, opArgs) :: chain) p g
    = stageLoop chain p
        {| gb := setWithUniqueName (gb g) attr_name
                   (GroupAttribute children);
           op_gb := Some GroupBuilder_new |}
    ∧ getChildByName children "priority" = Some (IntAttribute p)
    ∧ getChildByName children "opType" = Some (StringAttribute opType).
Proof.
  intros Hne. simpl. destruct (decide (opType = "no-op")); [done|].
  destruct (getChildByName opArgs "system"); simpl;
    eexists; split_and!; reflexivity.
Qed.

(** What one pass of the stage loop adds to the collection. *)
Lemma stageLoop_spec (chain : list OpArgs) (p : Z) (g : Globals)
    (F : nat → Z) :
  (∀ i, F i = (p + 200 * Z.of_nat (noopsBefore chain i))%Z) →
  NoDup (gb g).*1 →
  ∃ entries,
    (gb (stageLoop chain p g)).*2 = (gb g).*2 ++ entries
    ∧ NoDup (gb (stageLoop chain p g)).*1
    ∧ Forall2 hostEntry (staged F chain) entries
    ∧ (op_gb g = Some GroupBuilder_new ∨ Exists (λ op, op.1 ≠ "no-op") chain
       → op_gb (stageLoop chain p g) = Some GroupBuilder_new).
Proof.
  revert p g F. induction chain as [|[opType opArgs] chain IH];
    intros p g F HF Hnd.
  - exists []. simpl. rewrite app_nil_r.
    split_and!; [done | done | constructor |].
    intros [?|He]; [done|]. by apply Exists_nil in He.
  - rewrite staged_cons. cbn [fst].
    destruct (decide (opType = "no-op")) as [->|Hne].
    + simpl.
      destruct (IH (p + 200)%Z g (F ∘ S)) as (entries & Hv & Hk & Hf & Hb);
        [|done|].
      { intros i. simpl. rewrite HF, noopsBefore_S. simpl. lia. }
      exists entries. split_and!; try done.
      intros [?|He]; apply Hb; [by left|right].
      apply Exists_cons in He as [?|?]; [done|done].
    + destruct (stageLoop_cons_op opType opArgs chain p g Hne)
        as (children & -> & Hprio & Htype).
      match goal with
      | |- context [stageLoop chain p ?g'] =>
          destruct (IH p g' (F ∘ S)) as (entries & Hv & Hk & Hf & Hb)
      end.
      { intros i. simpl. rewrite HF, noopsBefore_S. simpl.
        destruct (decide (opType = "no-op")); [done|lia]. }
      { by apply setWithUniqueName_keys. }
      simpl in *. rewrite setWithUniqueName_values, <-app_assoc in Hv.
      eexists. split_and!; [exact Hv | done | | by intros; apply Hb; left].
      constructor; [|done].
      exists children. split_and!; [done | | done]. simpl.
      rewrite Hprio, HF, noopsBefore_0. do 2 f_equal. lia.
Qed.

Lemma addRegistered_spec (priority : Z) (opType : string) (g : Globals) :
  op_gb g = Some GroupBuilder_new →
  NoDup (gb g).*1 →
  ∃ g',
    addRegistered (registerBody priority opType) g = inr g'
    ∧ op_gb g' = Some GroupBuilder_new
    ∧ NoDup (gb g').*1
    ∧ (gb g').*2 = (gb g).*2 ++ [kodachiEntry priority opType].
Proof.
  intros Hb Hnd. unfold addRegistered, registerBody. rewrite Hb. simpl.
  eexists. split_and!; [reflexivity | done | |]; simpl.
  - by apply setWithUniqueName_keys.
  - by rewrite setWithUniqueName_values.
Qed.

(** C1, counterexample.  On the chain [AttributeSet; StandardResolve]
    the leading AttributeSet op is entered with priority -1, not with the
    priority 100 of the first stage. *)
Lemma leading_AttributeSet_priority :
  ¬ collection_as_claimed
      [("StandardResolve", []); ("AttributeSet", []); ("no-op", [])].
Proof.
  intros (collection & hostEntries & Hmain & Hval & Hstaged).
  vm_compute in Hmain. injection Hmain as <-.
  vm_compute in Hstaged.
  apply Forall2_cons_inv_l in Hstaged as (e & es & He & Hes & ->).
  apply Forall2_cons_inv_l in Hes as (e' & es' & He' & Hes' & ->).
  apply Forall2_nil_inv_l in Hes' as ->.
  cbn in Hval. injection Hval as <- _.
  destruct He as (children & [= <-] & Hp & _). vm_compute in Hp. done.
Qed.

(** C1, amended.  When the host chain holds at least one op that is not
    a stage marker, the generator completes and the collection, whose
    child names are pairwise distinct, consists of: the entry of a
    leading AttributeSet op, with priority -1, when the chain starts
    with one; then one entry for every remaining op that is not a stage
    marker, with the priority of its stage, which starts at 100 and
    grows by 200 at each no-op marker; then the seven kodachi entries,
    each holding exactly priority, opType, ignore and addSystemOpArgs:
    DeferredPruneResolve at 100, CurveReductionOp at 400,
    PrimitivePruneByFrustumOp at 401, PrimitivePruneByVolumeOp at 402,
    CurveDensityOp at 403, CurveWidthOp at 404, OpSchemaResolve at 405. *)
Theorem implicit_resolver_collection_spec (walk : list OpArgs) :
  Exists (λ op, op.1 ≠ "no-op") (reverse (removelast walk)) →
  ∃ collection leading hostEntries,
    main walk = inr (GroupAttribute collection)
    ∧ NoDup collection.*1
    ∧ collection.*2 = leading ++ hostEntries ++ kodachiEntries
    ∧ match reverse (removelast walk) with
      | [] => False
      | op :: rest =>
          if decide (op.1 = "AttributeSet") then
            (∃ e, leading = [e] ∧ hostEntry ((-1)%Z, op) e)
            ∧ Forall2 hostEntry (stagedOps rest) hostEntries
          else
            leading = []
            ∧ Forall2 hostEntry (stagedOps (op :: rest)) hostEntries
      end.
Proof.
  intros Hex. unfold main.
  destruct walk as [|w walk]; [by apply Exists_nil in Hex|].
  destruct (reverse (removelast (w :: walk))) as [|[opType opArgs] rest]
    eqn:Hchain; [by apply Exists_nil in Hex|].
  unfold leadingAttributeSet. cbn [fst].
  destruct (decide (opType = "AttributeSet")) as [->|Hne].
  - cbn [Py.bind build].
    match goal with
    | |- context [stageLoop rest 100 ?g0] => remember g0 as gA eqn:HgA
    end.
    assert (∃ e, (gb gA).*2 = [e] ∧ hostEntry ((-1)%Z, ("AttributeSet", opArgs)) e)
      as (e & HvA & He).
    { subst gA. cbn [gb]. rewrite setWithUniqueName_values.
      eexists. split; [done|].
      eexists. split_and!; [done | done | done]. }
    assert (NoDup (gb gA).*1) as HkA.
    { subst gA. cbn [gb]. apply setWithUniqueName_keys, NoDup_nil_2. }
    assert (op_gb gA = Some GroupBuilder_new) as HbA by (by subst gA).
    clear HgA.
    destruct (stageLoop_spec rest 100 gA (stagePriority rest))
      as (entries & Hv & Hk & Hf & Hb); [done | done |].
    specialize (Hb (or_introl HbA)). rewrite HvA in Hv.
    set (g1 := stageLoop rest 100 gA) in *.
    destruct (addRegistered_spec 100 "DeferredPruneResolve" g1 Hb Hk)
      as (g2 & E2 & Hb2 & Hk2 & Hv2).
    destruct (addRegistered_spec 400 "CurveReductionOp" g2 Hb2 Hk2)
      as (g3 & E3 & Hb3 & Hk3 & Hv3).
    destruct (addRegistered_spec 401 "PrimitivePruneByFrustumOp" g3 Hb3 Hk3)
      as (g4 & E4 & Hb4 & Hk4 & Hv4).
    destruct (addRegistered_spec 402 "PrimitivePruneByVolumeOp" g4 Hb4 Hk4)
      as (g5 & E5 & Hb5 & Hk5 & Hv5).
    destruct (addRegistered_spec 403 "CurveDensityOp" g5 Hb5 Hk5)
      as (g6 & E6 & Hb6 & Hk6 & Hv6).
    destruct (addRegistered_spec 404 "CurveWidthOp" g6 Hb6 Hk6)
      as (g7 & E7 & Hb7 & Hk7 & Hv7).
    destruct (addRegistered_spec 405 "OpSchemaResolve" g7 Hb7 Hk7)
      as (g8 & E8 & Hb8 & Hk8 & Hv8).
    unfold registerDeferredPrune, registerCurveReduction,
      registerPrimitivePruneFrustum, registerPrimitivePruneVolume,
      registerCurveDensity, registerCurveWidth, registerUsdOpSchema.
    rewrite E2; cbn [Py.bind].
    rewrite E3; cbn [Py.bind]. rewrite E4; cbn [Py.bind].
    rewrite E5; cbn [Py.bind]. rewrite E6; cbn [Py.bind].
    rewrite E7; cbn [Py.bind]. rewrite E8; cbn [Py.bind].
    eexists (gb g8), [e], entries.
    split_and!; [done | done | | by exists e | done].
    rewrite Hv8, Hv7, Hv6, Hv5, Hv4, Hv3, Hv2, Hv.
    rewrite <-!app_assoc. reflexivity.
  - cbn [Py.bind].
    match goal with
    | |- context [stageLoop ?c 100 ?g0] =>
        destruct (stageLoop_spec c 100 g0 (stagePriority c))
          as (entries & Hv & Hk & Hf & Hb);
          [done | apply NoDup_nil_2 |];
        set (g1 := stageLoop c 100 g0) in *
    end.
    assert (op_gb g1 = Some GroupBuilder_new) as Hb1 by (by apply Hb; right).
    destruct (addRegistered_spec 100 "DeferredPruneResolve" g1 Hb1 Hk)
      as (g2 & E2 & Hb2 & Hk2 & Hv2).
    destruct (addRegistered_spec 400 "CurveReductionOp" g2 Hb2 Hk2)
      as (g3 & E3 & Hb3 & Hk3 & Hv3).
    destruct (addRegistered_spec 401 "PrimitivePruneByFrustumOp" g3 Hb3 Hk3)
      as (g4 & E4 & Hb4 & Hk4 & Hv4).
    destruct (addRegistered_spec 402 "PrimitivePruneByVolumeOp" g4 Hb4 Hk4)
      as (g5 & E5 & Hb5 & Hk5 & Hv5).
    destruct (addRegistered_spec 403 "CurveDensityOp" g5 Hb5 Hk5)
      as (g6 & E6 & Hb6 & Hk6 & Hv6).
    destruct (addRegistered_spec 404 "CurveWidthOp" g6 Hb6 Hk6)
      as (g7 & E7 & Hb7 & Hk7 & Hv7).
    destruct (addRegistered_spec 405 "OpSchemaResolve" g7 Hb7 Hk7)
      as (g8 & E8 & Hb8 & Hk8 & Hv8).
    unfold registerDeferredPrune, registerCurveReduction,
      registerPrimitivePruneFrustum, registerPrimitivePruneVolume,
      registerCurveDensity, registerCurveWidth, registerUsdOpSchema.
    rewrite E2; cbn [Py.bind].
    rewrite E3; cbn [Py.bind]. rewrite E4; cbn [Py.bind].
    rewrite E5; cbn [Py.bind]. rewrite E6; cbn [Py.bind].
    rewrite E7; cbn [Py.bind]. rewrite E8; cbn [Py.bind].
    eexists (gb g8), [], entries.
    split_and!; [done | done | | done | done].
    rewrite Hv8, Hv7, Hv6, Hv5, Hv4, Hv3, Hv2, Hv.
    rewrite <-!app_assoc. reflexivity.
Qed.

Lemma implicit_resolver_collection_spec_witness :
  let walk : list OpArgs :=
    [("MaterialResolve", [("system", GroupAttribute [])]);
     ("no-op", []);
     ("LookFileResolve", []);
     ("AttributeSet", [("locationPaths", StringAttribute "/root")]);
     ("no-op", [])] in
  Exists (λ op : OpArgs, op.1 ≠ "no-op") (reverse (removelast walk))
  ∧ ∃ collection,
      main walk = inr (GroupAttribute collection)
      ∧ NoDup collection.*1
      ∧ length collection = 10.
Proof.
  intros walk.
  assert (Exists (λ op : OpArgs, op.1 ≠ "no-op")
            (reverse (removelast walk))) as Hex.
  { vm_compute. apply Exists_cons_hd. simpl. discriminate. }
  split; [exact Hex|].
  destruct (implicit_resolver_collection_spec walk Hex)
    as (collection & leading & hostEntries & Hmain & Hnd & _).
  exists collection. split_and!; [done | done |].
  vm_compute in Hmain. by injection Hmain as <-.
Defined.

End ResolverListFacts.

Section LiveAttrFacts.
Import FnAttribute MoonrayRenderManager.
Context `{host : Host}.

Lemma setLiveAttr_step (self : Context) (locationPath : string)
    (attrValue : option Attribute) (now : Z) (liveAttrOtbOp : OtbOp) :
  _liveAttrOtbOp self = Some liveAttrOtbOp →
  ∃ self',
    setLiveAttr locationPath attrValue now self
    = (self', inr (bool_decide (_lastLiveUpdateTime self + 100000 ≤ now)%Z))
    ∧ _liveAttrs self'
      = <[locationPath := default (GroupAttribute []) attrValue]>
          (_liveAttrs self)
    ∧ _lastLiveUpdateTime self' = _lastLiveUpdateTime self
    ∧ _liveAttrOtbOp self' = Some liveAttrOtbOp
    ∧ _opTreeBuilder self'
      = (if bool_decide (_lastLiveUpdateTime self + 100000 ≤ now)%Z then
           otb_setOpArgs liveAttrOtbOp "MoonrayLiveAttribute"
             (GroupAttribute
                [("liveAttrs",
                  GroupAttribute
                    (foldl (λ gb lv, set gb lv.1 lv.2) GroupBuilder_new
                       (map_to_list (_liveAttrs self'))))])
             (_opTreeBuilder self)
         else _opTreeBuilder self).
Proof.
  intros Hlive.
  unfold setLiveAttr, mbind, PyM_bind, PyM.bind, PyM.modify, PyM.get,
    PyM.ret, liveUpdateDelta.
  cbn [fst snd _lastLiveUpdateTime set_liveAttrs _liveAttrOtbOp].
  rewrite Hlive.
  destruct (decide (_lastLiveUpdateTime self + 100000 ≤ now)%Z) as [Hle|Hlt].
  - rewrite bool_decide_true by done. eexists. split; [reflexivity|].
    by split_and!.
  - rewrite bool_decide_false by done. eexists. split; [reflexivity|].
    by split_and!.
Qed.

End LiveAttrFacts.

Section HoareFacts.
Context {S : Type}.
Implicit Types s : S.

Lemma preserves_ret {A X} (π : S → X) (a : A) : preserves π (PyM.ret a).
Proof. by intros s. Qed.

Lemma preserves_raise {A X} (π : S → X) e :
  preserves π (PyM.raise (A:=A) e).
Proof. by intros s. Qed.

Lemma preserves_lift {A X} (π : S → X) (r : Py.result A) :
  preserves π (PyM.lift r).
Proof. by intros s. Qed.

Lemma preserves_gets {A X} (π : S → X) (f : S → A) :
  preserves π (PyM.gets f).
Proof. by intros s. Qed.

Lemma preserves_get {X} (π : S → X) : preserves π PyM.get.
Proof. by intros s. Qed.

Lemma preserves_modify {X} (π : S → X) (f : S → S) :
  (∀ s, π (f s) = π s) → preserves π (PyM.modify f).
Proof. intros Hf s. apply Hf. Qed.

Lemma preserves_bind {A B X} (π : S → X) (m : PyM.M S A)
    (k : A → PyM.M S B) :
  preserves π m → (∀ a, preserves π (k a)) → preserves π (PyM.bind m k).
Proof.
  intros Hm Hk s. unfold PyM.bind. specialize (Hm s).
  destruct (m s) as [s' [e|a]]; simpl in *; [done|].
  by rewrite Hk.
Qed.

Lemma preserves_for_each {A X} (π : S → X) (l : list A)
    (body : A → PyM.M S unit) :
  (∀ x, preserves π (body x)) → preserves π (PyM.for_each l body).
Proof.
  intros Hb. induction l as [|x l IH]; simpl.
  - apply preserves_ret.
  - apply preserves_bind; [apply Hb | by intros _].
Qed.

Lemma preserves_try_except {X} (π : S → X) (m : PyM.M S unit) :
  preserves π m → preserves π (PyM.try_except m).
Proof. intros Hm s. apply Hm. Qed.

(** A bind whose first part returns goes on with the second. *)
Lemma bind_returns {A B} (m : PyM.M S A) (k : A → PyM.M S B) s s' a :
  m s = (s', inr a) → PyM.bind m k s = k a s'.
Proof. unfold PyM.bind. by intros ->. Qed.

(** What is known after a bind, from what is known after its parts. *)
Lemma hoare_bind {A B} (P : S → Prop) (m : PyM.M S A) (k : A → PyM.M S B)
    (R : A → S → Prop) (Q : B → S → Prop) (E : S → Prop) :
  hoare P m R E → (∀ a, hoare (R a) (k a) Q E) → hoare P (PyM.bind m k) Q E.
Proof.
  intros Hm Hk s HP. unfold PyM.bind. specialize (Hm s HP).
  destruct (m s) as [s' [e|a]]; [done|]. by apply Hk.
Qed.

Lemma hoare_ret {A} (P : S → Prop) (a : A) (Q : A → S → Prop)
    (E : S → Prop) :
  (∀ s, P s → Q a s) → hoare P (PyM.ret a) Q E.
Proof. intros H s HP. by apply H. Qed.

Lemma hoare_raise {A} (P : S → Prop) e (Q : A → S → Prop) (E : S → Prop) :
  (∀ s, P s → E s) → hoare P (PyM.raise e) Q E.
Proof. intros H s HP. by apply H. Qed.

Lemma hoare_conseq {A} (P P' : S → Prop) (m : PyM.M S A)
    (Q Q' : A → S → Prop) (E E' : S → Prop) :
  hoare P' m Q' E' →
  (∀ s, P s → P' s) → (∀ a s, Q' a s → Q a s) → (∀ s, E' s → E s) →
  hoare P m Q E.
Proof.
  intros Hm HP HQ HE s Hs. specialize (Hm s (HP s Hs)).
  destruct (m s) as [s' [e|a]]; auto.
Qed.

(** A method that preserves a view keeps every property of that view. *)
Lemma preserves_hoare {A X} (π : S → X) (m : PyM.M S A) (x : X) :
  preserves π m → hoare (λ s, π s = x) m (λ _ s, π s = x) (λ s, π s = x).
Proof.
  intros Hm s Hs. specialize (Hm s).
  destruct (m s) as [s' [e|a]]; simpl in *; congruence.
Qed.

End HoareFacts.

(** Decomposes a goal [preserves π m] along the structure of [m]. *)
Ltac preserves_step :=
  lazymatch goal with
  | |- preserves _ (PyM.bind _ _) => apply preserves_bind; [|intros]
  | |- preserves _ (PyM.ret _) => apply preserves_ret
  | |- preserves _ (PyM.raise _) => apply preserves_raise
  | |- preserves _ (PyM.lift _) => apply preserves_lift
  | |- preserves _ (PyM.gets _) => apply preserves_gets
  | |- preserves _ PyM.get => apply preserves_get
  | |- preserves _ (PyM.for_each _ _) => apply preserves_for_each; intros
  | |- preserves _ (match ?x with _ => _ end) => destruct x
  end.

Ltac preserves_tac :=
  unfold mbind, PyM_bind; repeat preserves_step.

(** ** The gaffer caches *)

Section StepsFacts.
Import DreamGaffer.
Context {S : Type} (R : relation S) `{!PreOrder R}.

Lemma steps_ret {A} (a : A) : steps R (PyM.ret a).
Proof. by intros s. Qed.

Lemma steps_raise {A} e : steps R (PyM.raise (A:=A) e).
Proof. by intros s. Qed.

Lemma steps_lift {A} (r : Py.result A) : steps R (PyM.lift r).
Proof. by intros s. Qed.

Lemma steps_gets {A} (f : S → A) : steps R (PyM.gets f).
Proof. by intros s. Qed.

Lemma steps_get : steps R PyM.get.
Proof. by intros s. Qed.

Lemma steps_modify (f : S → S) : (∀ s, R s (f s)) → steps R (PyM.modify f).
Proof. intros Hf s. apply Hf. Qed.

Lemma steps_bind {A B} (m : PyM.M S A) (k : A → PyM.M S B) :
  steps R m → (∀ a, steps R (k a)) → steps R (PyM.bind m k).
Proof.
  intros Hm Hk s. unfold PyM.bind. specialize (Hm s).
  destruct (m s) as [s' [e|a]]; simpl in *; [done|].
  etrans; [exact Hm | apply Hk].
Qed.

Lemma steps_for_each {A} (l : list A) (body : A → PyM.M S unit) :
  (∀ x, steps R (body x)) → steps R (PyM.for_each l body).
Proof.
  intros Hb. induction l as [|x l IH]; simpl.
  - apply steps_ret.
  - apply steps_bind; [apply Hb | by intros _].
Qed.

Lemma steps_try_except (m : PyM.M S unit) :
  steps R m → steps R (PyM.try_except m).
Proof. intros Hm s. apply Hm. Qed.

End StepsFacts.

(** Decomposes a goal [steps R m] along the structure of [m]. *)
Ltac steps_step :=
  lazymatch goal with
  | |- steps _ (PyM.bind _ _) => apply steps_bind; [tc_solve | |intros]
  | |- steps _ (PyM.ret _) => apply steps_ret; tc_solve
  | |- steps _ (PyM.raise _) => apply steps_raise; tc_solve
  | |- steps _ (PyM.lift _) => apply steps_lift; tc_solve
  | |- steps _ (PyM.gets _) => apply steps_gets; tc_solve
  | |- steps _ PyM.get => apply steps_get; tc_solve
  | |- steps _ (PyM.try_except _) => apply steps_try_except
  | |- steps _ (PyM.for_each _ _) =>
      apply steps_for_each; [tc_solve | intros]
  | |- steps _ (match ?x with _ => _ end) => destruct x
  | |- steps _ (let '(_, _) := ?x in _) => destruct x
  end.

Ltac steps_tac := unfold mbind, PyM_bind; repeat steps_step.

Section RemoveFacts.
Import DreamGaffer.

Global Instance shrinks_preorder : PreOrder shrinks.
Proof.
  split.
  - intros s self. split; [done|]. exists []. by rewrite app_nil_r.
  - intros s1 s2 s3 H12 H23 self.
    destruct (H12 self) as [Hc12 [f12 Hu12]].
    destruct (H23 self) as [Hc23 [f23 Hu23]].
    split; [by etrans|]. exists (f12 ++ f23).
    by rewrite Hu23, Hu12, app_assoc.
Qed.

Lemma getCache_setCache self self' v control :
  getCache self (setCache self' v control)
  = if decide (self = self') then v else getCache self control.
Proof. by destruct self, self'. Qed.

Lemma getCache_set_materialEditNode self v control :
  getCache self (set_materialEditNode v control) = getCache self control.
Proof. by destruct self. Qed.

Lemma shrinks_modifyCache self (f : Cache → Cache) :
  (∀ c, cache (f c) ⊆ cache c ∧ ∃ freed, unused (f c) = unused c ++ freed) →
  steps shrinks (modifyCache self f).
Proof.
  intros Hf s self'. simpl. rewrite getCache_setCache.
  destruct (decide (self' = self)) as [->|]; [apply Hf|].
  split; [done|]. exists []. by rewrite app_nil_r.
Qed.

Lemma shrinks_cache_get self key : steps shrinks (cache_get self key).
Proof. unfold cache_get. steps_tac. Qed.

Lemma shrinks_cache_pop self key : steps shrinks (cache_pop self key).
Proof.
  unfold cache_pop. steps_tac; [apply shrinks_cache_get|].
  apply shrinks_modifyCache. intros c. simpl. split.
  - apply delete_subseteq.
  - exists []. by rewrite app_nil_r.
Qed.

Lemma shrinks_nodeCall self call : steps shrinks (nodeCall self call).
Proof.
  unfold nodeCall. steps_tac.
  apply shrinks_modifyCache. intros c. simpl. split; [done|].
  exists []. by rewrite app_nil_r.
Qed.

Lemma shrinks_editCall call : steps shrinks (editCall call).
Proof.
  unfold editCall. steps_tac.
  apply steps_modify. intros s self. rewrite getCache_set_materialEditNode.
  split; [done|]. exists []. by rewrite app_nil_r.
Qed.

Lemma shrinks_append self index :
  steps shrinks (modifyCache self (λ c, set_unused (unused c ++ [index]) c)).
Proof.
  apply shrinks_modifyCache. intros c. simpl. split; [done|]. by exists [index].
Qed.

Lemma shrinks_recursiveRemoveLocation depth self parentPath name :
  steps shrinks (recursiveRemoveLocation depth self parentPath name).
Proof.
  revert self parentPath name.
  induction depth as [|depth IH]; intros self parentPath name; simpl.
  - apply steps_raise; tc_solve.
  - steps_tac;
      first [ apply shrinks_cache_pop | apply shrinks_append
            | apply shrinks_nodeCall | apply shrinks_editCall
            | apply IH ].
Qed.

End RemoveFacts.

Section PrimitiveFacts.
Import DreamGaffer.

Lemma cache_pop_Some self key control info :
  look control self key = Some info →
  cache_pop self key control
  = (setCache self
       (set_cache (delete key (cache (getCache self control)))
          (getCache self control)) control,
     inr info).
Proof.
  intros Hlook. unfold cache_pop, cache_get, mbind, PyM_bind, PyM.bind,
    PyM.gets, modifyCache, PyM.modify, PyM.ret.
  unfold look in Hlook. by rewrite Hlook.
Qed.

Lemma look_setCache control self self' v key :
  look (setCache self' v control) self key
  = if decide (self = self') then cache v !! key else look control self key.
Proof. unfold look. rewrite getCache_setCache. by destruct (decide _). Qed.

End PrimitiveFacts.

Section IndexFacts.
Import DreamGaffer.

Lemma getIndexForNewLocation_reuse self control freed i :
  unused (getCache self control) = freed ++ [i] →
  getIndexForNewLocation self control
  = (setCache self (set_unused freed (getCache self control)) control, inr i).
Proof.
  intros Hu. unfold getIndexForNewLocation, mbind, PyM_bind, PyM.bind,
    PyM.gets, modifyCache, PyM.modify, PyM.ret. simpl.
  by rewrite Hu, last_snoc, removelast_last.
Qed.

Lemma getIndexForNewLocation_fresh self control :
  unused (getCache self control) = [] →
  getIndexForNewLocation self control
  = (control, inr (size (cache (getCache self control)))).
Proof.
  intros Hu. unfold getIndexForNewLocation, mbind, PyM_bind, PyM.bind,
    PyM.gets. simpl. by rewrite Hu.
Qed.

Lemma addLocation_returns self locationPath index isChild control :
  ∃ control',
    addLocation self locationPath index isChild control = (control', inr tt)
    ∧ unused (getCache self control') = unused (getCache self control).
Proof.
  unfold addLocation, cache_setitem, nodeCall, initTargetNode, modifyCache,
    mbind, PyM_bind, PyM.bind, PyM.gets, PyM.modify, PyM.ret.
  simpl. rewrite !getCache_setCache.
  destruct (decide (self = self)); [|done]. simpl.
  destruct (node (getCache self control)) as [calls|] eqn:Hn; simpl.
  - rewrite !getCache_setCache. destruct (decide (self = self)); [|done].
    simpl. rewrite Hn. eexists. split; [reflexivity|].
    rewrite !getCache_setCache. by destruct (decide (self = self)).
  - destruct self; simpl; eexists; (split; [reflexivity|]); done.
Qed.

Lemma drawIndices_reuse self locations control :
  length locations ≤ length (unused (getCache self control)) →
  ∃ control',
    drawIndices self locations control
    = (control',
       inr (take (length locations)
              (reverse (unused (getCache self control))))).
Proof.
  revert control. induction locations as [|l locations IH]; intros control Hlen.
  - by eexists.
  - simpl in *.
    destruct (unused (getCache self control)) as [|i freed _] eqn:Hu
      using rev_ind; [simpl in Hlen; lia|].
    rewrite length_app in Hlen. simpl in Hlen.
    unfold mbind, PyM_bind, PyM.bind.
    rewrite (getIndexForNewLocation_reuse _ _ _ _ Hu).
    set (control1 := setCache self _ control).
    destruct (addLocation_returns self l i false control1)
      as (control2 & -> & Hu2).
    assert (unused (getCache self control2) = freed) as Hfreed.
    { rewrite Hu2. unfold control1. rewrite getCache_setCache.
      by destruct (decide (self = self)). }
    destruct (IH control2) as (control' & ->); [rewrite Hfreed; lia|].
    rewrite Hfreed. eexists. unfold PyM.ret. do 2 f_equal.
    by rewrite reverse_snoc.
Qed.

(** C2.  [getIndexForNewLocation] returns the index appended last to the
    unused list, and takes it off the list, when the list is not empty,
    and otherwise [len(cache)], leaving the cache as it is.
    [recursiveRemoveLocation], called for a cached location, returns with
    the location gone and its index appended to the unused list, followed
    by the indices freed below it.  So the next [getIndexForNewLocation]
    hands out one of the freed indices, and successive additions take the
    unused indices, last freed first, as long as there are any. *)
Theorem index_reuse_spec :
  (∀ self control freed i,
     unused (getCache self control) = freed ++ [i] →
     ∃ control',
       getIndexForNewLocation self control = (control', inr i)
       ∧ unused (getCache self control') = freed
       ∧ cache (getCache self control') = cache (getCache self control))
  ∧ (∀ self control,
       unused (getCache self control) = [] →
       getIndexForNewLocation self control
       = (control, inr (size (cache (getCache self control)))))
  ∧ (∀ depth self control parentPath name info,
       look control self (getLocationPath parentPath name) = Some info →
       ∃ control' freed,
         recursiveRemoveLocation (S depth) self parentPath name control
         = (control', inr tt)
         ∧ look control' self (getLocationPath parentPath name) = None
         ∧ unused (getCache self control')
           = unused (getCache self control) ++ index info :: freed
         ∧ ∃ control'',
             getIndexForNewLocation self control'
             = (control'', inr (List.last freed (index info))))
  ∧ (∀ self control locations,
       length locations ≤ length (unused (getCache self control)) →
       ∃ control',
         drawIndices self locations control
         = (control',
            inr (take (length locations)
                   (reverse (unused (getCache self control)))))).
Proof.
  split_and!.
  - intros self control freed i Hu.
    rewrite (getIndexForNewLocation_reuse _ _ _ _ Hu).
    eexists. split; [reflexivity|]. rewrite getCache_setCache.
    by destruct (decide (self = self)).
  - apply getIndexForNewLocation_fresh.
  - intros depth self control parentPath name info Hlook.
    set (location := getLocationPath parentPath name) in *.
    cbn [recursiveRemoveLocation]. unfold PyM.try_except.
    fold location. unfold mbind, PyM_bind.
    rewrite (bind_returns _ _ _ _ _ (cache_pop_Some _ _ _ _ Hlook)).
    set (control1 := setCache self _ control).
    erewrite bind_returns; [|reflexivity].
    set (control2 := setCache self _ control1).
    match goal with
    | |- context [PyM.bind ?m ?k control2] => set (rest := PyM.bind m k)
    end.
    assert (steps shrinks rest) as Hrest.
    { unfold rest. steps_tac;
        first [ apply shrinks_nodeCall | apply shrinks_editCall
              | apply shrinks_recursiveRemoveLocation ]. }
    destruct (Hrest control2 self) as [Hsub [freed Hfreed]].
    assert (unused (getCache self control2)
            = unused (getCache self control) ++ [index info]) as Hu2.
    { unfold control2, control1. rewrite !getCache_setCache.
      by destruct (decide (self = self)). }
    assert (cache (getCache self control2) !! location = None) as Hgone.
    { unfold control2, control1. rewrite !getCache_setCache.
      destruct (decide (self = self)); [|done]. simpl.
      apply lookup_delete_eq. }
    exists (rest control2).1, freed. split_and!.
    + done.
    + unfold look. eapply lookup_weaken_None; [exact Hgone | exact Hsub].
    + by rewrite Hfreed, Hu2, <-app_assoc.
    + destruct freed as [|j freed _] using rev_ind.
      * eexists. eapply getIndexForNewLocation_reuse.
        by rewrite Hfreed, Hu2, app_nil_r.
      * eexists. rewrite last_last.
        eapply getIndexForNewLocation_reuse.
        by rewrite Hfreed, app_assoc.
  - intros self control locations. apply drawIndices_reuse.
Qed.

End IndexFacts.

Section PathFacts.
Import DreamGaffer.

Lemma string_app_cons (x : ascii) (a b : string) :
  String x a +:+ b = String x (a +:+ b).
Proof. reflexivity. Qed.

Lemma string_app_nil_l (s : string) : "" +:+ s = s.
Proof. reflexivity. Qed.

Lemma string_app_nil_r (s : string) : s +:+ "" = s.
Proof.
  induction s as [|c s IH]; [done|]. by rewrite string_app_cons, IH.
Qed.

Lemma string_app_assoc (a b c : string) : (a +:+ b) +:+ c = a +:+ b +:+ c.
Proof.
  induction a as [|x a IH]; [done|]. by rewrite !string_app_cons, IH.
Qed.

Lemma string_app_length (a b : string) :
  String.length (a +:+ b) = String.length a + String.length b.
Proof.
  induction a as [|x a IH]; [done|]. rewrite string_app_cons. simpl.
  by rewrite IH.
Qed.

Lemma getLocationPath_app (P c : string) :
  P ≠ "" → getLocationPath P c = P +:+ "/" +:+ c.
Proof. intros HP. unfold getLocationPath. by destruct (decide (P = "")). Qed.

Lemma under_refl (P : string) : under P P.
Proof. by left. Qed.

Lemma under_length (P k : string) :
  under P k → String.length P ≤ String.length k.
Proof.
  intros [->|[t ->]]; [done|]. rewrite string_app_length. lia.
Qed.

Lemma under_trans (P Q k : string) : under P Q → under Q k → under P k.
Proof.
  intros [->|[t ->]] [->|[u ->]].
  - by left.
  - right. by exists u.
  - right. by exists t.
  - right. exists (t +:+ "/" +:+ u). by rewrite !string_app_assoc.
Qed.

Lemma under_child (P c : string) : P ≠ "" → under P (getLocationPath P c).
Proof. intros HP. rewrite getLocationPath_app by done. right. by exists c. Qed.

Lemma under_app (P sfx k : string) :
  under P (P +:+ sfx) → under (P +:+ sfx) k → under P k.
Proof. apply under_trans. Qed.

Lemma getLocationPath_nonempty (P c : string) :
  P ≠ "" → getLocationPath P c ≠ "".
Proof.
  intros HP. rewrite getLocationPath_app by done.
  destruct P; [done|]. discriminate.
Qed.

Lemma getLocationPath_length (P c : string) :
  P ≠ "" → String.length P < String.length (getLocationPath P c).
Proof.
  intros HP. rewrite getLocationPath_app by done.
  rewrite !string_app_length. simpl. lia.
Qed.

(** The first component of a path is determined by the path. *)
Lemma slashfree_split (a b r1 r2 : string) :
  slashfree a = true → slashfree b = true →
  a +:+ r1 = b +:+ r2 →
  (r1 = "" ∨ ∃ t, r1 = "/" +:+ t) → (r2 = "" ∨ ∃ t, r2 = "/" +:+ t) →
  a = b.
Proof.
  revert b. induction a as [|x a IH]; intros [|y b] Ha Hb Heq H1 H2.
  - done.
  - rewrite string_app_nil_l, string_app_cons in Heq. simpl in Hb.
    apply andb_prop in Hb as [Hy _].
    destruct H1 as [->|[t ->]]; [done|].
    change ("/" +:+ t) with (String "/" t) in Heq. by simplify_eq.
  - rewrite string_app_nil_l, string_app_cons in Heq. simpl in Ha.
    apply andb_prop in Ha as [Hx _].
    destruct H2 as [->|[t ->]]; [done|].
    change ("/" +:+ t) with (String "/" t) in Heq. by simplify_eq.
  - rewrite !string_app_cons in Heq. simpl in Ha, Hb.
    apply andb_prop in Ha as [_ Ha]. apply andb_prop in Hb as [_ Hb].
    simplify_eq. f_equal. by eapply IH.
Qed.

Lemma under_suffix (P k : string) :
  under P k ↔ ∃ r, k = P +:+ r ∧ (r = "" ∨ ∃ t, r = "/" +:+ t).
Proof.
  split.
  - intros [->|[t ->]].
    + exists "". by rewrite string_app_nil_r; auto.
    + exists ("/" +:+ t). eauto.
  - intros (r & -> & [->|[t ->]]).
    + left. apply string_app_nil_r.
    + right. by exists t.
Qed.

(** Two children of a location with different names have nothing below
    them in common. *)
Lemma under_siblings (P c1 c2 k : string) :
  slashfree c1 = true → slashfree c2 = true →
  under (getLocationPath P c1) k → under (getLocationPath P c2) k →
  c1 = c2.
Proof.
  intros H1 H2 [r1 [-> Hr1]]%under_suffix [r2 [Heq Hr2]]%under_suffix.
  unfold getLocationPath in Heq. destruct (decide (P = "")).
  - by eapply slashfree_split.
  - rewrite !string_app_assoc in Heq.
    apply (inj (String.app P)) in Heq.
    apply (inj (String.app "/")) in Heq. by eapply slashfree_split.
Qed.

End PathFacts.

Section StateFacts.
Import DreamGaffer.
Context {N : CacheRef → Prop}.
Implicit Types control : InternalControl.

Lemma look_set_materialEditNode control v self key :
  look (set_materialEditNode v control) self key = look control self key.
Proof. unfold look. by rewrite getCache_set_materialEditNode. Qed.

Lemma nodesOK_setCache control self v :
  nodesOK N control → (N self → node v ≠ None) →
  nodesOK N (setCache self v control).
Proof.
  intros [Hn He] Hv. split; [|done].
  intros r Hr. rewrite getCache_setCache.
  destruct (decide (r = self)) as [->|?]; [by apply Hv | by apply Hn].
Qed.

Lemma cache_pop_spec control self key info :
  nodesOK N control → look control self key = Some info →
  ∃ control',
    cache_pop self key control = (control', inr info)
    ∧ nodesOK N control'
    ∧ ∀ r x, look control' r x
             = if decide (r = self ∧ x = key) then None else look control r x.
Proof.
  intros Hok Hlook. rewrite (cache_pop_Some _ _ _ _ Hlook).
  eexists. split; [reflexivity|]. split.
  - apply nodesOK_setCache; [done|]. apply Hok.
  - intros r x. rewrite look_setCache. simpl.
    destruct (decide (r = self)) as [->|Hr].
    + destruct (decide (x = key)) as [->|Hx].
      * rewrite decide_True by done. apply lookup_delete_eq.
      * rewrite decide_False by (by intros [? ?]). by apply lookup_delete_ne.
    + by rewrite decide_False by (by intros [? ?]).
Qed.

Lemma cache_setitem_spec control self key info :
  nodesOK N control →
  ∃ control',
    cache_setitem self key info control = (control', inr tt)
    ∧ nodesOK N control'
    ∧ ∀ r x, look control' r x
             = if decide (r = self ∧ x = key) then Some info
               else look control r x.
Proof.
  intros Hok. eexists. split; [reflexivity|]. split.
  - apply nodesOK_setCache; [done|]. apply Hok.
  - intros r x. rewrite look_setCache. simpl.
    destruct (decide (r = self)) as [->|Hr].
    + destruct (decide (x = key)) as [->|Hx].
      * rewrite decide_True by done. apply lookup_insert_eq.
      * rewrite decide_False by (by intros [? ?]). by apply lookup_insert_ne.
    + by rewrite decide_False by (by intros [? ?]).
Qed.

Lemma cache_get_spec control self key :
  cache_get self key control = (control, inr (look control self key)).
Proof. reflexivity. Qed.

Lemma nodeCall_spec control self call :
  nodesOK N control → N self →
  ∃ control',
    nodeCall self call control = (control', inr tt)
    ∧ nodesOK N control'
    ∧ ∀ r x, look control' r x = look control r x.
Proof.
  intros Hok HN. unfold nodeCall, mbind, PyM_bind, PyM.bind, PyM.gets. simpl.
  destruct (node (getCache self control)) as [calls|] eqn:Hn;
    [|by destruct (proj1 Hok self HN)].
  eexists. split; [reflexivity|]. split.
  - by apply nodesOK_setCache.
  - intros r x. rewrite look_setCache. simpl.
    by destruct (decide (r = self)) as [->|].
Qed.

Lemma editCall_spec control call :
  nodesOK N control →
  ∃ control',
    editCall call control = (control', inr tt)
    ∧ nodesOK N control'
    ∧ ∀ r x, look control' r x = look control r x.
Proof.
  intros Hok. unfold editCall, mbind, PyM_bind, PyM.bind, PyM.get. simpl.
  destruct (materialEditNode control) as [calls|] eqn:Hn;
    [|by destruct (proj2 Hok)].
  eexists. split; [reflexivity|]. split.
  - split; [|done]. intros r. rewrite getCache_set_materialEditNode.
    apply Hok.
  - intros r x. apply look_set_materialEditNode.
Qed.

(** The entry of [P] is taken out of the cache and put back under [P'],
    and the nodes are told. *)
Lemma move_then {A} self P P' info (k : Info → M A) control :
  nodesOK N control → N self → look control self P = Some info →
  ∃ control1,
    PyM.bind (cache_pop self P) (λ info,
      PyM.bind (cache_setitem self P' info) (λ _,
        PyM.bind (nodeCall self (NodeRenameLocation (index info) P')) (λ _,
          PyM.bind (renameSingleLocation P P') (λ _, k info)))) control
    = k info control1
    ∧ nodesOK N control1
    ∧ ∀ r x, look control1 r x
             = if decide (r = self ∧ x = P') then Some info
               else if decide (r = self ∧ x = P) then None
               else look control r x.
Proof.
  intros Hok HN Hlook.
  destruct (cache_pop_spec control self P info Hok Hlook)
    as (c1 & E1 & Hok1 & L1).
  destruct (cache_setitem_spec c1 self P' info Hok1) as (c2 & E2 & Hok2 & L2).
  destruct (nodeCall_spec c2 self (NodeRenameLocation (index info) P') Hok2
              HN)
    as (c3 & E3 & Hok3 & L3).
  destruct (editCall_spec c3 (EditRenameLocation P P') Hok3)
    as (c4 & E4 & Hok4 & L4).
  exists c4. split_and!; [|done|].
  - rewrite (bind_returns _ _ _ _ _ E1), (bind_returns _ _ _ _ _ E2),
      (bind_returns _ _ _ _ _ E3).
    unfold renameSingleLocation. by rewrite (bind_returns _ _ _ _ _ E4).
  - intros r x. rewrite L4, L3, L2, L1. done.
Qed.

End StateFacts.

Section DescFacts.
Import DreamGaffer.
Implicit Types control : InternalControl.

Lemma Desc_sfx control self P r sfx :
  Desc control self P r sfx → sfx = "" ∨ ∃ t, sfx = "/" +:+ t.
Proof. destruct 1; [by left | right; eauto]. Qed.

Lemma Desc_under control self P r sfx :
  Desc control self P r sfx → under P (P +:+ sfx).
Proof.
  intros Hd. apply under_suffix. exists sfx. split; [done|].
  by eapply Desc_sfx.
Qed.

(** The descendants of [P] depend on the entries at and below [P] only. *)
Lemma Desc_frame control control' self P r sfx :
  P ≠ "" →
  (∀ r k, under P k → look control' r k = look control r k) →
  Desc control self P r sfx → Desc control' self P r sfx.
Proof.
  intros HP Hf Hd. induction Hd as [|self P info c child r sfx Hl Hc Hp Hd IH].
  - constructor.
  - econstructor; [| exact Hc | |].
    + rewrite Hf; [done | apply under_refl].
    + rewrite Hf; [done | by apply under_child].
    + apply IH; [by apply getLocationPath_nonempty|].
      intros r' k Hk. apply Hf. eapply under_trans; [|done].
      by apply under_child.
Qed.

Lemma okInfo_frame control control' self k info :
  k ≠ "" →
  (∀ r x, under k x → look control' r x = look control r x) →
  okInfo control self k info → okInfo control' self k info.
Proof.
  intros Hk Hf. unfold okInfo.
  destruct (classOf self), (children info) as [names|types]; try done.
  intros Hall c ty Hc. destruct (Hall c ty Hc) as [Hs Hp]. split; [done|].
  intros child Hty Hchild. rewrite Hf; [by apply Hp | by apply under_child].
Qed.

End DescFacts.

Section LoopFacts.
Import DreamGaffer.
Implicit Types control : InternalControl.

Lemma for_each_fmap_eq {S A B} (f : A → B) (l : list A)
    (body : B → PyM.M S unit) (body' : A → PyM.M S unit) s :
  (∀ x s, body' x s = body (f x) s) →
  PyM.for_each l body' s = PyM.for_each (f <$> l) body s.
Proof.
  intros Hb. revert s. induction l as [|x l IH]; intros s; [done|].
  simpl. unfold PyM.bind. rewrite Hb.
  destruct (body (f x) s) as [s' [e|[]]]; [done|]. apply IH.
Qed.

Lemma for_each_omap_eq {S A B} (f : A → option B) (l : list A)
    (body : B → PyM.M S unit) (body' : A → PyM.M S unit) s :
  (∀ x s, body' x s = match f x with
                      | Some y => body y s
                      | None => (s, inr tt)
                      end) →
  PyM.for_each l body' s = PyM.for_each (omap f l) body s.
Proof.
  intros Hb. revert s. induction l as [|x l IH]; intros s; [done|].
  simpl. unfold PyM.bind at 1. rewrite Hb.
  destruct (f x) as [y|]; simpl.
  - unfold PyM.bind. destruct (body y s) as [s' [e|[]]]; [done|]. apply IH.
  - apply IH.
Qed.

Lemma recursiveRename_Base depth self Q names Q' control :
  classOf self = BaseCache →
  recursiveRenameChildLocation (S depth) self Q (ChildList names) Q' control
  = PyM.for_each ((λ c, (c, self, true)) <$> names) (childStep depth Q Q')
      control.
Proof.
  intros Hc. cbn [recursiveRenameChildLocation]. rewrite Hc.
  by apply for_each_fmap_eq.
Qed.

Lemma recursiveRename_LightRig depth self Q types Q' control :
  classOf self = LightRigCache →
  recursiveRenameChildLocation (S depth) self Q (ChildDict types) Q' control
  = PyM.for_each (omap (itemOf self) (map_to_list types))
      (childStep depth Q Q') control.
Proof.
  intros Hc. cbn [recursiveRenameChildLocation]. rewrite Hc.
  unfold mbind, PyM_bind. erewrite bind_returns; [|reflexivity].
  apply for_each_omap_eq. intros [c ty] s. unfold itemOf. simpl.
  destruct (decide (ty = locationType self)); [done|].
  by destruct (getCacheOfLocationType ty).
Qed.

Lemma renameLocation_S depth self Q Q' :
  renameLocation (S depth) self Q Q' = renameSubtree depth self Q Q'.
Proof. reflexivity. Qed.

(** Children with different names have disjoint subtrees, before and
    after. *)
Lemma inChild_disjoint Q Q' c1 c2 k :
  Q ≠ "" → Q' ≠ "" →
  (∀ k, under Q k → under Q' k → False) →
  slashfree c1 = true → slashfree c2 = true →
  inChild Q Q' c1 k → inChild Q Q' c2 k → c1 = c2.
Proof.
  intros HQ HQ' Hdisj H1 H2 [Hk1|Hk1] [Hk2|Hk2].
  - by eapply under_siblings.
  - destruct (Hdisj k).
    + eapply under_trans; [by apply under_child | done].
    + eapply under_trans; [by apply under_child | done].
  - destruct (Hdisj k).
    + eapply under_trans; [by apply under_child | done].
    + eapply under_trans; [by apply under_child | done].
  - by eapply under_siblings.
Qed.

End LoopFacts.

Section RenameLoop.
Import DreamGaffer.
Context {N : CacheRef → Prop}.
Variables (d : nat) (Q Q' : string)
  (items : list (string * CacheRef * bool)) (control1 : InternalControl).
Hypothesis IH : ∀ d', d' ≤ d → renameSubtree_ok N d'.
Hypothesis HQ : Q ≠ "".
Hypothesis HQ' : Q' ≠ "".
Hypothesis Hdisj : ∀ k, under Q k → under Q' k → False.
Hypothesis Hslash : ∀ item, item ∈ items → slashfree item.1.1 = true.
Hypothesis Hfun :
  ∀ i1 i2, i1 ∈ items → i2 ∈ items → i1.1.1 = i2.1.1 → i1 = i2.
Hypothesis Hfresh :
  ∀ item, item ∈ items →
    ∀ r k, under (getLocationPath Q' item.1.1) k → look control1 r k = None.
Hypothesis Hwf :
  ∀ item, item ∈ items →
    ∀ r k info, under (getLocationPath Q item.1.1) k →
                look control1 r k = Some info → okInfo control1 r k info.
Hypothesis Hdepth :
  ∀ item, item ∈ items →
    ∀ r k, under (getLocationPath Q item.1.1) k → look control1 r k ≠ None →
           2 * String.length k + 2
           ≤ d + 2 * String.length (getLocationPath Q item.1.1).
Hypothesis Hpresent :
  ∀ item, item ∈ items → item.2 = false →
    look control1 item.1.2 (getLocationPath Q item.1.1) ≠ None.
Hypothesis Hwalk :
  ∀ item, item ∈ items →
    ∀ r k, under (getLocationPath Q item.1.1) k → look control1 r k ≠ None →
           N r.

(** What happens below one child leaves the other children as they
    are. *)
Lemma other_preserved item c control control' :
  item ∈ items → slashfree c = true → item.1.1 ≠ c →
  (∀ r k, ¬ under (getLocationPath Q c) k →
          ¬ under (getLocationPath Q' c) k →
          look control' r k = look control r k) →
  (untouched Q Q' control1 item.1.1 control →
   untouched Q Q' control1 item.1.1 control')
  ∧ (processed Q Q' control1 item control →
     processed Q Q' control1 item control').
Proof.
  intros Hin Hc Hne Hframe.
  assert (∀ r k, inChild Q Q' item.1.1 k →
                 look control' r k = look control r k) as Hsame.
  { intros r k Hk. apply Hframe.
    - intros Hk'. apply Hne.
      eapply (inChild_disjoint Q Q' _ _ k); eauto. by left.
    - intros Hk'. apply Hne.
      eapply (inChild_disjoint Q Q' _ _ k); eauto. by right. }
  split.
  - intros Hu r k Hk. rewrite Hsame by done. by apply Hu.
  - intros Hp r sfx Hd. destruct (Hp r sfx Hd) as [Hnew Hold].
    pose proof (Desc_sfx _ _ _ _ _ Hd) as Hsfx.
    rewrite !Hsame; [done | |].
    + left. apply under_suffix. eauto.
    + right. apply under_suffix. eauto.
Qed.

(** An untouched child can be renamed. *)
Lemma child_pre item control dchild :
  item ∈ items → d ≤ S dchild → nodesOK N control →
  untouched Q Q' control1 item.1.1 control →
  renamePreN N dchild control (getLocationPath Q item.1.1)
    (getLocationPath Q' item.1.1).
Proof.
  intros Hin Hd Hok Hu.
  assert (∀ r k, under (getLocationPath Q item.1.1) k →
                 look control r k = look control1 r k) as Hold.
  { intros r k Hk. apply Hu. by left. }
  assert (∀ r k, under (getLocationPath Q' item.1.1) k →
                 look control r k = look control1 r k) as Hnew.
  { intros r k Hk. apply Hu. by right. }
  split_and!.
  - done.
  - by apply getLocationPath_nonempty.
  - by apply getLocationPath_nonempty.
  - intros k Hk Hk'. apply (Hdisj k).
    + eapply under_trans; [by apply under_child | done].
    + eapply under_trans; [by apply under_child | done].
  - intros r k Hk. rewrite Hnew by done. by eapply Hfresh.
  - intros r k info Hk Hlook. rewrite Hold in Hlook by done.
    eapply okInfo_frame; [| |by eapply Hwf].
    + intros ->. apply under_length in Hk.
      pose proof (getLocationPath_length Q item.1.1 HQ). simpl in Hk. lia.
    + intros r' x Hx. apply Hold. by eapply under_trans.
  - intros r k Hk Hlook. rewrite Hold in Hlook by done.
    pose proof (Hdepth item Hin r k Hk Hlook). lia.
  - intros r k Hk Hlook. rewrite Hold in Hlook by done.
    by apply (Hwalk item Hin r k).
Qed.

Lemma rename_loop rest control :
  (∀ item, item ∈ rest → item ∈ items) →
  NoDup (rest.*1.*1) ∨ Forall (λ item, item.2 = true) rest →
  loopInv N Q Q' items control1 rest control →
  ∃ control',
    PyM.for_each rest (childStep d Q Q') control = (control', inr tt)
    ∧ loopInv N Q Q' items control1 [] control'.
Proof.
  revert control. induction rest as [|x rest IHrest];
    intros control Hsub Hnd (Hok & Hout & Hstat & Hdone & Hung).
  { exists control. split; [done|]. by split_and!. }
  assert (x ∈ items) as Hx by (apply Hsub; left).
  assert (∀ item, item ∈ rest → item ∈ items) as Hsub'
    by (intros item Hin; apply Hsub; by right).
  assert (NoDup (rest.*1.*1) ∨ Forall (λ item, item.2 = true) rest) as Hnd'.
  { destruct Hnd as [Hnd|Hnd].
    - left. simpl in Hnd. by apply NoDup_cons in Hnd as [_ ?].
    - right. by apply Forall_cons in Hnd as [_ ?]. }
  assert (∀ item, item ∈ rest → item.2 = false → item.1.1 ≠ x.1.1) as Hfar.
  { intros item Hin Hg Heq. destruct Hnd as [Hnd|Hnd].
    - simpl in Hnd. apply NoDup_cons in Hnd as [Hnotin _]. apply Hnotin.
      rewrite <-Heq. apply list_elem_of_fmap. exists item.1.
      split; [done|]. apply list_elem_of_fmap. by exists item.
    - apply Forall_cons in Hnd as [_ Hnd]. rewrite Forall_forall in Hnd.
      rewrite (Hnd item Hin) in Hg. done. }
  (* the invariant goes on when nothing is done for [x] *)
  assert (processed Q Q' control1 x control
          ∨ look control1 x.1.2 (getLocationPath Q x.1.1) = None →
          loopInv N Q Q' items control1 rest control) as Hskip.
  { intros Hcase. split_and!; try done.
    - intros item Hin Hnot Hpres.
      destruct (decide (item = x)) as [->|Hne].
      + destruct Hcase as [Hp|Hnone]; [done | by destruct Hpres].
      + apply Hdone; [done | | done].
        intros [->|?]%elem_of_cons; done.
    - intros item Hin Hg. apply Hung; [by right | done]. }
  destruct x as [[c child] g]. simpl in *.
  (* the step taken when the child is cached and untouched *)
  assert (∀ info dchild,
            d ≤ S dchild → dchild ≤ d →
            untouched Q Q' control1 c control →
            look control1 child (getLocationPath Q c) = Some info →
            ∃ control2,
              renameSubtree dchild child (getLocationPath Q c)
                (getLocationPath Q' c) control = (control2, inr tt)
              ∧ loopInv N Q Q' items control1 rest control2) as Hmove.
  { intros info dchild Hd1 Hd2 Hu Hlook.
    pose proof (child_pre (c, child, g) control dchild Hx Hd1 Hok Hu) as Hpre.
    simpl in Hpre.
    assert (look control child (getLocationPath Q c) = Some info) as Hlook'.
    { rewrite Hu; [done|]. left. apply under_refl. }
    destruct (IH dchild Hd2 child _ _ control info Hpre Hlook')
      as (control2 & Hrun & Hok2 & Hframe2 & Hmoved2).
    exists control2. split; [done|].
    assert (processed Q Q' control1 (c, child, g) control2) as Hproc.
    { intros r sfx Hd. simpl in *.
      assert (Desc control child (getLocationPath Q c) r sfx) as Hd'.
      { eapply Desc_frame; [by apply getLocationPath_nonempty | | done].
        intros r' k Hk. apply Hu. by left. }
      destruct (Hmoved2 r sfx Hd') as [Hnew Hold]. split; [|done].
      rewrite Hnew. apply Hu. left. by eapply Desc_under. }
    split_and!.
    - done.
    - intros r k Hk. rewrite Hframe2.
      + by apply Hout.
      + intros Hk'. apply (Hk (c, child, g)); [done | by left].
      + intros Hk'. apply (Hk (c, child, g)); [done | by right].
    - intros item Hin.
      destruct (decide (item.1.1 = c)) as [Heq|Hne].
      + assert (item = (c, child, g)) as -> by (by apply Hfun).
        right. split; [simpl; by rewrite Hlook | done].
      + destruct (other_preserved item c control control2 Hin
                    (Hslash _ Hx) Hne Hframe2) as [Hu' Hp'].
        destruct (Hstat item Hin) as [?|[? ?]]; [left | right]; auto.
    - intros item Hin Hnot Hpres.
      destruct (decide (item.1.1 = c)) as [Heq|Hne].
      + assert (item = (c, child, g)) as -> by (by apply Hfun). done.
      + destruct (other_preserved item c control control2 Hin
                    (Hslash _ Hx) Hne Hframe2) as [Hu' Hp'].
        apply Hp'. apply Hdone; [done | | done].
        intros [->|?]%elem_of_cons; done.
    - intros item Hin Hg.
      destruct (other_preserved item c control control2 (Hsub' _ Hin)
                  (Hslash _ Hx) (Hfar _ Hin Hg) Hframe2) as [Hu' Hp'].
      apply Hu'. apply Hung; [by right | done]. }
  (* the cases *)
  assert (∃ control2,
            childStep d Q Q' (c, child, g) control = (control2, inr tt)
            ∧ loopInv N Q Q' items control1 rest control2)
    as (control2 & Hstep & Hinv2).
  { destruct (Hstat (c, child, g) Hx) as [Hu|[Hpres Hp]]; simpl in *.
    - (* untouched *)
      destruct (look control1 child (getLocationPath Q c)) as [info|] eqn:Hl.
      + assert (look control child (getLocationPath Q c) = Some info) as Hl'.
        { rewrite Hu; [done|]. left. apply under_refl. }
        destruct g.
        * destruct (Hmove info d) as (control2 & Hrun & Hinv2);
            [lia | lia | done | done |].
          exists control2. split; [|done].
          unfold mbind, PyM_bind.
          rewrite (bind_returns _ _ _ _ _ (cache_get_spec _ _ _)).
          rewrite Hl'. exact Hrun.
        * assert (2 * String.length (getLocationPath Q c) + 2
                  ≤ d + 2 * String.length (getLocationPath Q c)) as Hd.
          { apply (Hdepth (c, child, false) Hx child); [apply under_refl|].
            by rewrite Hl. }
          destruct d as [|d0]; [lia|].
          destruct (Hmove info d0) as (control2 & Hrun & Hinv2);
            [lia | lia | done | done |].
          exists control2. split; [|done]. by rewrite renameLocation_S.
      + destruct g; [|by destruct (Hpresent (c, child, false) Hx eq_refl)].
        exists control. split; [|apply Hskip; by right].
        unfold mbind, PyM_bind.
          rewrite (bind_returns _ _ _ _ _ (cache_get_spec _ _ _)).
        rewrite Hu; [by rewrite Hl | left; apply under_refl].
    - (* moved before *)
      assert (look control child (getLocationPath Q c) = None) as Hnone.
      { destruct (Hp child "" (Desc_here _ _ _)) as [_ Hold].
        simpl in Hold. by rewrite string_app_nil_r in Hold. }
      destruct g.
      + exists control. split; [|apply Hskip; by left].
        unfold mbind, PyM_bind.
          rewrite (bind_returns _ _ _ _ _ (cache_get_spec _ _ _)).
        by rewrite Hnone.
      + assert (untouched Q Q' control1 c control) as Hu
          by (apply (Hung (c, child, false)); [left | done]).
        destruct Hpres. rewrite <-Hu; [done | left; apply under_refl]. }
  cbn [PyM.for_each]. rewrite (bind_returns _ _ _ _ _ Hstep).
  by apply IHrest.
Qed.

End RenameLoop.

Section ItemsFacts.
Import DreamGaffer.
Implicit Types control : InternalControl.

Lemma itemOf_Some self c ty item :
  itemOf self (c, ty) = Some item →
  item.1.1 = c
  ∧ childCache self ty = Some item.1.2
  ∧ (item.2 = false →
     ty ≠ locationType self ∧ getCacheOfLocationType ty = Some item.1.2).
Proof.
  unfold itemOf, childCache. simpl.
  destruct (decide (ty = locationType self)).
  - intros [= <-]. by split_and!.
  - destruct (getCacheOfLocationType ty); intros [= <-]. by split_and!.
Qed.

Lemma omap_itemOf_names self (l : list (string * string)) :
  (omap (itemOf self) l).*1.*1 `sublist_of` l.*1.
Proof.
  induction l as [|[c ty] l IH]; [done|]. simpl.
  destruct (itemOf self (c, ty)) as [item|] eqn:Hitem.
  - apply itemOf_Some in Hitem as [<- _]. simpl. by constructor.
  - by constructor.
Qed.

Lemma elem_of_itemsOf_dict self types item :
  item ∈ itemsOf self (ChildDict types)
  ↔ ∃ ty, types !! item.1.1 = Some ty
          ∧ itemOf self (item.1.1, ty) = Some item.
Proof.
  unfold itemsOf. rewrite list_elem_of_omap. split.
  - intros ([c ty] & Hin & Hitem). apply elem_of_map_to_list in Hin.
    pose proof (itemOf_Some _ _ _ _ Hitem) as [<- _]. by exists ty.
  - intros (ty & Hty & Hitem). exists (item.1.1, ty).
    split; [by apply elem_of_map_to_list | done].
Qed.

(** The children visited for a well-formed entry. *)
Lemma itemsOf_ok control self k info :
  okInfo control self k info →
  (∀ item, item ∈ itemsOf self (children info) → slashfree item.1.1 = true)
  ∧ (∀ i1 i2, i1 ∈ itemsOf self (children info) →
              i2 ∈ itemsOf self (children info) → i1.1.1 = i2.1.1 → i1 = i2)
  ∧ (NoDup (itemsOf self (children info)).*1.*1
     ∨ Forall (λ item, item.2 = true) (itemsOf self (children info)))
  ∧ (∀ item, item ∈ itemsOf self (children info) → item.2 = false →
             look control item.1.2 (getLocationPath k item.1.1) ≠ None)
  ∧ (∀ c child, recordedChild self info c child →
                ∃ g, (c, child, g) ∈ itemsOf self (children info))
  ∧ (∀ depth Q Q' control',
       recursiveRenameChildLocation (S depth) self Q (children info) Q'
         control'
       = PyM.for_each (itemsOf self (children info)) (childStep depth Q Q')
           control').
Proof.
  unfold okInfo, recordedChild.
  destruct (classOf self) eqn:Hclass, (children info) as [names|types];
    try done; intros Hall.
  - (* a BaseCache *)
    rewrite Forall_forall in Hall. split_and!.
    + intros item [c [-> Hc]]%list_elem_of_fmap. by apply Hall.
    + intros i1 i2 [c1 [-> _]]%list_elem_of_fmap
        [c2 [-> _]]%list_elem_of_fmap. simpl. by intros ->.
    + right. apply Forall_forall.
      by intros item [c [-> _]]%list_elem_of_fmap.
    + by intros item [c [-> _]]%list_elem_of_fmap.
    + intros c child [Hc ->]. exists true. simpl.
      apply list_elem_of_fmap. by exists c.
    + intros. by apply recursiveRename_Base.
  - (* a LightRigCache *)
    split_and!.
    + intros item (ty & Hty & Hitem)%elem_of_itemsOf_dict.
      by destruct (Hall _ _ Hty).
    + intros i1 i2 (ty1 & Hty1 & H1)%elem_of_itemsOf_dict
        (ty2 & Hty2 & H2)%elem_of_itemsOf_dict Heq.
      rewrite Heq, Hty2 in Hty1. simplify_eq.
      rewrite Heq, H2 in H1. by simplify_eq.
    + left. eapply sublist_NoDup; [|apply omap_itemOf_names].
      apply NoDup_fst_map_to_list.
    + intros item (ty & Hty & Hitem)%elem_of_itemsOf_dict Hg.
      destruct (itemOf_Some _ _ _ _ Hitem) as (_ & _ & Hcross).
      destruct (Hcross Hg) as [Hne Hchild].
      destruct (Hall _ _ Hty) as [_ Hp]. by apply Hp.
    + intros c child (ty & Hty & Hchild).
      destruct (itemOf self (c, ty)) as [item|] eqn:Hitem.
      * destruct (itemOf_Some _ _ _ _ Hitem) as (Hc & Hcc & _).
        rewrite Hchild in Hcc. simplify_eq.
        exists item.2. apply elem_of_itemsOf_dict. exists ty.
        destruct item as [[? ?] ?]. by simpl in *.
      * unfold itemOf, childCache in *. simpl in *.
        destruct (decide (ty = locationType self)); [done|].
        by destruct (getCacheOfLocationType ty).
    + intros. by apply recursiveRename_LightRig.
Qed.

End ItemsFacts.

Section RenameSubtreeFacts.
Import DreamGaffer.
Context {N : CacheRef → Prop}.
Implicit Types control : InternalControl.

(** The locations at and below a child are strictly below the parent, and
    not the new place of the parent. *)
Lemma inChild_strict Q Q' c k :
  Q ≠ "" → Q' ≠ "" → (∀ k, under Q k → under Q' k → False) →
  inChild Q Q' c k → k ≠ Q ∧ k ≠ Q' ∧ (under Q k ∨ under Q' k).
Proof.
  intros HQ HQ' Hdisj [Hk|Hk].
  - pose proof (under_length _ _ Hk) as Hlen.
    pose proof (getLocationPath_length Q c HQ) as Hc.
    assert (under Q k) as HQk
      by (eapply under_trans; [by apply under_child | done]).
    split_and!; [intros ->; lia | | by left].
    intros ->. apply (Hdisj Q'); [done | apply under_refl].
  - pose proof (under_length _ _ Hk) as Hlen.
    pose proof (getLocationPath_length Q' c HQ') as Hc.
    assert (under Q' k) as HQk
      by (eapply under_trans; [by apply under_child | done]).
    split_and!; [ | intros ->; lia | by right].
    intros ->. apply (Hdisj Q); [apply under_refl | done].
Qed.

Lemma renameSubtree_spec depth : renameSubtree_ok N depth.
Proof.
  induction depth as [depth IH] using lt_wf_ind.
  intros self Q Q' control info
    (Hok & HQ & HQ' & Hdisj & Hfresh & Hwf & Hdepth & Hwalk) Hlook.
  assert (N self) as HN.
  { apply (Hwalk self Q (under_refl Q)). by rewrite Hlook. }
  assert (1 ≤ depth) as Hpos.
  { pose proof (Hdepth self Q (under_refl Q)) as Hd.
    rewrite Hlook in Hd. specialize (Hd ltac:(done)). lia. }
  destruct depth as [|d]; [lia|].
  unfold renameSubtree, mbind, PyM_bind.
  destruct (move_then self Q Q' info
              (λ info, recursiveRenameChildLocation (S d) self Q
                         (children info) Q') control Hok HN Hlook)
    as (control1 & Hrun & Hok1 & Hl1).
  rewrite Hrun. clear Hrun.
  pose proof (Hwf self Q info (under_refl Q) Hlook) as Hinfo.
  destruct (itemsOf_ok control self Q info Hinfo)
    as (Hslash & Hfun & Hnd & Hpresent & Hrec & Hloop).
  rewrite Hloop. set (items := itemsOf self (children info)) in *.
  assert (∀ r k, k ≠ Q → k ≠ Q' → look control1 r k = look control r k)
    as Haway.
  { intros r k HkQ HkQ'. rewrite Hl1.
    rewrite decide_False by (by intros [? ?]).
    by rewrite decide_False by (by intros [? ?]). }
  assert (∀ c r k, inChild Q Q' c k → look control1 r k = look control r k)
    as Hchild.
  { intros c r k Hk.
    destruct (inChild_strict Q Q' c k HQ HQ' Hdisj Hk) as (? & ? & _).
    by apply Haway. }
  destruct (rename_loop (N := N) d Q Q' items control1) with (rest := items)
    (control := control1) as (control' & Hrun & Hok' & Hout & _ & Hdone & _).
  - intros d' Hd'. apply IH. lia.
  - done.
  - done.
  - done.
  - done.
  - done.
  - intros item Hin r k Hk. rewrite (Hchild item.1.1) by (by right).
    apply Hfresh. eapply under_trans; [by apply under_child | done].
  - intros item Hin r k i Hk Hi.
    rewrite (Hchild item.1.1) in Hi by (by left).
    assert (under Q k) as HQk
      by (eapply under_trans; [by apply under_child | done]).
    eapply okInfo_frame; [| |by eapply Hwf].
    + intros ->. apply under_length in HQk. destruct Q; [done|].
      simpl in HQk. lia.
    + intros r' x Hx. apply (Hchild item.1.1). left.
      by eapply under_trans.
  - intros item Hin r k Hk Hi.
    rewrite (Hchild item.1.1) in Hi by (by left).
    assert (under Q k) as HQk
      by (eapply under_trans; [by apply under_child | done]).
    pose proof (Hdepth r k HQk Hi).
    pose proof (getLocationPath_length Q item.1.1 HQ). lia.
  - intros item Hin Hg. rewrite (Hchild item.1.1).
    + by apply Hpresent.
    + left. apply under_refl.
  - intros item Hin r k Hk Hi.
    rewrite (Hchild item.1.1) in Hi by (by left).
    apply (Hwalk r k); [|done].
    eapply under_trans; [by apply under_child | done].
  - done.
  - done.
  - split_and!; [done | done | | | ].
    + intros item Hin. by left.
    + by intros item Hin Hnot.
    + by intros item Hin Hg r k Hk.
  - exists control'. split; [done|]. split_and!.
    + done.
    + intros r k HkQ HkQ'. rewrite Hout.
      * apply Haway; intros ->; [apply HkQ | apply HkQ']; apply under_refl.
      * intros item Hin Hk.
        destruct (inChild_strict Q Q' _ k HQ HQ' Hdisj Hk) as (_ & _ & [?|?]);
          [by apply HkQ | by apply HkQ'].
    + assert (∀ r k, k = Q ∨ k = Q' → look control' r k = look control1 r k)
        as Hroot.
      { intros r k Hk. apply Hout. intros item Hin Hin'.
        destruct (inChild_strict Q Q' _ k HQ HQ' Hdisj Hin') as (? & ? & _).
        by destruct Hk. }
      intros r sfx Hd.
      destruct Hd as [|info' c child r sfx Hlook' Hc Hp Hd].
      * rewrite !string_app_nil_r, !Hroot by auto. rewrite !Hl1, Hlook.
        split; [by rewrite decide_True|].
        destruct (decide (self = self ∧ Q = Q')) as [[_ ->]|_].
        -- destruct (Hdisj Q'); apply under_refl.
        -- by rewrite decide_True.
      * rewrite Hlook in Hlook'. simplify_eq.
        destruct (Hrec c child Hc) as [g Hin].
        assert (look control1 child (getLocationPath Q c) ≠ None) as Hp1.
        { rewrite (Hchild c); [done|]. left. apply under_refl. }
        pose proof (Hdone (c, child, g) Hin ltac:(apply not_elem_of_nil) Hp1)
          as Hproc.
        assert (Desc control1 child (getLocationPath Q c) r sfx) as Hd1.
        { eapply Desc_frame; [by apply getLocationPath_nonempty | | done].
          intros r' k Hk. apply (Hchild c). by left. }
        destruct (Hproc r sfx Hd1) as [Hnew Hold]. simpl in Hnew, Hold.
        assert (∀ P, P ≠ "" →
                  P +:+ "/" +:+ c +:+ sfx = getLocationPath P c +:+ sfx)
          as Hpath.
        { intros P HP. by rewrite getLocationPath_app, !string_app_assoc. }
        rewrite !Hpath by done.
        rewrite Hnew, Hold. split; [|done].
        apply (Hchild c). left. by eapply Desc_under.
Qed.

End RenameSubtreeFacts.

Section ParentFacts.
Import DreamGaffer.
Context {N : CacheRef → Prop}.
Implicit Types control : InternalControl.

Lemma rsplit_slash_tail (p : string) :
  slashfree (PyString.rsplit_slash p).2 = true
  ∧ ((PyString.rsplit_slash p).1 = "" →
     (PyString.rsplit_slash p).2 = p).
Proof.
  induction p as [|c p [IH1 IH2]]; [done|]. simpl.
  destruct (PyString.rsplit_slash p) as [head tail]. simpl in *.
  destruct (decide (head = "")) as [->|Hne].
  - specialize (IH2 eq_refl). subst tail.
    destruct (Ascii.eqb c "/") eqn:Hc; simpl.
    + done.
    + by rewrite Hc, IH1.
  - simpl. split; [done|]. done.
Qed.

Lemma basename_slashfree (p : string) :
  slashfree (PyString.basename p) = true.
Proof. apply rsplit_slash_tail. Qed.

Lemma list_remove_absent (name : string) (names : list string) :
  name ∉ names → list_remove name names = names.
Proof.
  induction names as [|x names IH]; [done|]. simpl.
  intros [Hne Hn]%not_elem_of_cons.
  destruct (decide (x = name)); [done|]. by rewrite IH.
Qed.

Lemma set_children_spec control self parentPath children :
  nodesOK N control →
  ∃ control',
    set_children self parentPath children control = (control', inr tt)
    ∧ nodesOK N control'
    ∧ ∀ r k, look control' r k
             = if decide (r = self ∧ k = parentPath) then
                 (λ info, {| index := index info; children := children |})
                   <$> look control self parentPath
               else look control r k.
Proof.
  intros Hok. eexists. split; [reflexivity|]. split.
  - apply nodesOK_setCache; [done|]. apply Hok.
  - intros r k. rewrite look_setCache. simpl.
    destruct (decide (r = self)) as [->|Hr].
    + destruct (decide (k = parentPath)) as [->|Hk].
      * rewrite decide_True by done. apply lookup_alter_eq.
      * rewrite decide_False by (by intros [? ?]). by apply lookup_alter_ne.
    + by rewrite decide_False by (by intros [? ?]).
Qed.

Lemma updateChildName_spec control self parentPath newName oldName ty :
  nodesOK N control → newName ≠ "" →
  (∀ info, look control self parentPath = Some info → kindOK self info) →
  ∃ control',
    updateChildName self parentPath (Some newName) (Some oldName) ty control
    = (control',
       inr (bool_decide (is_Some (look control self parentPath))))
    ∧ nodesOK N control'
    ∧ ∀ r k, look control' r k
             = if decide (r = self ∧ k = parentPath) then
                 (λ info, {| index := index info;
                             children := renamedChild (children info)
                                           oldName newName ty |})
                   <$> look control self parentPath
               else look control r k.
Proof.
  intros Hok Hnew Hkind.
  assert (truthy (Some newName) = Some newName) as Htruthy.
  { unfold truthy. by destruct (decide (newName = "")). }
  destruct (look control self parentPath) as [info|] eqn:Hlook.
  - specialize (Hkind info eq_refl). unfold kindOK in Hkind.
    assert (∃ control',
      PyM.bind (set_children self parentPath
                  (renamedChild (children info) oldName newName ty))
        (λ _, PyM.ret true) control = (control', inr true)
      ∧ nodesOK N control'
      ∧ ∀ r k, look control' r k
               = if decide (r = self ∧ k = parentPath) then
                   Some {| index := index info;
                           children := renamedChild (children info)
                                         oldName newName ty |}
                 else look control r k) as (control' & Hrun & Hok' & Hl').
    { destruct (set_children_spec control self parentPath
                  (renamedChild (children info) oldName newName ty) Hok)
        as (control' & Hrun & Hok' & Hl').
      exists control'. rewrite (bind_returns _ _ _ _ _ Hrun).
      split_and!; [done | done |]. intros r k. rewrite Hl', Hlook. done. }
    exists control'. split_and!; [|done|done].
    rewrite bool_decide_true by done. rewrite <-Hrun.
    unfold updateChildName, BaseCache_updateChildName,
      LightRigCache_updateChildName, mbind, PyM_bind.
    destruct (classOf self), (children info) as [names|types] eqn:Hch;
      try done.
    + rewrite (bind_returns _ _ _ _ _ (cache_get_spec _ _ _)), Hlook.
      rewrite Hch, Htruthy. unfold contains, renamedChild.
      destruct (bool_decide (oldName ∈ names)) eqn:Hin; simpl.
      * erewrite bind_returns; [|reflexivity]. done.
      * apply bool_decide_eq_false in Hin.
        erewrite bind_returns; [|reflexivity].
        by rewrite list_remove_absent.
    + rewrite (bind_returns _ _ _ _ _ (cache_get_spec _ _ _)), Hlook.
      rewrite Hch, Htruthy. unfold contains, renamedChild.
      destruct (bool_decide (is_Some (types !! oldName))) eqn:Hin; simpl.
      * erewrite bind_returns; [|reflexivity]. done.
      * apply bool_decide_eq_false in Hin.
        erewrite bind_returns; [|reflexivity].
        rewrite delete_id; [done|].
        destruct (types !! oldName); [by destruct Hin | done].
  - exists control. split_and!; [|done|].
    + rewrite bool_decide_false by (by intros [? ?]).
      unfold updateChildName, BaseCache_updateChildName,
        LightRigCache_updateChildName, mbind, PyM_bind.
      destruct (classOf self);
        by rewrite (bind_returns _ _ _ _ _ (cache_get_spec _ _ _)), Hlook.
    + intros r k. destruct (decide (r = self ∧ k = parentPath)) as [[-> ->]|];
        [by rewrite Hlook | done].
Qed.

End ParentFacts.

Section RenameFacts.
Import DreamGaffer.
Context {N : CacheRef → Prop}.
Implicit Types control : InternalControl.

Lemma decide_parent_Some {A} (r0 r : CacheRef) (k p : string)
    (X : CacheRef → A) (Y : A) :
  (if decide (r = r0 ∧ k = p) then X r0 else Y)
  = (if decide (Some r0 = Some r ∧ k = p) then X r else Y).
Proof.
  destruct (decide (r = r0 ∧ k = p)) as [[-> ->]|Hn].
  - by rewrite decide_True.
  - rewrite decide_False; [done|]. intros [[= <-] ->]. by apply Hn.
Qed.

Lemma findAndUpdateChildName_spec control self parentPath newName oldName :
  nodesOK N control → newName ≠ "" →
  (∀ r info, look control r parentPath = Some info → kindOK r info) →
  ∃ control',
    findAndUpdateChildName parentPath (Some newName) (Some oldName)
      (locationType self) None control
    = (control', inr tt)
    ∧ nodesOK N control'
    ∧ ∀ r k, look control' r k
             = if decide (parentCache self control parentPath = Some r
                          ∧ k = parentPath) then
                 (λ info, {| index := index info;
                             children := renamedChild (children info)
                                           oldName newName
                                           (locationType self) |})
                   <$> look control r parentPath
               else look control r k.
Proof.
  intros Hok Hnew Hkind.
  set (F := λ info, {| index := index info;
                       children := renamedChild (children info) oldName
                                     newName (locationType self) |}).
  assert (∀ r, ∃ control',
            updateChildName r parentPath (Some newName) (Some oldName)
              (locationType self) control
            = (control',
               inr (bool_decide (is_Some (look control r parentPath))))
            ∧ nodesOK N control'
            ∧ ∀ r' k, look control' r' k
                 = if decide (r' = r ∧ k = parentPath)
                   then F <$> look control r parentPath
                   else look control r' k) as Hupd.
  { intros r. apply updateChildName_spec; [done | done | apply Hkind]. }
  assert (∀ r, bool_decide (is_Some (look control r parentPath)) = false →
            ∀ control', (∀ r' k, look control' r' k
                 = if decide (r' = r ∧ k = parentPath)
                   then F <$> look control r parentPath
                   else look control r' k) →
            ∀ r' k, look control' r' k = look control r' k) as Hnone.
  { intros r Hr control' Hl r' k. rewrite Hl.
    destruct (decide (r' = r ∧ k = parentPath)) as [[-> ->]|]; [|done].
    apply bool_decide_eq_false in Hr.
    destruct (look control r parentPath); [by destruct Hr | done]. }
  assert (∀ r control',
            updateChildName r parentPath (Some newName) (Some oldName)
              (locationType self) control = (control', inr false) →
            control' = control) as Hsame.
  { intros r control'.
    unfold updateChildName, BaseCache_updateChildName,
      LightRigCache_updateChildName, mbind, PyM_bind.
    destruct (classOf r);
      rewrite (bind_returns _ _ _ _ _ (cache_get_spec _ _ _));
      (destruct (look control r parentPath); [|by intros [= <-]]).
    - unfold PyM.bind. destruct (PyM.lift _ control) as [? [?|?]]; [done|].
      by destruct (set_children _ _ _ _) as [? [?|[]]].
    - unfold PyM.bind. destruct (PyM.lift _ control) as [? [?|?]]; [done|].
      by destruct (set_children _ _ _ _) as [? [?|[]]]. }
  unfold findAndUpdateChildName, parentCache, mbind, PyM_bind.
  destruct self; simpl.
  - (* a light: the light cache, then the rig cache *)
    destruct (Hupd Light) as (c1 & E1 & Hok1 & L1).
    rewrite (bind_returns _ _ _ _ _ E1).
    destruct (bool_decide (is_Some (look control Light parentPath))) eqn:H1.
    + exists c1. split_and!; [done | done |]. intros r k. rewrite L1.
      apply (decide_parent_Some Light r k parentPath
               (λ r, F <$> look control r parentPath)).
    + apply Hsame in E1 as ->.
      destruct (Hupd Rig) as (c2 & E2 & Hok2 & L2).
      rewrite (bind_returns _ _ _ _ _ E2).
      exists c2. split_and!; [done | done |]. intros r k.
      destruct (bool_decide (is_Some (look control Rig parentPath))) eqn:H2.
      * rewrite L2.
        apply (decide_parent_Some Rig r k parentPath
                 (λ r, F <$> look control r parentPath)).
      * rewrite (Hnone Rig H2 c2 L2). cbv iota. by destruct (decide _) as [[? _]|].
  - (* a rig *)
    destruct (Hupd Rig) as (c1 & E1 & Hok1 & L1).
    rewrite (bind_returns _ _ _ _ _ E1).
    exists c1. split_and!; [done | done |]. intros r k.
    destruct (bool_decide (is_Some (look control Rig parentPath))) eqn:H1.
    + rewrite L1.
      apply (decide_parent_Some Rig r k parentPath
               (λ r, F <$> look control r parentPath)).
    + rewrite (Hnone Rig H1 c1 L1). cbv iota. by destruct (decide _) as [[? _]|].
  - (* a material *)
    destruct (Hupd Material) as (c1 & E1 & Hok1 & L1).
    rewrite (bind_returns _ _ _ _ _ E1).
    exists c1. split_and!; [done | done |]. intros r k.
    destruct (bool_decide (is_Some (look control Material parentPath)))
      eqn:H1.
    + rewrite L1.
      apply (decide_parent_Some Material r k parentPath
               (λ r, F <$> look control r parentPath)).
    + rewrite (Hnone Material H1 c1 L1). cbv iota. by destruct (decide _) as [[? _]|].
  - (* a light filter: its own cache, then the light cache *)
    destruct (Hupd LightFilter) as (c1 & E1 & Hok1 & L1).
    rewrite (bind_returns _ _ _ _ _ E1).
    destruct (bool_decide (is_Some (look control LightFilter parentPath)))
      eqn:H1.
    + exists c1. split_and!; [done | done |]. intros r k. rewrite L1.
      apply (decide_parent_Some LightFilter r k parentPath
               (λ r, F <$> look control r parentPath)).
    + apply Hsame in E1 as ->.
      destruct (Hupd Light) as (c2 & E2 & Hok2 & L2).
      rewrite (bind_returns _ _ _ _ _ E2).
      exists c2. split_and!; [done | done |]. intros r k.
      destruct (bool_decide (is_Some (look control Light parentPath))) eqn:H2.
      * rewrite L2.
        apply (decide_parent_Some Light r k parentPath
                 (λ r, F <$> look control r parentPath)).
      * rewrite (Hnone Light H2 c2 L2). cbv iota. by destruct (decide _) as [[? _]|].
Qed.

Lemma under_not_parent (P c k : string) :
  getLocationPath P c ≠ "" → under (getLocationPath P c) k → k ≠ P.
Proof.
  intros HQ Hu ->. apply under_length in Hu.
  destruct (decide (P = "")) as [->|HP].
  - destruct (getLocationPath "" c); [done | simpl in Hu; lia].
  - pose proof (getLocationPath_length P c HP). lia.
Qed.

End RenameFacts.

Section RenameTheorem.
Import DreamGaffer.
Implicit Types control : InternalControl.

(** C3, amended. [rename(L, newName)], on a control that is ready for it
    (the material edit node exists, and so does the create node of every
    cache that holds an entry at or below [L]; the create nodes of the
    other caches need not exist), goes through; the new location is
    [dirname(L) + '/' + newName] when [L] has a parent and [newName] when
    [L] is a top-level location; every descendant of [L] recorded in the
    children records, [L] included, is moved from below [L] to the same
    place below the new location with its entry (slot index and children
    record) unchanged; in a [LightRigCache] a recorded child of another
    location type is moved in the cache of its type; and the children
    record of the parent has the old name removed and the new name
    added. *)
Theorem rename_spec (depth : nat) (control : InternalControl)
    (self : CacheRef) (L newName : string) (info : Info) :
  look control self L = Some info →
  renameReady depth control L newName →
  let parentPath := PyString.dirname L in
  let oldName := PyString.basename L in
  let newL := getLocationPath parentPath newName in
  ∃ control',
    rename depth self L newName control = (control', inr tt)
    ∧ (parentPath ≠ "" → newL = parentPath +:+ "/" +:+ newName)
    ∧ (parentPath = "" → newL = newName)
    ∧ look control' self newL = Some info
    ∧ (∀ r sfx, Desc control self L r sfx →
         look control' r (newL +:+ sfx) = look control r (L +:+ sfx)
         ∧ look control' r (L +:+ sfx) = None)
    ∧ (∀ types c ty child cinfo,
         children info = ChildDict types → types !! c = Some ty →
         ty ≠ locationType self →
         getCacheOfLocationType ty = Some child →
         look control child (getLocationPath L c) = Some cinfo →
         look control' child (getLocationPath newL c) = Some cinfo
         ∧ look control' child (getLocationPath L c) = None)
    ∧ (∀ rp pinfo,
         parentCache self control parentPath = Some rp →
         look control rp parentPath = Some pinfo →
         look control' rp parentPath
         = Some {| index := index pinfo;
                   children := renamedChild (children pinfo) oldName newName
                                 (locationType self) |}).
Proof.
  intros Hlook
    ([Hedit Hwalk] & HL & Hnorm & Hnew & Hsf & Hne & Hfree & Hwf & Hkind
     & Hdepth)
    P o newL.
  fold P o in Hnorm, Hne, Hkind. fold P newL in Hfree.
  set (N := λ r, node (getCache r control) ≠ None).
  assert (Hnodes : nodesOK N control) by (by split).
  assert (HnewL : newL ≠ "").
  { unfold newL, getLocationPath. destruct (decide (P = "")); [done|].
    destruct P; [done | discriminate]. }
  assert (Hdisj : ∀ k, under L k → under newL k → False).
  { intros k Hk Hk'. rewrite <- Hnorm in Hk. apply Hne. symmetry.
    eapply under_siblings; [apply basename_slashfree | exact Hsf | done..]. }
  assert (HPL : ∀ k, under L k → k ≠ P).
  { intros k Hk. rewrite <- Hnorm in Hk.
    eapply under_not_parent; [by rewrite Hnorm | done]. }
  assert (HPL' : ∀ k, under newL k → k ≠ P).
  { intros k Hk. by eapply under_not_parent. }
  destruct depth as [|d].
  { exfalso. specialize (Hdepth self L (under_refl L)).
    rewrite Hlook in Hdepth. specialize (Hdepth ltac:(done)). lia. }
  destruct (findAndUpdateChildName_spec control self P newName o
              Hnodes Hnew Hkind) as (c1 & E1 & Hok1 & L1).
  assert (Hsame : ∀ r k, k ≠ P → look c1 r k = look control r k).
  { intros r k Hk. rewrite L1. by rewrite decide_False by (by intros [_ ?]). }
  assert (Hpre : renamePreN N d c1 L newL).
  { split_and!; [done | done | done | done | | | |].
    - intros r k Hk. rewrite Hsame by by apply HPL'. by apply Hfree.
    - intros r k info' Hk Hl. rewrite Hsame in Hl by by apply HPL.
      apply (okInfo_frame control c1 r k info'); [| | by eapply Hwf].
      + intros ->. apply under_length in Hk.
        destruct L; [done | simpl in Hk; lia].
      + intros r' x Hx. apply Hsame, HPL. by eapply under_trans.
    - intros r k Hk Hl. rewrite Hsame in Hl by by apply HPL.
      specialize (Hdepth r k Hk Hl). lia.
    - intros r k Hk Hl. rewrite Hsame in Hl by by apply HPL.
      by apply (Hwalk r k). }
  assert (Hlook1 : look c1 self L = Some info).
  { rewrite Hsame; [done | apply HPL, under_refl]. }
  destruct (renameSubtree_spec d self L newL c1 info Hpre Hlook1)
    as (c2 & E2 & Hok2 & Hout & Hdesc).
  assert (Hmoved : ∀ r sfx, Desc control self L r sfx →
            look c2 r (newL +:+ sfx) = look control r (L +:+ sfx)
            ∧ look c2 r (L +:+ sfx) = None).
  { intros r sfx Hd.
    assert (Desc c1 self L r sfx) as Hd1.
    { apply (Desc_frame control c1 self L r sfx HL); [|done].
      intros r' k Hk. by apply Hsame, HPL. }
    destruct (Hdesc r sfx Hd1) as [H1 H2]. split; [|done].
    rewrite H1. apply Hsame, HPL. by eapply Desc_under. }
  exists c2. split_and!.
  - unfold rename, PyM.try_except, mbind, PyM_bind. cbn zeta.
    subst P o newL.
    rewrite (bind_returns _ _ _ _ _ E1), renameLocation_S, E2. done.
  - intros HP. by apply getLocationPath_app.
  - intros HP. unfold newL, getLocationPath. by rewrite decide_True.
  - destruct (Hmoved self "" (Desc_here _ _ _)) as [H1 _].
    by rewrite !string_app_nil_r, Hlook in H1.
  - exact Hmoved.
  - intros types c ty child cinfo Hch Hty Hne' Hchild Hc.
    assert (Desc control self L child ("/" +:+ c +:+ "")) as Hd.
    { eapply Desc_child; [done | | | constructor].
      - unfold recordedChild. rewrite Hch. exists ty. split; [done|].
        unfold childCache. by rewrite decide_False.
      - by rewrite Hc. }
    destruct (Hmoved _ _ Hd) as [H1 H2].
    rewrite string_app_nil_r in H1, H2.
    rewrite <- (getLocationPath_app newL c HnewL) in H1.
    rewrite <- (getLocationPath_app L c HL) in H1, H2.
    by rewrite H1, H2, Hc.
  - intros rp pinfo Hrp Hp.
    rewrite Hout, L1; [| intros Hu; by eapply HPL | intros Hu; by eapply HPL'].
    rewrite decide_True by done. by rewrite Hp.
Qed.

End RenameTheorem.

Section DemoGafferFacts.
Import DreamGaffer.
Import DemoGaffer.

Lemma startswith_app (a b : string) : PyString.startswith (a +:+ b) a = true.
Proof.
  induction a as [|c a IH]; [by destruct b|].
  rewrite string_app_cons. simpl. by rewrite Ascii.eqb_refl, IH.
Qed.

Lemma under_underb (P k : string) : under P k → underb P k = true.
Proof.
  intros [->|[t ->]]; unfold underb.
  - by rewrite bool_decide_eq_true_2.
  - rewrite <- string_app_assoc, startswith_app. apply orb_true_r.
Qed.

(** The cached locations of the demo gaffer, one by one. *)
Ltac cached Hl :=
  cbv [look getCache control rigs lights lightFilters cache lightCache
       rigCache materialCache lightFilterCache] in Hl;
  repeat match type of Hl with
    | <[_ := _]> _ !! _ = Some _ =>
        apply lookup_insert_Some in Hl as [[<- <-]|[_ Hl]]
    | {[_ := _]} !! _ = Some _ =>
        apply lookup_singleton_Some in Hl as [<- <-]
    | ∅ !! _ = Some _ => by rewrite lookup_empty in Hl
    end.

Ltac not_under Hk :=
  apply under_underb in Hk; vm_compute in Hk; discriminate Hk.

Lemma control_renameReady : renameReady 100 control "all/set" "stage".
Proof.
  unfold renameReady.
  change (PyString.dirname "all/set") with "all".
  change (PyString.basename "all/set") with "set".
  change (getLocationPath "all" "stage") with "all/stage".
  split_and!.
  - split; [done | intros r k _ _; by destruct r].
  - done.
  - reflexivity.
  - done.
  - reflexivity.
  - done.
  - intros r k Hk. destruct (look control r k) as [info|] eqn:Hl; [|done].
    exfalso. destruct r; cached Hl; not_under Hk.
  - intros r k info Hk Hl.
    destruct r; cached Hl; try not_under Hk; unfold okInfo; cbn.
    + apply map_Forall_singleton.
      split; [done|]. intros child _ [= <-]. done.
    + apply map_Forall_insert_2; [|apply map_Forall_singleton].
      * split; [done|]. intros child _ [= <-]. done.
      * split; [done|]. intros child Hne. by destruct Hne.
    + apply map_Forall_empty.
    + done.
  - intros [] info Hl; vm_compute in Hl; by simplify_eq.
  - intros r k _ Hl. destruct (look control r k) as [info|] eqn:Hl'; [|done].
    destruct r; cached Hl'; simpl; lia.
Qed.


Lemma control_blocker_Desc :
  Desc control Rig "all/set" LightFilter "/key/blocker".
Proof.
  apply (Desc_child control Rig "all/set"
           {| index := 1;
              children := ChildDict {[ "key" := "light"; "sub" := "rig" ]} |}
           "key" Light LightFilter "/blocker").
  - reflexivity.
  - exists "light". split; reflexivity.
  - by vm_compute.
  - apply (Desc_child control Light "all/set/key"
             {| index := 0;
                children := ChildDict {[ "blocker" := "light filter" ]} |}
             "blocker" LightFilter LightFilter "").
    + reflexivity.
    + exists "light filter". split; reflexivity.
    + by vm_compute.
    + apply Desc_here.
Qed.

(** The gaffer with the one light [a]: of the create nodes only the one
    of the lights exists. *)
Lemma topLevel_cache (r : CacheRef) :
  cache (getCache r topLevel)
  = match r with
    | Light => {[ "a" := {| index := 0; children := ChildDict ∅ |} ]}
    | _ => ∅
    end.
Proof. by destruct r. Qed.

Lemma topLevel_look (r : CacheRef) (k : string) (info : Info) :
  look topLevel r k = Some info →
  r = Light ∧ k = "a" ∧ info = {| index := 0; children := ChildDict ∅ |}.
Proof.
  unfold look. rewrite topLevel_cache. destruct r.
  - by intros [<- <-]%lookup_singleton_Some.
  - by rewrite lookup_empty.
  - by rewrite lookup_empty.
  - by rewrite lookup_empty.
Qed.

Lemma topLevel_renameReady : renameReady 100 topLevel "a" "b".
Proof.
  unfold renameReady.
  change (PyString.dirname "a") with "".
  change (PyString.basename "a") with "a".
  change (getLocationPath "" "b") with "b".
  split_and!.
  - split; [done|]. intros r k _ Hl.
    destruct (look topLevel r k) as [info|] eqn:E; [|done].
    by apply topLevel_look in E as (-> & _ & _).
  - done.
  - reflexivity.
  - done.
  - reflexivity.
  - done.
  - intros r k Hk. destruct (look topLevel r k) as [info|] eqn:E; [|done].
    apply topLevel_look in E as (-> & -> & _).
    apply under_underb in Hk. by vm_compute in Hk.
  - intros r k info _ Hl. apply topLevel_look in Hl as (-> & -> & ->).
    unfold okInfo. cbn. apply map_Forall_empty.
  - intros r info Hl. by apply topLevel_look in Hl as (_ & ? & _).
  - intros r k _ Hl. destruct (look topLevel r k) as [info|] eqn:E; [|done].
    apply topLevel_look in E as (-> & -> & _). simpl. lia.
Qed.

(** Without a material edit node the renaming stops after the entry of the
    location has been rekeyed: the rig [a] is found at [c], and its child
    [a/b] is left where it was. *)
Lemma rename_without_edit_node :
  let control' := (rename 100 Rig "a" "c" rigOnly).1 in
  materialEditNode rigOnly = None
  ∧ look rigOnly Rig "a/b" = Some {| index := 1; children := ChildDict ∅ |}
  ∧ look control' Rig "c" = look rigOnly Rig "a"
  ∧ look control' Rig "a" = None
  ∧ look control' Rig "a/b" = look rigOnly Rig "a/b"
  ∧ look control' Rig "c/b" = None.
Proof. vm_compute. by split_and!. Qed.

(** The rig [all/set] of the demo gaffer is renamed to [stage]; and the
    top-level light [a] of a gaffer that has no create node but the one of
    the lights is renamed to [b]. *)
Lemma rename_spec_witness :
  (look control Rig "all/set"
  = Some {| index := 1;
            children := ChildDict {[ "key" := "light"; "sub" := "rig" ]} |}
  ∧ renameReady 100 control "all/set" "stage"
  ∧ ∃ control',
      rename 100 Rig "all/set" "stage" control = (control', inr tt)
      ∧ look control' Rig "all/stage" = look control Rig "all/set"
      ∧ look control' Rig "all/set" = None
      ∧ look control' Light "all/stage/key"
        = look control Light "all/set/key"
      ∧ look control' LightFilter "all/stage/key/blocker"
        = look control LightFilter "all/set/key/blocker"
      ∧ look control' LightFilter "all/set/key/blocker" = None
      ∧ look control' Rig "all"
        = Some {| index := 0;
                  children := renamedChild (ChildDict {[ "set" := "rig" ]})
                                "set" "stage" "rig" |})
  ∧ (node (getCache Rig topLevel) = None
     ∧ look topLevel Light "a"
       = Some {| index := 0; children := ChildDict ∅ |}
     ∧ renameReady 100 topLevel "a" "b"
     ∧ ∃ control',
         rename 100 Light "a" "b" topLevel = (control', inr tt)
         ∧ look control' Light "b" = look topLevel Light "a"
         ∧ look control' Light "a" = None).
Proof.
  split.
  - split; [reflexivity|]. split; [exact control_renameReady|].
    destruct (rename_spec 100 control Rig "all/set" "stage" _
                eq_refl control_renameReady)
      as (control' & E & _ & _ & Hself & Hdesc & Hcross & Hparent).
    exists control'. split_and!.
    + exact E.
    + exact Hself.
    + exact (proj2 (Hdesc Rig "" (Desc_here _ _ _))).
    + exact (proj1 (Hcross _ "key" "light" Light _ eq_refl eq_refl
                      ltac:(discriminate) eq_refl eq_refl)).
    + exact (proj1 (Hdesc _ _ control_blocker_Desc)).
    + exact (proj2 (Hdesc _ _ control_blocker_Desc)).
    + exact (Hparent Rig _ eq_refl eq_refl).
  - split; [reflexivity|]. split; [reflexivity|].
    split; [exact topLevel_renameReady|].
    destruct (rename_spec 100 topLevel Light "a" "b" _
                eq_refl topLevel_renameReady)
      as (control' & E & _ & _ & Hself & Hdesc & _ & _).
    exists control'. split_and!.
    + exact E.
    + exact Hself.
    + exact (proj2 (Hdesc Light "" (Desc_here _ _ _))).
Defined.

(** C3, counterexample.  Renaming the top-level light [a] to [b] rekeys
    its entry to [b]; nothing is cached at [dirname(a) + '/' + b]. *)
Lemma rename_top_level_key :
  let control' := (rename 100 Light "a" "b" topLevel).1 in
  look topLevel Light "a" = Some {| index := 0; children := ChildDict ∅ |}
  ∧ look control' Light (PyString.dirname "a" +:+ "/" +:+ "b") = None
  ∧ look control' Light "b" = Some {| index := 0; children := ChildDict ∅ |}.
Proof. vm_compute. by split_and!. Qed.

(** The demo gaffer with freed slots hands out slot 0, then slot 1; the
    demo gaffer without freed slots hands out the number of its lights;
    removing the light [key] frees its slot 2, which the next addition
    takes. *)
Lemma index_reuse_spec_witness :
  (∃ control',
     getIndexForNewLocation Light freed = (control', inr 0)
     ∧ unused (getCache Light control') = [1]
     ∧ cache (getCache Light control') = cache (getCache Light freed))
  ∧ getIndexForNewLocation Light control
    = (control, inr (size (cache (getCache Light control))))
  ∧ (∃ control' slots,
       recursiveRemoveLocation 1 Light "" "key" freed = (control', inr tt)
       ∧ look control' Light "key" = None
       ∧ unused (getCache Light control') = [1; 0] ++ 2 :: slots
       ∧ ∃ control'',
           getIndexForNewLocation Light control'
           = (control'', inr (List.last slots 2)))
  ∧ ∃ control',
      drawIndices Light ["p"; "q"] freed = (control', inr [0; 1]).
Proof.
  destruct index_reuse_spec as (Hreuse & Hfresh & Hremove & Hdraw).
  split_and!.
  - apply (Hreuse Light freed [1] 0). reflexivity.
  - apply (Hfresh Light control). reflexivity.
  - apply (Hremove 0 Light freed "" "key"
             {| index := 2; children := ChildDict ∅ |}). reflexivity.
  - apply (Hdraw Light freed ["p"; "q"]). simpl. lia.
Defined.

(** C4, on the code.  After two lights are added to a new gaffer, the
    second is renamed to the name of the first and a third light is added,
    the distinct locations [light] and [light1] of the light cache map to
    the same slot index 1. *)
Theorem rename_onto_existing_shares_slot :
  let control := (renameOntoExisting InternalControl_init).1 in
  (index <$> look control Light "light") = Some 1
  ∧ (index <$> look control Light "light1") = Some 1
  ∧ "light" ≠ "light1".
Proof. vm_compute. by split_and!. Qed.

End DemoGafferFacts.

(** ** The gaffer caches: the remaining methods *)

Section MonadFacts.
Context {S : Type}.

Lemma steps_weaken {A} (R R' : relation S) (m : PyM.M S A) :
  (∀ s s', R s s' → R' s s') → steps R m → steps R' m.
Proof. intros HR Hm s. apply HR, Hm. Qed.

(** A bind that returns has returned from both of its parts. *)
Lemma bind_inr {A B} (m : PyM.M S A) (k : A → PyM.M S B) s s' b :
  PyM.bind m k s = (s', inr b) →
  ∃ s1 a, m s = (s1, inr a) ∧ k a s1 = (s', inr b).
Proof.
  unfold PyM.bind. destruct (m s) as [s1 [e|a]]; [done|]. by exists s1, a.
Qed.

Lemma steps_bind_lift {A B} (R : relation S) `{!PreOrder R}
    (r : Py.result A) (k : A → PyM.M S B) :
  (∀ a, r = inr a → steps R (k a)) → steps R (PyM.bind (PyM.lift r) k).
Proof.
  intros Hk s. unfold PyM.bind, PyM.lift. destruct r as [e|a]; [done|].
  by apply Hk.
Qed.

(** A bind whose first part raises raises. *)
Lemma bind_raises {A B} (m : PyM.M S A) (k : A → PyM.M S B) s s' e :
  m s = (s', inl e) → PyM.bind m k s = (s', inl e).
Proof. unfold PyM.bind. by intros ->. Qed.

End MonadFacts.

Section SlotFacts.
Import DreamGaffer GafferCache.

Global Instance sameSlots_preorder : PreOrder sameSlots.
Proof.
  split.
  - by intros s self.
  - intros s1 s2 s3 H12 H23 self.
    destruct (H12 self) as [E1 E2], (H23 self) as [E3 E4].
    split; congruence.
Qed.

Lemma slots_eq (c c' : Cache) :
  index <$> cache c' = index <$> cache c → unused c' = unused c →
  slots c' = slots c.
Proof. unfold slots. by intros -> ->. Qed.

Lemma slotsOK_perm (c c' : Cache) :
  slots c' ≡ₚ slots c → slotsOK c → slotsOK c'.
Proof.
  unfold slotsOK. intros Hp Hc. by rewrite Hp.
Qed.

Lemma slots_pop (c : Cache) (key : string) (info : Info) :
  cache c !! key = Some info →
  slots (set_unused (unused c ++ [index info])
           (set_cache (delete key (cache c)) c))
  ≡ₚ slots c.
Proof.
  intros Hk. unfold slots. simpl.
  rewrite fmap_delete.
  rewrite <- (map_to_list_delete (index <$> cache c) key (index info))
    by by rewrite lookup_fmap, Hk.
  simpl. by rewrite <- app_assoc.
Qed.

Lemma slots_insert (c : Cache) (key : string) (info : Info) :
  cache c !! key = None →
  slots (set_cache (<[key := info]> (cache c)) c) ≡ₚ index info :: slots c.
Proof.
  intros Hk. unfold slots. simpl.
  rewrite fmap_insert, map_to_list_insert by by rewrite lookup_fmap, Hk.
  simpl. by rewrite <- Permutation_middle.
Qed.

Lemma slots_length (c : Cache) :
  length (slots c) = length (unused c) + size (cache c).
Proof.
  unfold slots.
  by rewrite length_app, length_fmap, length_map_to_list, map_size_fmap.
Qed.

(** Taking the slot [getIndexForNewLocation] hands out for a location
    that is not cached keeps the slots in order. *)
Lemma slotsOK_take (c : Cache) (key : string) (children : Children) :
  cache c !! key = None → slotsOK c →
  slotsOK
    (set_cache
       (<[key := {| index := default (size (cache c)) (last (unused c));
                    children := children |}]> (cache c))
       (set_unused (removelast (unused c)) c)).
Proof.
  intros Hk Hok.
  destruct (unused c) as [|i freed _] eqn:Hu using rev_ind.
  - simpl. assert (set_unused [] c = c) as ->.
    { destruct c; simpl in *; by subst. }
    pose proof (slots_insert c key
      {| index := size (cache c); children := children |} Hk) as Hp.
    simpl in Hp.
    pose proof (slots_length c) as Hl. rewrite Hu in Hl. simpl in Hl.
    unfold slotsOK in *.
    rewrite (Permutation_length Hp).
    change (length (_ :: slots c)) with (S (length (slots c))).
    rewrite seq_S, Hp, <- Hl.
    rewrite <- Permutation_cons_append. by f_equiv.
  - rewrite last_snoc, removelast_last. simpl.
    apply (slotsOK_perm c); [|done].
    rewrite (slots_insert (set_unused freed c)) by done. simpl.
    unfold slots. simpl. rewrite Hu, <- app_assoc. simpl.
    by rewrite <- Permutation_middle.
Qed.


Global Instance keepsSlots_preorder : PreOrder keepsSlots.
Proof. split; unfold keepsSlots; [by intros s | intros s1 s2 s3; auto]. Qed.

Lemma sameSlots_keepsSlots s s' : sameSlots s s' → keepsSlots s s'.
Proof.
  intros Hs Hok self. destruct (Hs self) as [Hi Hu].
  apply (slotsOK_perm (getCache self s)); [|apply Hok].
  by rewrite (slots_eq _ _ Hi Hu).
Qed.

Lemma sameSlots_modifyCache self (f : Cache → Cache) :
  (∀ c, index <$> cache (f c) = index <$> cache c
        ∧ unused (f c) = unused c) →
  steps sameSlots (modifyCache self f).
Proof.
  intros Hf s self'. simpl. rewrite getCache_setCache.
  destruct (decide (self' = self)) as [->|]; [apply Hf|done].
Qed.

Lemma sameSlots_cache_get self key : steps sameSlots (cache_get self key).
Proof. unfold cache_get. steps_tac. Qed.

Lemma sameSlots_nodeCall self call : steps sameSlots (nodeCall self call).
Proof.
  unfold nodeCall. steps_tac. by apply sameSlots_modifyCache.
Qed.

Lemma sameSlots_editCall call : steps sameSlots (editCall call).
Proof.
  unfold editCall. steps_tac.
  apply steps_modify. intros s self.
  by rewrite getCache_set_materialEditNode.
Qed.

Lemma sameSlots_set_children self parentPath children :
  steps sameSlots (set_children self parentPath children).
Proof.
  apply sameSlots_modifyCache. intros c. simpl. split; [|done].
  apply map_eq. intros k. rewrite !lookup_fmap.
  destruct (decide (k = parentPath)) as [->|].
  - rewrite lookup_alter_eq. by destruct (cache c !! parentPath).
  - by rewrite lookup_alter_ne.
Qed.

Lemma sameSlots_updateChildName self parentPath newName oldName ty :
  steps sameSlots (updateChildName self parentPath newName oldName ty).
Proof.
  unfold updateChildName, BaseCache_updateChildName,
    LightRigCache_updateChildName.
  steps_tac;
    first [ apply sameSlots_cache_get | apply sameSlots_set_children ].
Qed.

Lemma sameSlots_findAndUpdateChildName parentPath newName oldName ty pty :
  steps sameSlots (findAndUpdateChildName parentPath newName oldName ty pty).
Proof.
  unfold findAndUpdateChildName.
  steps_tac; apply sameSlots_updateChildName.
Qed.

Lemma sameSlots_addChildToParent self parentPath childName ty :
  steps sameSlots (addChildToParent self parentPath childName ty).
Proof.
  unfold addChildToParent, BaseCache_addChildToParent,
    LightRigCache_addChildToParent.
  steps_tac;
    first [ apply sameSlots_cache_get | apply sameSlots_set_children ].
Qed.

Lemma sameSlots_removeChild self parentPath childName :
  steps sameSlots (removeChild self parentPath childName).
Proof.
  unfold removeChild, BaseCache_removeChild, LightRigCache_removeChild.
  steps_tac;
    first [ apply sameSlots_cache_get | apply sameSlots_set_children ].
Qed.

Lemma cache_pop_None control self key :
  look control self key = None →
  cache_pop self key control = (control, inl Py.KeyError).
Proof.
  intros Hl. unfold cache_pop, mbind, PyM_bind.
  rewrite (bind_returns _ _ _ _ _ (cache_get_spec _ _ _)). by rewrite Hl.
Qed.

(** Popping a location and appending its slot to the unused list keeps
    the slots of all caches in order. *)
Lemma keepsSlots_pop control self key info :
  look control self key = Some info →
  keepsSlots control
    (setCache self
       (set_unused (unused (getCache self control) ++ [index info])
          (set_cache (delete key (cache (getCache self control)))
             (getCache self control))) control).
Proof.
  intros Hl Hok r. rewrite getCache_setCache.
  destruct (decide (r = self)) as [->|]; [|apply Hok].
  eapply slotsOK_perm; [by apply slots_pop | apply Hok].
Qed.

Lemma keepsSlots_recursiveRemoveLocation depth self parentPath name :
  steps keepsSlots (recursiveRemoveLocation depth self parentPath name).
Proof.
  revert self parentPath name.
  induction depth as [|depth IH]; intros self parentPath name; simpl.
  { apply steps_raise; tc_solve. }
  apply steps_try_except. intros control.
  set (location := getLocationPath parentPath name).
  unfold mbind, PyM_bind.
  destruct (look control self location) as [info|] eqn:Hl.
  - rewrite (bind_returns _ _ _ _ _ (cache_pop_Some _ _ _ _ Hl)).
    set (control1 := setCache self _ control).
    assert (modifyCache self (λ c, set_unused (unused c ++ [index info]) c)
              control1
            = (setCache self
                 (set_unused (unused (getCache self control) ++ [index info])
                    (set_cache (delete location (cache (getCache self control)))
                       (getCache self control))) control, inr tt)) as Hm.
    { unfold modifyCache, PyM.modify, control1.
      rewrite getCache_setCache. destruct (decide (self = self)); [|done].
      f_equal. by destruct self. }
    rewrite (bind_returns _ _ _ _ _ Hm).
    etrans; [by apply keepsSlots_pop|].
    match goal with
    | |- keepsSlots ?s (?m ?s).1 =>
        cut (steps keepsSlots m); [intros Hrest; apply Hrest|]
    end.
    unfold removeSingleLocation.
    steps_tac;
      first [ apply (steps_weaken sameSlots), sameSlots_nodeCall;
              apply sameSlots_keepsSlots
            | apply (steps_weaken sameSlots), sameSlots_editCall;
              apply sameSlots_keepsSlots
            | apply IH ].
  - by rewrite (bind_raises _ _ _ _ _ (cache_pop_None _ _ _ Hl)).
Qed.


Global Instance onlyFrees_preorder : PreOrder onlyFrees.
Proof.
  split.
  - intros s self. split; [done|]. exists []. by rewrite app_nil_r.
  - intros s1 s2 s3 H12 H23 self.
    destruct (H12 self) as [Hc12 [f12 Hu12]].
    destruct (H23 self) as [Hc23 [f23 Hu23]].
    split; [by etrans|]. exists (f12 ++ f23).
    by rewrite Hu23, Hu12, app_assoc.
Qed.

Lemma shrinks_onlyFrees s s' : shrinks s s' → onlyFrees s s'.
Proof.
  intros Hs self. destruct (Hs self) as [Hc Hu]. split; [|done].
  by apply map_fmap_mono.
Qed.

Lemma sameSlots_onlyFrees s s' : sameSlots s s' → onlyFrees s s'.
Proof.
  intros Hs self. destruct (Hs self) as [-> ->]. split; [done|].
  exists []. by rewrite app_nil_r.
Qed.

Lemma onlyFrees_removeLocation depth parentPath location locationType :
  steps onlyFrees (removeLocation depth parentPath location locationType).
Proof.
  unfold removeLocation. steps_tac.
  - apply (steps_weaken sameSlots), sameSlots_findAndUpdateChildName.
    apply sameSlots_onlyFrees.
  - apply (steps_weaken shrinks), shrinks_recursiveRemoveLocation.
    apply shrinks_onlyFrees.
Qed.

Lemma keepsSlots_removeLocation depth parentPath location locationType :
  steps keepsSlots (removeLocation depth parentPath location locationType).
Proof.
  unfold removeLocation. steps_tac.
  - apply (steps_weaken sameSlots), sameSlots_findAndUpdateChildName.
    apply sameSlots_keepsSlots.
  - apply keepsSlots_recursiveRemoveLocation.
Qed.

End SlotFacts.

Section RemoveTheorems.
Import DreamGaffer GafferCache.

(** X1.  [InternalControl.removeLocation] and [recursiveRemoveLocation] never
    add a location to a cache and never move a location to another slot:
    whatever they are called with, and whether or not a call on a node
    fails on the way, every location cached afterwards was cached before
    with the same slot index, and the unused lists have only been
    appended to. *)
Theorem removeLocation_only_frees :
  (∀ depth parentPath location locationType control,
     onlyFrees control
       (removeLocation depth parentPath location locationType control).1)
  ∧ (∀ depth self parentPath name control,
       onlyFrees control
         (recursiveRemoveLocation depth self parentPath name control).1).
Proof.
  split.
  - intros. apply onlyFrees_removeLocation.
  - intros. apply shrinks_onlyFrees, shrinks_recursiveRemoveLocation.
Qed.

(** X2.  Removing locations keeps the slots in order: if in every cache the
    unused slots and the slots of the cached locations are the numbers
    [0 .. n-1], each once, then so they are after
    [InternalControl.removeLocation] and after [recursiveRemoveLocation],
    whatever these are called with. *)
Theorem removeLocation_keeps_slots depth control :
  allSlotsOK control →
  (∀ parentPath location locationType,
     allSlotsOK
       (removeLocation depth parentPath location locationType control).1)
  ∧ (∀ self parentPath name,
       allSlotsOK
         (recursiveRemoveLocation depth self parentPath name control).1).
Proof.
  intros Hok. split; intros.
  - by apply keepsSlots_removeLocation.
  - by apply keepsSlots_recursiveRemoveLocation.
Qed.

End RemoveTheorems.

Section AddFacts.
Import DreamGaffer GafferCache.

(** [Helper.getUnusedName] returns, with a name that is not among the
    children. *)
Lemma Helper_getUnusedName_run basename children control :
  ∃ i,
    Helper_getUnusedName basename children control
    = (control, inr (Helper.candidate basename i))
    ∧ (Helper.candidate basename i ∉ children)
    ∧ (basename ∉ children → i = 0).
Proof.
  destruct (getUnusedName_loop_total basename children
              (length children) 0) as (k & Hk & _ & Hnot & Hall);
    [intros j Hj; lia | lia |].
  exists k. unfold Helper_getUnusedName, Helper.getUnusedName.
  simpl in Hk. rewrite Hk. split_and!; [done | done |].
  intros Hb. destruct k as [|k]; [done|]. destruct Hb. apply (Hall 0). lia.
Qed.

(** [BaseCache.getUnusedName] for a top-level location. *)
Lemma getUnusedName_top self basename control :
  ∃ i,
    getUnusedName self "" basename control
    = (control, inr (Helper.candidate basename i))
    ∧ look control self (Helper.candidate basename i) = None
    ∧ (look control self basename = None → i = 0).
Proof.
  unfold getUnusedName, mbind, PyM_bind, PyM.bind, PyM.gets. simpl.
  fold (look control self basename).
  destruct (decide (look control self basename = None)) as [Hb|Hb].
  - by exists 0.
  - destruct (Helper_getUnusedName_run basename
                (map_to_list (cache (getCache self control))).*1 control)
      as (i & Hrun & Hnot & _).
    exists i. split_and!; [done | | done].
    unfold look. apply eq_None_not_Some. intros [info Hi]. apply Hnot.
    apply list_elem_of_fmap. exists (Helper.candidate basename i, info).
    split; [done|]. by apply elem_of_map_to_list.
Qed.

Lemma getIndexForNewLocation_run self control :
  getIndexForNewLocation self control
  = (setCache self
       (set_unused (removelast (unused (getCache self control)))
          (getCache self control)) control,
     inr (default (size (cache (getCache self control)))
            (last (unused (getCache self control))))).
Proof.
  destruct (unused (getCache self control)) as [|i freed _] eqn:Hu
    using rev_ind.
  - rewrite (getIndexForNewLocation_fresh _ _ Hu). simpl. f_equal.
    destruct control as [lc rc mc fc ad me], self; simpl in *;
      [destruct lc | destruct rc | destruct mc | destruct fc];
      simpl in *; by subst.
  - rewrite (getIndexForNewLocation_reuse _ _ _ _ Hu).
    by rewrite last_snoc, removelast_last.
Qed.

(** [cache.addLocation]: the entry is stored, the create node is made
    when there is none, and the location is added on the node. *)
Lemma addLocation_run self locationPath index isChild control :
  ∃ control',
    addLocation self locationPath index isChild control = (control', inr tt)
    ∧ cache (getCache self control')
      = <[locationPath :=
            {| index := index;
               children := match classOf self with
                           | BaseCache => ChildList []
                           | LightRigCache => ChildDict ∅
                           end |}]> (cache (getCache self control))
    ∧ unused (getCache self control') = unused (getCache self control)
    ∧ node (getCache self control')
      = Some (default [] (node (getCache self control))
              ++ [NodeAddLocationAtIndex locationPath index
                    match classOf self with
                    | BaseCache => Some isChild
                    | LightRigCache => None
                    end])
    ∧ ∀ r, r ≠ self → getCache r control' = getCache r control.
Proof.
  unfold addLocation, cache_setitem, nodeCall, initTargetNode, modifyCache,
    mbind, PyM_bind, PyM.bind, PyM.gets, PyM.modify, PyM.ret.
  simpl. rewrite !getCache_setCache.
  destruct (decide (self = self)); [|done]. simpl.
  destruct (node (getCache self control)) as [calls|] eqn:Hn; simpl.
  - rewrite !getCache_setCache. destruct (decide (self = self)); [|done].
    simpl. rewrite Hn. eexists. split; [reflexivity|].
    rewrite !getCache_setCache. destruct (decide (self = self)); [|done].
    simpl. split_and!; [done | done | done |].
    intros r Hr. rewrite !getCache_setCache.
    by destruct (decide (r = self)).
  - destruct self; simpl; eexists; (split; [reflexivity|]); simpl;
      (split_and!; [done | done | done |]); by intros [].
Qed.

(** [InternalControl.addLocation] for a top-level location without parent
    type: it returns, with a name that is not in use. *)
Lemma InternalControl_addLocation_top control basename locationType self :
  getCacheOfLocationType locationType = Some self →
  ∃ i control',
    let name := Helper.candidate basename i in
    let index := default (size (cache (getCache self control)))
                   (last (unused (getCache self control))) in
    InternalControl_addLocation "" basename None locationType control
    = (control', inr (name, index, self))
    ∧ look control self name = None
    ∧ (look control self basename = None → i = 0)
    ∧ cache (getCache self control')
      = <[name := {| index := index;
                     children := match classOf self with
                                 | BaseCache => ChildList []
                                 | LightRigCache => ChildDict ∅
                                 end |}]> (cache (getCache self control))
    ∧ unused (getCache self control')
      = removelast (unused (getCache self control))
    ∧ node (getCache self control') ≠ None
    ∧ ∀ r, r ≠ self → getCache r control' = getCache r control.
Proof.
  intros Hty. unfold InternalControl_addLocation. rewrite Hty.
  destruct (getUnusedName_top self basename control) as (i & Hn & Hf & Hb).
  unfold mbind, PyM_bind.
  rewrite (bind_returns _ _ _ _ _ Hn).
  rewrite (bind_returns _ _ _ _ _ (getIndexForNewLocation_run _ _)).
  set (control1 := setCache self _ control).
  set (index := default _ _).
  change (getLocationPath "" (Helper.candidate basename i))
    with (Helper.candidate basename i).
  destruct (addLocation_run self (Helper.candidate basename i) index
              (bool_decide (truthy None = Some locationType)) control1)
    as (control' & Hadd & Hc & Hu & Hnode & Hother).
  rewrite (bind_returns _ _ _ _ _ Hadd). simpl.
  exists i, control'. split_and!; [done | done | done | | | |].
  - rewrite Hc. unfold control1. rewrite getCache_setCache.
    by destruct (decide (self = self)).
  - rewrite Hu. unfold control1. rewrite getCache_setCache.
    by destruct (decide (self = self)).
  - by rewrite Hnode.
  - intros r Hr. rewrite (Hother r Hr). unfold control1.
    rewrite getCache_setCache. by destruct (decide (r = self)).
Qed.


Lemma getIndexForLocation_run self location control :
  getIndexForLocation self location control
  = (control, inr (index <$> look control self location)).
Proof.
  unfold getIndexForLocation, mbind, PyM_bind.
  rewrite (bind_returns _ _ _ _ _ (cache_get_spec _ _ _)).
  by destruct (look control self location).
Qed.

Lemma locationExists_run self location control :
  locationExists self location control
  = (control, inr (bool_decide (is_Some (look control self location)))).
Proof.
  unfold locationExists, mbind, PyM_bind.
  rewrite (bind_returns _ _ _ _ _ (cache_get_spec _ _ _)).
  destruct (look control self location); [|done].
  by rewrite bool_decide_true.
Qed.

End AddFacts.

Section AddTheorems.
Import DreamGaffer GafferCache.

(** X3.  [InternalControl.addLocation] for a top-level location of one of the
    four location types always returns.  The name it returns is not yet
    a key of the cache: it is [basename] when that is free, and [basename]
    followed by a number otherwise.  No entry of any cache is overwritten
    or changed, and the new entry holds the slot returned and no
    children. *)
Theorem addLocation_top_level_fresh control basename locationType self :
  getCacheOfLocationType locationType = Some self →
  ∃ name index control',
    InternalControl_addLocation "" basename None locationType control
    = (control', inr (name, index, self))
    ∧ look control self name = None
    ∧ (look control self basename = None → name = basename)
    ∧ (∃ i, name = Helper.candidate basename i)
    ∧ look control' self name
      = Some {| index := index;
                children := match classOf self with
                            | BaseCache => ChildList []
                            | LightRigCache => ChildDict ∅
                            end |}
    ∧ ∀ r k, look control r k ≠ None → look control' r k = look control r k.
Proof.
  intros Hty.
  destruct (InternalControl_addLocation_top control basename locationType
              self Hty) as (i & control' & Hrun & Hf & Hb & Hc & _ & _ & Ho).
  eexists _, _, control'. split; [exact Hrun|].
  split_and!; [done | | by exists i | |].
  - by intros ->%Hb.
  - unfold look. rewrite Hc. apply lookup_insert_eq.
  - intros r k Hk. destruct (decide (r = self)) as [->|Hr].
    + unfold look. rewrite Hc. apply lookup_insert_ne. by intros <-.
    + unfold look. by rewrite Ho.
Qed.

(** X4.  Adding a top-level location keeps the slots in order. *)
Theorem addLocation_top_level_keeps_slots control basename locationType
    self :
  getCacheOfLocationType locationType = Some self →
  allSlotsOK control →
  allSlotsOK
    (InternalControl_addLocation "" basename None locationType control).1.
Proof.
  intros Hty Hok.
  destruct (InternalControl_addLocation_top control basename locationType
              self Hty) as (i & control' & Hrun & Hf & _ & Hc & Hu & _ & Ho).
  rewrite Hrun. simpl. intros r.
  destruct (decide (r = self)) as [->|Hr]; [|rewrite Ho by done; apply Hok].
  pose proof (slotsOK_take (getCache self control)
    (Helper.candidate basename i)
    match classOf self with
    | BaseCache => ChildList []
    | LightRigCache => ChildDict ∅
    end Hf (Hok self)) as Htake.
  eapply slotsOK_perm; [|exact Htake].
  by apply reflexive_eq, slots_eq; simpl; rewrite ?Hc, ?Hu.
Qed.

End AddTheorems.

Section RoundTripFacts.
Import DreamGaffer GafferCache.

Global Instance sameEntries_preorder : PreOrder sameEntries.
Proof.
  split.
  - by intros s self.
  - intros s1 s2 s3 H12 H23 self.
    destruct (H12 self) as [E1 E2], (H23 self) as [E3 E4].
    split; congruence.
Qed.

Lemma sameEntries_nodeCall self call : steps sameEntries (nodeCall self call).
Proof.
  unfold nodeCall. steps_tac. intros s r. simpl.
  rewrite getCache_setCache. by destruct (decide (r = self)) as [->|].
Qed.

Lemma sameEntries_editCall call : steps sameEntries (editCall call).
Proof.
  unfold editCall. steps_tac.
  apply steps_modify. intros s self.
  by rewrite getCache_set_materialEditNode.
Qed.

Lemma slashfree_app (a b : string) :
  slashfree (a +:+ b) = slashfree a && slashfree b.
Proof.
  induction a as [|c a IH]; [done|].
  rewrite string_app_cons. simpl. rewrite IH. by rewrite andb_assoc.
Qed.

Lemma pretty_N_char_slashfree (n : N) :
  (n < 10)%N → Ascii.eqb (pretty_N_char n) "/" = false.
Proof.
  intros Hn.
  do 10 (destruct n as [|n _] using N.peano_ind; [reflexivity|]). lia.
Qed.

Lemma pretty_N_go_slashfree (x : N) (s : string) :
  slashfree s = true → slashfree (pretty_N_go x s) = true.
Proof.
  revert s. induction (N.lt_wf_0 x) as [x _ IH]; intros s Hs.
  destruct (decide (x = 0)%N) as [->|Hx]; [by rewrite pretty_N_go_0|].
  rewrite pretty_N_go_step by lia.
  apply IH; [apply N.div_lt; lia|]. simpl.
  rewrite pretty_N_char_slashfree by (apply N.mod_lt; lia). done.
Qed.

Lemma str_slashfree (i : nat) : slashfree (Helper.str i) = true.
Proof.
  unfold Helper.str, pretty, pretty_nat, pretty, pretty_N.
  case_decide; [done|]. by apply pretty_N_go_slashfree.
Qed.

Lemma candidate_slashfree (basename : string) (i : nat) :
  slashfree basename = true →
  slashfree (Helper.candidate basename i) = true.
Proof.
  intros Hb. destruct i as [|i]; [done|]. simpl.
  by rewrite slashfree_app, Hb, str_slashfree.
Qed.

Lemma candidate_nonempty (basename : string) (i : nat) :
  basename ≠ "" → Helper.candidate basename i ≠ "".
Proof.
  intros Hb. destruct i as [|i]; [done|]. simpl.
  destruct basename; [done | discriminate].
Qed.

Lemma rsplit_slash_slashfree (name : string) :
  slashfree name = true → PyString.rsplit_slash name = ("", name).
Proof.
  induction name as [|c name IH]; [done|]. simpl.
  intros [Hc Hn]%andb_prop. rewrite (IH Hn). simpl.
  apply negb_true_iff in Hc. by rewrite Hc.
Qed.

Lemma basename_of_slashfree (name : string) :
  slashfree name = true → PyString.basename name = name.
Proof.
  intros Hn. unfold PyString.basename. by rewrite rsplit_slash_slashfree.
Qed.

Lemma dirname_of_slashfree (name : string) :
  slashfree name = true → PyString.dirname name = "".
Proof.
  intros Hn. unfold PyString.dirname. by rewrite rsplit_slash_slashfree.
Qed.

Lemma updateChildName_absent self parentPath newName oldName ty control :
  look control self parentPath = None →
  updateChildName self parentPath newName oldName ty control
  = (control, inr false).
Proof.
  intros Hl. unfold updateChildName, BaseCache_updateChildName,
    LightRigCache_updateChildName, mbind, PyM_bind.
  destruct (classOf self);
    by rewrite (bind_returns _ _ _ _ _ (cache_get_spec _ _ _)), Hl.
Qed.

(** Without a cached parent, [findAndUpdateChildName] changes nothing. *)
Lemma findAndUpdateChildName_absent parentPath newName oldName ty self
    control :
  getCacheOfLocationType ty = Some self →
  (∀ r, look control r parentPath = None) →
  findAndUpdateChildName parentPath newName oldName ty None control
  = (control, inr tt).
Proof.
  intros Hty Hno. unfold findAndUpdateChildName, mbind, PyM_bind. simpl.
  repeat case_decide;
    rewrite ?Hty;
    repeat (erewrite bind_returns;
              [|by apply updateChildName_absent]; simpl);
    done.
Qed.


(** Removing a cached top-level location that has no children. *)
Lemma recursiveRemoveLocation_leaf depth self name i ch control :
  look control self name = Some {| index := i; children := ch |} →
  iter_names ch = [] →
  sameEntries
    (setCache self
       (set_unused (unused (getCache self control) ++ [i])
          (set_cache (delete name (cache (getCache self control)))
             (getCache self control))) control)
    (recursiveRemoveLocation (S depth) self "" name control).1.
Proof.
  intros Hl Hch.
  cbn [recursiveRemoveLocation]. unfold PyM.try_except. cbn [fst].
  change (getLocationPath "" name) with name.
  unfold mbind, PyM_bind.
  rewrite (bind_returns _ _ _ _ _ (cache_pop_Some _ _ _ _ Hl)).
  cbn [index children].
  assert (modifyCache self (λ c, set_unused (unused c ++ [i]) c)
            (setCache self
               (set_cache (delete name (cache (getCache self control)))
                  (getCache self control)) control)
          = (setCache self
               (set_unused (unused (getCache self control) ++ [i])
                  (set_cache (delete name (cache (getCache self control)))
                     (getCache self control))) control, inr tt)) as Hm.
  { unfold modifyCache, PyM.modify.
    rewrite getCache_setCache. destruct (decide (self = self)); [|done].
    f_equal. by destruct self. }
  rewrite (bind_returns _ _ _ _ _ Hm).
  match goal with
  | |- sameEntries ?s (?m ?s).1 =>
      cut (steps sameEntries m); [intros Hrest; apply Hrest|]
  end.
  unfold removeSingleLocation.
  apply steps_bind; [tc_solve | apply sameEntries_nodeCall | intros _].
  apply steps_bind; [tc_solve | apply sameEntries_editCall | intros _].
  destruct (classOf self).
  - rewrite Hch. cbn [PyM.for_each]. apply steps_ret; tc_solve.
  - apply steps_bind_lift; [tc_solve|]. intros items Hitems.
    destruct ch as [names|types]; [done|]. simpl in Hitems, Hch.
    injection Hitems as <-.
    apply fmap_nil_inv in Hch. rewrite Hch. cbn [PyM.for_each].
    apply steps_ret; tc_solve.
Qed.

End RoundTripFacts.

Section RoundTripTheorems.
Import DreamGaffer GafferCache.

(** X5.  Adding a top-level location and removing it again is a round trip:
    every cache holds the entries it held before, the slot that was handed
    out is unused again, and it is the one the next addition gets. *)
Theorem addLocation_removeLocation_round_trip control basename locationType
    self depth :
  getCacheOfLocationType locationType = Some self →
  basename ≠ "" → slashfree basename = true →
  (∀ r, look control r "" = None) →
  ∃ name index control1 control2,
    InternalControl_addLocation "" basename None locationType control
    = (control1, inr (name, index, self))
    ∧ removeLocation (S depth) "" name locationType control1
      = (control2, inr tt)
    ∧ (∀ r, cache (getCache r control2) = cache (getCache r control))
    ∧ (∀ r, r ≠ self →
         unused (getCache r control2) = unused (getCache r control))
    ∧ unused (getCache self control2)
      = match unused (getCache self control) with
        | [] => [index]
        | _ :: _ => unused (getCache self control)
        end
    ∧ (getIndexForNewLocation self control2).2 = inr index.
Proof.
  intros Hty Hne Hsf Hroot.
  destruct (InternalControl_addLocation_top control basename locationType
              self Hty)
    as (i & control1 & Hrun & Hf & _ & Hc & Hu & Hnode & Ho).
  set (name := Helper.candidate basename i) in *.
  set (index := default _ _) in *.
  assert (name ≠ "") as Hname by by apply candidate_nonempty.
  assert (slashfree name = true) as Hns by by apply candidate_slashfree.
  assert (∀ r, look control1 r "" = None) as Hroot1.
  { intros r. destruct (decide (r = self)) as [->|Hr].
    - unfold look. rewrite Hc, lookup_insert_ne by done. apply Hroot.
    - unfold look. rewrite Ho by done. apply Hroot. }
  exists name, index, control1,
    (recursiveRemoveLocation (S depth) self "" name control1).1.
  split; [exact Hrun|].
  assert (look control1 self name
          = Some {| DreamGaffer.index := index;
                    children := match classOf self with
                                | BaseCache => ChildList []
                                | LightRigCache => ChildDict ∅
                                end |}) as Hl1.
  { unfold look. rewrite Hc. apply lookup_insert_eq. }
  pose proof (recursiveRemoveLocation_leaf depth self name index _ control1
                Hl1) as Hleaf.
  assert (∀ r, cache (getCache r
                 (recursiveRemoveLocation (S depth) self "" name control1).1)
               = cache (getCache r control)
             ∧ unused (getCache r
                 (recursiveRemoveLocation (S depth) self "" name control1).1)
               = if decide (r = self)
                 then removelast (unused (getCache self control)) ++ [index]
                 else unused (getCache r control)) as Hfin.
  { intros r.
    destruct (Hleaf ltac:(by destruct (classOf self)) r) as [-> ->].
    rewrite getCache_setCache.
    destruct (decide (r = self)) as [->|Hr]; simpl.
    - rewrite Hc, Hu. split; [|done].
      rewrite delete_insert_eq. by apply delete_id.
    - by rewrite Ho. }
  split_and!.
  - unfold removeLocation, mbind, PyM_bind.
    rewrite (basename_of_slashfree _ Hns).
    rewrite (bind_returns _ _ _ _ _
               (findAndUpdateChildName_absent "" None (Some name)
                  locationType self control1 Hty Hroot1)).
    rewrite Hty. by destruct depth.
  - intros r. apply Hfin.
  - intros r Hr. rewrite (proj2 (Hfin r)). by rewrite decide_False.
  - rewrite (proj2 (Hfin self)), decide_True by done. unfold index.
    destruct (unused (getCache self control)) as [|x freed _] using rev_ind;
      [done|].
    rewrite last_snoc, removelast_last. simpl.
    by destruct (freed ++ [x]) eqn:E; [destruct freed|].
  - rewrite getIndexForNewLocation_run. cbn [snd].
    rewrite (proj2 (Hfin self)), decide_True by done.
    by rewrite last_snoc.
Qed.

End RoundTripTheorems.

Section LookupFacts.
Import DreamGaffer GafferCache.

Lemma getChildren_returns self parentPath control :
  (∀ info, look control self parentPath = Some info → kindOK self info) →
  ∃ res, getChildren self parentPath control = (control, inr res).
Proof.
  intros Hkind. unfold getChildren, mbind, PyM_bind.
  rewrite (bind_returns _ _ _ _ _ (cache_get_spec _ _ _)).
  destruct (look control self parentPath) as [info|]; [|by eexists].
  specialize (Hkind info eq_refl). unfold kindOK in Hkind.
  destruct (classOf self), (children info) as [names|types]; try done;
    by eexists.
Qed.

Lemma getUnusedName_returns self parentPath basename control :
  (∀ r info, look control r parentPath = Some info → kindOK r info) →
  ∃ name, getUnusedName self parentPath basename control
          = (control, inr name).
Proof.
  intros Hkind.
  destruct (decide (parentPath = "")) as [->|Hp].
  { destruct (getUnusedName_top self basename control) as (i & Hrun & _).
    by eexists. }
  unfold getUnusedName, mbind, PyM_bind.
  erewrite bind_returns; [|reflexivity]. rewrite decide_False by done.
  destruct (getChildren_returns self parentPath control (Hkind self))
    as [res Hres].
  rewrite (bind_returns _ _ _ _ _ Hres).
  destruct (getChildren_returns Rig parentPath control (Hkind Rig))
    as [res' Hres'].
  destruct (falsy res).
  - rewrite (bind_returns _ _ _ _ _ Hres').
    match goal with
    | |- ∃ _, Helper_getUnusedName ?b ?l _ = _ =>
        destruct (Helper_getUnusedName_run b l control) as (i & Hrun & _)
    end.
    by eexists.
  - erewrite bind_returns; [|reflexivity].
    match goal with
    | |- ∃ _, Helper_getUnusedName ?b ?l _ = _ =>
        destruct (Helper_getUnusedName_run b l control) as (i & Hrun & _)
    end.
    by eexists.
Qed.

Lemma updateChildName_returns self parentPath newName oldName ty control :
  (∀ info, look control self parentPath = Some info → kindOK self info) →
  ∃ control' b,
    updateChildName self parentPath newName oldName ty control
    = (control', inr b).
Proof.
  intros Hkind.
  unfold updateChildName, BaseCache_updateChildName,
    LightRigCache_updateChildName, mbind, PyM_bind.
  destruct (look control self parentPath) as [info|] eqn:Hl.
  - specialize (Hkind info eq_refl). unfold kindOK in Hkind.
    destruct (classOf self), (children info) as [names|types] eqn:Hch;
      try done;
      rewrite (bind_returns _ _ _ _ _ (cache_get_spec _ _ _)), Hl, Hch;
      destruct oldName as [oldName|], (truthy newName);
      simpl; repeat case_match; simpl;
      (erewrite bind_returns; [|reflexivity]);
      (erewrite bind_returns; [|reflexivity]); by eexists _, _.
  - destruct (classOf self);
      rewrite (bind_returns _ _ _ _ _ (cache_get_spec _ _ _)), Hl;
      by eexists _, _.
Qed.

Lemma findAndUpdateChildName_typed parentPath newName oldName ty pty pc
    control :
  truthy (Some pty) = Some pty →
  getCacheOfLocationType pty = Some pc →
  (∀ info, look control pc parentPath = Some info → kindOK pc info) →
  ∃ control',
    findAndUpdateChildName parentPath newName oldName ty (Some pty) control
    = (control', inr tt)
    ∧ sameSlots control control'.
Proof.
  intros Ht Hpc Hkind.
  pose proof (sameSlots_findAndUpdateChildName parentPath newName oldName ty
                (Some pty) control) as Hsame.
  unfold findAndUpdateChildName in *. rewrite Ht, Hpc in *.
  destruct (updateChildName_returns pc parentPath newName oldName ty control
              Hkind) as (control' & b & Hrun).
  unfold mbind, PyM_bind in *.
  rewrite (bind_returns _ _ _ _ _ Hrun) in *. by exists control'.
Qed.

End LookupFacts.

Section LookupTheorems.
Import DreamGaffer GafferCache.

(** X6.  Insert and look up: when the parent type, if one is given, is one of
    the four location types and an entry cached for the parent path is of
    the kind of its cache, [InternalControl.addLocation] returns, and
    afterwards [getIndexForLocation] finds the new location in the slot
    returned and [locationExists] holds of it. *)
Theorem addLocation_then_getIndexForLocation control parentPath basename
    parentType locationType self :
  getCacheOfLocationType locationType = Some self →
  (∀ pty, truthy parentType = Some pty →
          getCacheOfLocationType pty ≠ None) →
  (∀ r info, look control r parentPath = Some info → kindOK r info) →
  ∃ name index control',
    InternalControl_addLocation parentPath basename parentType locationType
      control
    = (control', inr (name, index, self))
    ∧ InternalControl_getIndexForLocation (getLocationPath parentPath name)
        locationType control'
      = (control', inr (Some index))
    ∧ InternalControl_locationExists (getLocationPath parentPath name)
        locationType control'
      = (control', inr true).
Proof.
  intros Hty Hpty Hkind.
  destruct (getUnusedName_returns self parentPath basename control Hkind)
    as [name Hname].
  set (fullPath := getLocationPath parentPath name).
  set (idx := default (size (cache (getCache self control)))
                  (last (unused (getCache self control)))).
  set (control1 := setCache self
         (set_unused (removelast (unused (getCache self control)))
            (getCache self control)) control).
  destruct (addLocation_run self fullPath idx
              (bool_decide (truthy parentType = Some locationType)) control1)
    as (control2 & Hadd & Hc & Hu & Hnode & Hother).
  assert (look control2 self fullPath
          = Some {| index := idx;
                    children := match classOf self with
                                | BaseCache => ChildList []
                                | LightRigCache => ChildDict ∅
                                end |}) as Hl2.
  { unfold look. rewrite Hc. apply lookup_insert_eq. }
  assert (∀ r info, look control2 r parentPath = Some info → kindOK r info)
    as Hkind2.
  { intros r info. destruct (decide (r = self)) as [->|Hr].
    - unfold look. rewrite Hc.
      destruct (decide (parentPath = fullPath)) as [E|E].
      + rewrite <- E, lookup_insert_eq. intros [= <-].
        unfold kindOK. simpl. by destruct (classOf self).
      + rewrite lookup_insert_ne by done. unfold control1.
        rewrite getCache_setCache, decide_True by done. apply Hkind.
    - unfold look. rewrite Hother by done. unfold control1.
      rewrite getCache_setCache. rewrite decide_False by done. apply Hkind. }
  assert (∃ control',
    (match truthy parentType with
     | Some _ =>
         findAndUpdateChildName parentPath (Some name) None locationType
           parentType
     | None => PyM.ret tt
     end) control2 = (control', inr tt)
    ∧ sameSlots control2 control') as (control' & Hfind & Hsame).
  { destruct (truthy parentType) as [pty|] eqn:Ht; [|by exists control2].
    destruct parentType as [pty'|]; [|done].
    assert (pty' = pty) as ->.
    { simpl in Ht. by destruct (decide (pty' = "")); simplify_eq. }
    destruct (getCacheOfLocationType pty) as [pc|] eqn:Hpc;
      [|by destruct (Hpty pty eq_refl)].
    apply (findAndUpdateChildName_typed _ _ _ _ pty pc);
      [exact Ht | exact Hpc | apply Hkind2]. }
  assert (index <$> look control' self fullPath = Some idx) as Hl'.
  { unfold look. rewrite <- lookup_fmap. rewrite (proj1 (Hsame self)).
    rewrite lookup_fmap. fold (look control2 self fullPath).
    by rewrite Hl2. }
  exists name, idx, control'. split_and!.
  - unfold InternalControl_addLocation. rewrite Hty.
    unfold mbind, PyM_bind.
    rewrite (bind_returns _ _ _ _ _ Hname).
    rewrite (bind_returns _ _ _ _ _ (getIndexForNewLocation_run _ _)).
    fold fullPath control1 idx.
    rewrite (bind_returns _ _ _ _ _ Hadd).
    by rewrite (bind_returns _ _ _ _ _ Hfind).
  - unfold InternalControl_getIndexForLocation. rewrite Hty.
    rewrite getIndexForLocation_run. fold fullPath. by rewrite Hl'.
  - unfold InternalControl_locationExists. rewrite Hty.
    rewrite locationExists_run. fold fullPath.
    destruct (look control' self fullPath); [|done].
    by rewrite bool_decide_true.
Qed.

End LookupTheorems.

Section FrameFacts.
Import DreamGaffer GafferCache.
Implicit Types P : string → Prop.

Global Instance outside_preorder P : PreOrder (outside P).
Proof.
  split.
  - by intros s r k.
  - intros s1 s2 s3 H12 H23 r k Hk. rewrite H23, H12; done.
Qed.

Lemma outside_weaken P P' s s' :
  (∀ k, P k → P' k) → outside P s s' → outside P' s s'.
Proof. intros HP Hs r k Hk. apply Hs. intros ?. by apply Hk, HP. Qed.

Lemma outside_modifyCache P self (f : Cache → Cache) :
  (∀ c k, ¬ P k → cache (f c) !! k = cache c !! k) →
  steps (outside P) (modifyCache self f).
Proof.
  intros Hf s r k Hk. simpl. rewrite look_setCache.
  destruct (decide (r = self)) as [->|]; [by apply Hf | done].
Qed.

Lemma outside_cache_get P self key : steps (outside P) (cache_get self key).
Proof. unfold cache_get. steps_tac. Qed.

Lemma outside_cache_getitem P self key :
  steps (outside P) (cache_getitem self key).
Proof. unfold cache_getitem. steps_tac. apply outside_cache_get. Qed.

Lemma outside_cache_setitem P self key info :
  P key → steps (outside P) (cache_setitem self key info).
Proof.
  intros HP. apply outside_modifyCache. intros c k Hk. simpl.
  apply lookup_insert_ne. by intros <-.
Qed.

Lemma outside_cache_pop P self key :
  P key → steps (outside P) (cache_pop self key).
Proof.
  intros HP. unfold cache_pop. steps_tac; [apply outside_cache_get|].
  apply outside_modifyCache. intros c k Hk. simpl.
  apply lookup_delete_ne. by intros <-.
Qed.

Lemma outside_set_children P self key children :
  P key → steps (outside P) (set_children self key children).
Proof.
  intros HP. apply outside_modifyCache. intros c k Hk. simpl.
  apply lookup_alter_ne. by intros <-.
Qed.

Lemma outside_nodeCall P self call : steps (outside P) (nodeCall self call).
Proof.
  unfold nodeCall. steps_tac. by apply outside_modifyCache.
Qed.

Lemma outside_editCall P call : steps (outside P) (editCall call).
Proof.
  unfold editCall. steps_tac. apply steps_modify. intros s r k _.
  apply look_set_materialEditNode.
Qed.

Lemma outside_getIndexForNewLocation P self :
  steps (outside P) (getIndexForNewLocation self).
Proof.
  unfold getIndexForNewLocation. steps_tac. by apply outside_modifyCache.
Qed.

Lemma outside_updateChildName P self parentPath newName oldName ty :
  P parentPath →
  steps (outside P) (updateChildName self parentPath newName oldName ty).
Proof.
  intros HP. unfold updateChildName, BaseCache_updateChildName,
    LightRigCache_updateChildName.
  steps_tac;
    first [ apply outside_cache_get | by apply outside_set_children ].
Qed.

Lemma outside_findAndUpdateChildName P parentPath newName oldName ty pty :
  P parentPath →
  steps (outside P)
    (findAndUpdateChildName parentPath newName oldName ty pty).
Proof.
  intros HP. unfold findAndUpdateChildName.
  steps_tac; by apply outside_updateChildName.
Qed.

Lemma outside_addChildToParent P self parentPath childName ty :
  P parentPath →
  steps (outside P) (addChildToParent self parentPath childName ty).
Proof.
  intros HP. unfold addChildToParent, BaseCache_addChildToParent,
    LightRigCache_addChildToParent.
  steps_tac;
    first [ apply outside_cache_get | by apply outside_set_children ].
Qed.

Lemma outside_removeChild P self parentPath childName :
  P parentPath →
  steps (outside P) (removeChild self parentPath childName).
Proof.
  intros HP. unfold removeChild, BaseCache_removeChild,
    LightRigCache_removeChild.
  steps_tac;
    first [ apply outside_cache_get | by apply outside_set_children ].
Qed.

(** Duplicating to [dst] touches the locations at and below [dst]
    only. *)
Lemma outside_recursiveDuplicateLocation depth self src dst :
  dst ≠ "" →
  steps (outside (under dst)) (recursiveDuplicateLocation depth self src dst).
Proof.
  revert self src dst.
  induction depth as [|depth IH]; intros self src dst Hdst; simpl.
  { apply steps_raise; tc_solve. }
  assert (∀ child name,
    steps (outside (under dst))
      (recursiveDuplicateLocation depth child (getLocationPath src name)
         (getLocationPath dst name))) as Hchild.
  { intros child name. eapply steps_weaken; [|apply IH].
    - intros s s'. apply outside_weaken. intros k Hk.
      eapply under_trans; [|exact Hk]. by apply under_child.
    - by apply getLocationPath_nonempty. }
  unfold duplicateSingleLocation.
  steps_tac;
    first [ apply outside_cache_get | apply outside_cache_getitem
          | apply outside_getIndexForNewLocation
          | apply outside_cache_setitem, under_refl
          | apply outside_nodeCall | apply outside_editCall
          | apply Hchild ].
Qed.

(** Renaming [Q] to [Q'] touches the locations at and below [Q] and [Q']
    only. *)
Lemma outside_renameLocation depth :
  (∀ self Q Q', Q ≠ "" → Q' ≠ "" →
     steps (outside (λ k, under Q k ∨ under Q' k))
       (renameLocation depth self Q Q'))
  ∧ (∀ self Q children Q', Q ≠ "" → Q' ≠ "" →
       steps (outside (λ k, under Q k ∨ under Q' k))
         (recursiveRenameChildLocation depth self Q children Q')).
Proof.
  induction depth as [|depth [IH1 IH2]].
  { split; intros; simpl; apply steps_raise; tc_solve. }
  assert (∀ Q Q' c (m : M unit), Q ≠ "" → Q' ≠ "" →
    steps (outside (λ k, under (getLocationPath Q c) k
                         ∨ under (getLocationPath Q' c) k)) m →
    steps (outside (λ k, under Q k ∨ under Q' k)) m) as Hweak.
  { intros Q Q' c m HQ HQ'. apply steps_weaken. intros s s'.
    apply outside_weaken. intros k [Hk|Hk]; [left|right];
      (eapply under_trans; [|exact Hk]); by apply under_child. }
  split.
  - intros self Q Q' HQ HQ'. simpl. unfold renameSingleLocation.
    steps_tac;
      first [ apply outside_cache_pop; left; apply under_refl
            | apply outside_cache_setitem; right; apply under_refl
            | apply outside_nodeCall | apply outside_editCall
            | by apply IH2 ].
  - intros self Q children Q' HQ HQ'. simpl. unfold renameSingleLocation.
    steps_tac;
      first [ apply outside_cache_get
            | apply outside_cache_pop; left; by apply under_child
            | apply outside_cache_setitem; right; by apply under_child
            | apply outside_nodeCall | apply outside_editCall
            | match goal with
              | |- steps _ (recursiveRenameChildLocation _ _
                              (getLocationPath _ ?c) _ _) =>
                  apply (Hweak Q Q' c); [done | done |];
                  apply IH2; by apply getLocationPath_nonempty
              | |- steps _ (renameLocation _ _ (getLocationPath _ ?c) _) =>
                  apply (Hweak Q Q' c); [done | done |];
                  apply IH1; by apply getLocationPath_nonempty
              end ].
Qed.

End FrameFacts.

Section DuplicateFacts.
Import DreamGaffer GafferCache.

Lemma under_child_strict (dst c k : string) :
  dst ≠ "" → under (getLocationPath dst c) k → under dst k ∧ k ≠ dst.
Proof.
  intros Hdst Hk. split.
  - eapply under_trans; [|exact Hk]. by apply under_child.
  - intros ->. apply under_length in Hk.
    pose proof (getLocationPath_length dst c Hdst). lia.
Qed.

(** The entry [recursiveDuplicateLocation] stores for the destination. *)
Lemma recursiveDuplicateLocation_entry depth self src dst info control :
  look control self src = Some info → kindOK self info → dst ≠ "" →
  look (recursiveDuplicateLocation (S depth) self src dst control).1 self dst
  = Some {| index := default (size (cache (getCache self control)))
                       (last (unused (getCache self control)));
            children := children info |}.
Proof.
  intros Hl Hkind Hdst. cbn [recursiveDuplicateLocation].
  unfold mbind, PyM_bind.
  rewrite (bind_returns _ _ _ _ _ (cache_get_spec _ _ _)), Hl.
  rewrite (bind_returns _ _ _ _ _ (getIndexForNewLocation_run _ _)).
  assert (match classOf self with
          | BaseCache => children_slice (children info)
          | LightRigCache => children_copy (children info)
          end = inr (children info)) as ->.
  { unfold kindOK in Hkind.
    by destruct (classOf self), (children info). }
  erewrite bind_returns; [|reflexivity].
  erewrite bind_returns; [|reflexivity].
  match goal with
  | |- look (?m ?s).1 _ _ = _ =>
      assert (steps (outside (λ k, under dst k ∧ k ≠ dst)) m) as Hrest;
      [|etrans; [apply (Hrest s self dst); by intros [_ ?]|]]
  end.
  { unfold duplicateSingleLocation.
    steps_tac;
      first [ apply outside_nodeCall | apply outside_editCall
            | apply outside_cache_getitem
            | eapply steps_weaken;
              [|by apply outside_recursiveDuplicateLocation,
                     getLocationPath_nonempty];
              intros ? ?; apply outside_weaken; intros ?;
              by apply under_child_strict ]. }
  rewrite !look_setCache. rewrite decide_True by done. simpl.
  apply lookup_insert_eq.
Qed.

End DuplicateFacts.

Section FrameTheorems.
Import DreamGaffer GafferCache.

(** X7.  [recursiveDuplicateLocation] writes below its destination only:
    whatever it is called with and however far it gets, the entries of
    all caches at locations that are not the destination or below it are
    left as they are. *)
Theorem recursiveDuplicateLocation_frame depth self src dst control :
  dst ≠ "" →
  ∀ r k, ¬ under dst k →
    look (recursiveDuplicateLocation depth self src dst control).1 r k
    = look control r k.
Proof. intros Hdst. by apply outside_recursiveDuplicateLocation. Qed.

(** X8.  [rename(L, newName)] touches nothing else: whatever state it is
    called in and however far it gets before an exception ends it, the
    entries of all caches at locations other than [L], the new location,
    what lies below these two, and the parent [dirname(L)] are left as
    they are. *)
Theorem rename_frame depth self L newName control :
  L ≠ "" → newName ≠ "" →
  ∀ r k,
    ¬ under L k →
    ¬ under (getLocationPath (PyString.dirname L) newName) k →
    k ≠ PyString.dirname L →
    look (rename depth self L newName control).1 r k = look control r k.
Proof.
  intros HL Hnew r k H1 H2 H3.
  set (newL := getLocationPath (PyString.dirname L) newName) in *.
  assert (newL ≠ "") as HnewL.
  { unfold newL, getLocationPath.
    destruct (decide (PyString.dirname L = "")) as [|Hd]; [done|].
    destruct (PyString.dirname L); [done | discriminate]. }
  cut (steps (outside (λ k, (under L k ∨ under newL k)
                            ∨ k = PyString.dirname L))
         (rename depth self L newName)).
  { intros Hs. apply Hs. by intros [[?|?]|?]. }
  unfold rename. apply steps_try_except. fold newL.
  apply steps_bind; [tc_solve | | intros _].
  - apply outside_findAndUpdateChildName. by right.
  - eapply steps_weaken;
      [|by apply (proj1 (outside_renameLocation depth))].
    intros s s'. apply outside_weaken. intros ? ?. by left.
Qed.


(** X9.  Duplicating a cached top-level location: the copy gets the first of
    the names [src1], [src2], ... that is not in use, the slot
    [getIndexForNewLocation] hands out and a copy of the children record
    of the source; the source and every other entry that is not at or
    below the copy are left as they are. *)
Theorem duplicateLocation_top_level control src locationType self info
    depth :
  getCacheOfLocationType locationType = Some self →
  slashfree src = true →
  look control self src = Some info → kindOK self info →
  (∀ r, look control r "" = None) →
  ∃ i, 1 ≤ i ∧
    let name := src +:+ Helper.str i in
    let control' := (duplicateLocation (S depth) src locationType control).1 in
    look control self name = None
    ∧ look control' self name
      = Some {| index := default (size (cache (getCache self control)))
                           (last (unused (getCache self control)));
                children := children info |}
    ∧ ∀ r k, ¬ under name k → look control' r k = look control r k.
Proof.
  intros Hty Hsf Hl Hkind Hroot.
  assert (src ≠ "") as Hsrc.
  { intros ->. by rewrite Hroot in Hl. }
  destruct (getUnusedName_top self src control) as (i & Hname & Hfresh & _).
  destruct i as [|i]; [simpl in Hfresh; by rewrite Hfresh in Hl|].
  exists (S i). split; [lia|]. cbn zeta.
  change (src +:+ Helper.str (S i)) with (Helper.candidate src (S i)).
  set (name := Helper.candidate src (S i)) in *.
  assert (name ≠ "") as Hne by by apply candidate_nonempty.
  assert ((duplicateLocation (S depth) src locationType control).1
          = (recursiveDuplicateLocation (S depth) self src name control).1)
    as ->.
  { unfold duplicateLocation, PyM.try_except. cbn [fst].
    rewrite (dirname_of_slashfree _ Hsf), (basename_of_slashfree _ Hsf), Hty.
    unfold mbind, PyM_bind.
    rewrite (bind_returns _ _ _ _ _ Hname).
    change (getLocationPath "" name) with name.
    by rewrite (bind_returns _ _ _ _ _
                  (findAndUpdateChildName_absent "" (Some name) None
                     locationType self control Hty Hroot)). }
  split_and!; [done | by apply recursiveDuplicateLocation_entry |].
  by apply outside_recursiveDuplicateLocation.
Qed.

End FrameTheorems.

Section BuildFacts.
Import DreamGaffer GafferCache.

(** The scan of the values of the [locations] parameter, when no name
    occurs twice: the empty slots are appended in ascending order, and
    every name is entered with its slot. *)
Lemma scanLocations_spec (values : list string) :
  ∀ i u0 ll0,
    NoDup (filter (λ v, v ≠ "") values) →
    ∃ u',
      (scanLocations i values u0 ll0).1 = u0 ++ u'
      ∧ StronglySorted lt u'
      ∧ (∀ j, j ∈ u' ↔ ∃ n, j = i + n ∧ values !! n = Some "")
      ∧ ∀ v j, (scanLocations i values u0 ll0).2 !! v = Some j
               ↔ ((∃ n, j = i + n ∧ values !! n = Some v ∧ v ≠ "")
                  ∨ (ll0 !! v = Some j ∧ ¬ (v ≠ "" ∧ v ∈ values))).
Proof.
  induction values as [|v0 vs IH]; intros i u0 ll0 Hnd; simpl.
  { exists []. rewrite app_nil_r. split_and!; [done | constructor | |].
    - intros j. rewrite elem_of_nil. split; [done|]. by intros (n & _ & ?).
    - intros v j. split; [|by intros [(n & _ & ? & _)|[? _]]].
      intros Hv. right. split; [done|]. intros [_ ?%elem_of_nil]. done. }
  destruct (decide (v0 = "")) as [->|Hv0].
  - rewrite filter_cons_False in Hnd by (by intros ?).
    destruct (IH (S i) (u0 ++ [i]) ll0 Hnd) as (u' & Hu & Hs & Hm & Hl).
    exists (i :: u'). split_and!.
    + by rewrite Hu, <- app_assoc.
    + constructor; [done|]. apply Forall_forall. intros j Hj.
      apply Hm in Hj as (n & -> & _). lia.
    + intros j. rewrite elem_of_cons, Hm. split.
      * intros [->|(n & -> & Hn)]; [exists 0 | exists (S n)];
          (split; [lia | done]).
      * intros ([|n] & -> & Hn); [left; lia|]. right. exists n.
        split; [lia | done].
    + intros v j. rewrite Hl. split.
      * intros [(n & -> & Hn & Hv)|[Hv Hnot]].
        -- left. exists (S n). split_and!; [lia | done | done].
        -- right. split; [done|]. intros [Hne [?|?]%elem_of_cons]; [done|].
           by apply Hnot.
      * intros [([|n] & -> & Hn & Hv)|[Hv Hnot]].
        -- simpl in Hn. by simplify_eq.
        -- left. exists n. split_and!; [lia | done | done].
        -- right. split; [done|]. intros [? ?]. apply Hnot.
           split; [done|]. by apply elem_of_cons; right.
  - rewrite filter_cons_True in Hnd by done.
    apply NoDup_cons in Hnd as [Hnotin Hnd].
    assert (v0 ∉ vs) as Hv0vs.
    { intros Hin. apply Hnotin. by apply list_elem_of_filter. }
    destruct (IH (S i) u0 (<[v0:=i]> ll0) Hnd) as (u' & Hu & Hs & Hm & Hl).
    exists u'. split_and!; [done | done | |].
    + intros j. rewrite Hm. split.
      * intros (n & -> & Hn). exists (S n). split; [lia | done].
      * intros ([|n] & -> & Hn); [simpl in Hn; by simplify_eq|].
        exists n. split; [lia | done].
    + intros v j. rewrite Hl. destruct (decide (v = v0)) as [->|Hv].
      * rewrite lookup_insert_eq. split.
        -- intros [(n & -> & Hn & _)|[[= <-] _]].
           ++ destruct Hv0vs. by eapply list_elem_of_lookup_2.
           ++ left. exists 0. split_and!; [lia | done | done].
        -- intros [([|n] & -> & Hn & _)|[_ Hnot]].
           ++ right. split; [f_equal; lia|]. by intros [_ ?].
           ++ destruct Hv0vs. by eapply list_elem_of_lookup_2.
           ++ destruct Hnot. split; [done|]. apply elem_of_cons. by left.
      * rewrite lookup_insert_ne by done. split.
        -- intros [(n & -> & Hn & Hne)|[Hll Hnot]].
           ++ left. exists (S n). split_and!; [lia | done | done].
           ++ right. split; [done|].
              intros [Hne [?|?]%elem_of_cons]; [done|]. by apply Hnot.
        -- intros [([|n] & -> & Hn & Hne)|[Hll Hnot]].
           ++ simpl in Hn. by simplify_eq.
           ++ left. exists n. split_and!; [lia | done | done].
           ++ right. split; [done|]. intros [? ?]. apply Hnot.
              split; [done|]. apply elem_of_cons. by right.
Qed.

(** Storing the entries of an association list whose keys are distinct. *)
Lemma store_entries self (mk : nat → Info) (l : list (string * nat)) :
  ∀ control,
    NoDup l.*1 →
    ∃ control',
      PyM.for_each l (λ '(location, i), cache_setitem self location (mk i))
        control = (control', inr tt)
      ∧ (∀ k, look control' self k
              = match list_find (λ e, e.1 = k) l with
                | Some (_, (_, i)) => Some (mk i)
                | None => look control self k
                end)
      ∧ unused (getCache self control') = unused (getCache self control)
      ∧ node (getCache self control') = node (getCache self control)
      ∧ ∀ r, r ≠ self → getCache r control' = getCache r control.
Proof.
  induction l as [|[k0 i0] l IH]; intros control Hnd.
  { exists control. by split_and!. }
  apply NoDup_cons in Hnd as [Hk0 Hnd].
  cbn [PyM.for_each].
  set (control1 := setCache self
         (set_cache (<[k0 := mk i0]> (cache (getCache self control)))
            (getCache self control)) control).
  assert (cache_setitem self k0 (mk i0) control = (control1, inr tt)) as H1
    by reflexivity.
  rewrite (bind_returns _ _ _ _ _ H1).
  destruct (IH control1 Hnd) as (control' & Hrun & Hl & Hu & Hn & Ho).
  exists control'. split_and!; [done | | | |].
  - intros k. rewrite Hl. simpl.
    destruct (decide (k0 = k)) as [->|Hk].
    + destruct (list_find _ l) as [[j [k' i']]|] eqn:Hf.
      * apply list_find_Some in Hf as (Hj & Hk' & _). simpl in Hk'.
        subst k'. destruct Hk0. apply list_elem_of_fmap.
        exists (k, i'). split; [done|]. by eapply list_elem_of_lookup_2.
      * simpl. unfold control1. rewrite look_setCache, decide_True by done.
        simpl. apply lookup_insert_eq.
    + destruct (list_find _ l) as [[j [k' i']]|]; simpl; [done|].
      unfold control1. rewrite look_setCache, decide_True by done.
      simpl. by apply lookup_insert_ne.
  - rewrite Hu. unfold control1. rewrite getCache_setCache.
    by rewrite decide_True.
  - rewrite Hn. unfold control1. rewrite getCache_setCache.
    by rewrite decide_True.
  - intros r Hr. rewrite Ho by done. unfold control1.
    rewrite getCache_setCache. by rewrite decide_False.
Qed.


Lemma StronglySorted_lt_NoDup (l : list nat) : StronglySorted lt l → NoDup l.
Proof.
  induction 1 as [|x l Hs IH Hall]; [constructor|].
  constructor; [|done]. intros Hx.
  rewrite Forall_forall in Hall. specialize (Hall x Hx). lia.
Qed.

Lemma sameSlots_buildCache_parents self (keys : list string) :
  steps sameSlots
    (PyM.for_each keys (λ location,
       let parent := PyString.dirname location in
       if decide (parent = "") then PyM.ret tt
       else
         let childName := PyString.basename location in
         added <- addChildToParent self parent childName
                    (locationType self);;
         if (added : bool) then PyM.ret tt
         else
           match classOf self with
           | BaseCache =>
               if decide (locationType self = "light filter") then
                 addChildToParent Light parent childName
                   (locationType self);;
                 PyM.ret tt
               else PyM.ret tt
           | LightRigCache =>
               if decide (locationType self = "light") then
                 addChildToParent Rig parent childName (locationType self);;
                 PyM.ret tt
               else PyM.ret tt
           end)).
Proof.
  apply steps_for_each; [tc_solve|]. intros location. cbn zeta.
  steps_tac; apply sameSlots_addChildToParent.
Qed.

(** What [buildCache] leaves in an empty cache, for a create node on
    which no name occurs twice. *)
Lemma buildCache_run self tn control :
  cache (getCache self control) = ∅ →
  unused (getCache self control) = [] →
  NoDup (filter (λ v, v ≠ "") (locations tn)) →
  ∃ u ll,
    let control' := (buildCache self (Some tn) control).1 in
    index <$> cache (getCache self control') = ll
    ∧ unused (getCache self control') = u
    ∧ StronglySorted lt u
    ∧ (∀ j, j ∈ u ↔ locations tn !! j = Some "")
    ∧ (∀ v j, ll !! v = Some j ↔ locations tn !! j = Some v ∧ v ≠ "").
Proof.
  intros Hc Hu Hnd.
  destruct (scanLocations_spec (locations tn) 0 [] ∅ Hnd)
    as (u & Hscan1 & Hsorted & Hmem & Hll).
  simpl in Hscan1.
  exists u, (scanLocations 0 (locations tn) [] ∅).2.
  cbn zeta. unfold buildCache, mbind, PyM_bind.
  set (control1 := setCache self
         (set_node (Some (calls tn)) (getCache self control)) control).
  assert (modifyCache self (set_node (Some (calls tn))) control
          = (control1, inr tt)) as H1 by reflexivity.
  rewrite (bind_returns _ _ _ _ _ H1).
  erewrite bind_returns; [|reflexivity].
  assert (getCache self control1
          = set_node (Some (calls tn)) (getCache self control)) as Hg1.
  { unfold control1. by rewrite getCache_setCache, decide_True. }
  rewrite Hg1. cbn [unused set_node]. rewrite Hu.
  destruct (scanLocations 0 (locations tn) [] ∅) as [u1 ll] eqn:Hscan.
  simpl in Hscan1, Hll. subst u1. cbn [snd].
  set (control2 := setCache self (set_unused u (getCache self control1))
                     control1).
  assert (modifyCache self (set_unused u) control1 = (control2, inr tt))
    as H2 by reflexivity.
  rewrite (bind_returns _ _ _ _ _ H2).
  destruct (store_entries self
              (λ i, {| index := i;
                       children := match classOf self with
                                   | BaseCache => ChildList []
                                   | LightRigCache => ChildDict ∅
                                   end |})
              (map_to_list ll) control2 (NoDup_fst_map_to_list ll))
    as (control3 & H3 & Hl3 & Hu3 & _ & _).
  rewrite (bind_returns _ _ _ _ _ H3).
  match goal with
  | |- context [(?m control3).1] => set (control4 := (m control3).1)
  end.
  assert (sameSlots control3 control4) as Hsame
    by apply (sameSlots_buildCache_parents self (map_to_list ll).*1).
  destruct (Hsame self) as [Hi' Hu']. clearbody control4.
  rewrite Hi', Hu', Hu3.
  assert (∀ k, look control2 self k = None) as Hl2.
  { intros k. unfold look, control2.
    rewrite getCache_setCache, decide_True by done. simpl.
    rewrite Hg1. simpl. by rewrite Hc. }
  split_and!.
  - apply map_eq. intros k. rewrite lookup_fmap.
    fold (look control3 self k). rewrite Hl3, Hl2.
    destruct (list_find _ _) as [[j [k' i']]|] eqn:Hf.
    + apply list_find_Some in Hf as (Hj & Hk' & _). simpl in Hk'. subst k'.
      apply list_elem_of_lookup_2, elem_of_map_to_list in Hj.
      by rewrite Hj.
    + simpl. symmetry. apply eq_None_not_Some. intros [i Hi].
      apply elem_of_map_to_list in Hi.
      apply list_find_None in Hf. rewrite Forall_forall in Hf.
      by apply (Hf _ Hi).
  - unfold control2. by rewrite getCache_setCache, decide_True.
  - done.
  - intros j. rewrite Hmem. split.
    + by intros (n & -> & Hn).
    + intros Hj. by exists j.
  - intros v j. rewrite Hll. split.
    + intros [(n & -> & Hn & Hv)|[Hv _]]; [done|].
      by rewrite lookup_empty in Hv.
    + intros [Hj Hv]. left. by exists j.
Qed.

Lemma buildCache_slotsOK self tn control :
  cache (getCache self control) = ∅ →
  unused (getCache self control) = [] →
  NoDup (filter (λ v, v ≠ "") (locations tn)) →
  slotsOK (getCache self (buildCache self (Some tn) control).1).
Proof.
  intros Hc Hu Hnd.
  destruct (buildCache_run self tn control Hc Hu Hnd)
    as (u & ll & Hi & Hu' & Hsorted & Hmem & Hll).
  cbn zeta in *.
  assert (slots (getCache self (buildCache self (Some tn) control).1)
            ≡ₚ seq 0 (length (locations tn))) as Hp.
    { unfold slots. rewrite Hi, Hu'.
      apply NoDup_Permutation.
      - apply NoDup_app. split_and!.
        + by apply StronglySorted_lt_NoDup.
        + intros j Hj [[v j'] [Hv Hin]]%list_elem_of_fmap.
          simpl in Hv. subst j'. apply elem_of_map_to_list, Hll in Hin.
          apply Hmem in Hj. destruct Hin as [Hin Hne]. simplify_eq.
        + apply NoDup_fmap_2_strong; [|apply NoDup_map_to_list].
          intros [v1 j1] [v2 j2] H1 H2 Hj. simpl in Hj. subst j2.
          apply elem_of_map_to_list, Hll in H1, H2.
          destruct H1 as [H1 _], H2 as [H2 _]. by simplify_eq.
      - apply NoDup_seq.
      - intros j. rewrite elem_of_app, elem_of_seq. split.
        + intros [Hj|[[v j'] [Hv Hin]]%list_elem_of_fmap].
          * apply Hmem, lookup_lt_Some in Hj. lia.
          * simpl in Hv. subst j'. apply elem_of_map_to_list, Hll in Hin.
            destruct Hin as [Hin _]. apply lookup_lt_Some in Hin. lia.
        + intros [_ Hj]. simpl in Hj.
          destruct (lookup_lt_is_Some_2 (locations tn) j Hj) as [v Hv].
          destruct (decide (v = "")) as [->|Hne].
          * left. by apply Hmem.
          * right. apply list_elem_of_fmap. exists (v, j).
            split; [done|]. by apply elem_of_map_to_list, Hll. }
    unfold slotsOK. rewrite (Permutation_length Hp), length_seq. exact Hp.
Qed.

End BuildFacts.

Section BuildTheorems.
Import DreamGaffer GafferCache.

(** X10.  Building a cache from a create node.  When the cache is empty and no
    name occurs twice among the values of the node's [locations]
    parameter, [buildCache] (wherever its loop over the parents ends)
    caches exactly the names of the parameter, each with its position as
    the slot; the unused list holds the positions of the empty values in
    ascending order; and the slots are in order. *)
Theorem buildCache_spec self tn control :
  cache (getCache self control) = ∅ →
  unused (getCache self control) = [] →
  NoDup (filter (λ v, v ≠ "") (locations tn)) →
  let control' := (buildCache self (Some tn) control).1 in
  (∀ v j, index <$> look control' self v = Some j
          ↔ locations tn !! j = Some v ∧ v ≠ "")
  ∧ (∀ j, j ∈ unused (getCache self control')
          ↔ locations tn !! j = Some "")
  ∧ StronglySorted lt (unused (getCache self control'))
  ∧ slotsOK (getCache self control').
Proof.
  intros Hc Hu Hnd.
  destruct (buildCache_run self tn control Hc Hu Hnd)
    as (u & ll & Hi & Hu' & Hsorted & Hmem & Hll).
  cbn zeta in *. split_and!.
  - intros v j. unfold look. rewrite <- lookup_fmap, Hi. apply Hll.
  - intros j. rewrite Hu'. apply Hmem.
  - by rewrite Hu'.
  - by apply buildCache_slotsOK.
Qed.

End BuildTheorems.

Section ReloadFacts.
Import DreamGaffer GafferCache.

Lemma InternalControl_clearCache_run control :
  ∃ control',
    InternalControl_clearCache control = (control', inr tt)
    ∧ (∀ self, cache (getCache self control') = ∅
               ∧ unused (getCache self control') = []
               ∧ node (getCache self control') = node (getCache self control))
    ∧ adoptedLocations control' = adoptedLocations control
    ∧ materialEditNode control' = materialEditNode control.
Proof.
  eexists. split; [reflexivity|]. split_and!; [|done..].
  by intros [].
Qed.

End ReloadFacts.

Section ReloadTheorems.
Import DreamGaffer GafferCache.

(** X11.  Reloading, as the editor does it: [InternalControl.clearCache] always
    returns and leaves every cache without entries and without unused
    slots; and [buildCache] after it, on a create node among whose
    locations no name occurs twice, makes the cache agree with the node
    whatever the cache held before: the cached names are those of the
    node, each in the slot of its position, the unused slots are the
    positions of the empty values, and the slots are in order. *)
Theorem clearCache_buildCache_reload self tn control :
  NoDup (filter (λ v, v ≠ "") (locations tn)) →
  ∃ cleared,
    InternalControl_clearCache control = (cleared, inr tt)
    ∧ (∀ r k, look cleared r k = None)
    ∧ (∀ r, unused (getCache r cleared) = [])
    ∧ let control' := (buildCache self (Some tn) cleared).1 in
      (∀ v j, index <$> look control' self v = Some j
              ↔ locations tn !! j = Some v ∧ v ≠ "")
      ∧ (∀ j, j ∈ unused (getCache self control')
              ↔ locations tn !! j = Some "")
      ∧ slotsOK (getCache self control').
Proof.
  intros Hnd.
  destruct (InternalControl_clearCache_run control)
    as (cleared & E & Hclear & _).
  exists cleared. split; [exact E|].
  split; [intros r k; unfold look; by rewrite (proj1 (Hclear r))|].
  split; [intros r; apply Hclear|].
  destruct (buildCache_run self tn cleared (proj1 (Hclear self))
              (proj1 (proj2 (Hclear self))) Hnd)
    as (u & ll & Hi & Hu' & Hsorted & Hmem & Hll).
  cbn zeta in *. split_and!.
  - intros v j. unfold look. rewrite <- lookup_fmap, Hi. apply Hll.
  - intros j. rewrite Hu'. apply Hmem.
  - apply buildCache_slotsOK; [apply Hclear | apply Hclear | done].
Qed.

Lemma clearCache_buildCache_reload_witness :
  let tn := {| calls := []; locations := ["key"; ""; "fill"] |} in
  NoDup (filter (λ v, v ≠ "") (locations tn))
  ∧ ∃ cleared,
      InternalControl_clearCache DemoGaffer.control = (cleared, inr tt)
      ∧ look cleared Light "all/set/key" = None
      ∧ index <$> look (buildCache Light (Some tn) cleared).1 Light "fill"
        = Some 2.
Proof.
  intros tn.
  assert (NoDup (filter (λ v, v ≠ "") (locations tn))) as Hnd.
  { apply (bool_decide_unpack _). by vm_compute. }
  split; [exact Hnd|].
  destruct (clearCache_buildCache_reload Light tn DemoGaffer.control Hnd)
    as (cleared & E & Hnone & _ & Hc & _).
  exists cleared. split_and!; [exact E | apply Hnone |].
  apply (proj2 (Hc "fill" 2)). split; [reflexivity | discriminate].
Defined.

End ReloadTheorems.

Section MoveFacts.
Import DreamGaffer GafferCache.
Context {N : CacheRef → Prop}.

Lemma Info_eta (info : Info) :
  {| index := index info; children := children info |} = info.
Proof. by destruct info. Qed.

Lemma removeChild_spec control self parentPath childName :
  nodesOK N control →
  (∀ info, look control self parentPath = Some info → kindOK self info) →
  ∃ control' b,
    removeChild self parentPath childName control = (control', inr b)
    ∧ nodesOK N control'
    ∧ ∀ r k, look control' r k
             = if decide (r = self ∧ k = parentPath) then
                 (λ info, {| index := index info;
                             children := removedChild (children info)
                                           childName |})
                   <$> look control self parentPath
               else look control r k.
Proof.
  intros Hok Hkind.
  unfold removeChild, BaseCache_removeChild, LightRigCache_removeChild,
    mbind, PyM_bind.
  destruct (look control self parentPath) as [info|] eqn:Hlook.
  - specialize (Hkind info eq_refl). unfold kindOK in Hkind.
    destruct (set_children_spec control self parentPath
                (removedChild (children info) childName) Hok)
      as (control' & Hrun & Hok' & Hl').
    destruct (classOf self), (children info) as [names|types] eqn:Hch;
      try done.
    + rewrite (bind_returns _ _ _ _ _ (cache_get_spec _ _ _)), Hlook.
      rewrite Hch. unfold contains.
      destruct (bool_decide (childName ∈ names)) eqn:Hin; simpl.
      * exists control', (Some true).
        split_and!;
          [|done|by intros r k; rewrite Hl', Hlook; simpl; rewrite ?Hch].
        erewrite bind_returns; [|reflexivity].
        unfold removedChild in Hrun.
        by rewrite (bind_returns _ _ _ _ _ Hrun).
      * apply bool_decide_eq_false in Hin.
        exists control, None. split_and!; [done|done|].
        intros r k. destruct (decide _) as [[-> ->]|]; [|done].
        rewrite Hlook. simpl. unfold removedChild. rewrite Hch.
        rewrite list_remove_absent by done. by rewrite <-Hch, Info_eta.
    + rewrite (bind_returns _ _ _ _ _ (cache_get_spec _ _ _)), Hlook.
      rewrite Hch. unfold contains.
      destruct (bool_decide (is_Some (types !! childName))) eqn:Hin; simpl.
      * exists control', (Some true).
        split_and!;
          [|done|by intros r k; rewrite Hl', Hlook; simpl; rewrite ?Hch].
        erewrite bind_returns; [|reflexivity].
        unfold removedChild in Hrun.
        by rewrite (bind_returns _ _ _ _ _ Hrun).
      * apply bool_decide_eq_false in Hin.
        exists control, None. split_and!; [done|done|].
        intros r k. destruct (decide _) as [[-> ->]|]; [|done].
        rewrite Hlook. simpl. unfold removedChild. rewrite Hch.
        rewrite delete_id; [by rewrite <-Hch, Info_eta|].
        destruct (types !! childName); [by destruct Hin | done].
  - exists control, (Some false). split_and!; [|done|].
    + destruct (classOf self);
        by rewrite (bind_returns _ _ _ _ _ (cache_get_spec _ _ _)), Hlook.
    + intros r k. destruct (decide (r = self ∧ k = parentPath)) as [[-> ->]|];
        [by rewrite Hlook | done].
Qed.

Lemma addChildToParent_spec control self parentPath childName ty :
  nodesOK N control →
  (∀ info, look control self parentPath = Some info → kindOK self info) →
  ∃ control',
    addChildToParent self parentPath childName ty control
    = (control', inr (bool_decide (is_Some (look control self parentPath))))
    ∧ nodesOK N control'
    ∧ ∀ r k, look control' r k
             = if decide (r = self ∧ k = parentPath) then
                 (λ info, {| index := index info;
                             children := addedChild (children info)
                                           childName ty |})
                   <$> look control self parentPath
               else look control r k.
Proof.
  intros Hok Hkind.
  unfold addChildToParent, BaseCache_addChildToParent,
    LightRigCache_addChildToParent, mbind, PyM_bind.
  destruct (look control self parentPath) as [info|] eqn:Hlook.
  - specialize (Hkind info eq_refl). unfold kindOK in Hkind.
    destruct (set_children_spec control self parentPath
                (addedChild (children info) childName ty) Hok)
      as (control' & Hrun & Hok' & Hl').
    exists control'. rewrite bool_decide_true by done.
    split_and!; [|done|].
    + destruct (classOf self), (children info) as [names|types] eqn:Hch;
        try done.
      * rewrite (bind_returns _ _ _ _ _ (cache_get_spec _ _ _)), Hlook.
        rewrite Hch. simpl. erewrite bind_returns; [|reflexivity].
        unfold addedChild in Hrun.
        by rewrite (bind_returns _ _ _ _ _ Hrun).
      * rewrite (bind_returns _ _ _ _ _ (cache_get_spec _ _ _)), Hlook.
        rewrite Hch. simpl. erewrite bind_returns; [|reflexivity].
        unfold addedChild in Hrun.
        by rewrite (bind_returns _ _ _ _ _ Hrun).
    + intros r k. rewrite Hl', Hlook. done.
  - exists control. rewrite bool_decide_false by (by intros [? ?]).
    split_and!; [|done|].
    + destruct (classOf self);
        by rewrite (bind_returns _ _ _ _ _ (cache_get_spec _ _ _)), Hlook.
    + intros r k. destruct (decide (r = self ∧ k = parentPath)) as [[-> ->]|];
        [by rewrite Hlook | done].
Qed.

Lemma look_step control control1 (target : option (CacheRef * string))
    (self : CacheRef) (parentPath : string) (g : Children → Children) :
  target = Some (self, parentPath) →
  (∀ r k, look control1 r k
          = if decide (r = self ∧ k = parentPath) then
              (λ info, {| index := index info;
                          children := g (children info) |})
                <$> look control self parentPath
            else look control r k) →
  ∀ r k, look control1 r k
         = (λ info, {| index := index info;
                       children := if decide (target = Some (r, k)) then
                                     g (children info)
                                   else children info |})
             <$> look control r k.
Proof.
  intros -> H r k. rewrite H.
  destruct (decide (r = self ∧ k = parentPath)) as [[-> ->]|Hne].
  - by destruct (decide (Some (self, parentPath) = Some (self, parentPath))).
  - destruct (decide (Some (self, parentPath) = Some (r, k))) as [E|_].
    { destruct Hne. by simplify_eq. }
    destruct (look control r k) as [info|]; [|done].
    simpl. by rewrite Info_eta.
Qed.

Lemma look_skip control (g : Children → Children) :
  ∀ r k, look control r k
         = (λ info, {| index := index info;
                       children := if decide (None = Some (r, k)) then
                                     g (children info)
                                   else children info |})
             <$> look control r k.
Proof.
  intros r k. destruct (look control r k) as [info|]; [|done].
  simpl. destruct (decide (None = Some (r, k))); [done|].
  by rewrite Info_eta.
Qed.

Lemma movedParent_other oldLocation newLocation locationType oldParentType
    newParentType r k info :
  k ≠ PyString.dirname oldLocation → k ≠ PyString.dirname newLocation →
  movedParent oldLocation newLocation locationType oldParentType
    newParentType r k info = info.
Proof.
  intros HO HN.
  assert (∀ pt L, k ≠ PyString.dirname L → parentOf pt L ≠ Some (r, k))
    as Hother.
  { intros pt L HL. unfold parentOf.
    destruct (truthy pt) as [p|]; [|done].
    destruct (getCacheOfLocationType p); [|done].
    intros [= _ ?]. congruence. }
  unfold movedParent.
  rewrite !decide_False by by apply Hother. apply Info_eta.
Qed.

Lemma not_under_dirname (L M : string) :
  L ≠ "" →
  getLocationPath (PyString.dirname M) (PyString.basename M) = M →
  (under L M → False) → ¬ under L (PyString.dirname M).
Proof.
  intros HL Hnorm Hdisj Hu.
  destruct (decide (PyString.dirname M = "")) as [E|E].
  - rewrite E in Hu. apply under_length in Hu.
    destruct L; [done | simpl in Hu; lia].
  - apply Hdisj. eapply under_trans; [exact Hu|].
    rewrite <-Hnorm at 2. by apply under_child.
Qed.

End MoveFacts.

Section MoveTheorems.
Import DreamGaffer GafferCache.

(** X12.  [move(oldLocation, newLocation, ...)] on a control that is ready for
    renaming [oldLocation] to [newLocation], with both paths in normal
    form and each parent type that is given naming a cache: the call
    goes through; every recorded descendant of [oldLocation], itself
    included, is found with its entry at the same place below
    [newLocation] and no longer below [oldLocation]; and outside of
    these two subtrees the only entries that change are those of the two
    parents in the caches of the given parent types, where the old name
    is removed from the children record and the new name is added to
    it. *)
Theorem move_spec (depth : nat) (control : InternalControl)
    (self : CacheRef) (oldLocation newLocation locationType : string)
    (oldParentType newParentType : option string) (info : Info) :
  getCacheOfLocationType locationType = Some self →
  look control self oldLocation = Some info →
  renamePre depth control oldLocation newLocation →
  getLocationPath (PyString.dirname oldLocation)
    (PyString.basename oldLocation) = oldLocation →
  getLocationPath (PyString.dirname newLocation)
    (PyString.basename newLocation) = newLocation →
  parentReady control oldParentType oldLocation →
  parentReady control newParentType newLocation →
  ∃ control',
    move (S depth) oldLocation newLocation locationType oldParentType
      newParentType control = (control', inr tt)
    ∧ (∀ r sfx, Desc control self oldLocation r sfx →
         look control' r (newLocation +:+ sfx)
         = look control r (oldLocation +:+ sfx)
         ∧ look control' r (oldLocation +:+ sfx) = None)
    ∧ (∀ r k, ¬ under oldLocation k → ¬ under newLocation k →
         look control' r k
         = movedParent oldLocation newLocation locationType oldParentType
             newParentType r k <$> look control r k).
Proof.
  intros Hself Hlook Hpre HnO HnN HrO HrN.
  pose proof Hpre as ([Hedit Hwalk] & HO & HN & Hdisj & Hfree & Hwf & Hdepth).
  set (N := λ r, node (getCache r control) ≠ None).
  assert (Hnodes : nodesOK N control) by (by split).
  set (PO := PyString.dirname oldLocation) in *.
  set (PN := PyString.dirname newLocation) in *.
  assert (HOO : ¬ under oldLocation PO).
  { intros Hu. eapply (under_not_parent PO); [by rewrite HnO| |done].
    by rewrite HnO. }
  assert (HNN : ¬ under newLocation PN).
  { intros Hu. eapply (under_not_parent PN); [by rewrite HnN| |done].
    by rewrite HnN. }
  assert (HON : ¬ under oldLocation PN).
  { apply not_under_dirname; [done | done |].
    intros Hu. apply (Hdisj newLocation Hu), under_refl. }
  assert (HNO : ¬ under newLocation PO).
  { apply not_under_dirname; [done | done |].
    intros Hu. apply (Hdisj oldLocation (under_refl _) Hu). }
  unfold move, mbind, PyM_bind. fold PO PN.
  (* the old parent *)
  match goal with
  | |- ∃ control', PyM.bind ?m1 _ control = _ ∧ _ =>
      assert (∃ control1,
        m1 control = (control1, inr tt)
        ∧ nodesOK N control1
        ∧ ∀ r k, look control1 r k
            = (λ info, {| index := index info;
                          children :=
                            if decide (parentOf oldParentType oldLocation
                                       = Some (r, k)) then
                              removedChild (children info)
                                (PyString.basename oldLocation)
                            else children info |})
                <$> look control r k) as (control1 & E1 & Hok1 & L1)
  end.
  { unfold parentReady in HrO. unfold parentOf.
    destruct (truthy oldParentType) as [pt|].
    - destruct (HrO pt eq_refl) as (pc & -> & Hkind).
      destruct (removeChild_spec control pc PO
                  (PyString.basename oldLocation) Hnodes Hkind)
        as (control1 & b & E1 & Hok1 & L1).
      exists control1. rewrite (bind_returns _ _ _ _ _ E1).
      split_and!; [done | done |].
      by apply (look_step control control1 (Some (pc, PO)) pc PO
                  (λ ch, removedChild ch (PyString.basename oldLocation))).
    - exists control. split_and!; [done | done |].
      apply (look_skip control
               (λ ch, removedChild ch (PyString.basename oldLocation))). }
  rewrite (bind_returns _ _ _ _ _ E1).
  (* the new parent *)
  match goal with
  | |- ∃ control', PyM.bind ?m2 _ control1 = _ ∧ _ =>
      assert (∃ control2,
        m2 control1 = (control2, inr tt)
        ∧ nodesOK N control2
        ∧ ∀ r k, look control2 r k
            = (λ info, {| index := index info;
                          children :=
                            if decide (parentOf newParentType newLocation
                                       = Some (r, k)) then
                              addedChild (children info)
                                (PyString.basename newLocation) locationType
                            else children info |})
                <$> look control1 r k) as (control2 & E2 & Hok2 & L2)
  end.
  { unfold parentReady in HrN. unfold parentOf.
    destruct (truthy newParentType) as [pt|].
    - destruct (HrN pt eq_refl) as (pc & -> & Hkind).
      assert (∀ info1, look control1 pc PN = Some info1 → kindOK pc info1)
        as Hkind1.
      { intros info1. rewrite L1.
        destruct (look control pc PN) as [info0|] eqn:H0; [|done].
        intros [= <-]. specialize (Hkind info0 H0).
        unfold kindOK in *. simpl.
        destruct (decide _); [|done].
        destruct (classOf pc), (children info0); done. }
      destruct (addChildToParent_spec control1 pc PN
                  (PyString.basename newLocation) locationType Hok1 Hkind1)
        as (control2 & E2 & Hok2 & L2).
      exists control2. rewrite (bind_returns _ _ _ _ _ E2).
      split_and!; [done | done |].
      by apply (look_step control1 control2 (Some (pc, PN)) pc PN
                  (λ ch, addedChild ch (PyString.basename newLocation)
                           locationType)).
    - exists control1. split_and!; [done | done |].
      apply (look_skip control1
               (λ ch, addedChild ch (PyString.basename newLocation)
                        locationType)). }
  rewrite (bind_returns _ _ _ _ _ E2).
  assert (Hall : ∀ r k,
            look control2 r k
            = movedParent oldLocation newLocation locationType
                oldParentType newParentType r k <$> look control r k).
  { intros r k. rewrite L2, L1. by destruct (look control r k). }
  assert (Hsame : ∀ r k, k ≠ PO → k ≠ PN →
            look control2 r k = look control r k).
  { intros r k H1 H2. rewrite Hall.
    destruct (look control r k) as [i|]; [|done]. simpl.
    by rewrite movedParent_other. }
  assert (Hin : ∀ r k, under oldLocation k ∨ under newLocation k →
            look control2 r k = look control r k).
  { intros r k [Hk|Hk]; apply Hsame; by intros ->. }
  assert (Hpre2 : renamePreN N depth control2 oldLocation newLocation).
  { split_and!; [done | done | done | done | | | |];
      [| | | intros r k Hk Hl; rewrite Hin in Hl by (by left);
             by apply (Hwalk r k)].
    - intros r k Hk. rewrite Hin by auto. by apply Hfree.
    - intros r k info' Hk Hl. rewrite Hin in Hl by auto.
      apply (okInfo_frame control control2 r k info'); [| | by eapply Hwf].
      + intros ->. apply under_length in Hk.
        destruct oldLocation; [done | simpl in Hk; lia].
      + intros r' x Hx. apply Hin. left. by eapply under_trans.
    - intros r k Hk Hl. rewrite Hin in Hl by auto. by apply (Hdepth r k). }
  assert (Hlook2 : look control2 self oldLocation = Some info).
  { rewrite Hin; [done | left; apply under_refl]. }
  destruct (renameSubtree_spec depth self oldLocation newLocation control2
              info Hpre2 Hlook2) as (control3 & E3 & Hok3 & Hout & Hdesc).
  exists control3. split_and!.
  - unfold PyM.try_except. rewrite Hself, renameLocation_S, E3. done.
  - intros r sfx Hd.
    assert (Desc control2 self oldLocation r sfx) as Hd2.
    { apply (Desc_frame control control2 self oldLocation r sfx HO);
        [|done]. intros r' k Hk. apply Hin. by left. }
    destruct (Hdesc r sfx Hd2) as [H1 H2]. split; [|done].
    rewrite H1. apply Hin. left.
    by apply (Desc_under control self oldLocation r sfx).
  - intros r k HkO HkN. by rewrite Hout, Hall.
Qed.

End MoveTheorems.

Section DemoSlotFacts.
Import DreamGaffer GafferCache DemoGaffer.

Lemma freed_allSlotsOK : allSlotsOK freed.
Proof.
  intros []; unfold slotsOK; vm_compute; [apply perm_swap | done..].
Qed.

Lemma freed_root (r : CacheRef) : look freed r "" = None.
Proof. by destruct r. Qed.

Lemma control_parent_kindOK (r : CacheRef) (info : Info) :
  look control r "all/set" = Some info → kindOK r info.
Proof. destruct r; intros Hl; vm_compute in Hl; by simplify_eq. Qed.

Lemma not_under_by_underb (P k : string) : underb P k = false → ¬ under P k.
Proof. intros Hb Hu. apply under_underb in Hu. congruence. Qed.

(** Removing the light [key] of the demo gaffer with freed slots. *)
Lemma removeLocation_keeps_slots_witness :
  allSlotsOK freed
  ∧ allSlotsOK (removeLocation 1 "" "key" "light" freed).1.
Proof.
  split; [exact freed_allSlotsOK|].
  apply (removeLocation_keeps_slots 1 freed freed_allSlotsOK).
Defined.

(** A second light [key] is added to the demo gaffer with freed slots. *)
Lemma addLocation_top_level_fresh_witness :
  getCacheOfLocationType "light" = Some Light
  ∧ ∃ name index control',
      InternalControl_addLocation "" "key" None "light" freed
      = (control', inr (name, index, Light))
      ∧ look freed Light name = None
      ∧ look control' Light name
        = Some {| index := index; children := ChildDict ∅ |}
      ∧ look control' Light "key" = look freed Light "key".
Proof.
  split; [reflexivity|].
  destruct (addLocation_top_level_fresh freed "key" "light" Light eq_refl)
    as (name & index & control' & E & Hfresh & _ & _ & Hnew & Hold).
  exists name, index, control'. split_and!; [exact E | exact Hfresh | exact Hnew |].
  apply Hold. discriminate.
Defined.

Lemma addLocation_top_level_keeps_slots_witness :
  getCacheOfLocationType "light" = Some Light
  ∧ allSlotsOK freed
  ∧ allSlotsOK (InternalControl_addLocation "" "key" None "light" freed).1.
Proof.
  split; [reflexivity|]. split; [exact freed_allSlotsOK|].
  apply (addLocation_top_level_keeps_slots freed "key" "light" Light eq_refl
           freed_allSlotsOK).
Defined.

Lemma addLocation_removeLocation_round_trip_witness :
  getCacheOfLocationType "light" = Some Light
  ∧ "fill" ≠ "" ∧ slashfree "fill" = true
  ∧ (∀ r, look freed r "" = None)
  ∧ ∃ name index control1 control2,
      InternalControl_addLocation "" "fill" None "light" freed
      = (control1, inr (name, index, Light))
      ∧ removeLocation 1 "" name "light" control1 = (control2, inr tt)
      ∧ (∀ r, cache (getCache r control2) = cache (getCache r freed))
      ∧ unused (getCache Light control2) = [1; 0]
      ∧ (getIndexForNewLocation Light control2).2 = inr index.
Proof.
  split; [reflexivity|]. split; [discriminate|]. split; [reflexivity|].
  split; [exact freed_root|].
  destruct (addLocation_removeLocation_round_trip freed "fill" "light" Light
              0 eq_refl ltac:(discriminate) eq_refl freed_root)
    as (name & index & control1 & control2 & E1 & E2 & Hc & _ & Hu & Hi).
  exists name, index, control1, control2.
  split_and!; [exact E1 | exact E2 | exact Hc | exact Hu | exact Hi].
Defined.

(** A light [fill] is added below the rig [all/set] of the demo gaffer. *)
Lemma addLocation_then_getIndexForLocation_witness :
  getCacheOfLocationType "light" = Some Light
  ∧ (∀ pty, truthy (Some "rig") = Some pty →
            getCacheOfLocationType pty ≠ None)
  ∧ (∀ r info, look control r "all/set" = Some info → kindOK r info)
  ∧ ∃ name index control',
      InternalControl_addLocation "all/set" "fill" (Some "rig") "light"
        control
      = (control', inr (name, index, Light))
      ∧ InternalControl_getIndexForLocation (getLocationPath "all/set" name)
          "light" control'
        = (control', inr (Some index)).
Proof.
  assert (∀ pty, truthy (Some "rig") = Some pty →
                 getCacheOfLocationType pty ≠ None) as Hpty.
  { intros pty [= <-]. discriminate. }
  split; [reflexivity|]. split; [exact Hpty|].
  split; [exact control_parent_kindOK|].
  destruct (addLocation_then_getIndexForLocation control "all/set" "fill"
              (Some "rig") "light" Light eq_refl Hpty control_parent_kindOK)
    as (name & index & control' & E & Hi & _).
  exists name, index, control'. split; [exact E | exact Hi].
Defined.

(** The rig [all/set] of the demo gaffer is copied to [all/set1]. *)
Lemma recursiveDuplicateLocation_frame_witness :
  "all/set1" ≠ ""
  ∧ ¬ under "all/set1" "all/set"
  ∧ look (recursiveDuplicateLocation 5 Rig "all/set" "all/set1" control).1
      Rig "all/set"
    = look control Rig "all/set".
Proof.
  assert (¬ under "all/set1" "all/set") as Hk.
  { apply not_under_by_underb. reflexivity. }
  split; [discriminate|]. split; [exact Hk|].
  apply (recursiveDuplicateLocation_frame 5 Rig "all/set" "all/set1" control
           ltac:(discriminate) Rig "all/set" Hk).
Defined.

(** The rig [all/set/sub] of the demo gaffer is renamed to [sub2]: its
    entry is rekeyed, and the light [all/set/key] and the rig [all], which
    are cached elsewhere, keep their entries. *)
Lemma rename_frame_witness :
  "all/set/sub" ≠ "" ∧ "sub2" ≠ ""
  ∧ ¬ under "all/set/sub" "all/set/key"
  ∧ ¬ under (getLocationPath (PyString.dirname "all/set/sub") "sub2")
        "all/set/key"
  ∧ "all/set/key" ≠ PyString.dirname "all/set/sub"
  ∧ look control Light "all/set/key"
    = Some {| index := 0;
              children := ChildDict {[ "blocker" := "light filter" ]} |}
  ∧ look (rename 100 Rig "all/set/sub" "sub2" control).1 Light "all/set/key"
    = look control Light "all/set/key"
  ∧ look (rename 100 Rig "all/set/sub" "sub2" control).1 Rig "all/set/sub"
    = None
  ∧ look (rename 100 Rig "all/set/sub" "sub2" control).1 Rig "all/set/sub2"
    = look control Rig "all/set/sub"
  ∧ look control Rig "all/set/sub"
    = Some {| index := 2; children := ChildDict ∅ |}.
Proof.
  assert (¬ under "all/set/sub" "all/set/key") as H1.
  { apply not_under_by_underb. reflexivity. }
  assert (¬ under (getLocationPath (PyString.dirname "all/set/sub") "sub2")
              "all/set/key") as H2.
  { apply not_under_by_underb. reflexivity. }
  assert ("all/set/key" ≠ PyString.dirname "all/set/sub") as H3.
  { discriminate. }
  split; [discriminate|]. split; [discriminate|].
  split; [exact H1|]. split; [exact H2|]. split; [exact H3|].
  split; [reflexivity|]. split; [|by vm_compute].
  apply (rename_frame 100 Rig "all/set/sub" "sub2" control
           ltac:(discriminate) ltac:(discriminate) Light "all/set/key"
           H1 H2 H3).
Defined.

(** The light [key] of the demo gaffer with freed slots is duplicated. *)
Lemma duplicateLocation_top_level_witness :
  let info := {| index := 2; children := ChildDict ∅ |} in
  getCacheOfLocationType "light" = Some Light
  ∧ slashfree "key" = true
  ∧ look freed Light "key" = Some info
  ∧ kindOK Light info
  ∧ (∀ r, look freed r "" = None)
  ∧ ∃ i, 1 ≤ i ∧
      look (duplicateLocation 1 "key" "light" freed).1 Light
        ("key" +:+ Helper.str i)
      = Some {| index := 0; children := ChildDict ∅ |}.
Proof.
  intros info.
  split; [reflexivity|]. split; [reflexivity|]. split; [reflexivity|].
  split; [exact I|]. split; [exact freed_root|].
  destruct (duplicateLocation_top_level freed "key" "light" Light info 0
              eq_refl eq_refl eq_refl I freed_root)
    as (i & Hi & _ & Hcopy & _).
  exists i. split; [exact Hi | exact Hcopy].
Defined.

(** A light create node with the locations [key] and [fill] and a free
    slot between them is loaded into the light cache of a new gaffer. *)
Lemma buildCache_spec_witness :
  let tn := {| calls := []; locations := ["key"; ""; "fill"] |} in
  let control' := (buildCache Light (Some tn) InternalControl_init).1 in
  cache (getCache Light InternalControl_init) = ∅
  ∧ unused (getCache Light InternalControl_init) = []
  ∧ NoDup (filter (λ v, v ≠ "") (locations tn))
  ∧ index <$> look control' Light "fill" = Some 2
  ∧ 1 ∈ unused (getCache Light control')
  ∧ slotsOK (getCache Light control').
Proof.
  intros tn control'.
  assert (NoDup (filter (λ v, v ≠ "") (locations tn))) as Hnd.
  { apply (bool_decide_unpack _). by vm_compute. }
  split; [reflexivity|]. split; [reflexivity|]. split; [exact Hnd|].
  destruct (buildCache_spec Light tn InternalControl_init eq_refl eq_refl
              Hnd) as (Hc & Hu & _ & Hok).
  split_and!.
  - apply (proj2 (Hc "fill" 2)). split; [reflexivity | discriminate].
  - apply (proj2 (Hu 1)). reflexivity.
  - exact Hok.
Defined.

End DemoSlotFacts.

Section DemoMoveFacts.
Import DreamGaffer GafferCache DemoGaffer.

Ltac demo_cached Hl :=
  cbv [look getCache control rigs lights lightFilters cache lightCache
       rigCache materialCache lightFilterCache] in Hl;
  repeat match type of Hl with
    | <[_ := _]> _ !! _ = Some _ =>
        apply lookup_insert_Some in Hl as [[<- <-]|[_ Hl]]
    | {[_ := _]} !! _ = Some _ =>
        apply lookup_singleton_Some in Hl as [<- <-]
    | ∅ !! _ = Some _ => by rewrite lookup_empty in Hl
    end.

Ltac demo_not_under Hk :=
  apply under_underb in Hk; vm_compute in Hk; discriminate Hk.

Lemma control_movePre : renamePre 1 control "all/set/sub" "all/sub".
Proof.
  unfold renamePre. split_and!.
  - split; [done | intros r k _ _; by destruct r].
  - done.
  - done.
  - intros k [->|[t ->]] [E|[t' E]]; vm_compute in E; discriminate E.
  - intros r k Hk. destruct (look control r k) as [info|] eqn:Hl; [|done].
    exfalso. destruct r; demo_cached Hl; demo_not_under Hk.
  - intros r k info Hk Hl.
    destruct r; demo_cached Hl; try demo_not_under Hk; unfold okInfo; cbn.
    apply map_Forall_empty.
  - intros r k Hk Hl. destruct (look control r k) as [info|] eqn:Hl'; [|done].
    destruct r; demo_cached Hl'; try demo_not_under Hk; simpl; lia.
Qed.

Lemma control_parentReady_old :
  parentReady control (Some "rig") "all/set/sub".
Proof.
  intros pty [= <-]. exists Rig. split; [reflexivity|].
  intros info Hl. vm_compute in Hl. by simplify_eq.
Qed.

Lemma control_parentReady_new : parentReady control (Some "rig") "all/sub".
Proof.
  intros pty [= <-]. exists Rig. split; [reflexivity|].
  intros info Hl. vm_compute in Hl. by simplify_eq.
Qed.

(** The empty rig [all/set/sub] of the demo gaffer is moved up into the
    rig [all]. *)
Lemma move_spec_witness :
  let info := {| index := 2; children := ChildDict ∅ |} in
  getCacheOfLocationType "rig" = Some Rig
  ∧ look control Rig "all/set/sub" = Some info
  ∧ renamePre 1 control "all/set/sub" "all/sub"
  ∧ parentReady control (Some "rig") "all/set/sub"
  ∧ parentReady control (Some "rig") "all/sub"
  ∧ ∃ control',
      move 2 "all/set/sub" "all/sub" "rig" (Some "rig") (Some "rig") control
      = (control', inr tt)
      ∧ look control' Rig "all/sub" = Some info
      ∧ look control' Rig "all/set/sub" = None
      ∧ look control' Rig "all/set"
        = Some {| index := 1;
                  children := ChildDict {[ "key" := "light" ]} |}
      ∧ look control' Rig "all"
        = Some {| index := 0;
                  children := ChildDict {[ "set" := "rig";
                                           "sub" := "rig" ]} |}.
Proof.
  intros info.
  split; [reflexivity|]. split; [reflexivity|].
  split; [exact control_movePre|].
  split; [exact control_parentReady_old|].
  split; [exact control_parentReady_new|].
  destruct (move_spec 1 control Rig "all/set/sub" "all/sub" "rig"
              (Some "rig") (Some "rig") info eq_refl eq_refl control_movePre
              eq_refl eq_refl control_parentReady_old
              control_parentReady_new)
    as (control' & E & Hdesc & Hrest).
  exists control'. split_and!.
  - exact E.
  - exact (proj1 (Hdesc Rig "" (Desc_here _ _ _))).
  - exact (proj2 (Hdesc Rig "" (Desc_here _ _ _))).
  - rewrite (Hrest Rig "all/set");
      [by vm_compute | apply not_under_by_underb; reflexivity
       | apply not_under_by_underb; reflexivity].
  - rewrite (Hrest Rig "all");
      [by vm_compute | apply not_under_by_underb; reflexivity
       | apply not_under_by_underb; reflexivity].
Defined.

End DemoMoveFacts.

(** ** The rig create node *)

Section RigNodeFacts.
Import DreamGaffer SharedFunc.
Context `{params : ParamHost}.

Lemma keeps_refl node : keeps node node.
Proof. done. Qed.

Lemma keeps_trans node1 node2 node3 :
  keeps node1 node2 → keeps node2 node3 → keeps node1 node3.
Proof.
  intros (H1 & H2 & H3) (H4 & H5 & H6). split_and!; [congruence..|].
  intros p. by rewrite H6, H3.
Qed.

Lemma keeps_lockstep node node' :
  keeps node node' → lockstep node → lockstep node'.
Proof.
  intros (H1 & H2 & H3) [Ho Hx]. split; [congruence|].
  intros p. by rewrite H3, H1.
Qed.

Lemma getParameter_setParameter p q v (node : Node) :
  getParameter p (setParameter q v node)
  = if decide (p = q) then v else getParameter p node.
Proof. by destruct p, q. Qed.

Lemma keeps_setParameter p v (node : Node) :
  length v = length (getParameter p node) →
  keeps node (setParameter p v node).
Proof.
  intros Hv. split_and!; [done..|]. intros q.
  rewrite getParameter_setParameter. by destruct (decide (q = p)) as [->|].
Qed.

Lemma returns_bind (P : Node → Prop) (m : M unit) (k : unit → M unit) :
  (∀ node node', keeps node node' → P node → P node') →
  returns P m → returns P (k tt) → returns P (PyM.bind m k).
Proof.
  intros HP Hm Hk node Hnode.
  destruct (Hm node Hnode) as (node1 & E1 & K1).
  destruct (Hk node1 (HP _ _ K1 Hnode)) as (node2 & E2 & K2).
  exists node2. unfold PyM.bind. rewrite E1. split; [done|].
  by eapply keeps_trans.
Qed.

Lemma returns_for_each {A} (P : Node → Prop) (l : list A)
    (body : A → M unit) :
  (∀ node node', keeps node node' → P node → P node') →
  (∀ x, returns P (body x)) → returns P (PyM.for_each l body).
Proof.
  intros HP Hbody. induction l as [|x l IH]; simpl.
  - intros node _. exists node. split; [done | apply keeps_refl].
  - by apply returns_bind.
Qed.

Lemma xform_setValue_returns p i v :
  returns (λ node, i < length (getParameter p node)) (xform_setValue p i v).
Proof.
  intros node Hi. unfold xform_setValue, PyM.bind, PyM.get, PyM.lift,
    PyM.modify, child_setValue.
  destruct (lookup_lt_is_Some_2 _ _ Hi) as [x ->].
  eexists. split; [reflexivity|].
  apply keeps_setParameter. by rewrite length_insert.
Qed.

Lemma xform_copy_returns p s d :
  returns (λ node, s < length (getParameter p node)
                   ∧ d < length (getParameter p node)) (MultiRigCreate.xform_copy p s d).
Proof.
  intros node [Hs Hd]. unfold MultiRigCreate.xform_copy, PyM.bind, PyM.get, PyM.modify.
  destruct (lookup_lt_is_Some_2 _ _ Hs) as [x ->].
  destruct (lookup_lt_is_Some_2 _ _ Hd) as [y ->].
  eexists. split; [reflexivity|].
  apply keeps_setParameter. by rewrite length_insert.
Qed.

Lemma returns_weaken (P Q : Node → Prop) (m : M unit) :
  (∀ node, Q node → P node) → returns P m → returns Q m.
Proof. intros HQ Hm node Hnode. by apply Hm, HQ. Qed.

Lemma locations_setValue_run i v (node : Node) :
  locations_setValue i v node
  = if decide (i < length (SharedFunc.locations node)) then
      (set_locations (<[i := v]> (SharedFunc.locations node)) node, inr tt)
    else (node, inl Py.AttributeError).
Proof.
  unfold locations_setValue, PyM.bind, PyM.get, PyM.lift, PyM.modify,
    child_setValue.
  destruct (decide (i < length (SharedFunc.locations node))) as [Hi|Hi].
  - by destruct (lookup_lt_is_Some_2 _ _ Hi) as [x ->].
  - by rewrite lookup_ge_None_2 by lia.
Qed.

Lemma initXformParam_spec (node : Node) :
  SharedFunc.locations (initXformParam node) = SharedFunc.locations node
  ∧ order (initXformParam node) = order node
  ∧ ∀ p, length (getParameter p (initXformParam node))
         = length (getParameter p node) + 3.
Proof.
  unfold initXformParam. cbn [foldl]. split_and!; [done..|].
  intros []; cbn; repeat (destruct (decide _) as [?|?]; try done);
    rewrite ?length_alter, length_app; done.
Qed.

Lemma increaseArrays_spec (node : Node) :
  SharedFunc.locations (MultiRigCreate.increaseArrays node)
  = SharedFunc.locations node ++ [newString]
  ∧ (lockstep node → lockstep (MultiRigCreate.increaseArrays node)).
Proof.
  unfold MultiRigCreate.increaseArrays. cbv zeta.
  match goal with
  | |- context [initXformParam ?n] =>
      destruct (initXformParam_spec n) as (Hl & Ho & Hx)
  end.
  split; [by rewrite Hl|].
  intros [Hlo Hlx]. split.
  - rewrite Hl, Ho. cbn. rewrite !length_app. simpl. lia.
  - intros p. rewrite Hx, Hl. cbn.
    replace (getParameter p _) with (getParameter p node) by by destruct p.
    rewrite Hlx, length_app. simpl. lia.
Qed.

Lemma lockstep_set_locations (node : Node) v :
  length v = length (SharedFunc.locations node) →
  lockstep node → lockstep (set_locations v node).
Proof.
  intros Hv [Ho Hx]. split; [simpl; congruence|].
  intros p.
  replace (getParameter p (set_locations v node)) with (getParameter p node)
    by by destruct p.
  cbn [SharedFunc.locations set_locations]. rewrite Hv. apply Hx.
Qed.

Lemma addLocationAtIndex_run locName i (node : Node) :
  lockstep node → i ≤ length (SharedFunc.locations node) →
  ∃ node',
    MultiRigCreate.addLocationAtIndex locName i node = (node', inr tt)
    ∧ SharedFunc.locations node'
      = <[i := locName]>
          (if decide (i = length (SharedFunc.locations node)) then
             SharedFunc.locations node ++ [newString]
           else SharedFunc.locations node)
    ∧ lockstep node'.
Proof.
  intros Hlock Hi.
  unfold MultiRigCreate.addLocationAtIndex, addLocationAtIndex, mbind,
    PyM_bind.
  unfold PyM.bind at 1, PyM.get at 1.
  destruct (decide (i = length (SharedFunc.locations node))) as [->|Hne].
  - unfold PyM.bind, PyM.modify. cbv beta iota.
    rewrite locations_setValue_run.
    destruct (increaseArrays_spec node) as [Hl Hk]. rewrite Hl.
    rewrite decide_True by (rewrite length_app; simpl; lia).
    eexists. split; [reflexivity|]. split; [done|].
    apply lockstep_set_locations; [|by apply Hk].
    by rewrite length_insert, Hl.
  - unfold PyM.bind, PyM.ret. cbv beta iota.
    rewrite locations_setValue_run.
    rewrite decide_True by lia.
    eexists. split; [reflexivity|]. split; [done|].
    apply lockstep_set_locations; [|done]. by rewrite length_insert.
Qed.

Lemma removeLocationAtIndex_run i (node : Node) :
  lockstep node → i < length (SharedFunc.locations node) →
  ∃ node',
    MultiRigCreate.removeLocationAtIndex i node = (node', inr tt)
    ∧ SharedFunc.locations node' = <[i := ""]> (SharedFunc.locations node)
    ∧ lockstep node'.
Proof.
  intros Hlock Hi. unfold MultiRigCreate.removeLocationAtIndex, mbind,
    PyM_bind.
  unfold PyM.bind at 1. rewrite locations_setValue_run.
  rewrite decide_True by done.
  set (node1 := set_locations _ node).
  assert (lockstep node1) as Hlock1.
  { apply lockstep_set_locations; [|done]. by rewrite length_insert. }
  set (P := λ node : Node, ∀ p, i * 3 + 2 < length (getParameter p node)).
  assert (∀ node node', keeps node node' → P node → P node') as HP.
  { intros n n' (_ & _ & Hx) Hn p. rewrite Hx. apply Hn. }
  assert (P node1) as HP1.
  { intros p. rewrite (proj2 Hlock1 p). unfold node1. simpl.
    rewrite length_insert. lia. }
  match goal with
  | |- ∃ node', PyM.for_each ?l ?body node1 = _ ∧ _ =>
      destruct (returns_for_each P l body HP) with (node := node1)
        as (node2 & E2 & K2); [|done|]
  end.
  { intros p.
    repeat (apply returns_bind; [done| |]);
      (eapply returns_weaken; [|apply xform_setValue_returns]);
      intros n Hn; specialize (Hn p); simpl in *; lia. }
  exists node2. split; [done|]. split.
  - by rewrite (proj1 K2).
  - by eapply keeps_lockstep.
Qed.

Lemma duplicateLocation_run s d dstLocation (node : Node) :
  lockstep node → d ≤ length (SharedFunc.locations node) →
  s < length (<[d := dstLocation]>
                (if decide (d = length (SharedFunc.locations node)) then
                   SharedFunc.locations node ++ [newString]
                 else SharedFunc.locations node)) →
  ∃ node',
    MultiRigCreate.duplicateLocation s d dstLocation node = (node', inr tt)
    ∧ SharedFunc.locations node'
      = <[d := dstLocation]>
          (if decide (d = length (SharedFunc.locations node)) then
             SharedFunc.locations node ++ [newString]
           else SharedFunc.locations node)
    ∧ lockstep node'.
Proof.
  intros Hlock Hd Hs. unfold MultiRigCreate.duplicateLocation, mbind,
    PyM_bind.
  destruct (addLocationAtIndex_run dstLocation d node Hlock Hd)
    as (node1 & E1 & Hl1 & Hlock1).
  unfold PyM.bind at 1. rewrite E1. rewrite <-Hl1 in Hs |- *.
  assert (d < length (SharedFunc.locations node1)) as Hd1.
  { rewrite Hl1, length_insert. destruct (decide _) as [->|];
      [rewrite length_app; simpl; lia | lia]. }
  set (P := λ node : Node,
         ∀ p, s * 3 + 2 < length (getParameter p node)
              ∧ d * 3 + 2 < length (getParameter p node)).
  assert (∀ node node', keeps node node' → P node → P node') as HP.
  { intros n n' (_ & _ & Hx) Hn p. rewrite Hx. apply Hn. }
  assert (P node1) as HP1.
  { intros p. rewrite (proj2 Hlock1 p). lia. }
  match goal with
  | |- ∃ node', PyM.for_each ?l ?body node1 = _ ∧ _ =>
      destruct (returns_for_each P l body HP) with (node := node1)
        as (node2 & E2 & K2); [|done|]
  end.
  { intros p.
    repeat (apply returns_bind; [done| |]);
      (eapply returns_weaken; [|apply xform_copy_returns]);
      intros n Hn; specialize (Hn p); simpl in *; lia. }
  exists node2. split; [done|]. split.
  - by rewrite (proj1 K2).
  - by eapply keeps_lockstep.
Qed.

Lemma for_each_raises {A} (x : A) (l : list A) (body : A → M unit)
    (node node' : Node) e :
  body x node = (node', inl e) →
  PyM.for_each (x :: l) body node = (node', inl e).
Proof. intros E. cbn [PyM.for_each]. unfold PyM.bind. by rewrite E. Qed.

End RigNodeFacts.

Section RigNodeTheorems.
Import DreamGaffer SharedFunc.
Context `{params : ParamHost}.

(** X18.  The rig create node and the calls of its cache.  On a node whose
    arrays are in lockstep, a call with indices in range returns, leaves
    the arrays in lockstep and changes [locations] at the index of the
    call only: an addition or a duplication writes the location there,
    after the arrays have grown by one location when the index is the
    next one; a rename writes the new location; a removal writes the empty
    string.  A call with an index out of range raises. *)
Theorem rigNode_perform (call : NodeCall) (node : Node) :
  lockstep node →
  (inRange call (SharedFunc.locations node) →
   ∃ node',
     perform call node = (node', inr tt)
     ∧ SharedFunc.locations node'
       = locationsAfter call (SharedFunc.locations node)
     ∧ lockstep node')
  ∧ (¬ inRange call (SharedFunc.locations node) →
     ∃ e, (perform call node).2 = inl e).
Proof.
  intros Hlock. split.
  - destruct call as [p i isChild|i p|s d p|i]; simpl.
    + intros [-> Hi]. by apply addLocationAtIndex_run.
    + intros Hi. unfold renameLocation. rewrite locations_setValue_run.
      rewrite decide_True by done. eexists. split; [reflexivity|].
      split; [done|]. apply lockstep_set_locations; [|done].
      by rewrite length_insert.
    + intros [Hd Hs]. by apply duplicateLocation_run.
    + intros Hi. by apply removeLocationAtIndex_run.
  - destruct call as [p i isChild|i p|s d p|i]; simpl.
    + intros Hnot. destruct isChild as [b|]; [by eexists|].
      assert (¬ i ≤ length (SharedFunc.locations node)) as Hi by tauto.
      unfold MultiRigCreate.addLocationAtIndex, addLocationAtIndex, mbind,
        PyM_bind.
      unfold PyM.bind at 1, PyM.get at 1.
      rewrite decide_False by lia.
      unfold PyM.bind, PyM.ret. cbv beta iota.
      rewrite locations_setValue_run, decide_False by lia. by eexists.
    + intros Hi. unfold renameLocation.
      rewrite locations_setValue_run, decide_False by done. by eexists.
    + intros Hnot.
      unfold MultiRigCreate.duplicateLocation, mbind, PyM_bind.
      destruct (decide (d ≤ length (SharedFunc.locations node))) as [Hd|Hd].
      * destruct (addLocationAtIndex_run p d node Hlock Hd)
          as (node1 & E1 & Hl1 & Hlock1).
        unfold PyM.bind at 1. rewrite E1.
        assert (¬ s < length (SharedFunc.locations node1)) as Hs.
        { rewrite Hl1. tauto. }
        exists Py.AttributeError.
        erewrite for_each_raises; [done|].
        unfold PyM.bind at 1.
        unfold MultiRigCreate.xform_copy, PyM.bind, PyM.get.
        cbv beta iota.
        rewrite (lookup_ge_None_2 (getParameter Translate node1) (s * 3));
          [done|].
        rewrite (proj2 Hlock1 Translate). lia.
      * unfold PyM.bind at 1.
        unfold MultiRigCreate.addLocationAtIndex, addLocationAtIndex, mbind,
          PyM_bind.
        unfold PyM.bind at 1, PyM.get at 1.
        rewrite decide_False by lia.
        unfold PyM.bind, PyM.ret. cbv beta iota.
        rewrite locations_setValue_run, decide_False by lia. by eexists.
    + intros Hi.
      unfold MultiRigCreate.removeLocationAtIndex, mbind, PyM_bind.
      unfold PyM.bind at 1.
      rewrite locations_setValue_run, decide_False by done. by eexists.
Qed.

End RigNodeTheorems.

Section SyncFacts.
Import DreamGaffer GafferCache SharedFunc.
Context `{params : ParamHost}.

Lemma list_empty_or_snoc {A} (l : list A) : l = [] ∨ ∃ u x, l = u ++ [x].
Proof.
  induction l as [|x l _] using rev_ind; [by left | right; by eexists _, _].
Qed.

Lemma insert_length_snoc {A} (l : list A) (x y : A) :
  <[length l := x]> (l ++ [y]) = l ++ [x].
Proof.
  rewrite insert_app_r_alt by done. by rewrite Nat.sub_diag.
Qed.

Lemma InternalControl_addLocation_rig control basename :
  ∃ i control',
    let name := Helper.candidate basename i in
    let idx := default (size (cache (getCache Rig control)))
                 (last (unused (getCache Rig control))) in
    InternalControl_addLocation "" basename None "rig" control
    = (control', inr (name, idx, Rig))
    ∧ look control Rig name = None
    ∧ cache (getCache Rig control')
      = <[name := {| index := idx; children := ChildDict ∅ |}]>
          (cache (getCache Rig control))
    ∧ unused (getCache Rig control')
      = removelast (unused (getCache Rig control))
    ∧ node (getCache Rig control')
      = Some (default [] (node (getCache Rig control))
              ++ [NodeAddLocationAtIndex name idx None]).
Proof.
  unfold InternalControl_addLocation.
  change (getCacheOfLocationType "rig") with (Some Rig). cbv iota.
  destruct (getUnusedName_top Rig basename control) as (i & Hn & Hf & Hb).
  unfold mbind, PyM_bind.
  rewrite (bind_returns _ _ _ _ _ Hn).
  rewrite (bind_returns _ _ _ _ _ (getIndexForNewLocation_run _ _)).
  set (control1 := setCache Rig _ control).
  set (idx := default _ _).
  change (getLocationPath "" (Helper.candidate basename i))
    with (Helper.candidate basename i).
  destruct (addLocation_run Rig (Helper.candidate basename i) idx
              (bool_decide (truthy None = Some "rig")) control1)
    as (control' & Hadd & Hc & Hu & Hnode & Hother).
  rewrite (bind_returns _ _ _ _ _ Hadd).
  unfold PyM.bind, PyM.ret. cbn [truthy].
  exists i, control'. split_and!; [done | done | | |].
  - rewrite Hc. unfold control1. by rewrite getCache_setCache.
  - rewrite Hu. unfold control1. by rewrite getCache_setCache.
  - rewrite Hnode. unfold control1. by rewrite getCache_setCache.
Qed.

Lemma synced_lookup (c : Cache) (node : Node) v :
  synced c node → v ≠ "" →
  getIndexForLocation node v = index <$> cache c !! v.
Proof.
  intros (_ & _ & Hcached & _) Hv. unfold getIndexForLocation.
  destruct (list_find (λ value, value = v) (SharedFunc.locations node))
    as [[j y]|] eqn:Hfind; simpl.
  - apply list_find_Some in Hfind as (Hj & -> & _).
    symmetry. by apply Hcached.
  - destruct (cache c !! v) as [info|] eqn:Hc; [|done]. exfalso.
    assert (index <$> cache c !! v = Some (index info)) as Hi
      by by rewrite Hc.
    apply Hcached in Hi as [Hi _].
    eapply list_find_None in Hfind. eapply Forall_lookup_1 in Hfind; [|done].
    by apply Hfind.
Qed.

Lemma synced_add (c : Cache) (node node' : Node) name :
  synced c node → name ≠ "" → cache c !! name = None →
  let idx := default (size (cache c)) (last (unused c)) in
  lockstep node' →
  SharedFunc.locations node'
  = <[idx := name]>
      (if decide (idx = length (SharedFunc.locations node)) then
         SharedFunc.locations node ++ [newString]
       else SharedFunc.locations node) →
  idx ≤ length (SharedFunc.locations node)
  ∧ synced
      {| cache := <[name := {| index := idx; children := ChildDict ∅ |}]>
                    (cache c);
         unused := removelast (unused c);
         node := DreamGaffer.node c |} node'.
Proof.
  intros (Hlock & Hnd & Hcached & Hfree & Hcount) Hname Hfresh idx Hlock' Hl'.
  set (L := SharedFunc.locations node) in *.
  assert (∀ j, L !! j = Some name → False) as Hnot.
  { intros j Hj.
    assert (index <$> cache c !! name = Some j) as Hc by by apply Hcached.
    by rewrite Hfresh in Hc. }
  destruct (list_empty_or_snoc (unused c)) as [Hu|(u & i0 & Hu)].
  - (* a new slot *)
    assert (idx = length L) as Hidx.
    { unfold idx. rewrite Hu. simpl. rewrite Hcount, Hu. simpl. lia. }
    rewrite Hidx in *. rewrite decide_True in Hl' by done.
    rewrite insert_length_snoc in Hl'.
    split; [done|]. unfold synced. cbn [cache unused].
    rewrite Hl', Hu. cbn [removelast]. split_and!.
    + done.
    + constructor.
    + intros v j. destruct (decide (v = name)) as [->|Hv].
      * rewrite lookup_insert_eq. simpl. split.
        -- intros [= <-]. split; [|done].
           by rewrite lookup_app_r, Nat.sub_diag by done.
        -- intros [Hj _]. f_equal.
           destruct (decide (j < length L)) as [Hlt|Hge].
           ++ rewrite lookup_app_l in Hj by done. by destruct (Hnot j).
           ++ apply lookup_lt_Some in Hj. rewrite length_app in Hj.
              simpl in Hj. lia.
      * rewrite lookup_insert_ne by done. rewrite Hcached. split.
        -- intros [Hj Hne]. split; [|done].
           rewrite lookup_app_l; [done|]. by eapply lookup_lt_Some.
        -- intros [Hj Hne]. split; [|done].
           destruct (decide (j < length L)) as [Hlt|Hge].
           ++ by rewrite lookup_app_l in Hj.
           ++ rewrite lookup_app_r in Hj by lia.
              destruct (j - length L) as [|k]; simpl in Hj; by simplify_eq.
    + intros j. split; [by intros ?%elem_of_nil|]. intros Hj. exfalso.
      destruct (decide (j < length L)) as [Hlt|Hge].
      * rewrite lookup_app_l in Hj by done. apply Hfree in Hj.
        rewrite Hu in Hj. by apply elem_of_nil in Hj.
      * rewrite lookup_app_r in Hj by lia.
        destruct (j - length L) as [|k]; simpl in Hj; by simplify_eq.
    + rewrite length_app, map_size_insert_None by done. simpl.
      rewrite Hcount, Hu. simpl. lia.
  - (* a freed slot *)
    assert (idx = i0) as Hidx.
    { unfold idx. by rewrite Hu, last_snoc. }
    rewrite Hidx in *.
    assert (L !! i0 = Some "") as Hi0.
    { apply Hfree. rewrite Hu. apply elem_of_app. right. by left. }
    pose proof (lookup_lt_Some _ _ _ Hi0) as Hlt0.
    rewrite decide_False in Hl' by lia.
    rewrite Hu in Hnd. apply NoDup_app in Hnd as (Hndu & Hdisj & _).
    assert (i0 ∉ u) as Hi0u.
    { intros Hin. apply (Hdisj i0 Hin). by left. }
    split; [lia|]. unfold synced. cbn [cache unused].
    rewrite Hl', Hu, removelast_last. split_and!.
    + done.
    + done.
    + intros v j. destruct (decide (v = name)) as [->|Hv].
      * rewrite lookup_insert_eq. simpl. split.
        -- intros [= <-]. split; [|done]. by rewrite list_lookup_insert_eq.
        -- intros [Hj _]. f_equal.
           destruct (decide (j = i0)) as [->|Hne]; [done|].
           rewrite list_lookup_insert_ne in Hj by done.
           by destruct (Hnot j).
      * rewrite lookup_insert_ne by done. rewrite Hcached.
        destruct (decide (j = i0)) as [->|Hne].
        -- rewrite list_lookup_insert_eq by done. rewrite Hi0.
           split; intros [[= ?] ?]; by simplify_eq.
        -- by rewrite list_lookup_insert_ne.
    + intros j. destruct (decide (j = i0)) as [->|Hne].
      * rewrite list_lookup_insert_eq by done.
        split; [done | intros [= ?]; by simplify_eq].
      * rewrite list_lookup_insert_ne by done.
        rewrite <-Hfree, Hu, elem_of_app. split; [by left|].
        intros [?|Hin]; [done|]. apply list_elem_of_singleton in Hin. done.
    + rewrite length_insert, map_size_insert_None by done.
      rewrite Hcount, Hu, length_app. simpl. lia.
Qed.

End SyncFacts.

Section SyncRemoveFacts.
Import DreamGaffer GafferCache SharedFunc.
Context `{params : ParamHost}.

Lemma removeLocation_rig_leaf depth name i log control :
  look control Rig name = Some {| index := i; children := ChildDict ∅ |} →
  slashfree name = true →
  look control Rig "" = None →
  node (getCache Rig control) = Some log →
  ∃ control',
    removeLocation (S depth) "" name "rig" control = (control', inr tt)
    ∧ cache (getCache Rig control')
      = delete name (cache (getCache Rig control))
    ∧ unused (getCache Rig control') = unused (getCache Rig control) ++ [i]
    ∧ node (getCache Rig control')
      = Some (log ++ [NodeRemoveLocationAtIndex i]).
Proof.
  intros Hl Hsf Hroot Hnode.
  unfold removeLocation. rewrite basename_of_slashfree by done.
  unfold findAndUpdateChildName. cbn [truthy].
  rewrite decide_False by done. rewrite decide_False by done.
  change (getCacheOfLocationType "rig") with (Some Rig). cbv iota.
  unfold mbind, PyM_bind.
  rewrite (bind_returns _ _ _ _ _
             (bind_returns _ _ _ _ _
                (updateChildName_absent Rig "" None (Some name) "rig" control
                   Hroot))).
  cbn [recursiveRemoveLocation]. unfold PyM.try_except, mbind, PyM_bind.
  change (getLocationPath "" name) with name.
  rewrite (bind_returns _ _ _ _ _ (cache_pop_Some _ _ _ _ Hl)).
  cbn [index children].
  set (c0 := getCache Rig control) in *.
  set (control2 :=
         setCache Rig
           (set_unused (unused c0 ++ [i])
              (set_cache (delete name (cache c0)) c0)) control).
  assert (modifyCache Rig (λ c, set_unused (unused c ++ [i]) c)
            (setCache Rig (set_cache (delete name (cache c0)) c0) control)
          = (control2, inr tt)) as Hm.
  { unfold modifyCache, PyM.modify. by rewrite getCache_setCache. }
  rewrite (bind_returns _ _ _ _ _ Hm).
  set (control3 :=
         setCache Rig
           {| cache := delete name (cache c0); unused := unused c0 ++ [i];
              node := Some (log ++ [NodeRemoveLocationAtIndex i]) |}
           control).
  assert (nodeCall Rig (NodeRemoveLocationAtIndex i) control2
          = (control3, inr tt)) as Hn.
  { unfold nodeCall, PyM.bind, PyM.gets, modifyCache, PyM.modify.
    unfold control2. rewrite getCache_setCache.
    destruct (decide (Rig = Rig)); [|done].
    cbn [DreamGaffer.node set_unused set_cache]. rewrite Hnode.
    reflexivity. }
  rewrite (bind_returns _ _ _ _ _ Hn).
  eexists. split; [reflexivity|].
  match goal with
  | |- context [(?m control3).1] =>
      assert (getCache Rig (m control3).1 = getCache Rig control3) as ->
  end.
  { unfold removeSingleLocation, editCall, PyM.bind, PyM.get, PyM.modify,
      PyM.raise, PyM.lift.
    destruct (materialEditNode control3); cbn; [|done].
    by rewrite map_to_list_empty. }
  unfold control3. rewrite getCache_setCache. done.
Qed.

Lemma synced_remove (c : Cache) (node node' : Node) name i ch :
  synced c node → cache c !! name = Some {| index := i; children := ch |} →
  i < length (SharedFunc.locations node)
  ∧ (lockstep node' →
     SharedFunc.locations node' = <[i := ""]> (SharedFunc.locations node) →
     synced {| cache := delete name (cache c); unused := unused c ++ [i];
               node := DreamGaffer.node c |} node').
Proof.
  intros (Hlock & Hnd & Hcached & Hfree & Hcount) Hname.
  set (L := SharedFunc.locations node) in *.
  assert (L !! i = Some name ∧ name ≠ "") as [Hi Hne].
  { apply Hcached. by rewrite Hname. }
  pose proof (lookup_lt_Some _ _ _ Hi) as Hlt.
  split; [done|]. intros Hlock' Hl'.
  unfold synced. cbn [cache unused]. rewrite Hl'. split_and!.
  - done.
  - apply NoDup_app. split_and!; [done | | apply NoDup_singleton].
    intros j Hj Hj'. apply list_elem_of_singleton in Hj' as ->.
    apply Hfree in Hj. congruence.
  - intros v j. destruct (decide (v = name)) as [->|Hv].
    + rewrite lookup_delete_eq. simpl. split; [done|]. intros [Hj _].
      destruct (decide (j = i)) as [->|Hji].
      * rewrite list_lookup_insert_eq in Hj by done. congruence.
      * rewrite list_lookup_insert_ne in Hj by done.
        assert (index <$> cache c !! name = Some j) as Hc
          by by apply Hcached.
        rewrite Hname in Hc. simpl in Hc. congruence.
    + rewrite lookup_delete_ne by done. rewrite Hcached.
      destruct (decide (j = i)) as [->|Hji].
      * rewrite list_lookup_insert_eq by done. rewrite Hi.
        split; intros [? ?]; congruence.
      * by rewrite list_lookup_insert_ne.
  - intros j. rewrite elem_of_app, list_elem_of_singleton.
    destruct (decide (j = i)) as [->|Hji].
    + rewrite list_lookup_insert_eq by done. split; [done | by right].
    + rewrite list_lookup_insert_ne by done. rewrite <-Hfree.
      split; [by intros [?|?] | by left].
  - rewrite length_insert, length_app. simpl.
    assert (is_Some (cache c !! name)) as Hsome by by rewrite Hname.
    pose proof (map_size_delete_Some name (cache c) Hsome) as Hs.
    assert (size (cache c) ≠ 0) as Hnz.
    { intros Hz%map_size_empty_inv. rewrite Hz in Hname.
      by rewrite lookup_empty in Hname. }
    lia.
Qed.

End SyncRemoveFacts.

Section SyncTheorems.
Import DreamGaffer GafferCache SharedFunc.
Context `{params : ParamHost}.

(** X19.  The cache answers for the node.  When the rig cache and the rig
    create node agree, [getIndexForLocation] of the cache returns for
    every location that is not the empty string what the linear search
    [SharedFunc.getIndexForLocation] over the [locations] of the node
    returns: the position of the location, or [None]. *)
Theorem getIndexForLocation_synced control (rigNode : Node) location :
  synced (getCache Rig control) rigNode → location ≠ "" →
  GafferCache.getIndexForLocation Rig location control
  = (control, inr (SharedFunc.getIndexForLocation rigNode location)).
Proof.
  intros Hsync Hne. rewrite getIndexForLocation_run.
  by rewrite (synced_lookup _ _ _ Hsync Hne).
Qed.

(** X20.  Adding a top-level rig keeps the rig cache and the rig create node in
    agreement.  When they agree and the basename is not empty,
    [InternalControl.addLocation] returns and appends one call to the
    calls on the node; the node performs this call without an exception;
    afterwards the cache and the node agree again, and the search of the
    node finds the new location in the slot that was handed out. *)
Theorem addLocation_rig_synced control basename log (rigNode : Node) :
  node (getCache Rig control) = Some log →
  synced (getCache Rig control) rigNode →
  basename ≠ "" →
  ∃ name idx control' rigNode',
    InternalControl_addLocation "" basename None "rig" control
    = (control', inr (name, idx, Rig))
    ∧ node (getCache Rig control')
      = Some (log ++ [NodeAddLocationAtIndex name idx None])
    ∧ perform (NodeAddLocationAtIndex name idx None) rigNode
      = (rigNode', inr tt)
    ∧ synced (getCache Rig control') rigNode'
    ∧ SharedFunc.getIndexForLocation rigNode' name = Some idx.
Proof.
  intros Hlog Hsync Hbase.
  destruct (InternalControl_addLocation_rig control basename)
    as (i & control' & Hrun & Hfresh & Hc & Hu & Hnode).
  cbv zeta in *.
  set (name := Helper.candidate basename i) in *.
  set (idx := default _ _) in *.
  assert (name ≠ "") as Hname by by apply candidate_nonempty.
  assert (idx ≤ length (SharedFunc.locations rigNode)) as Hidx.
  { destruct Hsync as (_ & _ & _ & Hfree & Hcount). unfold idx.
    destruct (list_empty_or_snoc (unused (getCache Rig control)))
      as [Hemp|(u & i0 & Hsnoc)].
    - rewrite Hemp in *. simpl in *. lia.
    - rewrite Hsnoc, last_snoc. simpl.
      assert (SharedFunc.locations rigNode !! i0 = Some "") as Hi0.
      { apply Hfree. rewrite Hsnoc. apply elem_of_app. right. by left. }
      apply lookup_lt_Some in Hi0. lia. }
  destruct (addLocationAtIndex_run name idx rigNode (proj1 Hsync) Hidx)
    as (rigNode' & Eperform & Hl' & Hlock').
  destruct (synced_add (getCache Rig control) rigNode rigNode' name Hsync
              Hname Hfresh Hlock' Hl') as [_ Hsync'].
  assert (synced (getCache Rig control') rigNode') as Hsynced.
  { unfold synced in *. cbn [cache unused] in Hsync'.
    by rewrite Hc, Hu. }
  exists name, idx, control', rigNode'. split_and!.
  - exact Hrun.
  - by rewrite Hnode, Hlog.
  - exact Eperform.
  - exact Hsynced.
  - rewrite (synced_lookup _ _ _ Hsynced Hname), Hc.
    by rewrite lookup_insert_eq.
Qed.

(** X21.  Removing a top-level rig without children keeps the rig cache and
    the rig create node in agreement: [InternalControl.removeLocation]
    returns and appends one call to the calls on the node; the node
    performs it without an exception; afterwards the cache and the node
    agree again, and the search of the node no longer finds the
    location. *)
Theorem removeLocation_rig_synced depth control name i log
    (rigNode : Node) :
  node (getCache Rig control) = Some log →
  synced (getCache Rig control) rigNode →
  look control Rig name = Some {| index := i; children := ChildDict ∅ |} →
  slashfree name = true →
  ∃ control' rigNode',
    removeLocation (S depth) "" name "rig" control = (control', inr tt)
    ∧ node (getCache Rig control')
      = Some (log ++ [NodeRemoveLocationAtIndex i])
    ∧ perform (NodeRemoveLocationAtIndex i) rigNode = (rigNode', inr tt)
    ∧ synced (getCache Rig control') rigNode'
    ∧ SharedFunc.getIndexForLocation rigNode' name = None.
Proof.
  intros Hlog Hsync Hlook Hsf.
  assert (look control Rig "" = None) as Hroot.
  { destruct Hsync as (_ & _ & Hcached & _). unfold look.
    destruct (cache (getCache Rig control) !! "") as [info|] eqn:E; [|done].
    assert (index <$> cache (getCache Rig control) !! "" = Some (index info))
      as Hi by by rewrite E.
    apply Hcached in Hi as [_ ?]. done. }
  destruct (removeLocation_rig_leaf depth name i log control Hlook Hsf Hroot
              Hlog) as (control' & Hrun & Hc & Hu & Hnode).
  destruct (synced_remove (getCache Rig control) rigNode rigNode name i _
              Hsync Hlook) as [Hi _].
  destruct (removeLocationAtIndex_run i rigNode (proj1 Hsync) Hi)
    as (rigNode' & Eperform & Hl' & Hlock').
  destruct (synced_remove (getCache Rig control) rigNode rigNode' name i _
              Hsync Hlook) as [_ Hsync'].
  specialize (Hsync' Hlock' Hl').
  assert (synced (getCache Rig control') rigNode') as Hsynced.
  { unfold synced in *. cbn [cache unused] in Hsync'.
    by rewrite Hc, Hu. }
  assert (name ≠ "") as Hname.
  { intros ->. by rewrite Hroot in Hlook. }
  exists control', rigNode'. split_and!.
  - exact Hrun.
  - exact Hnode.
  - exact Eperform.
  - exact Hsynced.
  - rewrite (synced_lookup _ _ _ Hsynced Hname), Hc.
    by rewrite lookup_delete_eq.
Qed.

End SyncTheorems.

Section DemoRigFacts.
Import DreamGaffer GafferCache SharedFunc.
Import DemoRig.

Lemma rigNode_lockstep : lockstep rigNode.
Proof. split; [done|]. by intros []. Qed.

Lemma rigNode_synced : synced (getCache Rig control) rigNode.
Proof.
  split_and!.
  - exact rigNode_lockstep.
  - constructor.
  - intros v j. cbn [getCache control rigCache cache]. split.
    + destruct (decide (v = "top")) as [->|Hv].
      * rewrite lookup_singleton_eq. by intros [= <-].
      * by rewrite lookup_singleton_ne.
    + intros [Hj Hv]. destruct j as [|j]; simpl in Hj; [|done].
      injection Hj as <-. by rewrite lookup_singleton_eq.
  - intros j. split; [by intros ?%elem_of_nil|].
    destruct j as [|j]; by intros [=].
  - reflexivity.
Qed.

(** The rig [top] is duplicated into the next slot; the slot after the
    next one is out of range. *)
Lemma rigNode_perform_witness :
  lockstep rigNode
  ∧ inRange (NodeDuplicateLocation 0 1 "copy") (SharedFunc.locations rigNode)
  ∧ ¬ inRange (NodeAddLocationAtIndex "far" 2 None)
        (SharedFunc.locations rigNode)
  ∧ (∃ node',
       perform (NodeDuplicateLocation 0 1 "copy") rigNode = (node', inr tt)
       ∧ SharedFunc.locations node' = ["top"; "copy"]
       ∧ lockstep node')
  ∧ ∃ e, (perform (NodeAddLocationAtIndex "far" 2 None) rigNode).2 = inl e.
Proof.
  assert (inRange (NodeDuplicateLocation 0 1 "copy")
            (SharedFunc.locations rigNode)) as Hin.
  { split; simpl; lia. }
  assert (¬ inRange (NodeAddLocationAtIndex "far" 2 None)
              (SharedFunc.locations rigNode)) as Hout.
  { intros [_ H]. simpl in H. lia. }
  split; [exact rigNode_lockstep|]. split; [exact Hin|].
  split; [exact Hout|]. split.
  - exact (proj1 (rigNode_perform (NodeDuplicateLocation 0 1 "copy") rigNode
                    rigNode_lockstep) Hin).
  - exact (proj2 (rigNode_perform (NodeAddLocationAtIndex "far" 2 None)
                    rigNode rigNode_lockstep) Hout).
Defined.

Lemma getIndexForLocation_synced_witness :
  synced (getCache Rig control) rigNode ∧ "top" ≠ ""
  ∧ GafferCache.getIndexForLocation Rig "top" control
    = (control, inr (SharedFunc.getIndexForLocation rigNode "top"))
  ∧ SharedFunc.getIndexForLocation rigNode "top" = Some 0.
Proof.
  split; [exact rigNode_synced|]. split; [discriminate|].
  split; [|reflexivity].
  apply (getIndexForLocation_synced control rigNode "top" rigNode_synced).
  discriminate.
Defined.

(** A second rig [top] is added: it is named [top1] and gets slot 1. *)
Lemma addLocation_rig_synced_witness :
  node (getCache Rig control) = Some []
  ∧ synced (getCache Rig control) rigNode
  ∧ "top" ≠ ""
  ∧ ∃ name idx control' rigNode',
      InternalControl_addLocation "" "top" None "rig" control
      = (control', inr (name, idx, Rig))
      ∧ perform (NodeAddLocationAtIndex name idx None) rigNode
        = (rigNode', inr tt)
      ∧ synced (getCache Rig control') rigNode'
      ∧ SharedFunc.getIndexForLocation rigNode' name = Some idx.
Proof.
  split; [reflexivity|]. split; [exact rigNode_synced|].
  split; [discriminate|].
  destruct (addLocation_rig_synced control "top" [] rigNode eq_refl
              rigNode_synced ltac:(discriminate))
    as (name & idx & control' & rigNode' & E & _ & Ep & Hs & Hi).
  exists name, idx, control', rigNode'.
  split_and!; [exact E | exact Ep | exact Hs | exact Hi].
Defined.

(** The rig [top] is removed. *)
Lemma removeLocation_rig_synced_witness :
  node (getCache Rig control) = Some []
  ∧ synced (getCache Rig control) rigNode
  ∧ look control Rig "top" = Some {| index := 0; children := ChildDict ∅ |}
  ∧ slashfree "top" = true
  ∧ ∃ control' rigNode',
      removeLocation 1 "" "top" "rig" control = (control', inr tt)
      ∧ perform (NodeRemoveLocationAtIndex 0) rigNode = (rigNode', inr tt)
      ∧ synced (getCache Rig control') rigNode'
      ∧ SharedFunc.getIndexForLocation rigNode' "top" = None.
Proof.
  split; [reflexivity|]. split; [exact rigNode_synced|].
  split; [reflexivity|]. split; [reflexivity|].
  destruct (removeLocation_rig_synced 0 control "top" 0 [] rigNode eq_refl
              rigNode_synced eq_refl eq_refl)
    as (control' & rigNode' & E & _ & Ep & Hs & Hi).
  exists control', rigNode'.
  split_and!; [exact E | exact Ep | exact Hs | exact Hi].
Defined.

End DemoRigFacts.

(** ** Parameter names *)

Section StripFacts.
Import HelperNames.

Lemma split_nonempty (sep : ascii) (s : string) : PyString.split sep s ≠ [].
Proof.
  destruct s as [|c s]; simpl; [done|].
  destruct (Ascii.eqb c sep); [done|].
  by destruct (PyString.split sep s).
Qed.

Lemma join_split (sep : ascii) (s : string) :
  PyString.join (String sep "") (PyString.split sep s) = s.
Proof.
  induction s as [|c s IH]; simpl; [done|].
  destruct (Ascii.eqb c sep) eqn:Hc.
  - apply Ascii.eqb_eq in Hc as ->.
    pose proof (split_nonempty sep s) as Hne.
    destruct (PyString.split sep s) as [|w ws]; [done|].
    simpl in *. by rewrite IH.
  - pose proof (split_nonempty sep s) as Hne.
    destruct (PyString.split sep s) as [|w ws]; [done|].
    destruct ws as [|w' ws]; simpl in *; by rewrite <-IH.
Qed.

Lemma split_prefix (sep : ascii) (a b : string) :
  PyString.split sep a = [a] →
  PyString.split sep (a +:+ String sep b) = a :: PyString.split sep b.
Proof.
  induction a as [|c a IH]; intros Ha; simpl in *.
  - by rewrite Ascii.eqb_refl.
  - destruct (Ascii.eqb c sep) eqn:Hc; [simplify_eq|].
    destruct (PyString.split sep a) as [|w ws] eqn:Hs; simplify_eq.
    by rewrite IH.
Qed.

(** X13.  [stripNodeName] drops the text up to the first dot and the dot: of
    [node.rest], where [node] has no dot, it keeps [rest], whatever dots
    [rest] holds; a name without a dot is stripped to the empty string. *)
Theorem stripNodeName_spec (node : string) :
  PyString.split "." node = [node] →
  stripNodeName node = ""
  ∧ ∀ rest, stripNodeName (node +:+ "." +:+ rest) = rest.
Proof.
  intros Hnode. unfold stripNodeName. split.
  - by rewrite Hnode.
  - intros rest. change ("." +:+ rest) with (String "." rest).
    rewrite split_prefix by done. simpl. rewrite drop_0.
    apply (join_split "."%char).
Qed.

Lemma stripNodeName_spec_witness :
  stripNodeName "MultiLightCreate" = ""
  ∧ stripNodeName "MultiLightCreate.locations.i0" = "locations.i0".
Proof.
  destruct (stripNodeName_spec "MultiLightCreate" eq_refl) as [H1 H2].
  split; [exact H1 | exact (H2 "locations.i0")].
Defined.

End StripFacts.

(** ** The implicit resolver list: when the script fails *)

Section ResolverFailureFacts.
Import FnAttribute GenerateImplicitResolversList.

Lemma stageLoop_bound (chain : list OpArgs) (p : Z) (g : Globals) :
  op_gb g ≠ None → op_gb (stageLoop chain p g) ≠ None.
Proof.
  revert p g. induction chain as [|[ty args] chain IH]; intros p g Hg;
    simpl; [done|].
  destruct (decide (ty = "no-op")); [by apply IH|].
  destruct (getChildByName args "system"); apply IH; simpl; done.
Qed.

Lemma stageLoop_binds (chain : list OpArgs) (p : Z) (g : Globals) :
  Exists (λ op, op.1 ≠ "no-op") chain → op_gb (stageLoop chain p g) ≠ None.
Proof.
  revert p g. induction chain as [|[ty args] chain IH]; intros p g Hex;
    simpl.
  - by apply Exists_nil in Hex.
  - destruct (decide (ty = "no-op")) as [->|Hty].
    + apply Exists_cons in Hex as [?|Hex]; [done|]. by apply IH.
    + destruct (getChildByName args "system"); apply stageLoop_bound; done.
Qed.

Lemma stageLoop_markers (chain : list OpArgs) (p : Z) (g : Globals) :
  Forall (λ op, op.1 = "no-op") chain →
  ∃ p', stageLoop chain p g = g ∧ p' = p.
Proof.
  revert p. induction chain as [|[ty args] chain IH]; intros p Hall;
    simpl; [by eexists|].
  apply Forall_cons in Hall as [Hty Hall]. simpl in Hty. subst ty.
  rewrite decide_True by done.
  destruct (IH (p + 200)%Z Hall) as (? & -> & _). by eexists.
Qed.

Lemma addRegistered_bound (priority : Z) (opType : string) (g : Globals) :
  op_gb g ≠ None →
  ∃ g', addRegistered (registerBody priority opType) g = inr g'
        ∧ op_gb g' ≠ None.
Proof.
  intros Hg. unfold addRegistered, registerBody.
  destruct (op_gb g) as [b|]; [|done]. simpl.
  eexists. split; [done|]. done.
Qed.

Lemma registered_bound (g : Globals) :
  op_gb g ≠ None →
  ∃ r,
    (g ←! addRegistered registerDeferredPrune g;
     g ←! addRegistered registerCurveReduction g;
     g ←! addRegistered registerPrimitivePruneFrustum g;
     g ←! addRegistered registerPrimitivePruneVolume g;
     g ←! addRegistered registerCurveDensity g;
     g ←! addRegistered registerCurveWidth g;
     g ←! addRegistered registerUsdOpSchema g;
     inr (build (gb g)).1) = inr r.
Proof.
  intros Hg.
  destruct (addRegistered_bound 100 "DeferredPruneResolve" g Hg)
    as (g1 & E1 & H1).
  destruct (addRegistered_bound 400 "CurveReductionOp" g1 H1)
    as (g2 & E2 & H2).
  destruct (addRegistered_bound 401 "PrimitivePruneByFrustumOp" g2 H2)
    as (g3 & E3 & H3).
  destruct (addRegistered_bound 402 "PrimitivePruneByVolumeOp" g3 H3)
    as (g4 & E4 & H4).
  destruct (addRegistered_bound 403 "CurveDensityOp" g4 H4)
    as (g5 & E5 & H5).
  destruct (addRegistered_bound 404 "CurveWidthOp" g5 H5)
    as (g6 & E6 & H6).
  destruct (addRegistered_bound 405 "OpSchemaResolve" g6 H6)
    as (g7 & E7 & H7).
  unfold registerDeferredPrune, registerCurveReduction,
    registerPrimitivePruneFrustum, registerPrimitivePruneVolume,
    registerCurveDensity, registerCurveWidth, registerUsdOpSchema.
  rewrite E1. cbn [Py.bind]. rewrite E2. cbn [Py.bind].
  rewrite E3. cbn [Py.bind]. rewrite E4. cbn [Py.bind].
  rewrite E5. cbn [Py.bind]. rewrite E6. cbn [Py.bind].
  rewrite E7. cbn [Py.bind]. by eexists.
Qed.

(** X14.  Between the walk over the first inputs and the building of the
    collection (lines 43 to 256; the calls of the host before and the
    writing of the xml file after are left out) the script fails in
    exactly two ways.  [IndexError] is raised, by [del opChain[-1]] or by
    [opChain[0]], when the walk has collected no op besides the dummy
    op.  The first [register...] call
    raises [NameError] on the unbound [op_gb] when every op of the chain
    is a [no-op] stage marker.  When the collection is built, the chain
    holds an op that is not a marker. *)
Theorem main_failure (walk : list OpArgs) :
  let opChain := reverse (removelast walk) in
  match main walk with
  | inl e =>
      (opChain = [] ∧ e = Py.IndexError)
      ∨ (opChain ≠ [] ∧ Forall (λ op, op.1 = "no-op") opChain
         ∧ e = Py.NameError)
  | inr _ => Exists (λ op, op.1 ≠ "no-op") opChain
  end.
Proof.
  intros opChain. unfold main. destruct walk as [|op0 walk0]; [by left|].
  fold opChain. clearbody opChain.
  destruct opChain as [|[ty args] chain]; [by left|].
  unfold leadingAttributeSet.
  destruct (decide (ty = "AttributeSet")) as [->|Hty].
  - cbn [Py.bind build set].
    match goal with
    | |- context [stageLoop chain 100 ?g] =>
        destruct (registered_bound (stageLoop chain 100 g)) as [r Hr];
          [by apply stageLoop_bound|]
    end.
    rewrite Hr. apply Exists_cons_hd. done.
  - cbn [Py.bind].
    destruct (decide (Exists (λ op : OpArgs, op.1 ≠ "no-op")
                        ((ty, args) :: chain))) as [Hex|Hnex].
    + match goal with
      | |- context [stageLoop ?c 100 ?g] =>
          destruct (registered_bound (stageLoop c 100 g)) as [r Hr];
            [by apply stageLoop_binds|]
      end.
      by rewrite Hr.
    + apply not_Exists_Forall in Hnex; [|intros x; apply _].
      assert (Forall (λ op : OpArgs, op.1 = "no-op") ((ty, args) :: chain))
        as Hall.
      { eapply Forall_impl; [exact Hnex|]. intros x Hx. simpl in Hx.
        by destruct (decide (x.1 = "no-op")). }
      match goal with
      | |- context [stageLoop ?c 100 ?g] =>
          destruct (stageLoop_markers c 100 g Hall) as (? & -> & _)
      end.
      right. done.
Qed.

End ResolverFailureFacts.

(** ** The render log and the live-attribute wrapper *)

Section RenderbootFacts.
Import RenderManagerSetup.

Lemma split_space_dash_cons2 (c d : ascii) (s : string) :
  split_space_dash (String c (String d s))
  = if Ascii.eqb c " " && Ascii.eqb d "-" then "" :: split_space_dash s
    else match split_space_dash (String d s) with
         | [] => [String c ""]
         | w :: ws => String c w :: ws
         end.
Proof. done. Qed.

Lemma has_space_dash_cons2 (c d : ascii) (s : string) :
  has_space_dash (String c (String d s))
  = (Ascii.eqb c " " && Ascii.eqb d "-") || has_space_dash (String d s).
Proof. done. Qed.

Lemma split_whitespace_cons2 (c d : ascii) (s : string) :
  isspace c = false →
  split_whitespace (String c (String d s))
  = if isspace d then String c "" :: split_whitespace (String d s)
    else match split_whitespace (String d s) with
         | [] => [String c ""]
         | w :: ws => String c w :: ws
         end.
Proof. intros H. cbn [split_whitespace]. by rewrite H. Qed.

Lemma nospace_cons (c : ascii) (s : string) :
  nospace (String c s) = true ↔ isspace c = false ∧ nospace s = true.
Proof. cbn [nospace]. rewrite andb_true_iff, negb_true_iff. done. Qed.

Lemma isspace_space (c : ascii) : isspace c = false → Ascii.eqb c " " = false.
Proof. unfold isspace. by destruct (Ascii.eqb c " "). Qed.

Lemma split_space_dash_none (a : string) :
  has_space_dash a = false → split_space_dash a = [a].
Proof.
  induction a as [|c a IH]; [done|].
  destruct a as [|d a]; [done|].
  rewrite has_space_dash_cons2, split_space_dash_cons2.
  intros [H1 H2]%orb_false_iff. by rewrite H1, (IH H2).
Qed.

Lemma split_space_dash_app (a b : string) :
  has_space_dash a = false →
  split_space_dash (a +:+ " -" +:+ b) = a :: split_space_dash b.
Proof.
  induction a as [|c a IH]; [done|].
  intros H. destruct a as [|d a].
  - change (String c "" +:+ " -" +:+ b) with (String c (String " " (String "-" b))).
    rewrite split_space_dash_cons2. rewrite andb_false_r.
    rewrite split_space_dash_cons2. done.
  - rewrite has_space_dash_cons2 in H. apply orb_false_iff in H as [H1 H2].
    change (String c (String d a) +:+ " -" +:+ b)
      with (String c (String d (a +:+ " -" +:+ b))).
    rewrite split_space_dash_cons2, H1.
    change (String d (a +:+ " -" +:+ b)) with (String d a +:+ " -" +:+ b).
    by rewrite (IH H2).
Qed.

Lemma has_space_dash_word_app (a b : string) :
  nospace a = true → has_space_dash (a +:+ b) = has_space_dash b.
Proof.
  induction a as [|c a IH]; [done|].
  intros [Hc Ha]%nospace_cons. specialize (IH Ha).
  change (String c a +:+ b) with (String c (a +:+ b)).
  revert IH. destruct (a +:+ b) as [|d s]; intros IH.
  - by rewrite <-IH.
  - by rewrite has_space_dash_cons2, IH, (isspace_space c Hc).
Qed.

Lemma has_space_dash_option (kv : string * string) :
  optionOK kv → has_space_dash (kv.1 +:+ " " +:+ kv.2) = false.
Proof.
  destruct kv as [k v]. intros ([_ Hk] & [Hne Hv] & Hd). simpl in *.
  rewrite has_space_dash_word_app by done.
  destruct v as [|d v]; [done|].
  change (" " +:+ String d v) with (String " " (String d v)).
  rewrite has_space_dash_cons2.
  rewrite <-(string_app_nil_r (String d v)), has_space_dash_word_app by done.
  destruct (Ascii.eqb d "-") eqn:E; [|done].
  apply Ascii.eqb_eq in E as ->. by destruct v.
Qed.

Lemma split_whitespace_word (v : string) :
  word v → split_whitespace v = [v].
Proof.
  intros [Hne Hv]. induction v as [|c v IH]; [done|].
  apply nospace_cons in Hv as [Hc Hv].
  destruct v as [|d v]; [cbn [split_whitespace]; by rewrite Hc|].
  rewrite split_whitespace_cons2 by done.
  pose proof Hv as [Hd _]%nospace_cons. rewrite Hd.
  by rewrite IH.
Qed.

Lemma split_whitespace_app (k : string) (c : ascii) (rest : string) :
  word k → isspace c = true →
  split_whitespace (k +:+ String c rest)
  = k :: split_whitespace (String c rest).
Proof.
  intros [Hne Hk] Hsp. induction k as [|x k IH]; [done|].
  apply nospace_cons in Hk as [Hx Hk].
  destruct k as [|d k].
  - change (String x "" +:+ String c rest) with (String x (String c rest)).
    rewrite split_whitespace_cons2 by done. by rewrite Hsp.
  - change (String x (String d k) +:+ String c rest)
      with (String x (String d (k +:+ String c rest))).
    rewrite split_whitespace_cons2 by done.
    pose proof Hk as [Hd _]%nospace_cons. rewrite Hd.
    change (String d (k +:+ String c rest))
      with (String d k +:+ String c rest).
    by rewrite IH.
Qed.

Lemma split_whitespace_option (kv : string * string) :
  optionOK kv → split_whitespace (kv.1 +:+ " " +:+ kv.2) = [kv.1; kv.2].
Proof.
  destruct kv as [k v]. intros (Hk & Hv & _). simpl in *.
  change (" " +:+ v) with (String " " v).
  rewrite split_whitespace_app by done.
  cbn [split_whitespace]. change (isspace " ") with true. cbn iota.
  by rewrite split_whitespace_word.
Qed.

Lemma split_space_dash_options (options : list (string * string)) :
  Forall optionOK options →
  ∀ a, has_space_dash a = false →
    split_space_dash
      (a +:+ foldr (λ kv s, " -" +:+ kv.1 +:+ " " +:+ kv.2 +:+ s) "" options)
    = a :: ((λ kv, kv.1 +:+ " " +:+ kv.2) <$> options).
Proof.
  induction 1 as [|kv options Hkv Hall IH]; intros a Ha.
  - simpl. rewrite string_app_nil_r. by apply split_space_dash_none.
  - cbn [foldr fmap list_fmap].
    change (" -" +:+ kv.1 +:+ " " +:+ kv.2 +:+ ?s)
      with (" -" +:+ (kv.1 +:+ " " +:+ kv.2 +:+ s)).
    rewrite split_space_dash_app by done. f_equal.
    rewrite <-(IH _ (has_space_dash_option kv Hkv)).
    f_equal. by rewrite !string_app_assoc.
Qed.

Lemma collectArguments_options (options : list (string * string)) ret :
  Forall optionOK options →
  collectArguments ((λ kv, kv.1 +:+ " " +:+ kv.2) <$> options) ret
  = foldl (λ m kv, <[kv.1 := kv.2]> m) ret options.
Proof.
  intros Hall. revert ret.
  induction Hall as [|kv options Hkv Hall IH]; intros ret; [done|].
  cbn [fmap list_fmap collectArguments foldl].
  rewrite split_whitespace_option by done. apply IH.
Qed.

Lemma foldl_insert_list_to_map (options : list (string * string)) :
  foldl (λ m kv, <[kv.1 := kv.2]> m) (∅ : gmap string string) options
  = list_to_map (reverse options).
Proof.
  induction options as [|kv options IH] using rev_ind; [done|].
  rewrite foldl_app, reverse_app. simpl. rewrite IH. by destruct kv.
Qed.

Lemma has_space_app (a b : string) :
  has_space (a +:+ b) = has_space a || has_space b.
Proof. induction a as [|c a IH]; [done|]. simpl. by rewrite IH, orb_assoc. Qed.

End RenderbootFacts.

Section RenderbootTheorems.
Import RenderManagerSetup.

(** X15.  [parseRenderbootMsg] reads the options of a render command back.
    When the command part holds a space and no [ -], and every option
    name and value is a word (not empty, no whitespace) with the value
    not starting with a dash, the dict returned for the line
    [cmd -k1 v1 -k2 v2 ...] maps every option name to its value, to the
    last one when a name is repeated.  A line whose part before the
    first [ -] holds no space raises [ValueError]. *)
Theorem parseRenderbootMsg_spec (cmd : string)
    (options : list (string * string)) :
  has_space_dash cmd = false →
  Forall (λ kv, word kv.1 ∧ word kv.2 ∧ PyString.startswith kv.2 "-" = false)
    options →
  parseRenderbootMsg (renderbootMsg cmd options)
  = if has_space cmd then inr (list_to_map (reverse options))
    else inl (Py.Exception "ValueError").
Proof.
  intros Hcmd Hall. unfold parseRenderbootMsg, renderbootMsg.
  rewrite split_space_dash_options by done.
  destruct (has_space cmd); [|done].
  by rewrite collectArguments_options, foldl_insert_list_to_map.
Qed.

Lemma parseRenderbootMsg_spec_witness :
  let options := [("-dc", "local"); ("threads", "8"); ("dc", "cloud");
                  ("threads", "16")] in
  has_space_dash "exec arras_render" = false
  ∧ renderbootMsg "exec arras_render" options
    = "exec arras_render --dc local -threads 8 -dc cloud -threads 16"
  ∧ parseRenderbootMsg (renderbootMsg "exec arras_render" options)
    = inr (list_to_map (reverse options)).
Proof.
  intros options. split; [reflexivity|]. split; [reflexivity|].
  apply (parseRenderbootMsg_spec "exec arras_render" options eq_refl).
  repeat constructor; discriminate.
Defined.

End RenderbootTheorems.

Section ValidUpdateTheorems.
Import FnAttribute MoonrayRenderManager RenderManagerSetup.
Context `{host : Host}.
Variable attr_bool : Attribute → bool.

(** X16.  [isValidUpdate] never raises: [del attrHashes[attributeKey]] is only
    reached when the key is present.  It touches no entry of
    [attrHashes] other than the one of the location and attribute path.
    When it answers [True], the hash it recorded differs from the one
    that was there; and the same call made again answers [False] and
    leaves [attrHashes] as it is. *)
Theorem isValidUpdate_spec (w : UpdateWorld) (locationPath attrPath : string)
    (attrValue : option Attribute) (attrHashes : gmap string string) :
  ∃ (valid : bool) (attrHashes' : gmap string string),
    isValidUpdate attr_bool w locationPath attrPath attrValue attrHashes
    = (attrHashes', inr valid)
    ∧ isValidUpdate attr_bool w locationPath attrPath attrValue attrHashes'
      = (attrHashes', inr false)
    ∧ (∀ key, key ≠ locationPath +:+ "|" +:+ attrPath →
         attrHashes' !! key = attrHashes !! key)
    ∧ (if valid then
         attrHashes' !! (locationPath +:+ "|" +:+ attrPath)
         ≠ attrHashes !! (locationPath +:+ "|" +:+ attrPath)
       else attrHashes' = attrHashes).
Proof.
  unfold isValidUpdate.
  destruct (IsRerendering w); cbn [negb];
    [|by exists false, attrHashes].
  destruct (decide (GetUpdateMode w < Continuous w)%Z);
    [by exists false, attrHashes|].
  destruct (PyString.startswith locationPath "/root"); cbn [negb];
    [|by exists false, attrHashes].
  set (key := locationPath +:+ "|" +:+ attrPath).
  set (attrHash := match attrValue with
                   | Some a => if attr_bool a then Some (attr_getHash a)
                               else None
                   | None => None
                   end).
  unfold PyM.bind at 1, PyM.get at 1. cbn beta iota.
  destruct (decide (attrHash = attrHashes !! key)) as [Heq|Hne].
  { exists false, attrHashes. split_and!; try done.
    unfold PyM.bind, PyM.get. cbn. by rewrite decide_True. }
  destruct attrHash as [h|] eqn:Hh.
  - exists true, (<[key := h]> attrHashes).
    unfold PyM.bind, PyM.get, PyM.modify, PyM.ret. cbn.
    rewrite lookup_insert_eq. rewrite decide_True by done.
    split_and!; try done; try congruence.
    intros k Hk. by rewrite lookup_insert_ne.
  - destruct (attrHashes !! key) as [h|] eqn:Hk; [|done].
    exists true, (base.delete key attrHashes).
    unfold PyM.bind, PyM.get, PyM.modify, PyM.ret. cbn.
    rewrite lookup_delete_eq. rewrite decide_True by done.
    split_and!; try done.
    intros k Hk'. by rewrite lookup_delete_ne.
Qed.

End ValidUpdateTheorems.

(** ** The render manager *)

Import FnAttribute MoonrayRenderManager.

Section ViewFacts.
Import FnAttribute MoonrayRenderManager.
Context `{host : Host}.

Global Instance RuntimeBlind_LogView {X} (π : Runtime * Context → X) :
  RuntimeBlind π → LogView π.
Proof. intros H rt rt' self _. apply H. Qed.

Global Instance syncView_LogView : LogView syncView.
Proof. intros rt rt' self H. unfold syncView. simpl. by rewrite H. Qed.
Global Instance syncView_OpTreeBlind : OpTreeBlind syncView.
Proof. by split. Qed.
Global Instance gsView_RuntimeBlind : RuntimeBlind gsView.
Proof. by intros rt rt' self. Qed.
Global Instance gsView_OpTreeBlind : OpTreeBlind gsView.
Proof. by split. Qed.
Global Instance timeView_RuntimeBlind : RuntimeBlind timeView.
Proof. by intros rt rt' self. Qed.
Global Instance timeView_OpTreeBlind : OpTreeBlind timeView.
Proof. by split. Qed.

Lemma preserves_setSelf {X} (π : Runtime * Context → X) f :
  (∀ rt self, π (rt, f self) = π (rt, self)) → preserves π (setSelf f).
Proof. intros H [rt self]. apply H. Qed.

Lemma preserves_txn {X} (π : Runtime * Context → X) `{!LogView π} f :
  (∀ rt, argsWrites (f rt) = argsWrites rt) → preserves π (txn f).
Proof. intros H [rt self]. simpl. by apply log_view. Qed.

Lemma preserves_txn_blind {X} (π : Runtime * Context → X)
    `{!RuntimeBlind π} f :
  preserves π (txn f).
Proof. intros [rt self]. simpl. by apply runtime_blind. Qed.

Lemma preserves_hostCall {A X} (π : Runtime * Context → X) `{!LogView π}
    (f : Store → Store * A) :
  preserves π (hostCall f).
Proof.
  intros [rt self]. unfold hostCall. simpl.
  by apply log_view.
Qed.

Lemma argsWrites_snoc rt st a :
  isSetOpArgs a = false →
  argsWrites {| store := st; committed := committed rt ++ [a] |}
  = argsWrites rt.
Proof.
  intros Ha. unfold argsWrites. simpl.
  rewrite List.filter_app. simpl. rewrite Ha. apply app_nil_r.
Qed.

Lemma preserves_txn_createOp {X} (π : Runtime * Context → X) `{!LogView π} :
  preserves π txn_createOp.
Proof.
  intros [rt self]. unfold txn_createOp. simpl.
  apply log_view. by apply argsWrites_snoc.
Qed.

Lemma argsWrites_setOpInputs op inputs rt :
  argsWrites (setOpInputs op inputs rt) = argsWrites rt.
Proof. by apply argsWrites_snoc. Qed.

Lemma argsWrites_setClientOp op rt :
  argsWrites (setClientOp op rt) = argsWrites rt.
Proof. by apply argsWrites_snoc. Qed.

Lemma preserves_onSelf {A X} (π : Runtime * Context → X)
    (m : PyM.M Context A) :
  (∀ rt, preserves (λ self, π (rt, self)) m) → preserves π (onSelf m).
Proof.
  intros H [rt self]. unfold onSelf. simpl. specialize (H rt self).
  by destruct (m self).
Qed.

End ViewFacts.

Ltac preserves_st_step :=
  lazymatch goal with
  | |- preserves _ getSelf => apply preserves_gets
  | |- preserves _ getRt => apply preserves_gets
  | |- preserves _ getStore => apply preserves_gets
  | |- preserves _ (setSelf _) =>
      apply preserves_setSelf; intros; first [reflexivity | apply opDict_blind | apply opTreeBuilder_blind]
  | |- preserves _ (txn (setOpInputs _ _)) =>
      apply preserves_txn; [tc_solve | apply argsWrites_setOpInputs]
  | |- preserves _ (txn (setClientOp _)) =>
      apply preserves_txn; [tc_solve | apply argsWrites_setClientOp]
  | |- preserves _ (txn _) => apply preserves_txn_blind; tc_solve
  | |- preserves _ (hostCall _) => apply preserves_hostCall; tc_solve
  | |- preserves _ txn_createOp => apply preserves_txn_createOp; tc_solve
  | _ => first [preserves_step | solve [auto 1 with preserves]]
  end.

Ltac preserves_st := unfold mbind, PyM_bind; repeat preserves_st_step.

Create HintDb preserves.

Section OpDictFacts.
Import FnAttribute MoonrayRenderManager.
Context `{host : Host}.

Lemma preserves_opDict_get {X} (π : Runtime * Context → X)
    `{!OpTreeBlind π} opId :
  preserves π (opDict_get opId).
Proof.
  unfold opDict_get. preserves_st.
  apply preserves_setSelf. intros. by rewrite opDict_blind, opTreeBuilder_blind.
Qed.

Lemma preserves_getNodeOpWithIRFs {X} (π : Runtime * Context → X)
    `{!LogView π} w :
  preserves π (getNodeOpWithIRFs w).
Proof. unfold getNodeOpWithIRFs. preserves_st. Qed.

End OpDictFacts.

#[global] Hint Extern 1 (preserves _ (opDict_get _)) =>
  apply preserves_opDict_get; tc_solve : preserves.
#[global] Hint Extern 1 (preserves _ (getNodeOpWithIRFs _)) =>
  apply preserves_getNodeOpWithIRFs; tc_solve : preserves.

Section SyncOpTreeFacts.
Import FnAttribute MoonrayRenderManager.
Context `{host : Host}.

Lemma preserves_syncOpTree_inputs {X} (π : Runtime * Context → X)
    `{!OpTreeBlind π} opInputs kOpInputs ops visitedIds :
  preserves π (syncOpTree_inputs opInputs kOpInputs ops visitedIds).
Proof.
  revert kOpInputs ops visitedIds.
  induction opInputs as [|input opInputs IH]; intros; simpl.
  - apply preserves_ret.
  - preserves_st; apply IH.
Qed.

Lemma preserves_opDict_update {X} (π : Runtime * Context → X)
    `{!OpTreeBlind π} opId f :
  preserves π (opDict_update opId f).
Proof. unfold opDict_update. preserves_st. Qed.

Lemma preserves_syncOpTree_loop {X} (π : Runtime * Context → X)
    `{!OpTreeBlind π} fuel ops visitedIds :
  preserves π (syncOpTree_loop fuel ops visitedIds).
Proof.
  revert ops visitedIds. induction fuel as [|fuel IH]; intros; simpl.
  - apply preserves_raise.
  - preserves_st;
      first [apply preserves_opDict_update; tc_solve
            | apply preserves_syncOpTree_inputs; tc_solve
            | apply IH].
Qed.

Lemma preserves_syncOpTree {X} (π : Runtime * Context → X)
    `{!OpTreeBlind π} rootOp :
  preserves π (syncOpTree rootOp).
Proof.
  unfold syncOpTree. preserves_st. apply preserves_syncOpTree_loop; tc_solve.
Qed.

Lemma preserves_updateOpChainSystemArgs {X} (π : Runtime * Context → X)
    `{!RuntimeBlind π} systemArgs :
  preserves π (updateOpChainSystemArgs systemArgs).
Proof. unfold updateOpChainSystemArgs. preserves_st. Qed.

End SyncOpTreeFacts.

#[global] Hint Extern 1 (preserves _ (syncOpTree _)) =>
  apply preserves_syncOpTree; tc_solve : preserves.
#[global] Hint Extern 1 (preserves _ (updateOpChainSystemArgs _)) =>
  apply preserves_updateOpChainSystemArgs; tc_solve : preserves.

Section TimeFacts.
Import FnAttribute MoonrayRenderManager.
Context `{host : Host}.

Lemma preserves_time_applyImplicitResolvers w op cameraName :
  preserves timeView (applyImplicitResolvers w op cameraName).
Proof. unfold applyImplicitResolvers. preserves_st. Qed.

Lemma preserves_time_applyRenderOps w op :
  preserves timeView (applyRenderOps w op).
Proof. unfold applyRenderOps. preserves_st. Qed.

Lemma preserves_time_applyTerminalOps op :
  preserves timeView (applyTerminalOps op).
Proof. unfold applyTerminalOps. preserves_st. Qed.

Lemma preserves_time_buildOpChain w rs :
  preserves timeView (buildOpChain w rs).
Proof.
  unfold buildOpChain. preserves_st;
    first [apply preserves_time_applyImplicitResolvers
          | apply preserves_time_applyRenderOps
          | apply preserves_time_applyTerminalOps].
Qed.

Lemma preserves_time_syncWithNodegraph w :
  preserves timeView (syncWithNodegraph w).
Proof.
  unfold syncWithNodegraph. preserves_st; apply preserves_time_buildOpChain.
Qed.

End TimeFacts.


Section SyncFacts.
Import FnAttribute MoonrayRenderManager.
Context `{host : Host}.

Lemma hoare_bind_frame {S A B X} (π : S → X) (x : X) (m : PyM.M S A)
    (k : A → PyM.M S B) (Q : B → S → Prop) (E : S → Prop) :
  preserves π m →
  (∀ s, π s = x → E s) →
  (∀ a, hoare (λ s, π s = x) (k a) Q E) →
  hoare (λ s, π s = x) (PyM.bind m k) Q E.
Proof.
  intros Hm HE Hk. eapply hoare_bind; [|exact Hk].
  eapply hoare_conseq; [by apply (preserves_hoare π m x) | done | done | done].
Qed.

Lemma hoare_bind_gets {S A B} (P : S → Prop) (f : S → A)
    (k : A → PyM.M S B) (Q : B → S → Prop) (E : S → Prop) :
  (∀ s0, P s0 → hoare (λ s, s = s0) (k (f s0)) Q E) →
  hoare P (PyM.bind (PyM.gets f) k) Q E.
Proof. intros H s HP. unfold PyM.bind, PyM.gets. by apply (H s HP). Qed.

Lemma hoare_frame_all {S A X} (π : S → X) (x : X) (m : PyM.M S A)
    (Q : A → S → Prop) (E : S → Prop) :
  preserves π m →
  (∀ a s, π s = x → Q a s) → (∀ s, π s = x → E s) →
  hoare (λ s, π s = x) m Q E.
Proof.
  intros Hm HQ HE. eapply hoare_conseq;
    [by apply (preserves_hoare π m x) | done | done | done].
Qed.

Lemma syncWithNodegraph_frame (w : World) (rt : Runtime) (self : Context) :
  _opChain self ≠ [] →
  let s' := (syncWithNodegraph w (rt, self)).1 in
  syncView s' = syncView (rt, self)
  ∨ gs_getHash (_gs s'.2) ≠ gs_getHash (_gs self).
Proof.
  intros Hchain.
  set (Post := λ s : Runtime * Context,
         syncView s = syncView (rt, self)
         ∨ gs_getHash (_gs s.2) ≠ gs_getHash (_gs self)).
  assert (hoare (λ s, syncView s = syncView (rt, self))
            (syncWithNodegraph w) (λ _, Post) Post) as H.
  2:{ specialize (H (rt, self) eq_refl). simpl.
      by destruct (syncWithNodegraph w (rt, self)) as [s' [e|[]]]. }
  assert (∀ s, syncView s = syncView (rt, self) → Post s) as HE
    by (by left).
  unfold syncWithNodegraph, mbind, PyM_bind.
  do 7 (apply hoare_bind_frame; [by preserves_st | exact HE | intros ?]).
  apply hoare_bind_frame; [by preserves_st | exact HE | intros [[so sc] ts]].
  apply hoare_bind_gets. intros [rt0 self0] Hv.
  assert (_gs self0 = _gs self ∧ _opChain self0 = _opChain self) as [Hgs Hch].
  { unfold syncView in Hv. simpl in Hv. by simplify_eq. }
  cbn [snd]. rewrite Hch. destruct (_opChain self) as [|first chain]; [done|].
  rewrite Hgs.
  destruct (decide (gs_getHash (gs_setMaxTimeSamples ts
      (gs_setShutterClose sc (gs_setShutterOpen so (_gs self))))
      ≠ gs_getHash (_gs self))) as [Hne|Heq].
  - set (gs := gs_setMaxTimeSamples ts _) in *.
    eapply hoare_conseq with
      (P' := λ s, s = (rt0, self0))
      (Q' := λ _ s, gsView s = gs) (E' := λ s, gsView s = gs);
      [| done | by intros _ s <-; right | by intros s <-; right].
    apply hoare_bind with (R := λ _ s, gsView s = gs).
    + apply hoare_bind with (R := λ _ s, gsView s = gs).
      * by intros s ->.
      * intros _. apply hoare_frame_all; [by preserves_st | done | done].
    + intros nodeOp.
      apply hoare_frame_all; [by preserves_st | done | done].
  - eapply hoare_conseq with (P' := λ s, syncView s = syncView (rt, self))
      (Q' := λ _, Post) (E' := Post); [| by intros s -> | done | done].
    apply hoare_frame_all; [|done|done].
    by preserves_st.
Qed.
End SyncFacts.

Section GroupBuilderFacts.
Import FnAttribute MoonrayRenderManager.
Context `{host : Host}.

Lemma split_dot_prefix (a b : string) :
  dotfree a → split_dot (a +:+ "." +:+ b) = a :: split_dot b.
Proof.
  unfold dotfree, split_dot. revert b.
  induction a as [|c a IH]; intros b Ha; simpl in *.
  - done.
  - destruct (Ascii.eqb c ".") eqn:Hc; [simplify_eq|].
    destruct (PyString.split "." a) as [|w ws] eqn:Hs; simplify_eq.
    by rewrite IH.
Qed.

Lemma split_dot_optrees (cid : string) :
  dotfree cid → split_dot ("optrees." +:+ cid) = ["optrees"; cid].
Proof.
  intros Hc. change ("optrees." +:+ cid) with ("optrees" +:+ "." +:+ cid).
  rewrite split_dot_prefix by done. by rewrite Hc.
Qed.

Lemma child_not_in children name :
  name ∉ children.*1 → child children name = None.
Proof.
  induction children as [|[n a] cs IH]; simpl; [done|].
  intros Hn. apply not_elem_of_cons in Hn as [Hne Hn].
  destruct (decide (n = name)); [done | by apply IH].
Qed.

Lemma setChild_not_in children name attr :
  name ∉ children.*1 → setChild children name attr = children ++ [(name, attr)].
Proof.
  induction children as [|[n a] cs IH]; simpl; [done|].
  intros Hn. apply not_elem_of_cons in Hn as [Hne Hn].
  destruct (decide (n = name)); [done|]. by rewrite IH.
Qed.

Lemma set_optrees (cid : string) (delta : Attribute) (ds : list (string * Attribute)) :
  dotfree cid → cid ∉ ds.*1 →
  set [("type", StringAttribute "OPTREE_DELTA"); ("optrees", GroupAttribute ds)]
    ("optrees." +:+ cid) delta
  = [("type", StringAttribute "OPTREE_DELTA");
     ("optrees", GroupAttribute (ds ++ [(cid, delta)]))].
Proof.
  intros Hc Hn. unfold set. rewrite split_dot_optrees by done. simpl.
  by rewrite setChild_not_in.
Qed.

Lemma fold_set_optrees (ds ds0 : list (string * Attribute)) :
  Forall dotfree ds.*1 → NoDup (ds0 ++ ds).*1 →
  foldl (λ gb cd, set gb ("optrees." +:+ cd.1) cd.2)
    [("type", StringAttribute "OPTREE_DELTA");
     ("optrees", GroupAttribute ds0)] ds
  = [("type", StringAttribute "OPTREE_DELTA");
     ("optrees", GroupAttribute (ds0 ++ ds))].
Proof.
  revert ds0. induction ds as [|[cid d] ds IH]; intros ds0 Hdot Hnd; simpl.
  - by rewrite app_nil_r.
  - apply Forall_cons in Hdot as [Hc Hdot].
    rewrite set_optrees; [|done|].
    + rewrite IH; [by rewrite <-app_assoc | done | by rewrite <-app_assoc].
    + rewrite fmap_app in Hnd. apply NoDup_app in Hnd as (_ & Hnd & _).
      intros Hin. apply (Hnd cid Hin). simpl. left.
Qed.

Lemma first_set_optrees (cid : string) (delta : Attribute) :
  dotfree cid →
  set [("type", StringAttribute "OPTREE_DELTA")] ("optrees." +:+ cid) delta
  = [("type", StringAttribute "OPTREE_DELTA");
     ("optrees", GroupAttribute [(cid, delta)])].
Proof.
  intros Hc. unfold set. by rewrite split_dot_optrees.
Qed.

End GroupBuilderFacts.

Section ProcessUpdatesFacts.
Import FnAttribute MoonrayRenderManager.
Context `{host : Host}.

Lemma preserves_onContext {A} cid (m : PyM.M (Runtime * Context) A) :
  preserves emittedView (onContext cid m).
Proof.
  intros [rt sender]. unfold onContext. simpl.
  destruct (_contexts sender !! cid) as [c|]; [|done].
  by destruct (m (rt, c)) as [[rt' c'] r].
Qed.

Lemma preserves_dom_onContext {A} cid (m : PyM.M (Runtime * Context) A) :
  preserves domView (onContext cid m).
Proof.
  intros [rt sender]. unfold onContext, domView. simpl.
  destruct (_contexts sender !! cid) as [c|] eqn:Hc; [|done].
  destruct (m (rt, c)) as [[rt' c'] r]. simpl.
  by apply dom_insert_lookup_L.
Qed.

Lemma preserves_dom_syncPhase w : preserves domView (syncPhase w).
Proof.
  unfold syncPhase, syncContexts. preserves_tac; apply preserves_dom_onContext.
Qed.

Lemma nonEmptyDeltas_keys (contexts : gmap string Context) :
  NoDup (nonEmptyDeltas contexts).*1
  ∧ ∀ cid, cid ∈ (nonEmptyDeltas contexts).*1 → cid ∈ dom contexts.
Proof.
  assert ((nonEmptyDeltas contexts).*1 `sublist_of` (map_to_list contexts).*1)
    as Hsub.
  { unfold nonEmptyDeltas.
    replace ((map_to_list contexts).*1)
      with (((λ cc : string * Context, (cc.1, deltaOf cc.2))
               <$> map_to_list contexts).*1).
    - apply fmap_sublist, sublist_filter.
    - rewrite <-list_fmap_compose. by apply list_fmap_ext. }
  split.
  - eapply sublist_NoDup; [|exact Hsub]. apply NoDup_fst_map_to_list.
  - intros cid Hin. eapply elem_of_sublist in Hin; [|exact Hsub].
    apply list_elem_of_fmap in Hin as ([cid' c] & -> & Hin).
    apply elem_of_map_to_list in Hin. by eapply elem_of_dom_2.
Qed.

Lemma preserves_syncPhase w : preserves emittedView (syncPhase w).
Proof.
  unfold syncPhase, syncContexts. preserves_tac; apply preserves_onContext.
Qed.

Lemma collectDeltas_spec (l : list (string * Context)) (rt : Runtime)
    (sender : OpTreeSender) (acc : list (string * Attribute)) :
  NoDup l.*1 →
  (∀ cid c, (cid, c) ∈ l → _contexts sender !! cid = Some c) →
  ∃ sender',
    collectDeltas l.*1 acc (rt, sender)
    = ((rt, sender'),
       inr (acc ++ filter (λ cd, 0 < getNumberOfChildren cd.2)
                     ((λ cc, (cc.1, deltaOf cc.2)) <$> l)))
    ∧ process_emitted sender' = process_emitted sender.
Proof.
  revert sender acc. induction l as [|[cid c] l IH]; intros sender acc Hnd Hl.
  - simpl. exists sender. by rewrite app_nil_r.
  - simpl in *. apply NoDup_cons in Hnd as [Hcid Hnd].
    unfold PyM.bind at 1. unfold onContext at 1. simpl.
    rewrite (Hl cid c) by left.
    unfold onSelf, buildOpTreeDelta, mbind, PyM_bind, PyM.bind, PyM.get,
      PyM.modify, PyM.ret. simpl.
    destruct (otb_buildDelta (_opTreeBuilder c)) as [otb delta] eqn:Hd.
    simpl.
    assert (deltaOf c = delta) as Hdelta by (unfold deltaOf; by rewrite Hd).
    set (sender1 := set_contexts
                      (<[cid:=set_opTreeBuilder otb c]> (_contexts sender))
                      sender).
    assert (∀ cid' c', (cid', c') ∈ l →
              _contexts sender1 !! cid' = Some c') as Hl1.
    { intros cid' c' Hin. simpl. rewrite lookup_insert_ne.
      - apply Hl. by right.
      - intros ->. apply Hcid. apply list_elem_of_fmap. by exists (cid', c'). }
    rewrite filter_cons. simpl. rewrite Hdelta.
    destruct (decide (0 < getNumberOfChildren delta)) as [Hpos|Hzero].
    + destruct (IH sender1 (acc ++ [(cid, delta)]) Hnd Hl1)
        as (sender' & Heq & Hem).
      exists sender'. split; [|done].
      etrans; [exact Heq|]. by rewrite <-app_assoc.
    + destruct (IH sender1 acc Hnd Hl1) as (sender' & Heq & Hem).
      exists sender'. split; [|done]. exact Heq.
Qed.

Lemma processUpdates_run (w : World) (rt : Runtime)
    (sender : OpTreeSender) :
  (∀ contextId, contextId ∈ dom (_contexts sender) → dotfree contextId) →
  match syncPhase w (rt, sender) with
  | (s1, inl e) =>
      processUpdates w (rt, sender) = (s1, inl e)
      ∧ process_emitted s1.2 = process_emitted sender
  | (s1, inr _) =>
      ∃ s',
        processUpdates w (rt, sender) = (s', inr tt)
        ∧ process_emitted s'.2
          = process_emitted sender
            ++ match nonEmptyDeltas (_contexts s1.2) with
               | [] => []
               | deltas =>
                   [GroupAttribute
                      [("type", StringAttribute "OPTREE_DELTA");
                       ("optrees", GroupAttribute deltas)]]
               end
  end.
Proof.
  intros Hdot.
  pose proof (preserves_syncPhase w (rt, sender)) as Hem.
  unfold emittedView in Hem. cbn [snd] in Hem.
  pose proof (preserves_dom_syncPhase w (rt, sender)) as Hdom.
  unfold domView in Hdom. cbn [snd] in Hdom.
  assert (processUpdates w (rt, sender)
          = match syncPhase w (rt, sender) with
            | (s1, inl e) => (s1, inl e)
            | (s1, inr _) =>
                PyM.bind (PyM.gets snd) (λ self,
                  PyM.bind
                    (collectDeltas (map_to_list (_contexts self)).*1 [])
                    (λ deltas,
                       match deltas with
                       | [] => PyM.ret tt
                       | _ :: _ =>
                           PyM.modify (λ s,
                             (s.1,
                              process_emit
                                (build
                                   (foldl
                                      (λ gb cd,
                                         set gb ("optrees." +:+ cd.1) cd.2)
                                      (set GroupBuilder_new "type"
                                         (StringAttribute "OPTREE_DELTA"))
                                      deltas)).1 s.2))
                       end)) s1
            end) as Hrun.
  { unfold processUpdates, syncPhase, mbind, PyM_bind, PyM.bind, PyM.gets.
    cbn [fst snd].
    destruct (onContext (_activeContextId sender) (onSelf resetLiveAttr)
                (rt, sender)) as [s0 [e|[]]]; [reflexivity|].
    destruct (syncContexts w s0) as [s1 [e|[]]]; reflexivity. }
  rewrite Hrun. clear Hrun.
  destruct (syncPhase w (rt, sender)) as [[rt1 sender1] [e|[]]]; [done|].
  cbn [fst snd] in *.
  unfold PyM.bind at 1. unfold PyM.gets at 1. cbn [fst snd].
  unfold PyM.bind at 1.
  destruct (collectDeltas_spec (map_to_list (_contexts sender1)) rt1 sender1 [])
    as (sender' & Hc & Hem').
  { apply NoDup_fst_map_to_list. }
  { intros cid c Hin. by apply elem_of_map_to_list in Hin. }
  rewrite Hc. rewrite app_nil_l.
  fold (nonEmptyDeltas (_contexts sender1)).
  destruct (nonEmptyDeltas_keys (_contexts sender1)) as [Hnd Hkeys].
  destruct (nonEmptyDeltas (_contexts sender1)) as [|[cid d] ds] eqn:Hds.
  - eexists. split; [reflexivity|]. simpl. by rewrite app_nil_r, Hem'.
  - eexists. split; [reflexivity|]. simpl.
    rewrite Hem', Hem. do 3 f_equal.
    assert (Forall dotfree ((cid, d) :: ds).*1) as Hfree.
    { apply Forall_forall. intros c Hin. apply Hdot. apply Hkeys in Hin.
      by rewrite <-Hdom. }
    apply Forall_cons in Hfree as [Hcid Hfree].
    change (set GroupBuilder_new "type" (StringAttribute "OPTREE_DELTA"))
      with [("type", StringAttribute "OPTREE_DELTA")].
    rewrite first_set_optrees by done.
    by rewrite fold_set_optrees.
Qed.
End ProcessUpdatesFacts.

Section DeltaFacts.
Import FnAttribute MoonrayRenderManager.
Context `{host : Host}.

Lemma elem_of_nonEmptyDeltas (contexts : gmap string Context)
    (contextId : string) (delta : Attribute) :
  (contextId, delta) ∈ nonEmptyDeltas contexts
  ↔ ∃ context,
      contexts !! contextId = Some context
      ∧ delta = deltaOf context
      ∧ 0 < getNumberOfChildren delta.
Proof.
  unfold nonEmptyDeltas. rewrite list_elem_of_filter, list_elem_of_fmap.
  split.
  - intros [Hpos ([cid c] & Heq & Hin)]. simpl in *. simplify_eq.
    exists c. by apply elem_of_map_to_list in Hin.
  - intros (c & Hc & -> & Hpos). split; [done|].
    exists (contextId, c). split; [done|]. by apply elem_of_map_to_list.
Qed.

(** C6.  After [processUpdates] has reset the live attributes of the active
    context and synced every context, it emits nothing when no context
    has an op-tree delta with children, and otherwise emits one message:
    the group with [type] 'OPTREE_DELTA' and, under [optrees], one child for
    each context whose delta has children, named by the context id and
    holding that delta.  When the reset or the sync raises, nothing is
    emitted.  Context ids are names of direct children, so they hold no
    dot. *)
Theorem processUpdates_emits (w : World) (rt : Runtime)
    (sender : OpTreeSender) :
  (∀ contextId, contextId ∈ dom (_contexts sender) → dotfree contextId) →
  match syncPhase w (rt, sender) with
  | (s1, inl e) =>
      processUpdates w (rt, sender) = (s1, inl e)
      ∧ process_emitted s1.2 = process_emitted sender
  | (s1, inr _) =>
      let deltas := nonEmptyDeltas (_contexts s1.2) in
      (∃ s',
         processUpdates w (rt, sender) = (s', inr tt)
         ∧ process_emitted s'.2
           = process_emitted sender
             ++ match deltas with
                | [] => []
                | _ :: _ =>
                    [GroupAttribute
                       [("type", StringAttribute "OPTREE_DELTA");
                        ("optrees", GroupAttribute deltas)]]
                end)
      ∧ NoDup deltas.*1
      ∧ (∀ contextId delta,
           (contextId, delta) ∈ deltas
           ↔ ∃ context,
               _contexts s1.2 !! contextId = Some context
               ∧ delta = deltaOf context
               ∧ 0 < getNumberOfChildren delta)
  end.
Proof.
  intros Hdot. pose proof (processUpdates_run w rt sender Hdot) as Hrun.
  destruct (syncPhase w (rt, sender)) as [s1 [e|[]]]; [done|].
  intros deltas. split_and!.
  - destruct Hrun as (s' & Heq & Hem). exists s'. split; [done|].
    rewrite Hem. subst deltas. by destruct (nonEmptyDeltas _).
  - apply nonEmptyDeltas_keys.
  - apply elem_of_nonEmptyDeltas.
Qed.

End DeltaFacts.

Section DemoFacts6.
Import FnAttribute MoonrayRenderManager.
Import DemoHost.

Lemma stable_dotfree (contextIds : gset string) (contextId : string) :
  contextIds = {["main"; "aux"]} → contextId ∈ contextIds → dotfree contextId.
Proof.
  intros -> Hin. apply elem_of_union in Hin as [Hin|Hin];
    apply elem_of_singleton in Hin as ->; reflexivity.
Qed.

(** Two contexts on a host that hands out the same node op again: the
    first call emits one message, with the delta of [main] and nothing for
    [aux], whose delta has no children; the second call, made right after,
    finds no delta with children and emits nothing. *)
Lemma processUpdates_emits_witness :
  let s := (stableRuntime, stableSender) in
  (∀ contextId, contextId ∈ dom (_contexts s.2) → dotfree contextId)
  ∧ ∃ s1 s' delta,
      syncPhase stableWorld s = (s1, inr tt)
      ∧ @nonEmptyDeltas stableHost (_contexts s1.2) = [("main", delta)]
      ∧ 0 < getNumberOfChildren delta
      ∧ @deltaOf stableHost <$> _contexts s1.2 !! "aux"
        = Some (GroupAttribute [])
      ∧ processUpdates stableWorld s = (s', inr tt)
      ∧ process_emitted s'.2
        = [GroupAttribute
             [("type", StringAttribute "OPTREE_DELTA");
              ("optrees", GroupAttribute [("main", delta)])]]
      ∧ ∃ s1' s'',
          syncPhase stableWorld s' = (s1', inr tt)
          ∧ @nonEmptyDeltas stableHost (_contexts s1'.2) = []
          ∧ processUpdates stableWorld s' = (s'', inr tt)
          ∧ process_emitted s''.2 = process_emitted s'.2.
Proof.
  intros s.
  assert (Hdot : ∀ contextId,
            contextId ∈ dom (_contexts s.2) → dotfree contextId).
  { intros contextId. apply stable_dotfree. by vm_compute. }
  split; [exact Hdot|].
  (* the first call *)
  pose proof (processUpdates_emits stableWorld stableRuntime stableSender Hdot)
    as H1.
  assert ((syncPhase stableWorld s).2 = inr tt) as Hret1 by (by vm_compute).
  fold s in H1.
  destruct (syncPhase stableWorld s) as [s1 [e|[]]] eqn:E1; [done|].
  assert (s1 = (syncPhase stableWorld s).1) as Hs1 by (by rewrite E1).
  destruct H1 as [(s' & Hrun & Hem) _].
  assert (s' = (processUpdates stableWorld s).1) as Hs' by (by rewrite Hrun).
  assert (∃ delta,
            @nonEmptyDeltas stableHost (_contexts s1.2) = [("main", delta)]
            ∧ 0 < getNumberOfChildren delta) as (delta & Hd & Hpos).
  { rewrite Hs1. eexists. split; [by vm_compute|]. vm_compute. lia. }
  exists s1, s', delta. split; [done|]. split; [done|]. split; [done|].
  split; [rewrite Hs1; by vm_compute|]. split; [done|].
  split; [rewrite Hem, Hd; reflexivity|].
  (* the second call *)
  destruct s' as [rt' sender'].
  assert (Hdot' : ∀ contextId,
            contextId ∈ dom (_contexts sender') → dotfree contextId).
  { intros contextId. apply stable_dotfree.
    change sender' with (rt', sender').2. rewrite Hs'. by vm_compute. }
  pose proof (processUpdates_emits stableWorld rt' sender' Hdot') as H2.
  assert ((syncPhase stableWorld (rt', sender')).2 = inr tt) as Hret2
    by (rewrite Hs'; by vm_compute).
  destruct (syncPhase stableWorld (rt', sender')) as [s1' [e|[]]] eqn:E2;
    [done|].
  assert (s1' = (syncPhase stableWorld (rt', sender')).1) as Hs1'
    by (by rewrite E2).
  destruct H2 as [(s'' & Hrun2 & Hem2) _].
  assert (@nonEmptyDeltas stableHost (_contexts s1'.2) = []) as Hd2.
  { rewrite Hs1', Hs'. by vm_compute. }
  exists s1', s''. split; [done|]. split; [done|]. split; [done|].
  rewrite Hem2, Hd2. apply app_nil_r.
Defined.

End DemoFacts6.

Section GraphStateFacts.
Import FnAttribute MoonrayRenderManager.
Context `{host : Host}.

(** C7.  [OpTreeSender.resetGraphState] leaves the sender as it is when
    the hash of the current graph state equals the stored hash; when the
    hashes differ it stores the new hash and resets the graph state of
    every context, and changes nothing else: the graph state of a context
    becomes the current graph state of the host with the entries
    [var:contextID], the id of the context, and [var:nodeHash], the hash
    of its node, and the other attributes of the context stay as they
    are.  [Context.syncWithNodegraph],
    on a context whose op chain has been built, leaves the graph state,
    the hash of the system args, the op chain and the op args written to
    the runtime as they are, unless the hash of the graph state it ends
    with differs from the hash of the one it held. *)
Theorem graphState_hash_gating :
  (∀ (w : World) (sender : OpTreeSender),
     gs_getHash (GetCurrentGraphState w) = _currentGraphStateHash sender →
     OpTreeSender_resetGraphState w sender = sender)
  ∧ (∀ (w : World) (sender : OpTreeSender),
       gs_getHash (GetCurrentGraphState w) ≠ _currentGraphStateHash sender →
       let sender' := OpTreeSender_resetGraphState w sender in
       _currentGraphStateHash sender' = gs_getHash (GetCurrentGraphState w)
       ∧ (∀ contextId,
            _contexts sender' !! contextId
            = (λ context,
                 set_gs
                   (gs_setDynamicEntry "var:nodeHash"
                      (PyInt (node_hash (_node context)))
                      (gs_setDynamicEntry "var:contextID"
                         (PyStr (_contextId context))
                         (GetCurrentGraphState w)))
                   context)
              <$> _contexts sender !! contextId)
       ∧ _renderMethodType sender' = _renderMethodType sender
       ∧ _activeContextId sender' = _activeContextId sender
       ∧ process_emitted sender' = process_emitted sender)
  ∧ (∀ (w : World) (rt : Runtime) (self : Context),
       _opChain self ≠ [] →
       let s' := (syncWithNodegraph w (rt, self)).1 in
       syncView s' = syncView (rt, self)
       ∨ gs_getHash (_gs s'.2) ≠ gs_getHash (_gs self)).
Proof.
  split_and!.
  - intros w sender Heq. unfold OpTreeSender_resetGraphState.
    by destruct (decide _).
  - intros w sender Hne sender'. subst sender'.
    unfold OpTreeSender_resetGraphState.
    destruct (decide _) as [_|Heq]; [|by destruct Heq].
    split_and!; try done. intros contextId. simpl.
    by rewrite lookup_fmap.
  - apply syncWithNodegraph_frame.
Qed.

End GraphStateFacts.

Section DemoFacts7.
Import FnAttribute MoonrayRenderManager.
Import DemoHost.

(** A sender whose context has built its op chain.  With the stored hash
    nothing is reset; with another hash the graph state of the context is
    replaced.  A sync of the context that ends with the hash it holds
    returns and leaves the graph state, the hash of the system args, the
    op chain and the op args as they are; after the graph state has been
    reset, the sync returns with another graph state and another hash of
    the system args. *)
Lemma graphState_hash_gating_witness :
  let rt := firstSync.1.1 in
  let context := firstSync.1.2 in
  let sender' := OpTreeSender_resetGraphState (frameWorld 8) firstSyncSender in
  let gated := syncWithNodegraph demoWorld (rt, context) in
  let context' := Context_resetGraphState (frameWorld 8) context in
  let changed := syncWithNodegraph (frameWorld 8) (rt, context') in
  (* the sender *)
  OpTreeSender_resetGraphState (frameWorld 7) firstSyncSender = firstSyncSender
  ∧ _currentGraphStateHash sender' = "var:frame=8"
  ∧ _gs <$> _contexts sender' !! "main"
    = Some [("var:frame", PyInt 8); ("var:contextID", PyStr "main");
            ("var:nodeHash", PyInt 11)]
  ∧ _gs <$> _contexts firstSyncSender !! "main" = Some (_gs context)
  (* the context: a sync that finds the hash it holds *)
  ∧ firstSync.2 = inr tt
  ∧ _opChain context = [2; 3; 4; 5; 6; 7; 8]
  ∧ gated.2 = inr tt
  ∧ gs_getHash (_gs gated.1.2) = gs_getHash (_gs context)
  ∧ syncView gated.1 = syncView (rt, context)
  (* the context: a sync after the graph state has been reset *)
  ∧ changed.2 = inr tt
  ∧ gs_getHash (_gs context')
    = "var:frame=8;var:contextID=main;var:nodeHash=11"
  ∧ gs_getHash (_gs changed.1.2)
    = "var:frame=8;var:contextID=main;var:nodeHash=11;shutterOpen=0/1;shutterClose=0/1;maxTimeSamples=1"
  ∧ _systemArgsHash changed.1.2 ≠ _systemArgsHash context'.
Proof.
  intros rt context sender' gated context' changed.
  pose proof (@graphState_hash_gating demoHost) as (Hsame & Hdiff & Hsync).
  destruct (Hdiff (frameWorld 8) firstSyncSender ltac:(discriminate))
    as (Hhash & Hctx & _).
  split_and!.
  - apply (Hsame (frameWorld 7) firstSyncSender). reflexivity.
  - exact Hhash.
  - unfold sender'. rewrite (Hctx "main"). by vm_compute.
  - by vm_compute.
  - by vm_compute.
  - by vm_compute.
  - by vm_compute.
  - by vm_compute.
  - assert (_opChain context ≠ []) as Hchain by (by vm_compute).
    destruct (Hsync demoWorld rt context Hchain) as [Hview|Hne]; [exact Hview|].
    exfalso. apply Hne. by vm_compute.
  - by vm_compute.
  - by vm_compute.
  - by vm_compute.
  - by vm_compute.
Defined.

End DemoFacts7.

Section GetOpsFacts.
Import FnAttribute MoonrayRenderManager.
Implicit Types st : Store.

Lemma Steps_inputs st op l op' x :
  Steps st op l op' → x ∈ l → getInputs st x ≠ [].
Proof.
  induction 1 as [|op input inputs l op' Hin _ IH]; intros Hx.
  - by apply elem_of_nil in Hx.
  - apply elem_of_cons in Hx as [->|Hx]; [by rewrite Hin | by apply IH].
Qed.

Lemma Steps_in_dom st op l op' x :
  Steps st op l op' → x ∈ l → x ∈ dom (ops st).
Proof.
  intros Hs Hx. pose proof (Steps_inputs _ _ _ _ _ Hs Hx) as Hin.
  apply elem_of_dom. unfold getInputs, opData in Hin.
  destruct (ops st !! x); [done|]. by destruct Hin.
Qed.

Lemma Steps_det st op l1 l2 t :
  Steps st op l1 t → Steps st op l2 t → t ∉ l1 → t ∉ l2 → l1 = l2.
Proof.
  intros H1. revert l2.
  induction H1 as [|op input inputs l op' Hin _ IH]; intros l2 H2 Ht1 Ht2.
  - inversion H2 as [|? ? ? ? ? Hin2 Hs2]; subst; [done|].
    destruct Ht2. apply list_elem_of_here.
  - inversion H2 as [|? ? ? ? ? Hin2 Hs2]; subst.
    + destruct Ht1. apply list_elem_of_here.
    + f_equal. apply IH.
      * rewrite Hin in Hin2. by simplify_eq.
      * by apply not_elem_of_cons in Ht1 as [_ ?].
      * by apply not_elem_of_cons in Ht2 as [_ ?].
Qed.

Lemma Steps_suffix st op l t x :
  Steps st op l t → x ∈ l →
  ∃ pre l', l = pre ++ l' ∧ Steps st x l' t.
Proof.
  induction 1 as [|op input inputs l op' Hin Hs IH]; intros Hx.
  - by apply elem_of_nil in Hx.
  - apply elem_of_cons in Hx as [->|Hx].
    + exists [], (op :: l). split; [done | by econstructor].
    + destruct (IH Hx) as (pre & l' & -> & Hs').
      by exists (op :: pre), l'.
Qed.

Lemma Steps_NoDup st op l t : Steps st op l t → t ∉ l → NoDup l.
Proof.
  induction 1 as [|op input inputs l op' Hin Hs IH]; intros Ht.
  - constructor.
  - apply not_elem_of_cons in Ht as [Hto Ht].
    constructor; [|by apply IH].
    intros Hop.
    destruct (Steps_suffix _ _ _ _ _ Hs Hop) as (pre & l' & -> & Hs').
    assert (l' = op :: pre ++ l') as Heq.
    { eapply Steps_det; [exact Hs' | by econstructor | |].
      - intros Hin'. apply Ht. apply elem_of_app. by right.
      - by apply not_elem_of_cons. }
    apply (f_equal length) in Heq. simpl in Heq. rewrite length_app in Heq. lia.
Qed.

Lemma Steps_length st op l t :
  Steps st op l t → t ∉ l → length l ≤ size (ops st).
Proof.
  intros Hs Ht.
  rewrite <-size_dom. unfold size, set_size. simpl.
  apply submseteq_length, NoDup_submseteq.
  - by eapply Steps_NoDup.
  - intros x Hx. apply elem_of_elements. by eapply Steps_in_dom.
Qed.

Lemma getOps_loop_steps st e op l t fuel acc :
  Steps st op l t → e ∉ l →
  getOps_loop (length l + fuel) st op e acc
  = getOps_loop fuel st t e (acc ++ l).
Proof.
  intros Hs. revert acc.
  induction Hs as [|op input inputs l op' Hin _ IH]; intros acc He; simpl.
  - by rewrite app_nil_r.
  - apply not_elem_of_cons in He as [Hne He].
    destruct (decide (op = e)); [done|]. rewrite Hin, IH by done.
    by rewrite <-app_assoc.
Qed.

Lemma getOps_Walk st e start l :
  Walk st e start l → getOps st start e = inr (reverse l).
Proof.
  intros [Hs He]. unfold getOps.
  pose proof (Steps_length _ _ _ _ Hs He) as Hlen.
  replace (S (size (ops st))) with (length l + S (size (ops st) - length l))
    by lia.
  rewrite (getOps_loop_steps _ _ _ _ _ _ _ Hs He). simpl.
  by destruct (decide (e = e)).
Qed.

Lemma getOps_DeadEnd st e start :
  DeadEnd st e start →
  getOps st start e = inl (Py.Exception "op has no inputs").
Proof.
  intros (l & op & Hs & He & Hne & Hin). unfold getOps.
  assert (op ∉ l) as Hop.
  { intros Hx. by apply (Steps_inputs _ _ _ _ _ Hs Hx). }
  pose proof (Steps_length _ _ _ _ Hs Hop) as Hlen.
  replace (S (size (ops st))) with (length l + S (size (ops st) - length l))
    by lia.
  rewrite (getOps_loop_steps _ _ _ _ _ _ _ Hs He). simpl.
  destruct (decide (op = e)); [done|]. by rewrite Hin.
Qed.

Lemma getOps_loop_inv st e fuel op acc r :
  getOps_loop fuel st op e acc = r →
  match r with
  | inr ops => ∃ l, Walk st e op l ∧ ops = reverse (acc ++ l)
  | inl Py.Diverges => True
  | inl x => x = Py.Exception "op has no inputs" ∧ DeadEnd st e op
  end.
Proof.
  revert op acc. induction fuel as [|fuel IH]; intros op acc; simpl.
  - by intros <-.
  - destruct (decide (op = e)) as [->|Hne].
    + intros <-. exists []. split; [|by rewrite app_nil_r].
      split; [constructor | apply not_elem_of_nil].
    + destruct (getInputs st op) as [|input inputs] eqn:Hin.
      * intros <-. split; [done|]. exists [], op.
        split_and!; [constructor | apply not_elem_of_nil | done | done].
      * intros Hr. specialize (IH _ _ Hr). destruct r as [x|ops].
        -- destruct x; try done;
             destruct IH as [-> (l & d & Hs & He & Hd & Hdin)];
             (split; [done|]); exists (op :: l), d;
             (split_and!;
                [by econstructor | by apply not_elem_of_cons | done | done]).
        -- destruct IH as (l & [Hs He] & ->). exists (op :: l).
           split; [|by rewrite <-app_assoc].
           split; [by econstructor | by apply not_elem_of_cons].
Qed.

(** A walk that neither reaches [e] nor comes to an op without inputs goes
    on for as many iterations as it is given. *)
Lemma getOps_loop_never st e fuel op acc :
  (∀ l, ¬ Walk st e op l) → ¬ DeadEnd st e op →
  getOps_loop fuel st op e acc = inl Py.Diverges.
Proof.
  intros Hw Hd.
  pose proof (getOps_loop_inv st e fuel op acc _ eq_refl) as H.
  destruct (getOps_loop fuel st op e acc) as [x|ops].
  - destruct x; try done; by destruct H as [_ ?].
  - destruct H as (l & Hl & _). by destruct (Hw l).
Qed.

End GetOpsFacts.

Section StoreFacts.
Import FnAttribute MoonrayRenderManager.
Implicit Types st : Store.

Lemma linked_Linked st chain : linked st chain → Linked st chain.
Proof.
  induction chain as [|a [|b chain] IH]; intros Hl i x y Hx Hy.
  - done.
  - by destruct i.
  - destruct Hl as [Hab Hl]. destruct i as [|i].
    + simpl in *. by simplify_eq.
    + by apply (IH Hl i).
Qed.

Lemma linked_frame st st' chain :
  (∀ op, op ∈ chain → getInputs st' op = getInputs st op) →
  linked st chain → linked st' chain.
Proof.
  induction chain as [|a [|b chain] IH]; intros Hf Hl; [done|done|].
  destruct Hl as [Hab Hl]. split.
  - rewrite Hf; [done|]. right. left.
  - apply IH; [|done]. intros op Hop. apply Hf. by right.
Qed.

Lemma linked_app st c1 a c2 :
  last c1 = Some a → linked st c1 → linked st (a :: c2) →
  linked st (c1 ++ c2).
Proof.
  induction c1 as [|x [|y c1] IH]; intros Ha H1 H2.
  - done.
  - simpl in Ha. by simplify_eq.
  - destruct H1 as [Hxy H1]. split; [done|]. by apply IH.
Qed.

Lemma Steps_linked st start l t acc :
  Steps st start l t → linked st (start :: acc) →
  linked st (t :: reverse l ++ acc).
Proof.
  intros Hs. revert acc.
  induction Hs as [|op input inputs l op' Hin _ IH]; intros acc Hacc.
  - done.
  - rewrite reverse_cons, <-app_assoc. apply IH. simpl. split; [|done].
    rewrite Hin. left.
Qed.

Lemma Steps_frame st st' start l t :
  (∀ op, op ∈ l → getInputs st' op = getInputs st op) →
  Steps st start l t → Steps st' start l t.
Proof.
  intros Hf Hs. induction Hs as [|op input inputs l op' Hin _ IH].
  - constructor.
  - econstructor.
    + rewrite Hf; [done|left].
    + apply IH. intros x Hx. apply Hf. by right.
Qed.

Lemma Steps_snoc st start l t u inputs :
  Steps st start l t → getInputs st t = u :: inputs →
  Steps st start (l ++ [t]) u.
Proof.
  intros Hs Hin. induction Hs as [|op input inputs' l op' Hin' _ IH]; simpl.
  - econstructor; [done | constructor].
  - econstructor; [done | by apply IH].
Qed.

Lemma extendsStore_refl st : wfStore st → extendsStore st st.
Proof. by intros Hwf. Qed.

Lemma extendsStore_trans st0 st1 st2 :
  extendsStore st0 st1 → extendsStore st1 st2 → extendsStore st0 st2.
Proof.
  intros (Hwf1 & Hn1 & Hi1) (Hwf2 & Hn2 & Hi2). split_and!; [done | lia |].
  intros op Hop. rewrite Hi2 by lia. by apply Hi1.
Qed.

Lemma getInputs_putOp st op d x :
  getInputs (putOp op d st) x
  = if decide (op = x) then opInputs d else getInputs st x.
Proof.
  unfold getInputs, opData, putOp. simpl.
  destruct (decide (op = x)) as [->|Hne].
  - by rewrite lookup_insert_eq.
  - by rewrite lookup_insert_ne.
Qed.

Lemma wfStore_putOp st op d :
  wfStore st → op < nextOp st → wfStore (putOp op d st).
Proof.
  intros Hwf Hop x Hx. unfold putOp in *. simpl in *.
  rewrite dom_insert in Hx. apply elem_of_union in Hx as [Hx|Hx].
  - apply elem_of_singleton in Hx. by subst.
  - by apply Hwf.
Qed.

Lemma extendsStore_createOp rt :
  wfStore (store rt) →
  extendsStore (store rt) (store (createOp rt).1)
  ∧ nextOp (store (createOp rt).1) = S (nextOp (store rt))
  ∧ (createOp rt).2 = nextOp (store rt)
  ∧ getInputs (store (createOp rt).1) (nextOp (store rt)) = [].
Proof.
  intros Hwf. unfold createOp. simpl. split_and!; [|done|done|].
  - split_and!; simpl; [|lia|].
    + intros x Hx. simpl in *. rewrite dom_insert in Hx.
      apply elem_of_union in Hx as [Hx|Hx].
      * apply elem_of_singleton in Hx. subst. lia.
      * apply Hwf in Hx. lia.
    + intros op Hop. unfold getInputs, opData. simpl.
      rewrite lookup_insert_ne by lia. done.
  - unfold getInputs, opData. simpl. by rewrite lookup_insert_eq.
Qed.

Lemma extendsStore_setOpArgs rt op ty args :
  wfStore (store rt) → op < nextOp (store rt) →
  extendsStore (store rt) (store (setOpArgs op ty args rt))
  ∧ nextOp (store (setOpArgs op ty args rt)) = nextOp (store rt)
  ∧ ∀ x, getInputs (store (setOpArgs op ty args rt)) x
         = getInputs (store rt) x.
Proof.
  intros Hwf Hop. unfold setOpArgs. simpl.
  assert (∀ x, getInputs (putOp op
             {| opType := ty; opArgs := args;
                opInputs := opInputs (opData (store rt) op) |} (store rt)) x
          = getInputs (store rt) x) as Hin.
  { intros x. rewrite getInputs_putOp. simpl.
    by destruct (decide (op = x)) as [->|]. }
  split_and!; [|done|done].
  split_and!; [by apply wfStore_putOp | done | by intros x _].
Qed.

Lemma extendsStore_setOpInputs st0 rt op inputs :
  extendsStore st0 (store rt) → nextOp st0 ≤ op → op < nextOp (store rt) →
  extendsStore st0 (store (setOpInputs op inputs rt))
  ∧ nextOp (store (setOpInputs op inputs rt)) = nextOp (store rt)
  ∧ ∀ x, getInputs (store (setOpInputs op inputs rt)) x
         = if decide (op = x) then inputs else getInputs (store rt) x.
Proof.
  intros (Hwf & Hn & Hi) Hfresh Hop. unfold setOpInputs. simpl.
  assert (∀ x, getInputs (putOp op
             {| opType := opType (opData (store rt) op);
                opArgs := opArgs (opData (store rt) op);
                opInputs := inputs |} (store rt)) x
          = if decide (op = x) then inputs else getInputs (store rt) x)
    as Hin.
  { intros x. by rewrite getInputs_putOp. }
  split_and!; [|done|done].
  split_and!; [by apply wfStore_putOp | done |].
  intros x Hx. rewrite Hin. destruct (decide (op = x)); [lia|]. by apply Hi.
Qed.

End StoreFacts.

Section ChainFacts.
Import FnAttribute MoonrayRenderManager.
Context `{host : Host} `{hostChains : !HostChains}.
Implicit Types rt : Runtime.

(** Creating an op, setting its args and giving it inputs. *)
Lemma stack_op rt ty args inputs :
  wfStore (store rt) →
  (createOp rt).2 = nextOp (store rt)
  ∧ extendsStore (store rt)
      (store (setOpInputs (nextOp (store rt)) inputs
                (setOpArgs (nextOp (store rt)) ty args (createOp rt).1)))
  ∧ nextOp (store (setOpInputs (nextOp (store rt)) inputs
                     (setOpArgs (nextOp (store rt)) ty args (createOp rt).1)))
    = S (nextOp (store rt))
  ∧ getInputs
      (store (setOpInputs (nextOp (store rt)) inputs
                (setOpArgs (nextOp (store rt)) ty args (createOp rt).1)))
      (nextOp (store rt))
    = inputs.
Proof.
  intros Hwf.
  destruct (extendsStore_createOp rt Hwf) as (He1 & Hn1 & Hx & _).
  destruct (extendsStore_setOpArgs (createOp rt).1 (nextOp (store rt)) ty args)
    as (He2 & Hn2 & Hi2); [apply He1 | lia |].
  destruct (extendsStore_setOpInputs (store rt)
              (setOpArgs (nextOp (store rt)) ty args (createOp rt).1)
              (nextOp (store rt)) inputs)
    as (He3 & Hn3 & Hi3);
    [by eapply extendsStore_trans | done | lia |].
  split_and!; [done | done | lia |].
  rewrite Hi3. by destruct (decide (nextOp (store rt) = nextOp (store rt))).
Qed.

Lemma Walk_bound st e start l :
  wfStore st → start < nextOp st → Walk st e start l →
  Forall (λ o, o < nextOp st) l.
Proof.
  intros Hwf Hstart [Hs _]. apply Forall_forall. intros x Hx.
  apply Hwf. by eapply Steps_in_dom.
Qed.

(** An op put on top of the start of a walk prolongs the walk. *)
Lemma Walk_stack st st' e t l x :
  wfStore st → e < nextOp st → t < nextOp st →
  Walk st e t l → extendsStore st st' →
  nextOp st ≤ x → getInputs st' x = [t] →
  Walk st' e x (x :: l).
Proof.
  intros Hwf He Ht [Hs Hel] (Hwf' & Hn & Hi) Hx Hin. split.
  - econstructor; [done|]. eapply Steps_frame; [|done].
    intros op Hop. apply Hi. apply Hwf. by eapply Steps_in_dom.
  - apply not_elem_of_cons. split; [lia | done].
Qed.

Lemma Walk_extends st st' e t l :
  wfStore st → Walk st e t l → extendsStore st st' → Walk st' e t l.
Proof.
  intros Hwf [Hs Hel] (Hwf' & Hn & Hi). split; [|done].
  eapply Steps_frame; [|done].
  intros op Hop. apply Hi. apply Hwf. by eapply Steps_in_dom.
Qed.

Lemma Walk_nil st e : Walk st e e [].
Proof. split; [constructor | apply not_elem_of_nil]. Qed.

Lemma applyRenderOps_spec w op rt self :
  wfStore (store rt) → op < nextOp (store rt) →
  ∃ rt' r l,
    applyRenderOps w op (rt, self) = ((rt', self), inr r)
    ∧ extendsStore (store rt) (store rt')
    ∧ r < nextOp (store rt')
    ∧ Walk (store rt') op r l.
Proof.
  intros Hwf Hop.
  unfold applyRenderOps, mbind, PyM_bind, PyM.bind, txn_createOp, txn,
    PyM.modify, PyM.ret. cbn [fst snd].
  destruct (stack_op rt "RenderSettingsDefaults" (GroupAttribute []) [op] Hwf)
    as (Hx & He & Hn & Hin).
  rewrite Hx.
  set (rsd := nextOp (store rt)) in *.
  set (rt1 := setOpInputs rsd [op] _) in *.
  assert (Walk (store rt1) op rsd [rsd]) as Hw1.
  { eapply (Walk_stack (store rt)); eauto using Walk_nil. }
  destruct (GetRenderIDPass w); cbn [fst snd].
  - set (args := AttributeSet_build _ _ _).
    destruct (stack_op rt1 "AttributeSet" args [rsd]) as (Hx2 & He2 & Hn2 & Hin2);
      [apply He|].
    rewrite Hx2.
    eexists _, _, _. split; [reflexivity|]. split_and!.
    + by eapply extendsStore_trans.
    + lia.
    + apply (Walk_stack (store rt1) _ op rsd [rsd]);
        [apply He | lia | lia | done | done | lia | done].
  - eexists _, _, _. split; [reflexivity|]. split_and!; [done | lia | done].
Qed.

End ChainFacts.

Section ChainFacts2.
Import FnAttribute MoonrayRenderManager.
Context `{host : Host} `{hostChains : !HostChains}.
Implicit Types rt : Runtime.

Lemma List_last_last {A} (l : list A) (d a : A) :
  last l = Some a → List.last l d = a.
Proof.
  induction l as [|x [|y l] IH]; intros Hl; simpl in *;
    [done | by simplify_eq |].
  by apply IH.
Qed.

Lemma Walk_start_bound st e start l :
  wfStore st → e < nextOp st → Walk st e start l → start < nextOp st.
Proof.
  intros Hwf He [Hs _]. inversion Hs; subst; [done|].
  apply Hwf. eapply Steps_in_dom; [exact Hs | left].
Qed.

Lemma Walk_last st e start l :
  Walk st e start l → last (e :: reverse l) = Some start.
Proof.
  intros [Hs _]. inversion Hs; subst; [done|].
  rewrite reverse_cons. rewrite app_comm_cons. by rewrite last_snoc.
Qed.

Lemma ChainInv_extend st st' chain a r l :
  wfStore st → ChainInv st chain a → extendsStore st st' →
  Walk st' a r l →
  getOps st' r a = inr (reverse l)
  ∧ r < nextOp st'
  ∧ ChainInv st' (chain ++ reverse l) r.
Proof.
  intros Hwf (Hlast & Hall & Hl) (Hwf' & Hn & Hi) Hw.
  assert (a < nextOp st) as Ha.
  { rewrite Forall_forall in Hall. apply Hall. by apply last_Some_elem_of. }
  assert (r < nextOp st') as Hr.
  { eapply Walk_start_bound; [done | | done]. lia. }
  split_and!; [by apply getOps_Walk | done |].
  split_and!.
  - pose proof (Walk_last _ _ _ _ Hw) as Hwl.
    destruct (reverse l) as [|x rl _] using rev_ind.
    + rewrite app_nil_r. simpl in Hwl. congruence.
    + rewrite app_assoc, last_snoc.
      by rewrite app_comm_cons, last_snoc in Hwl.
  - apply Forall_app. split.
    + eapply Forall_impl; [done|]. intros x Hx. simpl in Hx. lia.
    + apply Forall_forall. intros x Hx. rewrite elem_of_reverse in Hx.
      destruct Hw as [Hs _]. apply Hwf'.
      eapply Steps_in_dom; [exact Hs | done].
  - eapply linked_app; [done | |].
    + eapply linked_frame; [|done]. intros op Hop. apply Hi.
      rewrite Forall_forall in Hall. by apply Hall.
    + destruct Hw as [Hs _].
      pose proof (Steps_linked _ _ _ _ [] Hs I) as Hsl.
      by rewrite app_nil_r in Hsl.
Qed.

Lemma applyImplicitResolvers_spec w op cameraName rt self :
  wfStore (store rt) → op < nextOp (store rt) →
  ∃ rt' self' r l,
    applyImplicitResolvers w op (PyStr cameraName) (rt, self)
    = ((rt', self'), inr r)
    ∧ extendsStore (store rt) (store rt')
    ∧ Walk (store rt') op r l.
Proof.
  intros Hwf Hop.
  unfold applyImplicitResolvers, mbind, PyM_bind, PyM.bind, getSelf, setSelf,
    hostCall, txn_createOp, txn, PyM.gets, PyM.modify, PyM.ret.
  cbn [fst snd].
  pose proof (implicitResolvers_extend (store rt) op (_node self) (_gs self)
                Hwf) as He.
  destruct (implicitResolvers_walk (store rt) op (_node self) (_gs self)
              Hwf Hop) as [l Hw].
  set (ir := ApplyImplicitResolverOps _ _ _ _) in *.
  destruct (_renderSelected self); [|by eexists _, _, _, _].
  destruct (filter _ _) as [|x sel]; [by eexists _, _, _, _|].
  set (rt1 := {| store := ir.1; committed := committed rt |}).
  match goal with
  | |- context [setOpArgs _ "Isolate" ?args] => set (iso := args)
  end.
  destruct (stack_op rt1 "Isolate" iso [ir.2]) as (Hx & He2 & Hn2 & Hin2);
    [apply He|].
  assert (ir.2 < nextOp ir.1) as Hir.
  { eapply Walk_start_bound; [apply He | | exact Hw].
    destruct He as (_ & Hn & _). lia. }
  cbn [fst snd]. rewrite Hx.
  eexists _, _, _, _. split; [reflexivity|]. split.
  - by eapply extendsStore_trans.
  - apply (Walk_stack ir.1 _ op ir.2 l);
      [apply He | destruct He as (_ & Hn & _); lia | done | done | done
      | done | done].
Qed.

Lemma applyTerminalOps_spec op rt self :
  wfStore (store rt) → op < nextOp (store rt) →
  ∃ rt' r l,
    applyTerminalOps op (rt, self) = ((rt', self), inr r)
    ∧ extendsStore (store rt) (store rt')
    ∧ Walk (store rt') op r l.
Proof.
  intros Hwf Hop.
  unfold applyTerminalOps, mbind, PyM_bind, PyM.bind, getSelf, hostCall, txn,
    PyM.gets, PyM.modify, PyM.ret, PyM.raise.
  cbn [fst snd].
  pose proof (terminalOps_extend (store rt) rendererName
                (RenderMethodType_str (_rmt self)) (_gs self) Hwf) as He.
  destruct (terminalOps_chain (store rt) rendererName
              (RenderMethodType_str (_rmt self)) (_gs self) Hwf)
    as (first & l & Hhead & Hfresh & Hlt & Hs & Hnl & Hall).
  set (grt := GetRenderTerminalOps _ _ _ _) in *.
  destruct grt.2 as [|first' tl] eqn:Hops; [done|].
  simpl in Hhead. injection Hhead as ->.
  set (rt1 := {| store := grt.1; committed := committed rt |}).
  destruct (extendsStore_setOpInputs (store rt) rt1 first [op])
    as (He2 & Hn2 & Hi2); [done | done | done |].
  eexists _, _, _. split; [reflexivity|]. split; [done|].
  split.
  - eapply Steps_snoc.
    + eapply Steps_frame; [|exact Hs].
      intros x Hx. rewrite Hi2.
      destruct (decide (first = x)) as [->|]; [done|done].
    + rewrite Hi2. by destruct (decide (first = first)).
  - rewrite Forall_forall in Hall.
    intros Hin. apply elem_of_app in Hin as [Hin|Hin].
    + apply Hall in Hin. lia.
    + apply list_elem_of_singleton in Hin. lia.
Qed.

End ChainFacts2.

Section ChainFacts3.
Import FnAttribute MoonrayRenderManager.
Context `{host : Host} `{hostChains : !HostChains}.
Implicit Types rt : Runtime.

Lemma ChainInv_stack rt ty args chain a :
  wfStore (store rt) → ChainInv (store rt) chain a →
  (createOp rt).2 = nextOp (store rt)
  ∧ extendsStore (store rt)
      (store (setOpInputs (nextOp (store rt)) [a]
                (setOpArgs (nextOp (store rt)) ty args (createOp rt).1)))
  ∧ ChainInv
      (store (setOpInputs (nextOp (store rt)) [a]
                (setOpArgs (nextOp (store rt)) ty args (createOp rt).1)))
      (chain ++ [nextOp (store rt)]) (nextOp (store rt)).
Proof.
  intros Hwf Hc.
  destruct (stack_op rt ty args [a] Hwf) as (Hx & He & Hn & Hin).
  split_and!; [done | done |].
  assert (a < nextOp (store rt)) as Ha.
  { destruct Hc as (Hlast & Hall & _). rewrite Forall_forall in Hall.
    apply Hall. by apply last_Some_elem_of. }
  eapply (ChainInv_extend _ _ _ _ _ [nextOp (store rt)]); [done | done | done |].
  apply (Walk_stack (store rt) _ a a []);
    [done | done | done | apply Walk_nil | done | done | done].
Qed.

Lemma ChainInv_head st chain a x l :
  ChainInv st chain a → head chain = Some x → head (chain ++ l) = Some x.
Proof. intros (Hlast & _) Hh. by destruct chain. Qed.

Lemma buildOpChain_spec w rs rt self :
  wfStore (store rt) → renderSettingsTyped rs →
  ∃ rt' self' chain,
    buildOpChain w (Some rs) (rt, self) = ((rt', self'), inr chain)
    ∧ extendsStore (store rt) (store rt')
    ∧ head chain = Some (nextOp (store rt))
    ∧ linked (store rt') chain
    ∧ Forall (λ op, op < nextOp (store rt')) chain
    ∧ 2 ≤ length chain.
Proof.
  intros Hwf [Hres Hcam].
  unfold buildOpChain, mbind, PyM_bind.
  erewrite bind_returns; [|reflexivity].
  lazymatch goal with
  | |- ∃ _ _ _, PyM.bind ?m _ _ = _ ∧ _ =>
      assert (∃ nr, ∀ s, m s = (s, inr nr)) as [nr Hnr]
  end.
  { destruct (attr_getChildByName rs "resolution") as [a|].
    - destruct (Hres a eq_refl) as [v Hv].
      unfold PyM.bind, PyM.lift. rewrite Hv.
      destruct (getResolution v). by eexists.
    - by eexists. }
  rewrite (bind_returns _ _ _ _ _ (Hnr _)).
  erewrite bind_returns; [|reflexivity].
  erewrite bind_returns; [|reflexivity].
  erewrite bind_returns; [|reflexivity].
  cbn [fst snd].
  destruct (extendsStore_createOp rt Hwf) as (He0 & Hn0 & Hx0 & _).
  rewrite Hx0. set (x0 := nextOp (store rt)) in *.
  match goal with
  | |- context [setOpArgs x0 "AttributeSet" ?args (createOp rt).1] =>
      destruct (extendsStore_setOpArgs (createOp rt).1 x0 "AttributeSet" args)
        as (He1 & Hn1 & _); [apply He0 | lia |];
      set (rt1 := setOpArgs x0 "AttributeSet" args (createOp rt).1) in *
  end.
  assert (extendsStore (store rt) (store rt1)) as Hext1
    by (by eapply extendsStore_trans).
  assert (x0 < nextOp (store rt1)) as Hx1 by lia.
  assert (ChainInv (store rt1) [x0] x0) as Hc1.
  { split_and!; [done | by apply Forall_singleton | done]. }
  clearbody rt1. clear He0 Hn0 Hx0 He1 Hn1.
  (* implicit resolvers *)
  lazymatch goal with
  | |- ∃ _ _ _, PyM.bind ?m _ _ = _ ∧ _ =>
      assert (∃ cn, ∀ s, m s = (s, inr (PyStr cn))) as [cn Hcn]
  end.
  { destruct (attr_getChildByName rs "cameraName") as [a|].
    - destruct (Hcam a eq_refl) as [v Hv].
      unfold PyM.lift. rewrite Hv. by eexists.
    - by eexists. }
  rewrite (bind_returns _ _ _ _ _ (Hcn _)).
  change (List.last [x0] x0) with x0.
  destruct (applyImplicitResolvers_spec w x0 cn rt1 self)
    as (rt2 & self2 & irOp & l2 & Hir & He2 & Hw2);
    [apply Hext1 | done |].
  rewrite (bind_returns _ _ _ _ _ Hir).
  erewrite bind_returns; [|reflexivity]. cbn [fst snd].
  destruct (ChainInv_extend _ _ _ _ _ _ (proj1 Hext1) Hc1 He2 Hw2)
    as (Hg2 & _ & Hc2).
  rewrite Hg2. erewrite bind_returns; [|reflexivity].
  assert (extendsStore (store rt) (store rt2)) as Hext2
    by (by eapply extendsStore_trans).
  pose proof (ChainInv_head _ _ _ x0 (reverse l2) Hc1 eq_refl) as Hh2.
  set (chain2 := [x0] ++ reverse l2) in *.
  clearbody chain2. clear Hir Hg2 Hw2 He2 Hc1 Hext1 Hcn Hx1. clear rt1.
  (* render ops *)
  rewrite (List_last_last _ x0 _ (proj1 Hc2)).
  destruct (applyRenderOps_spec w irOp rt2 self2)
    as (rt3 & renderOp & l3 & Hro & He3 & _ & Hw3); [apply Hext2 | |].
  { destruct Hc2 as (Hlast & Hall & _). rewrite Forall_forall in Hall.
    apply Hall. by apply last_Some_elem_of. }
  rewrite (bind_returns _ _ _ _ _ Hro).
  erewrite bind_returns; [|reflexivity]. cbn [fst snd].
  destruct (ChainInv_extend _ _ _ _ _ _ (proj1 Hext2) Hc2 He3 Hw3)
    as (Hg3 & _ & Hc3).
  rewrite Hg3. erewrite bind_returns; [|reflexivity].
  assert (extendsStore (store rt) (store rt3)) as Hext3
    by (by eapply extendsStore_trans).
  pose proof (ChainInv_head _ _ _ x0 (reverse l3) Hc2 Hh2) as Hh3.
  set (chain3 := chain2 ++ reverse l3) in *.
  clearbody chain3. clear Hro Hg3 Hw3 He3 Hc2 Hext2 Hh2. clear rt2 chain2.
  (* the render id op *)
  rewrite (List_last_last _ x0 _ (proj1 Hc3)).
  destruct (ChainInv_stack rt3 "AttributeSet"
              (AttributeSet_build ["/root"]
                 [("kodachi.renderID", _renderId self)] [])
              chain3 renderOp (proj1 Hext3) Hc3) as (Hx4 & He4 & Hc4).
  erewrite bind_returns; [|reflexivity]. cbn [fst snd]. rewrite Hx4.
  erewrite bind_returns; [|reflexivity].
  erewrite bind_returns; [|reflexivity]. cbn [fst snd].
  assert (extendsStore (store rt) (store (setOpInputs (nextOp (store rt3))
            [renderOp] (setOpArgs (nextOp (store rt3)) "AttributeSet"
              (AttributeSet_build ["/root"]
                 [("kodachi.renderID", _renderId self)] [])
              (createOp rt3).1)))) as Hext4
    by (by eapply extendsStore_trans).
  pose proof (ChainInv_head _ _ _ x0 [nextOp (store rt3)] Hc3 Hh3) as Hh4.
  assert (2 ≤ length (chain3 ++ [nextOp (store rt3)])) as Hlen4.
  { rewrite length_app. destruct chain3; [done|]. simpl. lia. }
  set (rt4 := setOpInputs (nextOp (store rt3)) _ _) in *.
  set (x4 := nextOp (store rt3)) in *.
  set (chain4 := chain3 ++ [x4]) in *.
  clearbody rt4 chain4 x4. clear Hx4 He4 Hc3 Hext3 Hh3. clear rt3 chain3.
  (* the live attribute op *)
  lazymatch goal with
  | |- ∃ _ _ _, PyM.bind ?m _ _ = _ ∧ _ =>
      assert (∃ rt5 self5 chain5 x5,
                m (rt4, self2) = ((rt5, self5), inr chain5)
                ∧ extendsStore (store rt) (store rt5)
                ∧ ChainInv (store rt5) chain5 x5
                ∧ head chain5 = Some x0
                ∧ 2 ≤ length chain5)
        as (rt5 & self5 & chain5 & x5 & Hlive & Hext5 & Hc5 & Hh5 & Hlen5)
  end.
  { destruct (decide (_rmt self = liveRender)).
    - rewrite (List_last_last _ x0 _ (proj1 Hc4)).
      destruct (ChainInv_stack rt4 NO_OP (GroupAttribute []) chain4 x4
                  (proj1 Hext4) Hc4) as (Hx5 & He5 & Hc5).
      erewrite bind_returns; [|reflexivity]. cbn [fst snd]. rewrite Hx5.
      erewrite bind_returns; [|reflexivity].
      erewrite bind_returns; [|reflexivity].
      erewrite bind_returns; [|reflexivity]. cbn [fst snd].
      eexists _, _, _, _. split; [reflexivity|]. split_and!.
      + by eapply extendsStore_trans.
      + exact Hc5.
      + by eapply ChainInv_head.
      + rewrite length_app. lia.
    - by eexists _, _, _, _. }
  rewrite (bind_returns _ _ _ _ _ Hlive).
  clear Hlive Hc4 Hext4 Hh4 Hlen4. clear rt4 chain4 x4.
  (* terminal ops *)
  rewrite (List_last_last _ x0 _ (proj1 Hc5)).
  destruct (applyTerminalOps_spec x5 rt5 self5)
    as (rt6 & terminalOp & l6 & Hto & He6 & Hw6); [apply Hext5 | |].
  { destruct Hc5 as (Hlast & Hall & _). rewrite Forall_forall in Hall.
    apply Hall. by apply last_Some_elem_of. }
  rewrite (bind_returns _ _ _ _ _ Hto).
  erewrite bind_returns; [|reflexivity]. cbn [fst snd].
  destruct (ChainInv_extend _ _ _ _ _ _ (proj1 Hext5) Hc5 He6 Hw6)
    as (Hg6 & _ & Hc6).
  rewrite Hg6. erewrite bind_returns; [|reflexivity].
  eexists _, _, _. split; [reflexivity|]. split_and!.
  - by eapply extendsStore_trans.
  - by eapply ChainInv_head.
  - apply Hc6.
  - apply Hc6.
  - rewrite length_app. lia.
Qed.
End ChainFacts3.

Section OpChainFacts.
Import FnAttribute MoonrayRenderManager.
Context `{host : Host}.

Lemma acyclic_first_input st rank op input inputs :
  map_Forall (λ op d, ∀ input, head (opInputs d) = Some input →
                      rank input < rank op) (ops st) →
  getInputs st op = input :: inputs → rank input < rank op.
Proof.
  intros Hrank Hin. unfold getInputs, opData in Hin.
  destruct (ops st !! op) as [d|] eqn:Hd; [|done].
  apply (Hrank op d Hd). simpl in Hin. by rewrite Hin.
Qed.

(** In an acyclic store every walk ends: at [end_], or at an op without
    inputs. *)
Lemma acyclic_Walk_or_DeadEnd st end_ start :
  acyclic st → (∃ l, Walk st end_ start l) ∨ DeadEnd st end_ start.
Proof.
  intros [rank Hrank].
  remember (rank start) as n eqn:Hn. revert start Hn.
  induction n as [n IH] using lt_wf_ind. intros start ->.
  destruct (decide (start = end_)) as [->|Hne].
  { left. exists []. apply Walk_nil. }
  destruct (getInputs st start) as [|input inputs] eqn:Hin.
  { right. exists [], start.
    split_and!; [constructor | apply not_elem_of_nil | done | done]. }
  pose proof (acyclic_first_input _ _ _ _ _ Hrank Hin) as Hlt.
  destruct (IH _ Hlt input eq_refl) as [[l [Hs He]]|(l & d & Hs & He & Hd & Hdin)].
  - left. exists (start :: l). split; [by econstructor|].
    apply not_elem_of_cons. split; [done | done].
  - right. exists (start :: l), d.
    split_and!; [by econstructor | | done | done].
    apply not_elem_of_cons. split; [done | done].
Qed.

(** C8, amended.  [getOps(start, end)] returns the ops reached by
    following first inputs from [start], up to but excluding [end], in
    reversed order, and raises an exception when the walk comes to an op
    without inputs before [end].  In a store without cycles along first
    inputs these are the only outcomes, so it raises whenever [end] is not
    reached.  Otherwise, when the walk neither reaches [end] nor comes to
    an op without inputs, the loop does not end, however many iterations
    it is given.  With a host whose implicit resolvers and terminal ops
    are chained as the render manager expects, and render settings that
    hold values where values are read, [buildOpChain] returns a list of
    at least two ops of the runtime that starts with the op it creates
    first, the one that sets the resolution, and in which every op after
    the first has the op before it among its inputs. *)
Theorem buildOpChain_getOps_spec :
  (∀ (st : Store) (start end_ : nat),
     (∀ l, Walk st end_ start l → getOps st start end_ = inr (reverse l))
     ∧ (∀ ops, getOps st start end_ = inr ops →
               ∃ l, Walk st end_ start l ∧ ops = reverse l)
     ∧ (DeadEnd st end_ start →
        getOps st start end_ = inl (Py.Exception "op has no inputs"))
     ∧ (acyclic st → (∀ l, ¬ Walk st end_ start l) →
        getOps st start end_ = inl (Py.Exception "op has no inputs"))
     ∧ ((∀ l, ¬ Walk st end_ start l) → ¬ DeadEnd st end_ start →
        ∀ fuel, getOps_loop fuel st start end_ [] = inl Py.Diverges))
  ∧ (HostChains →
     ∀ (w : World) (rs : Attribute) (rt : Runtime) (self : Context),
       wfStore (store rt) → renderSettingsTyped rs →
       ∃ rt' self' chain,
         buildOpChain w (Some rs) (rt, self) = ((rt', self'), inr chain)
         ∧ head chain = Some (nextOp (store rt))
         ∧ 2 ≤ length chain
         ∧ Forall (λ op, op < nextOp (store rt')) chain
         ∧ Linked (store rt') chain).
Proof.
  split.
  - intros st start end_. split_and!.
    + apply getOps_Walk.
    + intros ops Hops.
      pose proof (getOps_loop_inv _ _ _ _ _ _ Hops) as (l & Hw & ->).
      by exists l.
    + apply getOps_DeadEnd.
    + intros Hac Hno.
      destruct (acyclic_Walk_or_DeadEnd st end_ start Hac) as [[l Hw]|Hd].
      * by destruct (Hno l).
      * by apply getOps_DeadEnd.
    + intros Hno Hnd fuel. by apply getOps_loop_never.
  - intros HC w rs rt self Hwf Hrs.
    destruct (buildOpChain_spec w rs rt self Hwf Hrs)
      as (rt' & self' & chain & Heq & _ & Hhead & Hl & Hall & Hlen).
    exists rt', self', chain. split_and!; [done | done | done | done |].
    by apply linked_Linked.
Qed.

End OpChainFacts.

Section DemoFacts.
Import FnAttribute MoonrayRenderManager.
Import DemoHost.

Lemma stack_spec st ty args inputs :
  wfStore st →
  (stack st ty args inputs).2 = nextOp st
  ∧ extendsStore st (stack st ty args inputs).1
  ∧ nextOp (stack st ty args inputs).1 = S (nextOp st)
  ∧ getInputs (stack st ty args inputs).1 (nextOp st) = inputs.
Proof.
  intros Hwf.
  apply (stack_op {| store := st; committed := [] |} ty args inputs Hwf).
Qed.

#[export] Instance demoHost_chains : HostChains (host := demoHost).
Proof.
  split.
  - intros st op node gs Hwf. cbn -[stack]. by apply stack_spec.
  - intros st op node gs Hwf Hop. cbn -[stack].
    destruct (stack_spec st "RenderSettingsLocalize" (GroupAttribute []) [op]
                Hwf) as (Hx & He & Hn & Hin).
    exists [nextOp st]. rewrite Hx.
    apply (Walk_stack st _ op op []);
      [done | done | done | apply Walk_nil | done | done | done].
  - intros st renderer method gs Hwf. cbn -[stack].
    destruct (stack_spec st "MoonrayRenderSettings" (GroupAttribute []) []
                Hwf) as (Hx1 & He1 & Hn1 & Hin1).
    destruct (stack st "MoonrayRenderSettings" (GroupAttribute []) [])
      as [st1 t1]. cbn -[stack] in *.
    destruct (stack_spec st1 "KPOPMeta" (GroupAttribute []) [t1]
                (proj1 He1)) as (Hx2 & He2 & Hn2 & Hin2).
    destruct (stack st1 "KPOPMeta" (GroupAttribute []) [t1]) as [st2 t2].
    cbn -[stack] in *. by eapply extendsStore_trans.
  - intros st renderer method gs Hwf. cbn -[stack].
    destruct (stack_spec st "MoonrayRenderSettings" (GroupAttribute []) []
                Hwf) as (Hx1 & He1 & Hn1 & Hin1).
    destruct (stack st "MoonrayRenderSettings" (GroupAttribute []) [])
      as [st1 t1]. cbn -[stack] in *.
    destruct (stack_spec st1 "KPOPMeta" (GroupAttribute []) [t1]
                (proj1 He1)) as (Hx2 & He2 & Hn2 & Hin2).
    destruct (stack st1 "KPOPMeta" (GroupAttribute []) [t1]) as [st2 t2].
    cbn -[stack] in *. subst t1 t2.
    exists (nextOp st), [nextOp st1].
    split_and!; [done | done | lia | | | ].
    + econstructor; [exact Hin2 | constructor].
    + apply not_elem_of_cons. split; [lia | apply not_elem_of_nil].
    + apply Forall_singleton. lia.
Qed.

Lemma wfStore_empty : wfStore (store emptyRuntime).
Proof. intros op Hop. simpl in Hop. by apply elem_of_dom in Hop as [? ?]. Qed.

(** In the store with the one op that reads itself, the walk from that op
    stays at it. *)
Lemma loopStore_Steps start l op :
  Steps loopStore start l op → start = 0 → op = 0.
Proof.
  induction 1 as [|op input inputs l op' Hin _ IH]; [done|].
  intros ->. apply IH. vm_compute in Hin. by injection Hin as <- _.
Qed.

Lemma loopStore_no_Walk l : ¬ Walk loopStore 1 0 l.
Proof. intros [Hs _]. by apply loopStore_Steps in Hs. Qed.

Lemma loopStore_no_DeadEnd : ¬ DeadEnd loopStore 1 0.
Proof.
  intros (l & op & Hs & _ & _ & Hin).
  apply loopStore_Steps in Hs; [|done]. subst op. by vm_compute in Hin.
Qed.

Lemma buildOpChain_getOps_spec_witness :
  (getOps demoStore 2 0 = inr [1; 2]
   ∧ (∃ l, Walk demoStore 0 2 l ∧ [1; 2] = reverse l)
   ∧ getOps demoStore 2 7 = inl (Py.Exception "op has no inputs")
   ∧ getOps demoStore 1 2 = inl (Py.Exception "op has no inputs")
   ∧ ∀ fuel, getOps_loop fuel loopStore 0 1 [] = inl Py.Diverges)
  ∧ ∃ rt' self' chain,
      buildOpChain demoWorld
        (Some (GroupAttribute [("resolution", StringAttribute "hd")]))
        (emptyRuntime, newContext "main" liveRender 0)
      = ((rt', self'), inr chain)
      ∧ head chain = Some 0
      ∧ 2 ≤ length chain
      ∧ Forall (λ op, op < nextOp (store rt')) chain
      ∧ Linked (store rt') chain.
Proof.
  pose proof (@buildOpChain_getOps_spec demoHost) as [Hget Hbuild].
  assert (Steps demoStore 2 [2; 1] 0) as Hs.
  { econstructor; [reflexivity|]. econstructor; [reflexivity|]. constructor. }
  split; [split_and!|].
  - apply (proj1 (Hget demoStore 2 0) [2; 1]). split; [exact Hs|].
    rewrite !not_elem_of_cons. split_and!; [lia | lia | apply not_elem_of_nil].
  - apply (proj1 (proj2 (Hget demoStore 2 0)) [1; 2]). reflexivity.
  - apply (proj1 (proj2 (proj2 (Hget demoStore 2 7)))).
    exists [2; 1], 0. split_and!; [exact Hs | | lia | reflexivity].
    rewrite !not_elem_of_cons. split_and!; [lia | lia | apply not_elem_of_nil].
  - apply (proj1 (proj2 (proj2 (proj2 (Hget demoStore 1 2))))).
    + exists id. unfold demoStore. simpl.
      repeat apply map_Forall_insert_2; try apply map_Forall_empty;
        simpl; intros input Hin; inversion Hin; simpl; lia.
    + intros l [Hw Hl].
      inversion Hw as [|? ? ? ? ? Hin1 Hw1]; subst.
      vm_compute in Hin1. injection Hin1 as <- <-.
      inversion Hw1 as [|? ? ? ? ? Hin0 Hw0]; subst.
      vm_compute in Hin0. discriminate.
  - apply (proj2 (proj2 (proj2 (proj2 (Hget loopStore 0 1))))).
    + exact loopStore_no_Walk.
    + exact loopStore_no_DeadEnd.
  - apply (Hbuild demoHost_chains).
    + exact wfStore_empty.
    + split; intros a Ha; vm_compute in Ha; simplify_eq; by eexists.
Defined.

(** C8, counterexample.  Two transaction writes make op 0 its own first
    input.  The walk from op 0 never reaches op 1, and [getOps(0, 1)]
    raises no exception: whatever the number of iterations, the loop has
    neither raised nor returned when they are used up. *)
Lemma getOps_cycle_never_raises :
  loopStore = store (setOpInputs 0 [0] (createOp emptyRuntime).1)
  ∧ getInputs loopStore 0 = [0]
  ∧ (∀ l, ¬ Walk loopStore 1 0 l)
  ∧ (∀ fuel, getOps_loop fuel loopStore 0 1 [] = inl Py.Diverges)
  ∧ getOps loopStore 0 1 = inl Py.Diverges.
Proof.
  assert (∀ fuel, getOps_loop fuel loopStore 0 1 [] = inl Py.Diverges) as H.
  { intros fuel. apply getOps_loop_never;
      [exact loopStore_no_Walk | exact loopStore_no_DeadEnd]. }
  split_and!; [done | done | exact loopStore_no_Walk | done |].
  apply H.
Qed.

End DemoFacts.

Section LiveAttrFacts2.
Import FnAttribute MoonrayRenderManager.
Context `{host : Host}.

Lemma setLiveAttr_records (self : Context) (locationPath : string)
    (attrValue : option Attribute) (now : Z) :
  _liveAttrs (setLiveAttr locationPath attrValue now self).1
  = <[locationPath := default (GroupAttribute []) attrValue]> (_liveAttrs self)
  ∧ _lastLiveUpdateTime (setLiveAttr locationPath attrValue now self).1
    = _lastLiveUpdateTime self.
Proof.
  unfold setLiveAttr, mbind, PyM_bind, PyM.bind, PyM.modify, PyM.get,
    PyM.ret, PyM.raise.
  cbn [fst snd _lastLiveUpdateTime set_liveAttrs _liveAttrOtbOp].
  destruct (decide _); [|done].
  by destruct (_liveAttrOtbOp self).
Qed.

Lemma Context_init_time w now contextId index node rmt renderSelected
    isMultiContext rt :
  _lastLiveUpdateTime
    (Context_init w now contextId index node rmt renderSelected
       isMultiContext rt).1.2
  = now.
Proof.
  unfold Context_init.
  match goal with
  | |- _lastLiveUpdateTime (?m ?s).1.2 = _ =>
      assert (preserves timeView m) as Hp
  end.
  { preserves_st. apply preserves_time_syncWithNodegraph. }
  apply Hp.
Qed.

Lemma setLiveAttr_calls_always (calls : list (string * option Attribute * Z))
    (self : Context) (liveAttrOtbOp : OtbOp) :
  _liveAttrOtbOp self = Some liveAttrOtbOp →
  Forall (λ c, (_lastLiveUpdateTime self + liveUpdateDelta ≤ c.2)%Z) calls →
  (setLiveAttr_calls calls self).2 = (λ _, inr true) <$> calls
  ∧ _lastLiveUpdateTime (setLiveAttr_calls calls self).1
    = _lastLiveUpdateTime self.
Proof.
  revert self. induction calls as [|[[lp av] now] calls IH];
    intros self Hlive Hall; [done|].
  apply Forall_cons in Hall as [Hnow Hall]. simpl in Hnow.
  destruct (setLiveAttr_step self lp av now liveAttrOtbOp Hlive)
    as (self' & Heq & _ & Htime & Hlive' & _).
  simpl. rewrite Heq.
  rewrite <-Htime in Hall. destruct (IH self' Hlive' Hall) as [Hrs Ht].
  destruct (setLiveAttr_calls calls self') as [self'' rs]. simpl in *.
  split; [|congruence].
  rewrite Hrs. by rewrite bool_decide_true.
Qed.

(** C9.  [setLiveAttr] always records the attribute for the location and
    leaves [_lastLiveUpdateTime] as it is.  In a live render, where the
    live-attribute op of the op-tree builder exists, it returns [True] and
    sets the accumulated live attributes on that op exactly when [now] is
    at least 100 ms past [_lastLiveUpdateTime], and otherwise returns
    [False] and leaves the builder alone.  [_lastLiveUpdateTime] is the
    time at which the context was constructed.  So every call made 100 ms
    or more after that time pushes an update. *)
Theorem setLiveAttr_throttle_spec :
  (∀ (self : Context) locationPath attrValue now,
     _liveAttrs (setLiveAttr locationPath attrValue now self).1
     = <[locationPath := default (GroupAttribute []) attrValue]>
         (_liveAttrs self)
     ∧ _lastLiveUpdateTime (setLiveAttr locationPath attrValue now self).1
       = _lastLiveUpdateTime self)
  ∧ (∀ (self : Context) locationPath attrValue now liveAttrOtbOp,
       _liveAttrOtbOp self = Some liveAttrOtbOp →
       let pushed :=
         bool_decide (_lastLiveUpdateTime self + 100000 ≤ now)%Z in
       let self' := (setLiveAttr locationPath attrValue now self).1 in
       (setLiveAttr locationPath attrValue now self).2 = inr pushed
       ∧ _liveAttrOtbOp self' = Some liveAttrOtbOp
       ∧ _opTreeBuilder self'
         = if pushed then
             otb_setOpArgs liveAttrOtbOp "MoonrayLiveAttribute"
               (GroupAttribute
                  [("liveAttrs",
                    GroupAttribute
                      (foldl (λ gb lv, set gb lv.1 lv.2) GroupBuilder_new
                         (map_to_list (_liveAttrs self'))))])
               (_opTreeBuilder self)
           else _opTreeBuilder self)
  ∧ (∀ w now contextId index node rmt renderSelected isMultiContext rt,
       _lastLiveUpdateTime
         (Context_init w now contextId index node rmt renderSelected
            isMultiContext rt).1.2
       = now)
  ∧ (∀ calls (self : Context) liveAttrOtbOp,
       _liveAttrOtbOp self = Some liveAttrOtbOp →
       Forall (λ c, (_lastLiveUpdateTime self + 100000 ≤ c.2)%Z) calls →
       (setLiveAttr_calls calls self).2 = (λ _, inr true) <$> calls
       ∧ _lastLiveUpdateTime (setLiveAttr_calls calls self).1
         = _lastLiveUpdateTime self).
Proof.
  split_and!.
  - apply setLiveAttr_records.
  - intros self lp av now otbOp Hlive pushed self'. subst pushed self'.
    destruct (setLiveAttr_step self lp av now otbOp Hlive)
      as (self' & Heq & _ & _ & Hlive' & Hotb).
    rewrite Heq. by split_and!.
  - apply Context_init_time.
  - apply setLiveAttr_calls_always.
Qed.

End LiveAttrFacts2.

Section DemoFacts9.
Import FnAttribute MoonrayRenderManager.
Import DemoHost.

Lemma setLiveAttr_throttle_spec_witness :
  let self := set_liveAttrOtbOp (Some 4) (newContext "main" liveRender 0) in
  let calls := [("/root/world/lgt/key", Some (IntAttribute 1), 100000%Z);
                ("/root/world/lgt/key", Some (IntAttribute 2), 100001%Z);
                ("/root/world/lgt/rim", None, 250000%Z)] in
  (setLiveAttr "/root/world/lgt/key" None 99999 self).2 = inr false
  ∧ (setLiveAttr_calls calls self).2 = [inr true; inr true; inr true]
  ∧ _lastLiveUpdateTime (setLiveAttr_calls calls self).1 = 0%Z.
Proof.
  intros self calls.
  pose proof (@setLiveAttr_throttle_spec demoHost) as (_ & Hstep & _ & Hcalls).
  split.
  - apply (Hstep self "/root/world/lgt/key" None 99999%Z 4). reflexivity.
  - apply (Hcalls calls self 4); [reflexivity|].
    repeat constructor; simpl; lia.
Defined.

End DemoFacts9.

(** ** Sending a live attribute *)

Section SendLiveAttrFacts.
Import FnAttribute MoonrayRenderManager.
Context `{host : Host}.

Lemma buildOpTreeDelta_run (self : Context) :
  ∃ self',
    buildOpTreeDelta self = (self', inr (deltaOf self))
    ∧ _liveAttrs self' = _liveAttrs self
    ∧ _lastLiveUpdateTime self' = _lastLiveUpdateTime self.
Proof.
  unfold buildOpTreeDelta, deltaOf, PyM.bind, PyM.get, PyM.modify, PyM.ret.
  destruct (otb_buildDelta (_opTreeBuilder self)) as [otb delta].
  eexists. split; [reflexivity|]. done.
Qed.

(** X17.  [sendLiveAttribute] in a live render, where the active context and its
    live-attribute op exist and the context id holds no dot: the call
    returns, records the attribute in the active context, leaves the
    runtime and every other context alone, and emits exactly one message
    when [now] is 100 ms or more past [_lastLiveUpdateTime] and none
    otherwise.  The message is the group with [type] 'OPTREE_DELTA' and,
    under [optrees], the delta of the active context, built after the
    live attributes were set on its op.  Without an active context the
    call raises [KeyError] and changes nothing. *)
Theorem sendLiveAttribute_emits (rt : Runtime) (sender : OpTreeSender)
    (locationPath attrPath : string) (attrValue : option Attribute)
    (now : Z) :
  match _contexts sender !! _activeContextId sender with
  | None =>
      sendLiveAttribute locationPath attrPath attrValue now (rt, sender)
      = ((rt, sender), inl Py.KeyError)
  | Some context =>
      is_Some (_liveAttrOtbOp context) →
      dotfree (_activeContextId sender) →
      let pushed :=
        bool_decide (_lastLiveUpdateTime context + 100000 ≤ now)%Z in
      let context1 := (setLiveAttr locationPath attrValue now context).1 in
      ∃ sender' context',
        sendLiveAttribute locationPath attrPath attrValue now (rt, sender)
        = ((rt, sender'), inr tt)
        ∧ _contexts sender'
          = <[_activeContextId sender := context']> (_contexts sender)
        ∧ _activeContextId sender' = _activeContextId sender
        ∧ _liveAttrs context'
          = <[locationPath := default (GroupAttribute []) attrValue]>
              (_liveAttrs context)
        ∧ _lastLiveUpdateTime context' = _lastLiveUpdateTime context
        ∧ process_emitted sender'
          = process_emitted sender
            ++ if pushed then
                 [GroupAttribute
                    [("type", StringAttribute "OPTREE_DELTA");
                     ("optrees",
                      GroupAttribute
                        [(_activeContextId sender, deltaOf context1)])]]
               else []
  end.
Proof.
  destruct (_contexts sender !! _activeContextId sender) as [context|]
    eqn:Hctx.
  - intros [otbOp Hlive] Hdot pushed context1. subst pushed context1.
    destruct (setLiveAttr_step context locationPath attrValue now otbOp
                Hlive) as (context1 & E1 & Hattrs & Htime & Hlive1 & _).
    rewrite E1. cbn [fst].
    unfold sendLiveAttribute, PyM.bind at 1, PyM.gets at 1. cbn [snd].
    unfold PyM.bind at 1, onContext at 1, onSelf at 1. cbn [fst snd].
    rewrite Hctx, E1.
    destruct (bool_decide (_lastLiveUpdateTime context + 100000 ≤ now)%Z).
    + destruct (buildOpTreeDelta_run context1) as (context2 & E2 & Ha2 & Ht2).
      unfold PyM.bind, onContext, onSelf, PyM.modify. cbn [fst snd].
      cbn [_contexts set_contexts]. rewrite lookup_insert_eq, E2.
      cbn [fst snd]. rewrite insert_insert_eq.
      eexists _, context2. split; [reflexivity|].
      cbn. rewrite first_set_optrees by done.
      split_and!; try done; congruence.
    + eexists _, context1. split; [reflexivity|].
      cbn. rewrite app_nil_r. done.
  - unfold sendLiveAttribute, PyM.bind, PyM.gets, onContext. cbn [snd].
    by rewrite Hctx.
Qed.

End SendLiveAttrFacts.

Section DemoSendFacts.
Import FnAttribute MoonrayRenderManager.
Import DemoHost.

(** A live render with one context whose live-attribute op is op 4: the
    first call comes too early, the second one is sent. *)
Lemma sendLiveAttribute_emits_witness :
  let context := set_liveAttrOtbOp (Some 4) (newContext "main" liveRender 0) in
  let sender := {| _renderMethodType := liveRender;
                   _contexts := {["main" := context]};
                   _activeContextId := "main";
                   _currentGraphStateHash := "";
                   process_emitted := [] |} in
  (∃ sender',
     sendLiveAttribute "/root/world/lgt/key" "xform"
       (Some (IntAttribute 1)) 99999 (emptyRuntime, sender)
     = ((emptyRuntime, sender'), inr tt)
     ∧ process_emitted sender' = [])
  ∧ (∃ sender',
       sendLiveAttribute "/root/world/lgt/key" "xform"
         (Some (IntAttribute 1)) 100000 (emptyRuntime, sender)
       = ((emptyRuntime, sender'), inr tt)
       ∧ length (process_emitted sender') = 1).
Proof.
  intros context sender.
  assert (is_Some (_liveAttrOtbOp context)) as Hlive by (by exists 4).
  assert (dotfree (_activeContextId sender)) as Hdot by reflexivity.
  split.
  - pose proof (sendLiveAttribute_emits emptyRuntime sender
                  "/root/world/lgt/key" "xform" (Some (IntAttribute 1))
                  99999%Z) as H.
    change (_contexts sender !! _activeContextId sender)
      with (({["main" := context]} : gmap string Context) !! "main") in H.
    rewrite lookup_singleton_eq in H.
    destruct (H Hlive Hdot) as (sender' & _ & E & _ & _ & _ & _ & Hem).
    exists sender'. split; [exact E | exact Hem].
  - pose proof (sendLiveAttribute_emits emptyRuntime sender
                  "/root/world/lgt/key" "xform" (Some (IntAttribute 1))
                  100000%Z) as H.
    change (_contexts sender !! _activeContextId sender)
      with (({["main" := context]} : gmap string Context) !! "main") in H.
    rewrite lookup_singleton_eq in H.
    destruct (H Hlive Hdot) as (sender' & _ & E & _ & _ & _ & _ & Hem).
    exists sender'. split; [exact E|]. by rewrite Hem.
Defined.

End DemoSendFacts.
